(** * tqbf/chess: the board, the move generator, the notation codec and the
    game session of the Slack chess bot, embedded from [chess.go] and
    [bot/bot.go], with the properties of the specification. *)

From Stdlib Require Import ZArith List Bool Ascii String Lia DecimalString.
Import ListNotations.
Open Scope Z_scope.

Set Implicit Arguments.

(** ** Go values: bytes, strings, runes, panics *)

Module Go.

(** A Go [string] is a sequence of bytes. *)
Definition gostring := list ascii.

(** A string literal. *)
Definition str (s : string) : gostring := list_ascii_of_string s.

(** The numeric value of a byte, and the conversion [byte(z)] of an
    integer, which keeps the low eight bits. *)
Definition code (c : ascii) : Z := Z.of_N (N_of_ascii c).
Definition byte (z : Z) : ascii := ascii_of_N (Z.to_N (z mod 256)).

(** [a + b] and [a - b] on [uint8]. *)
Definition add8 (a b : Z) : Z := (a + b) mod 256.
Definition sub8 (a b : Z) : Z := (a - b) mod 256.

Definition len (s : gostring) : Z := Z.of_nat (List.length s).

(** A call returns its results or panics. *)
Inductive exec (A : Type) : Type :=
| Ret (a : A)
| Panic.
Arguments Panic {A}.

Definition bind {A B} (m : exec A) (k : A -> exec B) : exec B :=
  match m with
  | Ret a => k a
  | Panic => Panic
  end.

(** [s[i]]: index out of range panics. *)
Definition at_ (s : gostring) (i : Z) : exec ascii :=
  if (0 <=? i) && (i <? len s)
  then match nth_error s (Z.to_nat i) with
       | Some c => Ret c
       | None => Panic
       end
  else Panic.

Definition eqs (a b : gostring) : bool :=
  if list_eq_dec ascii_dec a b then true else false.

(** [strings.ToUpper] and [strings.ToLower], byte by byte: the letters
    a-z and A-Z change case, which is what Go does on an ASCII string.
    Bytes from 0x80 on are kept as they are, where Go maps the runes they
    encode; no rune outside ASCII maps to a letter A-H or a-h, to a digit
    or to a letter of the notation, so the byte tests of [Position] and
    [Move] and the matches of the regular expressions come out the same
    on every string; only bytes from 0x80 on of a result can differ. *)
Definition upper (c : ascii) : ascii :=
  if (code "a" <=? code c) && (code c <=? code "z")
  then byte (code c - 32) else c.
Definition lower (c : ascii) : ascii :=
  if (code "A" <=? code c) && (code c <=? code "Z")
  then byte (code c + 32) else c.
Definition ToUpper (s : gostring) : gostring := map upper s.
Definition ToLower (s : gostring) : gostring := map lower s.

(** *** UTF-8, as [unicode/utf8] decodes and encodes it *)

Definition rune := Z.
Definition RuneError : rune := 65533.
Definition MaxRune : rune := 1114111.

Definition locb : Z := 128.
Definition hicb : Z := 191.

(** [utf8.DecodeRuneInString]: the rune at the head of [s] and its width
    in bytes; an invalid or short encoding is [RuneError] of width 1. *)
Definition DecodeRune (s : gostring) : rune * nat :=
  match s with
  | [] => (RuneError, 0%nat)
  | c0 :: t0 =>
    let s0 := code c0 in
    if s0 <? 128 then (s0, 1%nat)
    else if (s0 <? 194) || (244 <? s0) then (RuneError, 1%nat)
    else
      let lo := if s0 =? 224 then 160 else if s0 =? 240 then 144 else locb in
      let hi := if s0 =? 237 then 159 else if s0 =? 244 then 143 else hicb in
      match t0 with
      | [] => (RuneError, 1%nat)
      | c1 :: t1 =>
        let s1 := code c1 in
        if (s1 <? lo) || (hi <? s1) then (RuneError, 1%nat)
        else if s0 <? 224
        then (Z.lor (Z.shiftl (Z.land s0 31) 6) (Z.land s1 63), 2%nat)
        else
          match t1 with
          | [] => (RuneError, 1%nat)
          | c2 :: t2 =>
            let s2 := code c2 in
            if (s2 <? locb) || (hicb <? s2) then (RuneError, 1%nat)
            else if s0 <? 240
            then (Z.lor (Z.lor (Z.shiftl (Z.land s0 15) 12)
                               (Z.shiftl (Z.land s1 63) 6))
                        (Z.land s2 63), 3%nat)
            else
              match t2 with
              | [] => (RuneError, 1%nat)
              | c3 :: _ =>
                let s3 := code c3 in
                if (s3 <? locb) || (hicb <? s3) then (RuneError, 1%nat)
                else (Z.lor (Z.lor (Z.lor (Z.shiftl (Z.land s0 7) 18)
                                          (Z.shiftl (Z.land s1 63) 12))
                                   (Z.shiftl (Z.land s2 63) 6))
                            (Z.land s3 63), 4%nat)
              end
          end
      end
  end.

(** [for i, r := range s]: the byte offset and the rune of every
    character of [s]. [skip] counts the bytes of the current character
    that are still to be passed over. *)
Fixpoint range_from (skip : nat) (i : Z) (s : gostring) : list (Z * rune) :=
  match s with
  | [] => []
  | _ :: t =>
    match skip with
    | S k => range_from k (i + 1) t
    | O => let (r, w) := DecodeRune s in
           (i, r) :: range_from (Nat.pred w) (i + 1) t
    end
  end.

Definition range (s : gostring) : list (Z * rune) := range_from 0 0 s.

(** [[]rune(s)]. *)
Definition runes (s : gostring) : list rune := map snd (range s).

(** [utf8.EncodeRune]: a surrogate or a value out of range is encoded as
    [RuneError]. *)
Definition EncodeRune (r : rune) : gostring :=
  if (0 <=? r) && (r <=? 127) then [byte r]
  else if (0 <=? r) && (r <=? 2047)
  then [byte (Z.lor 192 (Z.shiftr r 6)); byte (Z.lor 128 (Z.land r 63))]
  else if (r <? 0) || (MaxRune <? r) || ((55296 <=? r) && (r <=? 57343))
  then [byte 239; byte 191; byte 189]
  else if r <=? 65535
  then [byte (Z.lor 224 (Z.shiftr r 12));
        byte (Z.lor 128 (Z.land (Z.shiftr r 6) 63));
        byte (Z.lor 128 (Z.land r 63))]
  else [byte (Z.lor 240 (Z.shiftr r 18));
        byte (Z.lor 128 (Z.land (Z.shiftr r 12) 63));
        byte (Z.lor 128 (Z.land (Z.shiftr r 6) 63));
        byte (Z.lor 128 (Z.land r 63))].

(** [string(rs)] for a slice of runes. *)
Definition of_runes (rs : list rune) : gostring := flat_map EncodeRune rs.

(** [out[i] = r] on a slice: index out of range panics. *)
Definition set_at {A} (l : list A) (i : Z) (x : A) : exec (list A) :=
  if (0 <=? i) && (i <? Z.of_nat (List.length l))
  then Ret (firstn (Z.to_nat i) l ++ x :: skipn (S (Z.to_nat i)) l)
  else Panic.

(** The verb [%d] of [fmt.Sprintf] on an [int]. *)
Definition itoa (z : Z) : gostring :=
  list_ascii_of_string (NilEmpty.string_of_int (Z.to_int z)).

End Go.

Import Go.

Notation "x <- m ;; k" := (bind m (fun x => k))
  (at level 61, m at next level, right associativity).

(** ** Package [chess] *)

Module Chess.

(** The failures of the package, by the message of the error. *)
Inductive error : Type :=
| BadColumn          (* "bad column '%s'" *)
| BadRow             (* "bad row '%s'" *)
| NoPieceAtSource    (* "no piece at %s" *)
| InvalidNotation    (* "invalid notation: %s" *)
| AmbiguousMove      (* "ambiguous move" *)
| NoMatchingMove     (* "no matching move" *)
| NoDisambiguation.  (* "can't find a valid move described by %s->%s" *)

(** The two coordinate failures together. *)
Definition InvalidCoordinate (e : error) : Prop := e = BadColumn \/ e = BadRow.

(** A Board is a 64-character string representing a chessboard, index 0
    is A8, 1 is B8. *)
Definition Board := gostring.

Definition StartingBoard : Board := str "
RNBQKBNR
PPPPPPPP
________
________
________
________
pppppppp
rnbqkbnr
".

(** [unicode.IsSpace]. *)
Definition IsSpace (r : rune) : bool :=
  ((9 <=? r) && (r <=? 13)) || (r =? 32) || (r =? 133) || (r =? 160)
  || (r =? 5760) || ((8192 <=? r) && (r <=? 8202)) || (r =? 8232)
  || (r =? 8233) || (r =? 8239) || (r =? 8287) || (r =? 12288).

(** [strings.Map] with a mapping that drops white space. *)
Definition Normalize (self : Board) : Board :=
  of_runes (filter (fun r => negb (IsSpace r)) (runes self)).

Definition Position (board : Board) (pos : gostring) : exec (Z * option error) :=
  let pos := ToUpper pos in
  p0 <- at_ pos 0 ;;
  if (code p0 <? code "A") || (code "H" <? code p0)
  then Ret (-1, Some BadColumn)
  else
    p1 <- at_ pos 1 ;;
    if (code p1 <? code "1") || (code "8" <? code p1)
    then Ret (-1, Some BadRow)
    else
      let r := sub8 (code p1) 48 in
      let p := (8 - r) * 8 in
      let p := p + sub8 (code p0) (code "A") in
      Ret (p, None).

Definition PieceAt (board : Board) (pos : gostring) : exec (gostring * option error) :=
  pe <- Position board pos ;;
  match pe with
  | (p, None) => c <- at_ board p ;; Ret (EncodeRune (code c), None)
  | (_, Some err) => Ret ([], Some err)
  end.

Definition Replace (board : Board) (r : rune) (i : Z) : exec Board :=
  out <- set_at (runes board) i r ;;
  Ret (of_runes out).

Record coord : Type := mkcoord { row : Z; col : Z }.

(** Go's [/] and [%] on [int] truncate toward zero. *)
Definition coordsFromIndex (pos : Z) : Z * Z :=
  (8 - Z.quot pos 8, Z.rem pos 8).

Definition indexFromCoords (row col : Z) : Z :=
  ((8 - row) * 8) + col.

(** *** The move generator *)

Section Closures.

Variable board : Board.
Variable piece : ascii.

Definition empty (r c : Z) : exec bool :=
  o <- at_ board (indexFromCoords r c) ;;
  Ret (Ascii.eqb o "_").

Definition opponentAt (r c : Z) : exec bool :=
  o <- at_ board (indexFromCoords r c) ;;
  e <- empty r c ;;
  if e then Ret false
  else if code piece <? code "Z"
       then Ret (code "a" <=? code o)
       else Ret (code o <? code "Z").

(** A statement of [validMoves] takes the slice [valid] to its next
    value. *)
Definition stmt := list coord -> exec (list coord).

Definition yep (r c : Z) : stmt :=
  fun valid => Ret (valid ++ [mkcoord r c]).

Definition cruise (r c : Z) (valid : list coord) : exec (bool * list coord) :=
  e <- empty r c ;;
  if e then v <- yep r c valid ;; Ret (true, v)
  else
    o <- opponentAt r c ;;
    v <- (if o then yep r c valid else Ret valid) ;;
    Ret (false, v).

(** [if cond { body }]. *)
Definition when (cond : exec bool) (body : stmt) : stmt :=
  fun valid => b <- cond ;; if b then body valid else Ret valid.

(** [a && b] and [a || b] evaluate [b] only when [a] does not decide. *)
Definition and_ (a : bool) (b : exec bool) : exec bool :=
  if a then b else Ret false.
Definition or_ (a b : exec bool) : exec bool :=
  x <- a ;; if x then Ret true else b.

Fixpoint block (ss : list stmt) : stmt :=
  match ss with
  | [] => fun valid => Ret valid
  | s :: rest => fun valid => v <- s valid ;; block rest v
  end.

(** [for r, c := r0, c0; cond(r, c) && cruise(r, c); r, c = r+dr, c+dc {}].
    [fuel] bounds the number of passes; [ray_fuel_enough] below shows
    that the bounds used by [validMoves] are never reached while the
    condition still holds. *)
Fixpoint ray (fuel : nat) (cond : Z -> Z -> bool) (dr dc r c : Z) : stmt :=
  fun valid =>
    match fuel with
    | O => Ret valid
    | S f =>
      if cond r c
      then
        gv <- cruise r c valid ;;
        let (go, v) := gv : bool * list coord in
        if go then ray f cond dr dc (r + dr) (c + dc) v else Ret v
      else Ret valid
    end.

(** The eight jumps of knight and king share one shape. *)
Definition jump (inside : bool) (r c : Z) : stmt :=
  when (and_ inside (or_ (empty r c) (opponentAt r c))) (yep r c).

Definition at_is (r c : Z) (p : ascii) : exec bool :=
  o <- at_ board (indexFromCoords r c) ;; Ret (Ascii.eqb o p).

Definition rookRays (or oc : Z) : list stmt :=
  [ ray (Z.to_nat (8 - or)) (fun i _ => i <=? 8) 1 0 (or + 1) oc;
    ray (Z.to_nat (or - 1)) (fun i _ => 1 <=? i) (-1) 0 (or - 1) oc;
    ray (Z.to_nat (7 - oc)) (fun _ i => i <=? 7) 0 1 or (oc + 1);
    ray (Z.to_nat oc) (fun _ i => 0 <=? i) 0 (-1) or (oc - 1) ].

Definition bishopRays (or oc : Z) : list stmt :=
  [ ray (Z.to_nat (8 - or)) (fun tr tc => (tr <=? 8) && (tc <=? 7)) 1 1 (or + 1) (oc + 1);
    ray (Z.to_nat (8 - or)) (fun tr tc => (tr <=? 8) && (0 <=? tc)) 1 (-1) (or + 1) (oc - 1);
    ray (Z.to_nat (or - 1)) (fun tr tc => (1 <=? tr) && (tc <=? 7)) (-1) 1 (or - 1) (oc + 1);
    ray (Z.to_nat (or - 1)) (fun tr tc => (1 <=? tr) && (0 <=? tc)) (-1) (-1) (or - 1) (oc - 1) ].

Definition oneOf (p : string) : bool :=
  existsb (Ascii.eqb piece) (list_ascii_of_string p).

(** The [switch piece] of [validMoves]. *)
Definition moves (or oc : Z) : stmt :=
  if oneOf "P" then
    when (Ret (negb (or =? 1))) (block
      [ when (empty (or - 1) oc) (yep (or - 1) oc);
        when (and_ (negb (oc =? 0)) (opponentAt (or - 1) (oc - 1))) (yep (or - 1) (oc - 1));
        when (and_ (negb (oc =? 7)) (opponentAt (or - 1) (oc + 1))) (yep (or - 1) (oc + 1));
        when (and_ (or =? 7) (empty (or - 2) oc)) (yep (or - 2) oc);
        when (and_ (or =? 4) (and_ (negb (oc =? 0)) (at_is or (oc - 1) "p")))
             (yep (or - 1) (oc - 1));
        when (and_ (or =? 4) (and_ (negb (oc =? 7)) (at_is or (oc + 1) "p")))
             (yep (or - 1) (oc + 1)) ])
  else if oneOf "p" then
    when (Ret (negb (or =? 8))) (block
      [ when (empty (or + 1) oc) (yep (or + 1) oc);
        when (and_ (negb (oc =? 0)) (opponentAt (or + 1) (oc - 1))) (yep (or + 1) (oc - 1));
        when (and_ (negb (oc =? 7)) (opponentAt (or + 1) (oc + 1))) (yep (or + 1) (oc + 1));
        when (and_ (or =? 2) (empty (or + 2) oc)) (yep (or + 2) oc);
        when (and_ (or =? 5) (and_ (negb (oc =? 0)) (at_is or (oc - 1) "P")))
             (yep (or + 1) (oc - 1));
        when (and_ (or =? 5) (and_ (negb (oc =? 7)) (at_is or (oc + 1) "P")))
             (yep (or + 1) (oc + 1)) ])
  else if oneOf "Rr" then block (rookRays or oc)
  else if oneOf "Bb" then block (bishopRays or oc)
  else if oneOf "Nn" then
    let tr := or in let tc := oc in
    block
      [ jump ((tr + 2 <=? 8) && (tc + 1 <=? 7)) (tr + 2) (tc + 1);
        jump ((tr + 2 <=? 8) && (0 <=? tc - 1)) (tr + 2) (tc - 1);
        jump ((1 <=? tr - 2) && (tc + 1 <=? 7)) (tr - 2) (tc + 1);
        jump ((1 <=? tr - 2) && (0 <=? tc - 1)) (tr - 2) (tc - 1);
        jump ((tr + 1 <=? 8) && (tc + 2 <=? 7)) (tr + 1) (tc + 2);
        jump ((tr + 1 <=? 8) && (0 <=? tc - 2)) (tr + 1) (tc - 2);
        jump ((1 <=? tr - 1) && (tc + 2 <=? 7)) (tr - 1) (tc + 2);
        jump ((1 <=? tr - 1) && (0 <=? tc - 2)) (tr - 1) (tc - 2) ]
  else if oneOf "Kk" then
    let tr := or in let tc := oc in
    block
      [ jump ((1 <=? tr - 1) && (0 <=? tc - 1)) (tr - 1) (tc - 1);
        jump ((1 <=? tr - 1) && (0 <=? tc - 0)) (tr - 1) (tc - 0);
        jump ((1 <=? tr - 0) && (0 <=? tc - 1)) (tr - 0) (tc - 1);
        jump ((tr + 1 <=? 8) && (tc + 1 <=? 7)) (tr + 1) (tc + 1);
        jump ((tr + 1 <=? 8) && (tc + 0 <=? 7)) (tr + 1) (tc + 0);
        jump ((tr + 0 <=? 8) && (tc + 1 <=? 7)) (tr + 0) (tc + 1);
        jump ((tr + 1 <=? 8) && (0 <=? tc - 1)) (tr + 1) (tc - 1);
        jump ((1 <=? tr - 1) && (tc + 1 <=? 7)) (tr - 1) (tc + 1) ]
  else if oneOf "Qq" then block (rookRays or oc ++ bishopRays or oc)
  else fun valid => Ret valid.

End Closures.

Definition validMoves (board : Board) (pos : Z) : exec (list coord) :=
  let (or, oc) := coordsFromIndex pos in
  piece <- at_ board pos ;;
  moves board piece or oc [].

Definition All (board : Board) (piece : rune) : list Z :=
  map fst (filter (fun ip => snd ip =? piece) (range board)).

(** *** The notation codec *)

(** The groups of a match of [AlgebraicRx]; a group that took no part in
    the match is the empty string. *)
Record submatch : Type := mksub {
  m0 : gostring; m1 : gostring; m2 : gostring;
  m3 : gostring; m4 : gostring; m5 : gostring }.

Definition inClass (lo hi : string) (c : ascii) : bool :=
  match list_ascii_of_string lo, list_ascii_of_string hi with
  | [l], [h] => (code l <=? code c) && (code c <=? code h)
  | _, _ => false
  end.

Definition isPieceLetter (c : ascii) : bool :=
  existsb (Ascii.eqb c) (list_ascii_of_string "PBNRQK").

(** [a] if it matches, else [b]: the order in which the matcher of Go's
    [regexp] prefers the alternatives (a greedy [?] first tries to take its
    operand). *)
Definition orElse {A} (a b : option A) : option A :=
  match a with
  | Some x => Some x
  | None => b
  end.

(** [([a-h][1-8])] at the head of [s]. *)
Definition rxDst (s : gostring) : option gostring :=
  match s with
  | f :: r :: _ => if inClass "a" "h" f && inClass "1" "8" r then Some [f; r] else None
  | _ => None
  end.

(** [(x)?([a-h][1-8])]: the capture marker and the destination. *)
Definition rxCapture (s : gostring) : option (gostring * gostring) :=
  orElse
    (match s with
     | c :: t => if Ascii.eqb c "x" then option_map (pair [c]) (rxDst t) else None
     | [] => None
     end)
    (option_map (pair []) (rxDst s)).

(** [([1-8])?(x)?([a-h][1-8])]. *)
Definition rxRow (s : gostring) : option (gostring * (gostring * gostring)) :=
  orElse
    (match s with
     | c :: t => if inClass "1" "8" c then option_map (pair [c]) (rxCapture t) else None
     | [] => None
     end)
    (option_map (pair []) (rxCapture s)).

(** [([a-h])?([1-8])?(x)?([a-h][1-8])]. *)
Definition rxCol (s : gostring) : option (gostring * (gostring * (gostring * gostring))) :=
  orElse
    (match s with
     | c :: t => if inClass "a" "h" c then option_map (pair [c]) (rxRow t) else None
     | [] => None
     end)
    (option_map (pair []) (rxRow s)).

(** The whole expression at the head of [s]. *)
Definition rxHere (s : gostring) : option submatch :=
  match s with
  | p :: t =>
    if isPieceLetter p
    then match rxCol t with
         | Some (g2, (g3, (g4, g5))) =>
           Some (mksub (p :: g2 ++ g3 ++ g4 ++ g5) [p] g2 g3 g4 g5)
         | None => None
         end
    else None
  | [] => None
  end.

(** [AlgebraicRx.FindStringSubmatch]: the leftmost match, for
    [regexp.MustCompile("([PBNRQK])([a-h])?([1-8])?(x)?([a-h][1-8])")]. *)
Fixpoint FindStringSubmatch (s : gostring) : option submatch :=
  orElse (rxHere s)
         (match s with
          | _ :: t => FindStringSubmatch t
          | [] => None
          end).

Definition MatchString (s : gostring) : bool :=
  match FindStringSubmatch s with
  | Some _ => true
  | None => false
  end.

(** The inner loop of [Algebraic] over the moves of the candidate [p]:
    [None] is the return with "ambiguous move", [Some src] the value of
    [src] after the loop. *)
Fixpoint scanMoves (p drow dcol : Z) (mvs : list coord) (src : gostring) : option gostring :=
  match mvs with
  | [] => Some src
  | mv :: rest =>
    if (row mv =? drow) && (col mv =? dcol)
    then
      if negb (eqs src [])
      then None
      else
        let (srow, scol) := coordsFromIndex p in
        scanMoves p drow dcol rest (EncodeRune (code "A" + scol) ++ itoa srow)
    else scanMoves p drow dcol rest src
  end.

(** The outer loop over the candidates. *)
Fixpoint scanCands (board : Board) (drow dcol : Z) (cands : list Z) (src : gostring)
  : exec (option gostring) :=
  match cands with
  | [] => Ret (Some src)
  | p :: rest =>
    mvs <- validMoves board p ;;
    match scanMoves p drow dcol mvs src with
    | None => Ret None
    | Some src' => scanCands board drow dcol rest src'
    end
  end.

(** The filter of [Algebraic] on the source column and row. *)
Definition keepCand (srccol srcrow : gostring) (p : Z) : exec bool :=
  let (r, c) := coordsFromIndex p in
  okc <- (if negb (eqs srccol [])
          then c0 <- at_ srccol 0 ;; Ret (sub8 (code c0) (code "a") =? c)
          else Ret true) ;;
  if negb okc then Ret false
  else
    if negb (eqs srcrow [])
    then r0 <- at_ srcrow 0 ;; Ret (sub8 (code r0) (code "0") =? r)
    else Ret true.

Fixpoint candidates (srccol srcrow : gostring) (ps : list Z) : exec (list Z) :=
  match ps with
  | [] => Ret []
  | p :: rest =>
    k <- keepCand srccol srcrow p ;;
    cs <- candidates srccol srcrow rest ;;
    Ret (if k then p :: cs else cs)
  end.

Definition Algebraic (board : Board) (move : gostring) (isWhite : bool)
  : exec (gostring * gostring * option error) :=
  if eqs move (str "O-O")
  then if isWhite then Ret (str "E1", str "G1", None) else Ret (str "E8", str "G8", None)
  else if eqs move (str "O-O-O")
  then if isWhite then Ret (str "E1", str "C1", None) else Ret (str "E8", str "C8", None)
  else
    match FindStringSubmatch move with
    | None => Ret ([], [], Some InvalidNotation)
    | Some matches =>
      piece <- at_ (m1 matches) 0 ;;
      let srccol := m2 matches in
      let srcrow := m3 matches in
      de <- Position board (m5 matches) ;;
      let dst := fst de in
      let piece := if isWhite then add8 (code piece) 32 else code piece in
      cands <- candidates srccol srcrow (All board piece) ;;
      let (drow, dcol) := coordsFromIndex dst in
      found <- scanCands board drow dcol cands [] ;;
      match found with
      | None => Ret ([], [], Some AmbiguousMove)
      | Some src =>
        if eqs src []
        then Ret ([], [], Some NoMatchingMove)
        else Ret (src, m5 matches, None)
      end
    end.

Definition isNil {A} (e : option A) : bool :=
  match e with
  | None => true
  | Some _ => false
  end.

Definition CoordsToAlgebraic (board : Board) (srcs dsts : gostring)
  : exec (gostring * option error) :=
  se <- Position board srcs ;;
  match se with
  | (_, Some err) => Ret ([], Some err)
  | (src, None) =>
    de <- Position board dsts ;;
    match de with
    | (_, Some err) => Ret ([], Some err)
    | (dst, None) =>
      bsrc <- at_ board src ;;
      if Ascii.eqb bsrc "_" then Ret ([], Some NoPieceAtSource)
      else
        bdst <- at_ board dst ;;
        let x := if negb (Ascii.eqb bdst "_") then str "x" else [] in
        let white := code "a" <=? code bsrc in
        let piece := if code "a" <=? code bsrc then sub8 (code bsrc) 32 else code bsrc in
        let try := EncodeRune piece ++ x ++ ToLower dsts in
        a1 <- Algebraic board try white ;;
        if isNil (snd a1) then Ret (try, None)
        else
          let (r, c) := coordsFromIndex src in
          let cs := code "a" + c in
          let try := EncodeRune piece ++ EncodeRune cs ++ x ++ ToLower dsts in
          a2 <- Algebraic board try white ;;
          if isNil (snd a2) then Ret (try, None)
          else
            let try := EncodeRune piece ++ EncodeRune cs ++ itoa r ++ x ++ ToLower dsts in
            a3 <- Algebraic board try white ;;
            if isNil (snd a3) then Ret (try, None)
            else Ret ([], Some NoDisambiguation)
    end
  end.

(** *** Moving a piece *)

(** The castling branch of [Move], which the source writes once for the
    king [k] of each side: the rook's squares are those of the king's side
    when [stops] is [kingSide] and those of the queen's side otherwise;
    the king is written on [stop] and a rook [r] on [re], then [start] and
    [rs] are cleared. *)
Definition castle (board : Board) (k r : ascii) (start stop : Z)
           (stops kingSide : gostring)
           (kingRook kingRookTo queenRook queenRookTo : gostring) : exec Board :=
  rsre <- (if eqs (ToUpper stops) kingSide
           then ps <- Position board kingRook ;;
                pe <- Position board kingRookTo ;;
                Ret (fst ps, fst pe)
           else ps <- Position board queenRook ;;
                pe <- Position board queenRookTo ;;
                Ret (fst ps, fst pe)) ;;
  let (rs, re) := rsre : Z * Z in
  b1 <- Replace board (code k) stop ;;
  b2 <- Replace b1 (code r) re ;;
  b3 <- Replace b2 (code "_") start ;;
  Replace b3 (code "_") rs.

(** [a && b] where [b] indexes a string. *)
Definition andThen (a : bool) (b : exec bool) : exec bool :=
  if a then b else Ret false.

Definition Move (board : Board) (starts stops : gostring) : exec (Board * option error) :=
  let starts := ToUpper starts in
  let stops := ToUpper stops in
  se <- Position board starts ;;
  match se with
  | (_, Some err) => Ret (board, Some err)
  | (start, None) =>
    te <- Position board stops ;;
    match te with
    | (_, Some err) => Ret (board, Some err)
    | (stop, None) =>
      piece <- at_ board start ;;
      if Ascii.eqb piece "_" then Ret (board, Some NoPieceAtSource)
      else if Ascii.eqb piece "k" && eqs starts (str "E1")
              && (eqs stops (str "G1") || eqs stops (str "C1"))
      then b <- castle board "k" "r" start stop stops
                       (str "G1") (str "H1") (str "F1") (str "A1") (str "D1") ;;
           Ret (b, None)
      else if Ascii.eqb piece "K" && eqs starts (str "E8")
              && (eqs stops (str "G8") || eqs stops (str "C8"))
      then b <- castle board "K" "R" start stop stops
                       (str "G8") (str "H8") (str "F8") (str "A8") (str "D8") ;;
           Ret (b, None)
      else
        piece <- (white8 <- andThen (Ascii.eqb piece "p")
                                    (s1 <- at_ stops 1 ;; Ret (Ascii.eqb s1 "8")) ;;
                  if white8 then Ret "q"%char
                  else
                    black1 <- andThen (Ascii.eqb piece "P")
                                      (s1 <- at_ stops 1 ;; Ret (Ascii.eqb s1 "1")) ;;
                    if black1 then Ret "Q"%char else Ret piece) ;;
        b1 <- Replace board (code piece) stop ;;
        b2 <- Replace b1 (code "_") start ;;
        Ret (b2, None)
    end
  end.

(** Coord returns the file letter and the rank of a coordinate. *)
Definition Coord (board : Board) (pos : gostring) : exec (rune * Z * option error) :=
  let pos := ToUpper pos in
  p0 <- at_ pos 0 ;;
  if (code p0 <? code "A") || (code "H" <? code p0)
  then Ret (code " ", 0, Some BadColumn)
  else
    p1 <- at_ pos 1 ;;
    if (code p1 <? code "1") || (code "8" <? code p1)
    then Ret (code " ", 0, Some BadRow)
    else Ret (code p0, sub8 (code p1) 48, None).


(** *** Drawing ([draw.go]) *)

Fixpoint forEach {A} (l : list A) (body : A -> exec unit) : exec unit :=
  match l with
  | [] => Ret tt
  | x :: t => _ <- body x ;; forEach t body
  end.

(** The body of the two loops of [doDraw] for the rank [r] and the file
    letter [c], as far as it reads the board: the cell is fetched with
    [PieceAt] under the name [string(c) + string(byte(r+48))], and the
    first byte of a cell other than "_" chooses the colour. What is
    painted goes to the image of the graphics library and is left out. *)
Definition drawCell (board : Board) (r : Z) (c : rune) : exec unit :=
  let pos := EncodeRune c ++ EncodeRune (code (byte (r + 48))) in
  pe <- PieceAt board pos ;;
  let piece := fst pe in
  if negb (eqs piece (str "_"))
  then _ <- at_ piece 0 ;; Ret tt
  else Ret tt.

(** [for r := 8; r >= 1; r--] and [for c := 'A'; c <= 'H'; c++]. *)
Definition doDraw (board : Board) : exec unit :=
  forEach [8; 7; 6; 5; 4; 3; 2; 1]
          (fun r => forEach [65; 66; 67; 68; 69; 70; 71; 72]
                            (fun c => drawCell board r c)).

Definition Draw (board : Board) (width : Z) : exec unit := doDraw board.

End Chess.

(** ** The bot: one game per channel *)

Module Bot.

(** [a + b] on [int64], the type under [time.Duration]. *)
Definition add64 (a b : Z) : Z :=
  (a + b + 9223372036854775808) mod 18446744073709551616 - 9223372036854775808.

(** Game describes a current running game. A [time.Time] is the number of
    its instant, a [time.Duration] an [int64]. *)
Record Game : Type := mkGame {
  Board : Chess.Board;
  Black : gostring;
  White : gostring;
  PlayingWhite : bool;
  Winner : gostring;
  BlackOk : bool;
  WhiteOk : bool;
  TickFrom : Z;
  WhiteElapsed : Z;
  BlackElapsed : Z;
  Allowed : bool;
  Moves : list gostring;
  Previous : list Chess.Board }.

(** What a case of [Incoming] posts to the channel before it ends. *)
Inductive reply : Type :=
| Nothing                               (* a bare [return] *)
| AlreadyWon                            (* "%s has already won this game. ..." *)
| CantUnderstand (err : Chess.error)    (* "I can't understand that move: %s" *)
| NotValidMove (err : Chess.error)      (* "That's not a valid move: %s" *)
| WhiteMoves                            (* the board, "White (%s) moves ..." *)
| BlackMoves                            (* the board, "Black (%s) moves ..." *)
| NotYourTurn                           (* "It's not your turn." *)
| NoMovesToTakeBack                     (* "There are no moves to take back." *)
| WhiteTakesBack                        (* the board, "White (%s) takes back ..." *)
| BlackTakesBack                        (* the board, "Black (%s) takes back ..." *)
| CantTakeBack.                         (* "You can't take a move back." *)

(** [len(s) < 1]. *)
Definition len_lt1 {A} (s : list A) : bool := Z.of_nat (List.length s) <? 1.

(** [s[len(s)-1]] on a slice: panics when the slice is empty. *)
Definition lastOf {A} (s : list A) : exec A :=
  match rev s with
  | x :: _ => Ret x
  | [] => Panic
  end.

(** The groups 1 and 2 of
    [matches("([A-Ha-h][1-8])\\s?([A-Ha-h][1-8])", text)]; [matches]
    compiles the expression with the flag [(?i)]. *)
Definition isFile (c : ascii) : bool :=
  Chess.inClass "A" "H" c || Chess.inClass "a" "h" c.

Definition isBlank (c : ascii) : bool :=
  existsb (fun k => code c =? k) [9; 10; 12; 13; 32].

Definition rxSquare (s : gostring) : option (gostring * gostring) :=
  match s with
  | f :: r :: t => if isFile f && Chess.inClass "1" "8" r then Some ([f; r], t) else None
  | _ => None
  end.

Definition rxSecond (s : gostring) : option gostring :=
  Chess.orElse
    (match s with
     | c :: t => if isBlank c then option_map fst (rxSquare t) else None
     | [] => None
     end)
    (option_map fst (rxSquare s)).

Definition rxCoords (s : gostring) : option (gostring * gostring) :=
  match rxSquare s with
  | Some (a, t) => option_map (pair a) (rxSecond t)
  | None => None
  end.

Fixpoint coordsMatches (s : gostring) : option (gostring * gostring) :=
  Chess.orElse (rxCoords s)
               (match s with
                | _ :: t => coordsMatches t
                | [] => None
                end).

(** The closure [move] of the case: the board moves, the histories grow. *)
Definition move (game : Game) (start end_ alg : gostring)
  : exec (Game * option Chess.error) :=
  be <- Chess.Move (Board game) start end_ ;;
  match be with
  | (_, Some err) => Ret (game, Some err)
  | (board, None) =>
    let previous := Previous game ++ [Board game] in
    let moves :=
      if negb (eqs alg [])
      then Moves game ++ [alg]
      else Moves game ++ [start ++ str " " ++ end_] in
    Ret (mkGame board (Black game) (White game) (PlayingWhite game)
                (Winner game) (BlackOk game) (WhiteOk game) (TickFrom game)
                (WhiteElapsed game) (BlackElapsed game) (Allowed game)
                moves previous, None)
  end.

(** The case of [Incoming] for a message that holds a move, in
    coordinates or in notation. [since] is what [time.Since(game.TickFrom)]
    returns and [now] what [time.Now()] returns after it. *)
Definition submitMove (user text : gostring) (since now : Z) (game : Game)
  : exec (Game * reply) :=
  if negb (eqs (Winner game) []) then Ret (game, AlreadyWon)
  else
    se <- (if Chess.MatchString text
           then
             let white := eqs (White game) user && PlayingWhite game in
             if negb white && negb (eqs (Black game) user)
             then Ret None
             else
               a <- Chess.Algebraic (Board game) text white ;;
               match a with
               | (_, _, Some err) => Ret (Some (inl err))
               | (start, end_, None) => Ret (Some (inr (start, end_)))
               end
           else
             match coordsMatches text with
             | Some (t1, t2) => Ret (Some (inr (ToUpper t1, ToUpper t2)))
             | None => Panic
             end) ;;
    match se with
    | None => Ret (game, Nothing)
    | Some (inl err) => Ret (game, CantUnderstand err)
    | Some (inr (start, end_)) =>
      ae <- Chess.CoordsToAlgebraic (Board game) start end_ ;;
      let alg := fst ae in
      if negb (eqs user (White game)) && negb (eqs user (Black game))
      then Ret (game, Nothing)
      else if eqs user (White game) && PlayingWhite game
      then
        ge <- move game start end_ alg ;;
        match ge with
        | (_, Some err) => Ret (game, NotValidMove err)
        | (g, None) =>
          Ret (mkGame (Board g) (Black g) (White g) false (Winner g)
                      (BlackOk g) (WhiteOk g) now
                      (add64 (WhiteElapsed g) since) (BlackElapsed g)
                      (Allowed g) (Moves g) (Previous g), WhiteMoves)
        end
      else if eqs user (Black game) && negb (PlayingWhite game)
      then
        ge <- move game start end_ alg ;;
        match ge with
        | (_, Some err) => Ret (game, NotValidMove err)
        | (g, None) =>
          Ret (mkGame (Board g) (Black g) (White g) true (Winner g)
                      (BlackOk g) (WhiteOk g) now
                      (WhiteElapsed g) (add64 (BlackElapsed g) since)
                      (Allowed g) (Moves g) (Previous g), BlackMoves)
        end
      else Ret (game, NotYourTurn)
    end.

(** The case of [Incoming] for "take back". *)
Definition takeBack (user : gostring) (game : Game) : exec (Game * reply) :=
  if negb (eqs (Winner game) []) then Ret (game, AlreadyWon)
  else if len_lt1 (Previous game) then Ret (game, NoMovesToTakeBack)
  else if eqs user (White game) && negb (PlayingWhite game)
  then
    board <- lastOf (Previous game) ;;
    let g := mkGame board (Black game) (White game) true (Winner game)
                    (BlackOk game) (WhiteOk game) (TickFrom game)
                    (WhiteElapsed game) (BlackElapsed game) (Allowed game)
                    (Moves game) (Previous game) in
    _ <- lastOf (Moves g) ;;
    Ret (g, WhiteTakesBack)
  else if eqs user (Black game) && PlayingWhite game
  then
    board <- lastOf (Previous game) ;;
    let g := mkGame board (Black game) (White game) false (Winner game)
                    (BlackOk game) (WhiteOk game) (TickFrom game)
                    (WhiteElapsed game) (BlackElapsed game) (Allowed game)
                    (Moves game) (Previous game) in
    _ <- lastOf (Moves g) ;;
    Ret (g, BlackTakesBack)
  else Ret (game, CantTakeBack).


(** *** [match] and [matches]

    Both compile their expression with the flag [(?i)] in front and run
    [FindStringSubmatch]. The expressions of [Incoming] are built from
    single characters, classes, [.*], [.*?], [?], alternatives and
    groups; [regexp] returns the leftmost match and, where a match can go
    on in more than one way, the one a backtracking search finds first. *)

Inductive regexp : Type :=
| Eps
| One (p : rune -> bool)          (* a character, a class or [.] *)
| Star (p : rune -> bool)         (* [x*], as many as possible first *)
| StarLazy (p : rune -> bool)     (* [x*?], as few as possible first *)
| Opt (r : regexp)                (* [r?], [r] first *)
| Seq (a b : regexp)
| Alt (a b : regexp)              (* [a|b], [a] first *)
| Grp (n : nat) (r : regexp).     (* the group number [n] *)

(** The text still to be read: the byte offset and the rune of every
    character, as [utf8.DecodeRuneInString] steps through the string. *)
Definition input : Type := list (Z * rune).

(** The offsets at which the groups closed so far begin and end. *)
Definition captures : Type := list (nat * (Z * Z)).

Section Run.
Variable total : Z.

Definition pos (s : input) : Z :=
  match s with
  | (i, _) :: _ => i
  | [] => total
  end.

Fixpoint star (p : rune -> bool) (s : input) (k : input -> option captures)
  : option captures :=
  match s with
  | (_, r) :: t => if p r then Chess.orElse (star p t k) (k s) else k s
  | [] => k s
  end.

Fixpoint starLazy (p : rune -> bool) (s : input) (k : input -> option captures)
  : option captures :=
  Chess.orElse (k s)
               (match s with
                | (_, r) :: t => if p r then starLazy p t k else None
                | [] => None
                end).

(** [run e s c k]: match [e] at the head of [s], then go on with [k]. *)
Fixpoint run (e : regexp) (s : input) (c : captures)
         (k : input -> captures -> option captures) : option captures :=
  match e with
  | Eps => k s c
  | One p =>
    match s with
    | (_, r) :: t => if p r then k t c else None
    | [] => None
    end
  | Star p => star p s (fun s' => k s' c)
  | StarLazy p => starLazy p s (fun s' => k s' c)
  | Opt r => Chess.orElse (run r s c k) (k s c)
  | Seq a b => run a s c (fun s' c' => run b s' c' k)
  | Alt a b => Chess.orElse (run a s c k) (run b s c k)
  | Grp n r => run r s c (fun s' c' => k s' ((n, (pos s, pos s')) :: c'))
  end.

(** The leftmost match: the expression is tried at every character, and
    at the end of the text. *)
Fixpoint search (e : regexp) (s : input) : option captures :=
  Chess.orElse (run e s [] (fun _ c => Some c))
               (match s with
                | _ :: t => search e t
                | [] => None
                end).

End Run.

Fixpoint groups (e : regexp) : nat :=
  match e with
  | Eps | One _ | Star _ | StarLazy _ => 0
  | Opt r => groups r
  | Seq a b | Alt a b => groups a + groups b
  | Grp _ r => S (groups r)
  end.

(** [text[a:b]]. *)
Definition slice (text : gostring) (a b : Z) : gostring :=
  firstn (Z.to_nat (b - a)) (skipn (Z.to_nat a) text).

(** The text of the group [n]; the empty string for a group that took no
    part in the match. *)
Definition submatch (text : gostring) (c : captures) (n : nat) : gostring :=
  match find (fun x => Nat.eqb (fst x) n) c with
  | Some (_, (a, b)) => slice text a b
  | None => []
  end.

(** [matches(rxs, message)]: [None] is the nil slice. The whole match is
    the group 0. *)
Definition matches (rxs : regexp) (message : gostring) : option (list gostring) :=
  option_map (fun c => map (submatch message c) (seq 0 (S (groups rxs))))
             (search (len message) (Grp 0 rxs) (range message)).

Definition match_ (rxs : regexp) (message : gostring) : bool :=
  match matches rxs message with
  | Some _ => true
  | None => false
  end.

(** [tox[i]]: panics on the nil slice. *)
Definition index (tox : option (list gostring)) (i : nat) : exec gostring :=
  match tox with
  | Some l => match nth_error l i with
              | Some s => Ret s
              | None => Panic
              end
  | None => Panic
  end.

(** A letter of an expression under [(?i)]: either case, and for k and s
    the two other runes that fold to them, the Kelvin sign U+212A and the
    long s U+017F. *)
Definition letter (c : ascii) (r : rune) : bool :=
  (r =? code (lower c)) || (r =? code (upper c))
  || ((code (lower c) =? 107) && (r =? 8490))
  || ((code (lower c) =? 115) && (r =? 383)).

(** [.], [\s], [[0-9]], [[A-Ha-h]], [[1-9]] and [#]. *)
Definition any (r : rune) : bool := negb (r =? 10).
Definition space (r : rune) : bool := existsb (Z.eqb r) [9; 10; 12; 13; 32].
Definition digit (r : rune) : bool := (48 <=? r) && (r <=? 57).
Definition fileClass (r : rune) : bool :=
  ((65 <=? r) && (r <=? 72)) || ((97 <=? r) && (r <=? 104)).
Definition rank19 (r : rune) : bool := (49 <=? r) && (r <=? 57).
Definition hash (r : rune) : bool := r =? 35.

Definition cat (l : list regexp) : regexp := fold_right Seq Eps l.

Definition word (s : string) : regexp :=
  cat (map (fun c => One (letter c)) (list_ascii_of_string s)).

(** [.*] *)
Definition gap : regexp := Star any.

(** ["yo.*chessbot"], ["chess.*ok.*here"], ["help.*me.*chessbot"] *)
Definition rxYoChessbot : regexp := cat [word "yo"; gap; word "chessbot"].
Definition rxChessOkHere : regexp := cat [word "chess"; gap; word "ok"; gap; word "here"].
Definition rxHelpMeChessbot : regexp := cat [word "help"; gap; word "me"; gap; word "chessbot"].
(** ["claim.*black"], ["claim.*white"], ["start"] *)
Definition rxClaimBlack : regexp := cat [word "claim"; gap; word "black"].
Definition rxClaimWhite : regexp := cat [word "claim"; gap; word "white"].
Definition rxStart : regexp := word "start".
(** ["take\\s?back"], ["chess.*history"], ["board.*([0-9]+)"], ["chess.*board"] *)
Definition rxTakeBack : regexp := cat [word "take"; Opt (One space); word "back"].
Definition rxChessHistory : regexp := cat [word "chess"; gap; word "history"].
Definition rxBoardN : regexp :=
  cat [word "board"; gap; Grp 1 (Seq (One digit) (Star digit))].
Definition rxChessBoard : regexp := cat [word "chess"; gap; word "board"].
(** ["i\\s+resign"], ["keep.*playing"] *)
Definition rxIResign : regexp :=
  cat [word "i"; One space; Star space; word "resign"].
Definition rxKeepPlaying : regexp := cat [word "keep"; gap; word "playing"].
(** ["(black|white) win(s)?"] and ["(black|white) wins"] *)
Definition rxWin : regexp :=
  cat [Grp 1 (Alt (word "black") (word "white")); word " win"; Opt (Grp 2 (word "s"))].
Definition rxWins : regexp :=
  cat [Grp 1 (Alt (word "black") (word "white")); word " wins"].
(** ["knock.*out.*([A-Ha-h][1-9])"] *)
Definition rxKnockOut : regexp :=
  cat [word "knock"; gap; word "out"; gap; Grp 1 (Seq (One fileClass) (One rank19))].
(** ["move.*game.*to.*(.*?)"] and ["move.*game.*to.*#?(.*?)"] *)
Definition rxMoveGame : regexp :=
  cat [word "move"; gap; word "game"; gap; word "to"; gap; Grp 1 (StarLazy any)].
Definition rxMoveGameTo : regexp :=
  cat [word "move"; gap; word "game"; gap; word "to"; gap; Opt (One hash);
       Grp 1 (StarLazy any)].
(** ["yo.*chess.*bot"], ["what.*up.*chess"] *)
Definition rxYoChessBot : regexp := cat [word "yo"; gap; word "chess"; gap; word "bot"].
Definition rxWhatUpChess : regexp := cat [word "what"; gap; word "up"; gap; word "chess"].
(** ["definitely.*reset"], ["reset.*game"], ["no.*chess.*here"], ["chess help"] *)
Definition rxDefinitelyReset : regexp := cat [word "definitely"; gap; word "reset"].
Definition rxResetGame : regexp := cat [word "reset"; gap; word "game"].
Definition rxNoChessHere : regexp := cat [word "no"; gap; word "chess"; gap; word "here"].
Definition rxChessHelp : regexp := word "chess help".

(** [strconv.Atoi] on the text of a group of digits: a value that does
    not fit an [int] comes back as the largest [int] (with an error that
    the caller drops); a text that is no number comes back as 0. *)
Definition Atoi (s : gostring) : Z :=
  if negb (eqs s []) && forallb (fun c => digit (code c)) s
  then Z.min (fold_left (fun n c => n * 10 + (code c - 48)) s 0) 9223372036854775807
  else 0.

(** *** The other cases of [Incoming] *)

Record Context : Type := mkContext {
  Channel : gostring;
  User : gostring;
  Text : gostring }.

(** What [Incoming] posts to the channel. *)
Inductive post : Type :=
| Say (r : reply)                           (* the posts of a move and of "take back" *)
| BlackIs (user : gostring)                 (* "Ok, the black player is now %s" *)
| WhiteIs (user : gostring)                 (* "Ok, the white player is now %s" *)
| BothMustStart                             (* "Both black and white players must say start" *)
| WhiteMustStart (white : gostring)         (* "White (%s) must say start" *)
| BlackMustStart (black : gostring)         (* "Black (%s) must say start" *)
| Started                                   (* "I've started the game; ..." *)
| AllMoves (moves : list gostring)          (* "All moves:\n%s" *)
| CantFetch (which : Z)                     (* "I can't fetch previous board %d" *)
| PreviousBoard (board : Chess.Board) (which : Z)   (* the board, "Previous board #%d ..." *)
| CurrentBoard (board : Chess.Board) (name : gostring) (* the board, "The current board; ..." *)
| HasWon (winner : gostring)                (* "*%s* has won the game!" *)
| Forgotten                                 (* "Ok. I've forgotten who won, ..." *)
| Removed (square : gostring)               (* "Removed piece (if any) at %s." *)
| NoSuchChannel (name : gostring)           (* "I don't know a channel called '%s', ..." *)
| MovedTo (name : gostring)                 (* "Ok, I've moved this game to #%s ..." *)
| Status (game : Game)                      (* "I'm OK.\n" and the state of the game *)
| ResetDone                                 (* "OK. I've reset the game. ..." *)
| AreYouSure                                (* "Are you sure? ..." *)
| ChessAllowed                              (* "Ok. I'll allow chess games here." *)
| ChessRefused                              (* "Ok. I won't respond to chess events ..." *)
| Help.                                     (* "Here's what I know how to do ..." *)

(** [&Game{Board: chess.StartingBoard.Normalize()}]: every other field
    has the zero value of its type. *)
Definition newGame : Game :=
  mkGame (Chess.Normalize Chess.StartingBoard) [] [] false [] false false 0 0 0 false [] [].

(** The map [games] from the name of a channel to its game, the latest
    entry of a channel first. [Incoming] holds a game through a pointer;
    no two entries of the map ever hold the same pointer ("move game to"
    gives the channel it leaves a new game), so an entry is held here as
    a value. *)
Definition store : Type := list (gostring * Game).

Fixpoint lookup (channel : gostring) (games : store) : option Game :=
  match games with
  | [] => None
  | (k, g) :: t => if eqs k channel then Some g else lookup channel t
  end.

Definition put (channel : gostring) (g : Game) (games : store) : store :=
  (channel, g) :: games.

(** [_, ok := Channels[name]] *)
Definition known (name : gostring) (Channels : list (gostring * gostring)) : bool :=
  existsb (fun kv => eqs (fst kv) name) Channels.

(** The cases "claim.*black" and "claim.*white". *)
Definition claimBlack (user : gostring) (g : Game) : Game :=
  mkGame (Board g) user (White g) (PlayingWhite g) (Winner g) (BlackOk g)
         (WhiteOk g) (TickFrom g) (WhiteElapsed g) (BlackElapsed g) (Allowed g)
         (Moves g) (Previous g).

Definition claimWhite (user : gostring) (g : Game) : Game :=
  mkGame (Board g) (Black g) user (PlayingWhite g) (Winner g) (BlackOk g)
         (WhiteOk g) (TickFrom g) (WhiteElapsed g) (BlackElapsed g) (Allowed g)
         (Moves g) (Previous g).

(** The case "start"; [now] is what [time.Now()] returns. *)
Definition start (user : gostring) (now : Z) (g : Game) : Game * post :=
  let whiteOk := if eqs user (White g) then true else WhiteOk g in
  let blackOk := if eqs user (Black g) then true else BlackOk g in
  let g1 := mkGame (Board g) (Black g) (White g) (PlayingWhite g) (Winner g)
                   blackOk whiteOk (TickFrom g) (WhiteElapsed g) (BlackElapsed g)
                   (Allowed g) (Moves g) (Previous g) in
  if negb whiteOk && negb blackOk then (g1, BothMustStart)
  else if negb whiteOk then (g1, WhiteMustStart (White g))
  else if negb blackOk then (g1, BlackMustStart (Black g))
  else (mkGame (Board g) (Black g) (White g) true (Winner g)
               blackOk whiteOk now (WhiteElapsed g) (BlackElapsed g)
               (Allowed g) (Moves g) (Previous g), Started).

(** [game.Previous[which]]: index out of range panics. *)
Definition boardAt (previous : list Chess.Board) (which : Z) : exec Chess.Board :=
  if (0 <=? which) && (which <? Z.of_nat (List.length previous))
  then match nth_error previous (Z.to_nat which) with
       | Some b => Ret b
       | None => Panic
       end
  else Panic.

(** The case "board.*([0-9]+)": after the post that the board cannot be
    fetched the case goes on to fetch it. *)
Definition showPrevious (text : gostring) (g : Game) : exec (list post) :=
  tox1 <- index (matches rxBoardN text) 1 ;;
  let which := Atoi tox1 in
  let posts :=
    if Z.of_nat (List.length (Previous g)) <? which then [CantFetch which] else [] in
  board <- boardAt (Previous g) which ;;
  _ <- Chess.Draw board 400 ;;
  Ret (posts ++ [PreviousBoard board which]).

(** The case "chess.*board". *)
Definition showCurrent (g : Game) : exec (list post) :=
  _ <- Chess.Draw (Board g) 400 ;;
  Ret [CurrentBoard (Board g) (if PlayingWhite g then White g else Black g)].

Definition setWinner (winner : gostring) (g : Game) : Game :=
  mkGame (Board g) (Black g) (White g) (PlayingWhite g) winner (BlackOk g)
         (WhiteOk g) (TickFrom g) (WhiteElapsed g) (BlackElapsed g) (Allowed g)
         (Moves g) (Previous g).

(** The case "i\\s+resign". *)
Definition resign (g : Game) : Game * post :=
  let g1 := setWinner (if PlayingWhite g then Black g else White g) g in
  (g1, HasWon (Winner g1)).

(** The case "keep.*playing". *)
Definition keepPlaying (g : Game) : Game * post := (setWinner [] g, Forgotten).

(** The case "(black|white) win(s)?": the winner is read with the
    expression "(black|white) wins". *)
Definition declareWinner (text : gostring) (g : Game) : exec (Game * post) :=
  tox1 <- index (matches rxWins text) 1 ;;
  let g1 := setWinner (if eqs tox1 (str "black") then Black g else White g) g in
  Ret (g1, HasWon (Winner g1)).

Definition setBoard (board : Chess.Board) (g : Game) : Game :=
  mkGame board (Black g) (White g) (PlayingWhite g) (Winner g) (BlackOk g)
         (WhiteOk g) (TickFrom g) (WhiteElapsed g) (BlackElapsed g) (Allowed g)
         (Moves g) (Previous g).

(** The case "knock.*out.*([A-Ha-h][1-9])": the error of [Position] is
    dropped. *)
Definition knockOut (text : gostring) (g : Game) : exec (Game * post) :=
  tox1 <- index (matches rxKnockOut text) 1 ;;
  let start := ToUpper tox1 in
  pe <- Chess.Position (Board g) start ;;
  board <- Chess.Replace (Board g) (code "_") (fst pe) ;;
  Ret (setBoard board g, Removed tox1).

Definition setAllowed (allowed : bool) (g : Game) : Game :=
  mkGame (Board g) (Black g) (White g) (PlayingWhite g) (Winner g) (BlackOk g)
         (WhiteOk g) (TickFrom g) (WhiteElapsed g) (BlackElapsed g) allowed
         (Moves g) (Previous g).

(** The posts of the cases of a move and of "take back": the board is
    drawn after a move and after a move taken back. *)
Definition said (r : reply) (g : Game) : exec (list post) :=
  match r with
  | Nothing => Ret []
  | WhiteMoves | BlackMoves | WhiteTakesBack | BlackTakesBack =>
    _ <- Chess.Draw (Board g) 400 ;; Ret [Say r]
  | _ => Ret [Say r]
  end.

(** [Incoming] handles incoming messages, parses commands, and replies
    to them. [Channels] is the map of that name, [since] what
    [time.Since(game.TickFrom)] returns and [now] what [time.Now()]
    returns. The result is the map [games] after the call and what was
    posted. *)
Definition Incoming (Channels : list (gostring * gostring)) (ctx : Context)
           (since now : Z) (games : store) : exec (store * list post) :=
  let channel := Channel ctx in
  let user := User ctx in
  let text := Text ctx in
  if eqs user (str "chessbot3000") then Ret (games, [])
  else
    let game := match lookup channel games with
                | Some g => g
                | None => newGame
                end in
    let games := match lookup channel games with
                 | Some _ => games
                 | None => put channel newGame games
                 end in
    if negb (Allowed game) && negb (match_ rxYoChessbot text)
       && negb (match_ rxChessOkHere text) && negb (match_ rxHelpMeChessbot text)
    then Ret (games, [])
    else if match_ rxClaimBlack text
    then Ret (put channel (claimBlack user game) games, [BlackIs user])
    else if match_ rxClaimWhite text
    then Ret (put channel (claimWhite user game) games, [WhiteIs user])
    else if match_ rxStart text
    then let (g, p) := start user now game in Ret (put channel g games, [p])
    else if (match coordsMatches text with Some _ => true | None => false end)
            || Chess.MatchString text
    then
      gr <- submitMove user text since now game ;;
      posts <- said (snd gr) (fst gr) ;;
      Ret (put channel (fst gr) games, posts)
    else if match_ rxTakeBack text
    then
      gr <- takeBack user game ;;
      posts <- said (snd gr) (fst gr) ;;
      Ret (put channel (fst gr) games, posts)
    else if match_ rxChessHistory text
    then Ret (games, [AllMoves (Moves game)])
    else if match_ rxBoardN text
    then posts <- showPrevious text game ;; Ret (games, posts)
    else if match_ rxChessBoard text
    then posts <- showCurrent game ;; Ret (games, posts)
    else if match_ rxIResign text
    then let (g, p) := resign game in Ret (put channel g games, [p])
    else if match_ rxKeepPlaying text
    then let (g, p) := keepPlaying game in Ret (put channel g games, [p])
    else if match_ rxWin text
    then gp <- declareWinner text game ;; Ret (put channel (fst gp) games, [snd gp])
    else if match_ rxKnockOut text
    then gp <- knockOut text game ;; Ret (put channel (fst gp) games, [snd gp])
    else if match_ rxMoveGame text
    then
      tox1 <- index (matches rxMoveGameTo text) 1 ;;
      if negb (known tox1 Channels)
      then Ret (games, [NoSuchChannel tox1])
      else Ret (put channel newGame (put tox1 game games), [MovedTo tox1])
    else if match_ rxYoChessBot text || match_ rxWhatUpChess text
    then Ret (games, [Status game])
    else if match_ rxDefinitelyReset text
    then Ret (put channel newGame games, [ResetDone])
    else if match_ rxResetGame text
    then Ret (games, [AreYouSure])
    else if match_ rxChessOkHere text
    then Ret (put channel (setAllowed true game) games, [ChessAllowed])
    else if match_ rxNoChessHere text
    then Ret (put channel (setAllowed false game) games, [ChessRefused])
    else if match_ rxHelpMeChessbot text || match_ rxChessHelp text
    then Ret (games, [Help])
    else Ret (games, []).

End Bot.

(** ** Notions of the specification *)

Module Spec.

Import Chess.

(** A file letter, in either case, and a rank digit. *)
Definition fileLetter (c : ascii) : bool := inClass "A" "H" c || inClass "a" "h" c.
Definition rankDigit (c : ascii) : bool := inClass "1" "8" c.

(** The index of the coordinate: [(8 - rank) * 8 + (file - A)]. *)
Definition indexOf (f r : ascii) : Z :=
  (8 - (code r - code "0")) * 8 + (code (upper f) - code "A").

(** The board of the specification: 64 cells of one ASCII byte each. *)
Definition oneByte (c : ascii) : Prop := code c < 128.
Definition wfBoard (b : Board) : Prop := len b = 64 /\ Forall oneByte b.

(** The board [b] with the cell [i] holding [c]. *)
Definition setCell (b : Board) (i : Z) (c : ascii) : Board :=
  firstn (Z.to_nat i) b ++ c :: skipn (S (Z.to_nat i)) b.

(** The colours, as the code has them: [Algebraic] looks for the
    lower-case letter when the side to move is white, and [doDraw] paints
    the lower-case letters white. *)
Definition whitePawn : ascii := "p".
Definition whiteQueen : ascii := "q".
Definition whiteKing : ascii := "k".
Definition whiteRook : ascii := "r".
Definition blackPawn : ascii := "P".
Definition blackQueen : ascii := "Q".
Definition blackKing : ascii := "K".
Definition blackRook : ascii := "R".
Definition emptyCell : ascii := "_".

(** [b'] is [b] after the king went from [from] to [to] and a rook was
    put on [rookTo], with [from] and [rookFrom] cleared and every other
    cell kept. *)
Definition castled (b : Board) (king rook : ascii) (from to rookFrom rookTo : Z)
           (b' : Board) : Prop :=
  wfBoard b'
  /\ at_ b' to = Ret king
  /\ at_ b' rookTo = Ret rook
  /\ at_ b' from = Ret emptyCell
  /\ at_ b' rookFrom = Ret emptyCell
  /\ forall i, i <> to -> i <> rookTo -> i <> from -> i <> rookFrom ->
               at_ b' i = at_ b i.

(** The index of a square named by its upper-case coordinate. *)
Definition sq (name : string) : Z :=
  match list_ascii_of_string name with
  | [f; r] => indexOf f r
  | _ => -1
  end.

(** A decision procedure for [wfBoard]. *)
Definition wfBoardb (b : Board) : bool :=
  (len b =? 64) && forallb (fun c => code c <? 128) b.

(** The piece that [Move] writes on the destination of rank [r]. *)
Definition promoted (p r : ascii) : ascii :=
  if Ascii.eqb p whitePawn && Ascii.eqb r "8" then whiteQueen
  else if Ascii.eqb p blackPawn && Ascii.eqb r "1" then blackQueen
  else p.

(** [b'] is [b] after the piece [p] went from [from] to [to]. *)
Definition relocated (b : Board) (p : ascii) (from to : Z) (b' : Board) : Prop :=
  wfBoard b'
  /\ at_ b' to = Ret p
  /\ at_ b' from = Ret emptyCell
  /\ forall i, i <> to -> i <> from -> at_ b' i = at_ b i.

(** The starting board with the squares between the white king and the
    rook of its side, F1 and G1, cleared. *)
Definition startKingSideCleared : Board :=
  setCell (setCell (Normalize StartingBoard) (sq "F1") emptyCell) (sq "G1") emptyCell.

(** An empty board but for a white pawn on A7 and a black pawn on H2. *)
Definition twoPawns : Board :=
  str "________p______________________________________________P________".

(** The starting board with a white knight on A6, in front of the black
    pawn of A7. *)
Definition knightOnA6 : Board := setCell (Normalize StartingBoard) (sq "A6") "n".

(** A black pawn on E4 beside a white pawn on D4, with a white knight on
    D3: the only black pawn can take on D3. *)
Definition pawnTakesD3 : Board :=
  str "___________________________________pP______n____________________".

(** The upper-case coordinate of the cell [i], as [Algebraic] prints it. *)
Definition coordName (i : Z) : gostring :=
  let (r, c) := coordsFromIndex i in EncodeRune (code "A" + c) ++ itoa r.

(** The side of the piece on the cell [p]: white is lower case. *)
Definition whiteAt (b : Board) (p : Z) : bool :=
  match at_ b p with
  | Ret c => code "a" <=? code c
  | Panic => false
  end.

(** The move from [p] to [mv] goes to notation and back: the notation
    returns the source as it was given and the destination in lower
    case. *)
Definition roundTripb (b : Board) (p : Z) (mv : coord) : bool :=
  let srcs := coordName p in
  let dsts := coordName (indexFromCoords (row mv) (col mv)) in
  match CoordsToAlgebraic b srcs dsts with
  | Ret (n, None) =>
    match Algebraic b n (whiteAt b p) with
    | Ret (s, d, None) => eqs s srcs && eqs d (ToLower dsts)
    | _ => false
    end
  | _ => false
  end.

Definition roundTrip (b : Board) (p : Z) (mv : coord) : Prop :=
  exists n,
    CoordsToAlgebraic b (coordName p) (coordName (indexFromCoords (row mv) (col mv)))
    = Ret (n, None)
    /\ Algebraic b n (whiteAt b p)
       = Ret (coordName p, ToLower (coordName (indexFromCoords (row mv) (col mv))), None).

(** The cells 0..63. *)
Definition cells : list Z := map Z.of_nat (seq 0 64).

(** Every move that [validMoves] lists on [b] goes to notation and back. *)
Definition allRoundTripb (b : Board) : bool :=
  forallb (fun p => match validMoves b p with
                    | Ret mvs => forallb (roundTripb b p) mvs
                    | Panic => false
                    end) cells.

(** The number of moves that [validMoves] lists on [b] for the pieces of
    the side [white]. *)
Definition countMoves (b : Board) (white : bool) : nat :=
  list_sum (map (fun p => match validMoves b p with
                          | Ret mvs => if Bool.eqb (whiteAt b p) white
                                       then List.length mvs else 0%nat
                          | Panic => 0%nat
                          end) cells).

(** The coordinates of a cell of the board. *)
Definition onBoard (r c : Z) : Prop := 1 <= r <= 8 /\ 0 <= c <= 7.

(** A statement that returns whatever the slice holds. *)
Definition returns (s : stmt) : Prop := forall valid, exists v, s valid = Ret v.

(** The piece that a parsed notation asks for: the piece letter, in lower
    case when the side to move is white. *)
Definition wanted (sm : submatch) (isWhite : bool) : ascii :=
  match m1 sm with
  | l :: _ => if isWhite then lower l else l
  | [] => zero
  end.

(** The cell that a parsed notation names as the destination. *)
Definition destination (sm : submatch) : Z :=
  match m5 sm with
  | [f; r] => indexOf f r
  | _ => -1
  end.

(** The coordinates of a cell, as [validMoves] lists them. *)
Definition coordOf (i : Z) : coord :=
  let (r, c) := coordsFromIndex i in mkcoord r c.

(** The cell [p] holds a candidate source piece of the parsed notation:
    the wanted piece, on the source file and the source rank when the
    notation gives them. *)
Definition candidate (b : Board) (sm : submatch) (isWhite : bool) (p : Z) : Prop :=
  0 <= p < 64
  /\ at_ b p = Ret (wanted sm isWhite)
  /\ (forall f, m2 sm = [f] -> code f - code "a" = p mod 8)
  /\ (forall r, m3 sm = [r] -> code r - code "0" = 8 - p / 8).

(** [validMoves] lists the move [mv] for the piece on the cell [p]. *)
Definition lists (b : Board) (p : Z) (mv : coord) : Prop :=
  exists mvs, validMoves b p = Ret mvs /\ In mv mvs.

(** The piece on the cell [p] has the cell [d] among its valid moves. *)
Definition reaches (b : Board) (p d : Z) : Prop := lists b p (coordOf d).

(** Two white knights, on B1 and F1, on an empty board: both reach D2. *)
Definition twoKnights : Board :=
  str "_________________________________________________________n___n__".

(** A match holds one piece letter, at most one source file a-h, at most
    one source rank 1-8, and a destination of a file a-h and a rank
    1-8. *)
Definition wellParsed (sm : submatch) : Prop :=
  (exists l, m1 sm = [l] /\ isPieceLetter l = true)
  /\ (m2 sm = [] \/ exists f, m2 sm = [f] /\ inClass "a" "h" f = true)
  /\ (m3 sm = [] \/ exists r, m3 sm = [r] /\ inClass "1" "8" r = true)
  /\ (exists f r, m5 sm = [f; r] /\ inClass "a" "h" f = true
                  /\ inClass "1" "8" r = true).

(** A notation other than the two castling words. *)
Definition notCastling (m : gostring) : Prop := m <> str "O-O" /\ m <> str "O-O-O".

(** The user is a side that is not on move. *)
Definition notOnMove (user : gostring) (g : Bot.Game) : Prop :=
  (user = Bot.White g /\ Bot.PlayingWhite g = false)
  \/ (user = Bot.Black g /\ Bot.PlayingWhite g = true).

(** A session for the examples: alice plays white, bob plays black. *)
Definition session (board : Board) (playingWhite : bool)
           (moves : list gostring) (previous : list Board) : Bot.Game :=
  Bot.mkGame board (str "bob") (str "alice") playingWhite [] true true 100 7 9
             true moves previous.

(** The session after white's first move, the king's pawn to E4. *)
Definition afterPe4 : Bot.Game :=
  session (str "RNBQKBNRPPPPPPPP____________________p___________pppp_ppprnbqkbnr")
          false [str "Pe4"] [Normalize StartingBoard].

(** A byte that [unicode.IsSpace] takes for white space. *)
Definition blank (c : ascii) : bool := IsSpace (code c).

(** The two letters are of the same case. *)
Definition sameCase (a c : ascii) : bool :=
  (inClass "A" "Z" a && inClass "A" "Z" c) || (inClass "a" "z" a && inClass "a" "z" c).

(** A statement that returns and keeps [P] true of all the moves of the
    slice. *)
Definition keeps (P : coord -> Prop) (s : stmt) : Prop :=
  forall v, Forall P v -> exists v', s v = Ret v' /\ Forall P v'.

(** The test of [opponentAt] on the piece that moves and the piece [o] of
    a cell that is not empty. *)
Definition opposes (piece o : ascii) : bool :=
  if code piece <? code "Z" then code "a" <=? code o else code o <? code "Z".

(** The move goes to a cell of the board that is empty or holds a piece
    that [opponentAt] takes for an opponent of [piece]. *)
Definition freeFor (b : Board) (piece : ascii) (mv : coord) : Prop :=
  onBoard (row mv) (col mv)
  /\ exists o, at_ b (indexFromCoords (row mv) (col mv)) = Ret o
               /\ (o = "_"%char \/ opposes piece o = true).

(** The move goes to a cell of the board. *)
Definition inside (mv : coord) : Prop := onBoard (row mv) (col mv).

(** The twelve letters of the pieces, and the two of the pawns. *)
Definition pieceLetter (c : ascii) : bool := oneOf c "PpRrBbNnKkQq".
Definition pawnLetter (c : ascii) : bool := oneOf c "Pp".

(** A black pawn on E4 beside a white pawn on D4, with a black knight on
    D3. *)
Definition pawnOwnKnight : Board :=
  str "___________________________________pP______N____________________".

(** How many times the list [mvs] holds the move [target], counted as
    the inner loop of [Algebraic] compares moves. *)
Definition times (target : coord) (mvs : list coord) : nat :=
  List.length (filter (fun mv => (row mv =? row target) && (col mv =? col target)) mvs).

(** [validMoves] lists the move once, or more than once, for the piece
    on the cell [p]. *)
Definition listsOnce (b : Board) (p : Z) (mv : coord) : Prop :=
  exists mvs, validMoves b p = Ret mvs /\ times mv mvs = 1%nat.
Definition listsTwice (b : Board) (p : Z) (mv : coord) : Prop :=
  exists mvs, validMoves b p = Ret mvs /\ (2 <= times mv mvs)%nat.

(** A string that begins with the name of a cell: a file letter, in
    either case, and a rank digit. *)
Definition goodName (s : gostring) : Prop :=
  exists f r rest, s = f :: r :: rest /\ fileLetter f = true /\ rankDigit r = true.
(** The input [s] of the matcher is what is left of the text [text] after
    some of its characters were read. *)
Definition reads (text : gostring) (s : Bot.input) : Prop :=
  exists pre u, text = pre ++ u /\ s = range_from 0 (len pre) u.

(** A game of the bot as the bot builds it: the board and the boards of
    the history are well formed, and the two histories have one entry
    for each move made. *)
Definition sound (g : Bot.Game) : Prop :=
  wfBoard (Bot.Board g)
  /\ Forall wfBoard (Bot.Previous g)
  /\ List.length (Bot.Moves g) = List.length (Bot.Previous g).
Definition allSound (games : Bot.store) : Prop :=
  forall channel g, Bot.lookup channel games = Some g -> sound g.
(** The game that [Incoming] works on: the game of the channel, or a new
    game when the channel has none. *)
Definition current (channel : gostring) (games : Bot.store) : Bot.Game :=
  match Bot.lookup channel games with
  | Some g => g
  | None => Bot.newGame
  end.

(** What a message of [user] can do to the game [g] of its channel, and
    what is posted with it: one constructor for each case of [Incoming]
    that writes to the game, and one for the cases that only post. *)
Inductive changes (user text : gostring) (since now : Z) (g : Bot.Game)
  : Bot.Game -> list Bot.post -> Prop :=
| ByClaimBlack : changes user text since now g (Bot.claimBlack user g) [Bot.BlackIs user]
| ByClaimWhite : changes user text since now g (Bot.claimWhite user g) [Bot.WhiteIs user]
| ByStart : changes user text since now g (fst (Bot.start user now g))
                    [snd (Bot.start user now g)]
| ByMove g' r posts :
    Bot.submitMove user text since now g = Ret (g', r) ->
    Bot.said r g' = Ret posts ->
    changes user text since now g g' posts
| ByTakeBack g' r posts :
    Bot.takeBack user g = Ret (g', r) ->
    Bot.said r g' = Ret posts ->
    changes user text since now g g' posts
| ByResign : changes user text since now g (fst (Bot.resign g)) [snd (Bot.resign g)]
| ByKeepPlaying : changes user text since now g (Bot.setWinner [] g) [Bot.Forgotten]
| ByDeclareWinner g' p :
    Bot.declareWinner text g = Ret (g', p) ->
    changes user text since now g g' [p]
| ByKnockOut g' p :
    Bot.knockOut text g = Ret (g', p) ->
    changes user text since now g g' [p]
| ByMoveGame : changes user text since now g Bot.newGame [Bot.MovedTo []]
| ByReset : changes user text since now g Bot.newGame [Bot.ResetDone]
| ByAllowed : changes user text since now g (Bot.setAllowed true g) [Bot.ChessAllowed]
| ByRefused : changes user text since now g (Bot.setAllowed false g) [Bot.ChessRefused]
| ByPost posts :
    (forall p, In p posts ->
               match p with
               | Bot.AllMoves _ | Bot.PreviousBoard _ _ | Bot.CurrentBoard _ _
               | Bot.NoSuchChannel _ | Bot.Status _ | Bot.AreYouSure | Bot.Help => True
               | _ => False
               end) ->
    changes user text since now g g posts.
(** What a message on [channel] does to the games of the other channels:
    nothing, but for the game [g] that "move game to" hands to the
    channel of the empty name. *)
Definition otherChannels (channel : gostring) (g : Bot.Game) (games games' : Bot.store)
           (posts : list Bot.post) : Prop :=
  forall ch, ch <> channel ->
             Bot.lookup ch games' = Bot.lookup ch games
             \/ (ch = [] /\ Bot.lookup ch games' = Some g /\ posts = [Bot.MovedTo []]).
(** A message event as the loop of [main] hands it to [Incoming]: the map
    [Channels] at that time, the context of the message, and the two
    readings of the clock. *)
Record message : Type := mkMessage {
  channels : list (gostring * gostring);
  context : Bot.Context;
  since : Z;
  now : Z }.
(** The loop of [main] over the message events, from the map [games]. *)
Fixpoint serve (msgs : list message) (games : Bot.store) : exec Bot.store :=
  match msgs with
  | [] => Ret games
  | m :: rest =>
    r <- Bot.Incoming (channels m) (context m) (since m) (now m) games ;;
    serve rest (fst r)
  end.

(** A run of six messages on one channel: the channel allows chess,
    alice and bob take the sides, both say start, and white moves. *)
Definition says (user text : string) (at_time : Z) : message :=
  mkMessage [] (Bot.mkContext (str "general") (str user) (str text)) 5 at_time.
Definition opening : list message :=
  [says "alice" "chess is ok here" 100; says "alice" "claim white" 110;
   says "bob" "claim black" 120; says "alice" "start" 130; says "bob" "start" 140;
   says "alice" "e2 e4" 150].

(** The map of the examples: the channel "general" holds the session
    after white's first move, the channel "lounge" a new game. *)
Definition hall : Bot.store := [(str "general", afterPe4); (str "lounge", Bot.newGame)].
(** A message on the channel "general". *)
Definition onGeneral (user text : string) : Bot.Context :=
  Bot.mkContext (str "general") (str user) (str text).
(** The session after white's first move, with alice declared the
    winner. *)
Definition wonByAlice : Bot.Game := Bot.setWinner (str "alice") afterPe4.

(** The cell of row [r] and column [c] is a cell of the board that is
    empty or holds a piece that [opponentAt] takes for an opponent of
    [piece]. *)
Definition onBoardb (r c : Z) : bool :=
  (1 <=? r) && (r <=? 8) && (0 <=? c) && (c <=? 7).
Definition openFor (b : Board) (piece : ascii) (r c : Z) : bool :=
  onBoardb r c
  && match at_ b (indexFromCoords r c) with
     | Ret o => Ascii.eqb o "_" || opposes piece o
     | Panic => false
     end.
(** The steps of the knight and of the king, rows first, in the order in
    which [validMoves] tries them. *)
Definition knightSteps : list (Z * Z) :=
  [(2, 1); (2, -1); (-2, 1); (-2, -1); (1, 2); (1, -2); (-1, 2); (-1, -2)].
Definition kingSteps : list (Z * Z) :=
  [(-1, -1); (-1, 0); (0, -1); (1, 1); (1, 0); (0, 1); (1, -1); (-1, 1)].
(** The cells one step of [steps] away from the cell [p] that are open
    for [piece]. *)
Definition stepsFrom (b : Board) (piece : ascii) (steps : list (Z * Z)) (p : Z)
  : list coord :=
  filter (fun mv => openFor b piece (row mv) (col mv))
         (map (fun d => mkcoord (fst (coordsFromIndex p) + fst d)
                                (snd (coordsFromIndex p) + snd d)) steps).

(** The cells that a slide in the direction [(dr, dc)] lists from the
    cell of row [r] and column [c] on, in at most [n] steps: the empty
    cells up to the first cell that is not empty or not on the board, and
    that cell too when it holds an opponent of [piece]. *)
Fixpoint walk (b : Board) (piece : ascii) (n : nat) (dr dc r c : Z) : list coord :=
  match n with
  | O => []
  | S k =>
    if onBoardb r c
    then match at_ b (indexFromCoords r c) with
         | Ret o =>
           if Ascii.eqb o "_" then mkcoord r c :: walk b piece k dr dc (r + dr) (c + dc)
           else if opposes piece o then [mkcoord r c] else []
         | Panic => []
         end
    else []
  end.
(** The directions of the rook and of the bishop, rows first. *)
Definition rookDirs : list (Z * Z) := [(1, 0); (-1, 0); (0, 1); (0, -1)].
Definition bishopDirs : list (Z * Z) := [(1, 1); (1, -1); (-1, 1); (-1, -1)].
(** The move [mv] is a slide of [piece] from the cell of row [r] and
    column [c] in the direction [d]: some steps away, with only empty
    cells on the way, and itself a cell of the board that is empty or
    holds an opponent. *)
Definition slides (b : Board) (piece : ascii) (r c : Z) (d : Z * Z) (mv : coord) : Prop :=
  exists k,
    1 <= k
    /\ mv = mkcoord (r + k * fst d) (c + k * snd d)
    /\ (forall j, 1 <= j < k ->
                  at_ b (indexFromCoords (r + j * fst d) (c + j * snd d)) = Ret "_"%char)
    /\ openFor b piece (row mv) (col mv) = true.

(** A rune in upper case, as [ToUpper] has the letters a-z. *)
Definition upperRune (r : rune) : rune :=
  if (97 <=? r) && (r <=? 122) then r - 32 else r.
(** The input of the matcher with its runes in upper case. *)
Definition upperInput (s : Bot.input) : Bot.input :=
  map (fun ir => (fst ir, upperRune (snd ir))) s.

End Spec.

(** ** Bytes and strings *)

Import Chess Spec.

Example range_ascii : range (str "ab") = [(0, 97); (1, 98)].
Proof. reflexivity. Qed.

Example itoa_ex : itoa 8 = str "8" /\ itoa (-12) = str "-12" /\ itoa 0 = str "0".
Proof. vm_compute. auto. Qed.

Lemma code_range (c : ascii) : 0 <= code c < 256.
Proof.
  unfold code. pose proof (N_ascii_bounded c). lia.
Qed.

Lemma code_byte (z : Z) : code (byte z) = z mod 256.
Proof.
  unfold code, byte.
  pose proof (Z.mod_pos_bound z 256 ltac:(lia)).
  rewrite N_ascii_embedding by lia. lia.
Qed.

Lemma byte_code (c : ascii) : byte (code c) = c.
Proof.
  unfold byte, code. pose proof (N_ascii_bounded c).
  rewrite Z.mod_small by lia. rewrite N2Z.id. apply ascii_N_embedding.
Qed.

Lemma code_inj (a b : ascii) : code a = code b -> a = b.
Proof.
  intro H. rewrite <- (byte_code a), <- (byte_code b). now rewrite H.
Qed.

Lemma ascii_eqb_code (a b : ascii) : Ascii.eqb a b = (code a =? code b).
Proof.
  destruct (Ascii.eqb_spec a b) as [->|N].
  - symmetry. apply Z.eqb_refl.
  - symmetry. apply Z.eqb_neq. intro E. apply N. now apply code_inj.
Qed.

Lemma at_0 (c : ascii) (s : gostring) : at_ (c :: s) 0 = Ret c.
Proof.
  unfold at_, len. cbn [List.length]. 
  replace (0 <? Z.of_nat (S (List.length s))) with true by (symmetry; apply Z.ltb_lt; lia).
  reflexivity.
Qed.

Lemma at_1 (c d : ascii) (s : gostring) : at_ (c :: d :: s) 1 = Ret d.
Proof.
  unfold at_, len. cbn [List.length].
  replace (1 <? Z.of_nat (S (S (List.length s)))) with true by (symmetry; apply Z.ltb_lt; lia).
  reflexivity.
Qed.

Lemma at_nil (i : Z) : at_ [] i = Panic.
Proof.
  unfold at_, len. cbn. destruct (0 <=? i) eqn:E; cbn; auto.
  replace (i <? 0) with false by (symmetry; apply Z.ltb_ge; lia). reflexivity.
Qed.

Lemma at_1_single (c : ascii) : at_ [c] 1 = Panic.
Proof. reflexivity. Qed.

Lemma code_upper (c : ascii) :
  code (upper c) = if (97 <=? code c) && (code c <=? 122) then code c - 32 else code c.
Proof.
  unfold upper. change (code "a") with 97. change (code "z") with 122.
  destruct ((97 <=? code c) && (code c <=? 122)) eqn:E; auto.
  rewrite code_byte. apply Z.mod_small. lia.
Qed.

Lemma upper_idem (c : ascii) : upper (upper c) = upper c.
Proof.
  apply code_inj. rewrite (code_upper (upper c)), code_upper.
  destruct ((97 <=? code c) && (code c <=? 122)) eqn:E; rewrite ?E; auto.
  replace ((97 <=? code c - 32) && (code c - 32 <=? 122)) with false; auto.
  symmetry. apply andb_false_iff. lia.
Qed.

Lemma ToUpper_idem (s : gostring) : ToUpper (ToUpper s) = ToUpper s.
Proof.
  unfold ToUpper. rewrite map_map. apply map_ext. intro. apply upper_idem.
Qed.

Lemma inClass_spec (lo hi c : ascii) :
  inClass (String lo EmptyString) (String hi EmptyString) c
  = (code lo <=? code c) && (code c <=? code hi).
Proof. reflexivity. Qed.

(** ** [Position] *)

Lemma fileLetter_upper (f : ascii) :
  fileLetter f = (65 <=? code (upper f)) && (code (upper f) <=? 72).
Proof.
  unfold fileLetter. rewrite !inClass_spec, code_upper.
  change (code "A") with 65. change (code "H") with 72.
  change (code "a") with 97. change (code "h") with 104.
  pose proof (code_range f).
  destruct ((97 <=? code f) && (code f <=? 122)) eqn:E.
  - apply andb_true_iff in E. 
    apply eq_true_iff_eq. rewrite orb_true_iff, !andb_true_iff. lia.
  - apply andb_false_iff in E.
    apply eq_true_iff_eq. rewrite orb_true_iff, !andb_true_iff. lia.
Qed.

Lemma rankDigit_upper (r : ascii) :
  rankDigit r = (49 <=? code (upper r)) && (code (upper r) <=? 56).
Proof.
  unfold rankDigit. rewrite inClass_spec, code_upper.
  change (code "1") with 49. change (code "8") with 56.
  destruct ((97 <=? code r) && (code r <=? 122)) eqn:E; auto.
  apply andb_true_iff in E.
  apply eq_true_iff_eq. rewrite !andb_true_iff. lia.
Qed.

Lemma rankDigit_upper_id (r : ascii) : rankDigit r = true -> upper r = r.
Proof.
  unfold rankDigit. rewrite inClass_spec. change (code "1") with 49. change (code "8") with 56.
  intro H. apply andb_true_iff in H. apply code_inj. rewrite code_upper.
  replace ((97 <=? code r) && (code r <=? 122)) with false; auto.
  symmetry. apply andb_false_iff. lia.
Qed.

Lemma Position_cons2 (b : Board) (f r : ascii) (rest : gostring) :
  Position b (f :: r :: rest) =
  if fileLetter f
  then if rankDigit r then Ret (indexOf f r, None) else Ret (-1, Some BadRow)
  else Ret (-1, Some BadColumn).
Proof.
  unfold Position. cbn [ToUpper map]. rewrite at_0. cbn [bind].
  rewrite fileLetter_upper. change (code "A") with 65. change (code "H") with 72.
  destruct (code (upper f) <? 65) eqn:E1.
  { replace (65 <=? code (upper f)) with false by (symmetry; apply Z.leb_gt; lia). reflexivity. }
  destruct (72 <? code (upper f)) eqn:E2.
  { replace (code (upper f) <=? 72) with false by (symmetry; apply Z.leb_gt; lia).
    rewrite andb_false_r. reflexivity. }
  replace (65 <=? code (upper f)) with true by (symmetry; apply Z.leb_le; lia).
  replace (code (upper f) <=? 72) with true by (symmetry; apply Z.leb_le; lia).
  cbn [orb andb]. rewrite at_1. cbn [bind].
  rewrite rankDigit_upper. change (code "1") with 49. change (code "8") with 56.
  destruct (code (upper r) <? 49) eqn:E3.
  { replace (49 <=? code (upper r)) with false by (symmetry; apply Z.leb_gt; lia). reflexivity. }
  destruct (56 <? code (upper r)) eqn:E4.
  { replace (code (upper r) <=? 56) with false by (symmetry; apply Z.leb_gt; lia).
    rewrite andb_false_r. reflexivity. }
  assert (R : rankDigit r = true).
  { rewrite rankDigit_upper. apply andb_true_iff. lia. }
  rewrite <- rankDigit_upper, R. cbn [orb].
  rewrite (rankDigit_upper_id _ R) in *.
  unfold indexOf, sub8. change (code "0") with 48. change (code "A") with 65.
  rewrite !Z.mod_small by lia. reflexivity.
Qed.

Lemma Position_single (b : Board) (c : ascii) :
  Position b [c] = if fileLetter c then Panic else Ret (-1, Some BadColumn).
Proof.
  unfold Position. cbn [ToUpper map]. rewrite at_0. cbn [bind].
  rewrite fileLetter_upper. change (code "A") with 65. change (code "H") with 72.
  destruct (code (upper c) <? 65) eqn:E1.
  { replace (65 <=? code (upper c)) with false by (symmetry; apply Z.leb_gt; lia). reflexivity. }
  destruct (72 <? code (upper c)) eqn:E2.
  { replace (code (upper c) <=? 72) with false by (symmetry; apply Z.leb_gt; lia).
    rewrite andb_false_r. reflexivity. }
  replace (65 <=? code (upper c)) with true by (symmetry; apply Z.leb_le; lia).
  replace (code (upper c) <=? 72) with true by (symmetry; apply Z.leb_le; lia).
  reflexivity.
Qed.

Lemma Position_nil (b : Board) : Position b [] = Panic.
Proof. reflexivity. Qed.

Lemma indexOf_range (f r : ascii) :
  fileLetter f = true -> rankDigit r = true -> 0 <= indexOf f r < 64.
Proof.
  rewrite fileLetter_upper. unfold rankDigit. rewrite inClass_spec.
  change (code "1") with 49. change (code "8") with 56.
  rewrite !andb_true_iff. unfold indexOf.
  change (code "0") with 48. change (code "A") with 65. lia.
Qed.

Lemma indexOf_inj (f1 r1 f2 r2 : ascii) :
  fileLetter f1 = true -> rankDigit r1 = true ->
  fileLetter f2 = true -> rankDigit r2 = true ->
  indexOf f1 r1 = indexOf f2 r2 -> upper f1 = upper f2 /\ r1 = r2.
Proof.
  rewrite !fileLetter_upper. unfold rankDigit. rewrite !inClass_spec.
  change (code "1") with 49. change (code "8") with 56.
  rewrite !andb_true_iff. unfold indexOf.
  change (code "0") with 48. change (code "A") with 65.
  intros F1 R1 F2 R2 E. split; apply code_inj; lia.
Qed.

Lemma indexOf_onto (i : Z) :
  0 <= i < 64 ->
  exists f r, fileLetter f = true /\ rankDigit r = true /\ indexOf f r = i.
Proof.
  intro H.
  exists (byte (65 + i mod 8)), (byte (56 - i / 8)).
  assert (Hm : 0 <= i mod 8 < 8) by (apply Z.mod_pos_bound; lia).
  assert (Hd : 0 <= i / 8 < 8).
  { split; [apply Z.div_pos; lia | apply Z.div_lt_upper_bound; lia]. }
  assert (Cf : code (byte (65 + i mod 8)) = 65 + i mod 8).
  { rewrite code_byte. apply Z.mod_small. lia. }
  assert (Cr : code (byte (56 - i / 8)) = 56 - i / 8).
  { rewrite code_byte. apply Z.mod_small. lia. }
  assert (Cu : code (upper (byte (65 + i mod 8))) = 65 + i mod 8).
  { rewrite code_upper, Cf.
    replace ((97 <=? 65 + i mod 8) && (65 + i mod 8 <=? 122)) with false; auto.
    symmetry. apply andb_false_iff. lia. }
  repeat split.
  - rewrite fileLetter_upper, Cu. apply andb_true_iff. lia.
  - unfold rankDigit. rewrite inClass_spec, Cr.
    change (code "1") with 49. change (code "8") with 56.
    apply andb_true_iff. lia.
  - unfold indexOf. rewrite Cu, Cr.
    change (code "0") with 48. change (code "A") with 65.
    pose proof (Z.div_mod i 8 ltac:(lia)). lia.
Qed.

(** C8. For a coordinate whose file is a letter A-H in either case and
    whose rank is a digit 1-8, [Position] returns the index
    [(8 - rank) * 8 + (file - A)], which lies in 0..63; two such
    coordinates with the same index have the same file (up to case) and
    the same rank, and every index of 0..63 is the index of one of them;
    a file outside A-H fails with "bad column" and a rank outside 1-8 with
    "bad row", the two forms of an invalid coordinate. *)
Theorem C8_Position_bijection (b : Board) :
  (forall f r rest, fileLetter f = true -> rankDigit r = true ->
     Position b (f :: r :: rest) = Ret (indexOf f r, None)
     /\ 0 <= indexOf f r < 64)
  /\ (forall f1 r1 f2 r2,
        fileLetter f1 = true -> rankDigit r1 = true ->
        fileLetter f2 = true -> rankDigit r2 = true ->
        Position b [f1; r1] = Position b [f2; r2] ->
        upper f1 = upper f2 /\ r1 = r2)
  /\ (forall i, 0 <= i < 64 ->
        exists f r, fileLetter f = true /\ rankDigit r = true
                    /\ Position b [f; r] = Ret (i, None))
  /\ (forall f r rest, fileLetter f = false \/ rankDigit r = false ->
        exists e, Position b (f :: r :: rest) = Ret (-1, Some e)
                  /\ InvalidCoordinate e).
Proof.
  split; [|split; [|split]].
  - intros f r rest F R. rewrite Position_cons2, F, R.
    split; [reflexivity | now apply indexOf_range].
  - intros f1 r1 f2 r2 F1 R1 F2 R2 E.
    rewrite !Position_cons2, F1, R1, F2, R2 in E.
    injection E as E. now apply indexOf_inj.
  - intros i Hi. destruct (indexOf_onto Hi) as (f & r & F & R & E).
    exists f, r. rewrite Position_cons2, F, R, E. auto.
  - intros f r rest H. rewrite Position_cons2.
    destruct (fileLetter f) eqn:F.
    + destruct H as [H|H]; [discriminate|]. rewrite H.
      exists BadRow. split; auto. now right.
    + exists BadColumn. split; auto. now left.
Qed.

Lemma C8_Position_bijection_witness :
  Position (Normalize StartingBoard) (str "g1") = Ret (62, None)
  /\ (exists e, Position (Normalize StartingBoard) (str "I9") = Ret (-1, Some e)
                /\ InvalidCoordinate e).
Proof.
  destruct (C8_Position_bijection (Normalize StartingBoard)) as (H1 & _ & _ & H4).
  split.
  - exact (proj1 (H1 "g"%char "1"%char [] eq_refl eq_refl)).
  - exact (H4 "I"%char "9"%char [] (or_introl eq_refl)).
Defined.

(** ** Short coordinates *)

Lemma Position_ToUpper (b : Board) (s : gostring) :
  Position b (ToUpper s) = Position b s.
Proof. unfold Position. now rewrite ToUpper_idem. Qed.

Lemma Position_panics (b : Board) (s : gostring) :
  Position b s = Panic <-> s = [] \/ exists c, s = [c] /\ fileLetter c = true.
Proof.
  destruct s as [|c [|d rest]].
  - split; auto.
  - rewrite Position_single. split.
    + destruct (fileLetter c) eqn:F; [|discriminate]. right. eauto.
    + intros [H|(c' & H & F)]; [discriminate|]. injection H as <-. now rewrite F.
  - rewrite Position_cons2. split.
    + destruct (fileLetter c), (rankDigit d); discriminate.
    + intros [H|(c' & H & _)]; discriminate.
Qed.

(** C9, as the code has it. [Position] reads the bytes 0 and 1 of its
    argument without looking at its length: it panics on the empty string
    and on a string of one file letter (A-H, either case), and on no other
    string; a one-byte string that is not a file letter returns the "bad
    column" error. [PieceAt] and [Move] panic wherever [Position] panics
    on their first argument. *)
Theorem C9_Position_short_input (b : Board) :
  Position b [] = Panic
  /\ (forall c, fileLetter c = true -> Position b [c] = Panic)
  /\ (forall c, fileLetter c = false -> Position b [c] = Ret (-1, Some BadColumn))
  /\ (forall s, Position b s = Panic ->
        (List.length s < 2)%nat
        /\ PieceAt b s = Panic
        /\ forall t, Move b s t = Panic).
Proof.
  split; [reflexivity|].
  split; [intros c F; now rewrite Position_single, F|].
  split; [intros c F; now rewrite Position_single, F|].
  intros s H. split; [|split].
  - apply Position_panics in H. destruct H as [->|(c & -> & _)]; cbn; lia.
  - unfold PieceAt. now rewrite H.
  - intro t. unfold Move. rewrite Position_ToUpper, H. reflexivity.
Qed.

Lemma C9_Position_short_input_witness :
  Position (Normalize StartingBoard) (str "e") = Panic
  /\ Position (Normalize StartingBoard) (str "9") = Ret (-1, Some BadColumn)
  /\ PieceAt (Normalize StartingBoard) [] = Panic.
Proof.
  destruct (C9_Position_short_input (Normalize StartingBoard)) as (H0 & H1 & H2 & H3).
  split; [exact (H1 "e"%char eq_refl)|].
  split; [exact (H2 "9"%char eq_refl)|].
  exact (proj1 (proj2 (H3 [] H0))).
Defined.

(** C9 as stated fails: the one-byte string "Z" is shorter than two
    characters, and [Position] returns an error on it. *)
Lemma C9_counterexample :
  (List.length (str "Z") < 2)%nat
  /\ Position (Normalize StartingBoard) (str "Z") = Ret (-1, Some BadColumn)
  /\ ~ (forall (b : Board) (s : gostring),
          (List.length s < 2)%nat -> Position b s = Panic).
Proof.
  split; [cbn; lia|]. split; [reflexivity|].
  intro H. specialize (H (Normalize StartingBoard) (str "Z") ltac:(cbn; lia)).
  discriminate H.
Qed.

(** ** Failing calls *)

(** Case analysis on the calls a result went through. *)
Ltac exec_cases H :=
  repeat (cbv beta iota in H;
          match type of H with
          | context [match ?x with _ => _ end] =>
            destruct x eqn:?; try discriminate H
          end).

Lemma Move_error_same (b b' : Board) (s t : gostring) (e : error) :
  Move b s t = Ret (b', Some e) -> b' = b.
Proof.
  unfold Move, castle, andThen, bind. intro H.
  exec_cases H; try discriminate H; injection H as H _; congruence.
Qed.

Lemma closure_move_error_same (g g' : Bot.Game) (s t alg : gostring) (e : error) :
  Bot.move g s t alg = Ret (g', Some e) ->
  g' = g /\ Move (Bot.Board g) s t = Ret (Bot.Board g, Some e).
Proof.
  unfold Bot.move, bind. intro H.
  destruct (Move (Bot.Board g) s t) as [[b' [e'|]]|] eqn:M; try discriminate H.
  injection H as <- <-. split; auto.
  pose proof (@Move_error_same _ _ _ _ _ M) as E. now rewrite E.
Qed.

Lemma eqs_true (a b : gostring) : eqs a b = true <-> a = b.
Proof.
  unfold eqs. destruct (list_eq_dec ascii_dec a b); split; auto; discriminate.
Qed.

Lemma submitMove_failure_same (user text : gostring) (since now : Z)
      (g g' : Bot.Game) (r : Bot.reply) :
  Bot.submitMove user text since now g = Ret (g', r) ->
  r <> Bot.WhiteMoves -> r <> Bot.BlackMoves -> g' = g.
Proof.
  unfold Bot.submitMove, bind. intros H NW NB.
  exec_cases H; try discriminate H; injection H as H1 H2; subst; congruence.
Qed.

Lemma submitMove_not_valid (user text : gostring) (since now : Z)
      (g g' : Bot.Game) (e : error) :
  Bot.submitMove user text since now g = Ret (g', Bot.NotValidMove e) ->
  exists start end_, Move (Bot.Board g) start end_ = Ret (Bot.Board g, Some e).
Proof.
  unfold Bot.submitMove, bind. intro H.
  exec_cases H; try discriminate H; injection H as H1 H2; subst;
    match goal with
    | M : Bot.move _ _ _ _ = Ret (_, Some _) |- _ =>
      apply closure_move_error_same in M; destruct M as [_ M]; eauto
    end.
Qed.

(** C7. A failing call leaves the state as it was: when [Move] returns an
    error, the board it returns is the receiver; when the move of a
    message is refused because [Move] failed, and more generally whenever
    the case ends with any reply other than the drawing of the board after
    a move, the game (board, both histories, turn flag, both elapsed
    times and every other field) is the game before the call. *)
Theorem C7_failure_leaves_state :
  (forall (b b' : Board) (s t : gostring) (e : error),
     Move b s t = Ret (b', Some e) -> b' = b)
  /\ (forall user text since now g g' e,
        Bot.submitMove user text since now g = Ret (g', Bot.NotValidMove e) ->
        g' = g
        /\ exists start end_, Move (Bot.Board g) start end_ = Ret (Bot.Board g, Some e))
  /\ (forall user text since now g g' r,
        Bot.submitMove user text since now g = Ret (g', r) ->
        r <> Bot.WhiteMoves -> r <> Bot.BlackMoves -> g' = g).
Proof.
  split; [|split].
  - intros. eapply Move_error_same; eauto.
  - intros user text since now g g' e H. split.
    + apply (submitMove_failure_same _ _ _ _ _ H); discriminate.
    + eapply submitMove_not_valid; eauto.
  - intros. eapply submitMove_failure_same; eauto.
Qed.

Lemma C7_failure_leaves_state_witness :
  Move (Normalize StartingBoard) (str "E4") (str "E5")
  = Ret (Normalize StartingBoard, Some NoPieceAtSource)
  /\ Bot.submitMove (str "alice") (str "e4 e5") 5 200
                    (session (Normalize StartingBoard) true [] [])
     = Ret (session (Normalize StartingBoard) true [] [], Bot.NotValidMove NoPieceAtSource)
  /\ session (Normalize StartingBoard) true [] []
     = session (Normalize StartingBoard) true [] [].
Proof.
  assert (M : Move (Normalize StartingBoard) (str "E4") (str "E5")
              = Ret (Normalize StartingBoard, Some NoPieceAtSource))
    by (vm_compute; reflexivity).
  assert (S : Bot.submitMove (str "alice") (str "e4 e5") 5 200
                    (session (Normalize StartingBoard) true [] [])
              = Ret (session (Normalize StartingBoard) true [] [],
                     Bot.NotValidMove NoPieceAtSource))
    by (vm_compute; reflexivity).
  destruct C7_failure_leaves_state as (H1 & H2 & _).
  split; [exact M|]. split; [exact S|].
  exact (proj1 (H2 _ _ _ _ _ _ _ S)).
Defined.

(** ** Taking a move back *)

Lemma lastOf_app {A} (s : list A) (x : A) : Bot.lastOf s = Ret x -> exists h, s = h ++ [x].
Proof.
  unfold Bot.lastOf. destruct (rev s) as [|y l] eqn:E; [discriminate|].
  intro H. injection H as ->. exists (rev l).
  rewrite <- (rev_involutive s), E. reflexivity.
Qed.

(** C6. When the "take back" case draws the board (the only two replies
    with which it changes anything), the user is a side that is not on
    move, no winner is set and the board history is not empty; the board
    of the game is then the last entry of the board history, the turn flag
    is flipped, and the move history, the board history, both elapsed
    times and all other fields are as before: nothing is popped. *)
Theorem C6_takeBack (user : gostring) (g g' : Bot.Game) (r : Bot.reply) :
  Bot.takeBack user g = Ret (g', r) ->
  r = Bot.WhiteTakesBack \/ r = Bot.BlackTakesBack ->
  notOnMove user g
  /\ Bot.Winner g = []
  /\ (exists h, Bot.Previous g = h ++ [Bot.Board g'])
  /\ Bot.PlayingWhite g' = negb (Bot.PlayingWhite g)
  /\ Bot.Moves g' = Bot.Moves g
  /\ Bot.Previous g' = Bot.Previous g
  /\ Bot.WhiteElapsed g' = Bot.WhiteElapsed g
  /\ Bot.BlackElapsed g' = Bot.BlackElapsed g
  /\ g' = Bot.mkGame (Bot.Board g') (Bot.Black g) (Bot.White g)
                     (negb (Bot.PlayingWhite g)) (Bot.Winner g) (Bot.BlackOk g)
                     (Bot.WhiteOk g) (Bot.TickFrom g) (Bot.WhiteElapsed g)
                     (Bot.BlackElapsed g) (Bot.Allowed g) (Bot.Moves g)
                     (Bot.Previous g).
Proof.
  unfold Bot.takeBack, bind, notOnMove. intros H R.
  destruct (negb (eqs (Bot.Winner g) [])) eqn:W.
  { injection H as _ <-. destruct R; discriminate. }
  apply negb_false_iff, eqs_true in W.
  destruct (Bot.len_lt1 (Bot.Previous g)) eqn:L.
  { injection H as _ <-. destruct R; discriminate. }
  destruct (eqs user (Bot.White g) && negb (Bot.PlayingWhite g)) eqn:C1.
  - apply andb_true_iff in C1. destruct C1 as [U P].
    apply eqs_true in U. apply negb_true_iff in P.
    destruct (Bot.lastOf (Bot.Previous g)) as [board|] eqn:LP; [|discriminate].
    cbn [Bot.Moves] in H.
    destruct (Bot.lastOf (Bot.Moves g)); [|discriminate].
    injection H as <- _. cbn. rewrite P.
    repeat split; auto. now apply lastOf_app.
  - destruct (eqs user (Bot.Black g) && Bot.PlayingWhite g) eqn:C2.
    + apply andb_true_iff in C2. destruct C2 as [U P].
      apply eqs_true in U.
      destruct (Bot.lastOf (Bot.Previous g)) as [board|] eqn:LP; [|discriminate].
      cbn [Bot.Moves] in H.
      destruct (Bot.lastOf (Bot.Moves g)); [|discriminate].
      injection H as <- _. cbn. rewrite P.
      repeat split; auto. now apply lastOf_app.
    + injection H as _ <-. destruct R; discriminate.
Qed.

Lemma C6_takeBack_witness :
  Bot.takeBack (str "alice") afterPe4
  = Ret (session (Normalize StartingBoard) true [str "Pe4"] [Normalize StartingBoard],
         Bot.WhiteTakesBack)
  /\ notOnMove (str "alice") afterPe4
  /\ Bot.Moves (session (Normalize StartingBoard) true [str "Pe4"] [Normalize StartingBoard])
     = Bot.Moves afterPe4
  /\ Bot.Previous (session (Normalize StartingBoard) true [str "Pe4"] [Normalize StartingBoard])
     = Bot.Previous afterPe4.
Proof.
  assert (T : Bot.takeBack (str "alice") afterPe4
              = Ret (session (Normalize StartingBoard) true [str "Pe4"]
                             [Normalize StartingBoard], Bot.WhiteTakesBack))
    by (vm_compute; reflexivity).
  destruct (C6_takeBack _ _ T (or_introl eq_refl)) as (N & _ & _ & _ & M & P & _).
  split; [exact T|]. split; [exact N|]. split; [exact M | exact P].
Defined.

(** ** [Replace] on boards of one-byte cells *)

Lemma range_from_oneByte (s : gostring) (i : Z) :
  Forall oneByte s -> map snd (range_from 0 i s) = map code s.
Proof.
  intro F. revert i. induction F as [|c s C F IH]; intro i; [reflexivity|].
  cbn [range_from].
  assert (D : DecodeRune (c :: s) = (code c, 1%nat)).
  { unfold DecodeRune. unfold oneByte in C.
    replace (code c <? 128) with true by (symmetry; apply Z.ltb_lt; lia).
    reflexivity. }
  rewrite D. cbn [Nat.pred map snd]. now rewrite IH.
Qed.

Lemma runes_oneByte (s : gostring) : Forall oneByte s -> runes s = map code s.
Proof. apply range_from_oneByte. Qed.

Lemma EncodeRune_code (c : ascii) : oneByte c -> EncodeRune (code c) = [c].
Proof.
  unfold oneByte, EncodeRune. intro C. pose proof (code_range c).
  replace ((0 <=? code c) && (code c <=? 127)) with true
    by (symmetry; apply andb_true_iff; lia).
  now rewrite byte_code.
Qed.

Lemma of_runes_oneByte (s : gostring) : Forall oneByte s -> of_runes (map code s) = s.
Proof.
  unfold of_runes. induction 1 as [|c s C F IH]; [reflexivity|].
  cbn [map flat_map]. rewrite EncodeRune_code by assumption. now rewrite IH.
Qed.

Lemma Forall_take {A} (P : A -> Prop) (n : nat) (l : list A) :
  Forall P l -> Forall P (firstn n l).
Proof.
  intro F. revert n. induction F; intros [|n]; cbn; auto.
Qed.

Lemma Forall_drop {A} (P : A -> Prop) (n : nat) (l : list A) :
  Forall P l -> Forall P (skipn n l).
Proof.
  intro F. revert n. induction F; intros [|n]; cbn; auto.
Qed.

Lemma setCell_oneByte (b : Board) (i : Z) (c : ascii) :
  Forall oneByte b -> oneByte c -> Forall oneByte (setCell b i c).
Proof.
  intros F C. unfold setCell. apply Forall_app. split.
  - now apply Forall_take.
  - constructor; auto. now apply Forall_drop.
Qed.

Lemma setCell_len (b : Board) (i : Z) (c : ascii) :
  0 <= i < len b -> len (setCell b i c) = len b.
Proof.
  unfold setCell, len. intro H.
  rewrite length_app, length_firstn. cbn [List.length]. rewrite length_skipn. lia.
Qed.

Lemma setCell_wf (b : Board) (i : Z) (c : ascii) :
  wfBoard b -> 0 <= i < 64 -> oneByte c -> wfBoard (setCell b i c).
Proof.
  intros [L F] H C. split.
  - rewrite setCell_len; lia.
  - now apply setCell_oneByte.
Qed.

Lemma Replace_oneByte (b : Board) (i : Z) (c : ascii) :
  Forall oneByte b -> oneByte c -> 0 <= i < len b ->
  Replace b (code c) i = Ret (setCell b i c).
Proof.
  intros F C H. unfold Replace, set_at. rewrite runes_oneByte by assumption.
  rewrite length_map. fold (len b).
  replace ((0 <=? i) && (i <? len b)) with true
    by (symmetry; apply andb_true_iff; split; [apply Z.leb_le | apply Z.ltb_lt]; lia).
  cbn [bind]. f_equal.
  rewrite <- (of_runes_oneByte (setCell_oneByte i F C)).
  f_equal. unfold setCell.
  now rewrite map_app, firstn_map, skipn_map.
Qed.

Lemma at_spec (s : gostring) (i : Z) :
  0 <= i < len s -> at_ s i = match nth_error s (Z.to_nat i) with
                               | Some c => Ret c
                               | None => Panic
                               end.
Proof.
  intro H. unfold at_.
  replace ((0 <=? i) && (i <? len s)) with true
    by (symmetry; apply andb_true_iff; split; [apply Z.leb_le | apply Z.ltb_lt]; lia).
  reflexivity.
Qed.

Lemma at_out (s : gostring) (i : Z) : ~ 0 <= i < len s -> at_ s i = Panic.
Proof.
  intro H. unfold at_.
  destruct ((0 <=? i) && (i <? len s)) eqn:E; auto.
  apply andb_true_iff in E. lia.
Qed.

Lemma at_setCell (b : Board) (i j : Z) (c : ascii) :
  0 <= i < len b ->
  at_ (setCell b i c) j = if j =? i then Ret c else at_ b j.
Proof.
  intro H.
  destruct (Z.eq_dec j i) as [->|N].
  - rewrite Z.eqb_refl, at_spec by (rewrite setCell_len; lia).
    unfold setCell. unfold len in H.
    rewrite nth_error_app2 by (rewrite length_firstn; lia).
    rewrite length_firstn.
    replace (Z.to_nat i - Nat.min (Z.to_nat i) (List.length b))%nat with 0%nat by lia.
    reflexivity.
  - replace (j =? i) with false by (symmetry; now apply Z.eqb_neq).
    pose proof (@setCell_len b i c H) as SL.
    destruct (Z_lt_dec j 0) as [L|L].
    { rewrite (@at_out (setCell b i c) j), (@at_out b j) by lia. reflexivity. }
    destruct (Z_lt_dec j (len b)) as [U|U].
    2:{ rewrite (@at_out (setCell b i c) j), (@at_out b j) by lia. reflexivity. }
    rewrite !at_spec by (rewrite ?setCell_len; lia).
    unfold setCell. unfold len in *.
    destruct (Z_lt_dec j i) as [JI|JI].
    + rewrite nth_error_app1 by (rewrite length_firstn; lia).
      rewrite nth_error_firstn.
      replace (Z.to_nat j <? Z.to_nat i)%nat with true
        by (symmetry; apply Nat.ltb_lt; lia).
      reflexivity.
    + rewrite nth_error_app2 by (rewrite length_firstn; lia).
      rewrite length_firstn.
      replace (Z.to_nat j - Nat.min (Z.to_nat i) (List.length b))%nat
        with (S (Z.to_nat j - S (Z.to_nat i)))%nat by lia.
      cbn [nth_error]. rewrite nth_error_skipn.
      replace (S (Z.to_nat i) + (Z.to_nat j - S (Z.to_nat i)))%nat
        with (Z.to_nat j) by lia.
      reflexivity.
Qed.

Lemma wfBoardb_spec (b : Board) : wfBoardb b = true -> wfBoard b.
Proof.
  unfold wfBoardb, wfBoard. intro H. apply andb_true_iff in H.
  destruct H as [L F]. split; [now apply Z.eqb_eq|].
  apply Forall_forall. intros c I.
  rewrite forallb_forall in F. specialize (F c I). unfold oneByte. lia.
Qed.

Lemma wf_start : wfBoard (Normalize StartingBoard).
Proof. apply wfBoardb_spec. vm_compute. reflexivity. Qed.

Lemma wf_at (b : Board) (i : Z) :
  wfBoard b -> 0 <= i < 64 -> exists c, at_ b i = Ret c /\ oneByte c.
Proof.
  intros [L F] H. rewrite at_spec by lia.
  destruct (nth_error b (Z.to_nat i)) as [c|] eqn:E.
  - exists c. split; auto. rewrite Forall_forall in F. apply F.
    eapply nth_error_In; eauto.
  - apply nth_error_None in E. unfold len in L. lia.
Qed.

Lemma wf_at_oneByte (b : Board) (i : Z) (c : ascii) :
  wfBoard b -> at_ b i = Ret c -> oneByte c.
Proof.
  intros W A.
  destruct (Z_lt_dec i 0); [rewrite at_out in A by lia; discriminate|].
  destruct (Z_lt_dec i 64).
  - destruct (@wf_at b i W ltac:(lia)) as (c' & A' & O). congruence.
  - destruct W as [L _]. rewrite at_out in A by lia. discriminate.
Qed.

(** ** [Move]: castling *)

(** The four writes of the castling branch. *)
Lemma castle_writes (b : Board) (k r : ascii) (start stop rs re : Z) :
  wfBoard b -> oneByte k -> oneByte r ->
  0 <= start < 64 -> 0 <= stop < 64 -> 0 <= rs < 64 -> 0 <= re < 64 ->
  (b1 <- Replace b (code k) stop ;;
   b2 <- Replace b1 (code r) re ;;
   b3 <- Replace b2 (code "_") start ;;
   Replace b3 (code "_") rs)
  = Ret (setCell (setCell (setCell (setCell b stop k) re r) start "_") rs "_").
Proof.
  intros W K R Hs Ht Hrs Hre.
  assert (E : oneByte "_") by (unfold oneByte; cbn; lia).
  pose proof (setCell_wf W Ht K) as W1.
  pose proof (setCell_wf W1 Hre R) as W2.
  pose proof (setCell_wf W2 Hs E) as W3.
  destruct W as [L F], W1 as [L1 F1], W2 as [L2 F2], W3 as [L3 F3].
  rewrite Replace_oneByte by (auto; lia). cbn [bind].
  rewrite Replace_oneByte by (auto; lia). cbn [bind].
  rewrite Replace_oneByte by (auto; lia). cbn [bind].
  rewrite Replace_oneByte by (auto; lia). reflexivity.
Qed.

Lemma castled_setCell (b : Board) (k r : ascii) (start stop rs re : Z) :
  wfBoard b -> oneByte k -> oneByte r ->
  0 <= start < 64 -> 0 <= stop < 64 -> 0 <= rs < 64 -> 0 <= re < 64 ->
  stop <> re -> stop <> start -> stop <> rs -> re <> start -> re <> rs -> start <> rs ->
  castled b k r start stop rs re
          (setCell (setCell (setCell (setCell b stop k) re r) start "_") rs "_").
Proof.
  intros W K R Hs Ht Hrs Hre N1 N2 N3 N4 N5 N6.
  assert (E : oneByte "_") by (unfold oneByte; cbn; lia).
  pose proof (setCell_wf W Ht K) as W1.
  pose proof (setCell_wf W1 Hre R) as W2.
  pose proof (setCell_wf W2 Hs E) as W3.
  pose proof (setCell_wf W3 Hrs E) as W4.
  assert (A : forall i,
             at_ (setCell (setCell (setCell (setCell b stop k) re r) start "_") rs "_") i
             = if i =? rs then Ret "_"%char
               else if i =? start then Ret "_"%char
               else if i =? re then Ret r
               else if i =? stop then Ret k
               else at_ b i).
  { intro i. destruct W as [L F], W1 as [L1 F1], W2 as [L2 F2], W3 as [L3 F3].
    rewrite !at_setCell by lia. reflexivity. }
  unfold castled, emptyCell. split; [exact W4|].
  repeat split.
  - rewrite A. rewrite !(proj2 (Z.eqb_neq _ _)) by lia. now rewrite Z.eqb_refl.
  - rewrite A. rewrite !(proj2 (Z.eqb_neq _ _)) by lia. now rewrite Z.eqb_refl.
  - rewrite A. rewrite !(proj2 (Z.eqb_neq _ _)) by lia. now rewrite Z.eqb_refl.
  - rewrite A. now rewrite Z.eqb_refl.
  - intros i I1 I2 I3 I4. rewrite A.
    now rewrite !(proj2 (Z.eqb_neq _ _)) by lia.
Qed.

Lemma castle_eval (b : Board) (k r : ascii) (start stop rs re : Z)
      (stops g r1 r2 r3 r4 : gostring) :
  (if eqs (ToUpper stops) g
   then ps <- Position b r1 ;; pe <- Position b r2 ;; Ret (fst ps, fst pe)
   else ps <- Position b r3 ;; pe <- Position b r4 ;; Ret (fst ps, fst pe))
  = Ret (rs, re) ->
  wfBoard b -> oneByte k -> oneByte r ->
  0 <= start < 64 -> 0 <= stop < 64 -> 0 <= rs < 64 -> 0 <= re < 64 ->
  castle b k r start stop stops g r1 r2 r3 r4
  = Ret (setCell (setCell (setCell (setCell b stop k) re r) start "_") rs "_").
Proof.
  intros H W K R Hs Ht Hrs Hre. unfold castle. rewrite H. cbn [bind].
  now apply castle_writes.
Qed.

Lemma Move_castles (b : Board) (s t : gostring) (k r : ascii)
      (home g : string) (start stop rs re : Z) :
  (k = "k"%char /\ r = "r"%char /\ home = "E1"%string
   /\ ((g = "G1"%string /\ stop = 62 /\ rs = 63 /\ re = 61)
       \/ (g = "C1"%string /\ stop = 58 /\ rs = 56 /\ re = 59))
   /\ start = 60)
  \/ (k = "K"%char /\ r = "R"%char /\ home = "E8"%string
      /\ ((g = "G8"%string /\ stop = 6 /\ rs = 7 /\ re = 5)
          \/ (g = "C8"%string /\ stop = 2 /\ rs = 0 /\ re = 3))
      /\ start = 4) ->
  wfBoard b -> ToUpper s = str home -> ToUpper t = str g ->
  at_ b start = Ret k ->
  Move b s t
  = Ret (setCell (setCell (setCell (setCell b stop k) re r) start "_") rs "_", None)
  /\ castled b k r start stop rs re
             (setCell (setCell (setCell (setCell b stop k) re r) start "_") rs "_").
Proof.
  intros Cases W Hs Ht A.
  assert (P : Position b (str home) = Ret (start, None)
              /\ Position b (str g) = Ret (stop, None)).
  { destruct Cases as [(-> & -> & -> & [(-> & -> & -> & ->)|(-> & -> & -> & ->)] & ->)
                      |(-> & -> & -> & [(-> & -> & -> & ->)|(-> & -> & -> & ->)] & ->)];
      split; reflexivity. }
  destruct P as [P1 P2].
  split.
  - unfold Move. cbv zeta. rewrite Hs, Ht, P1. cbn [bind]. rewrite P2. cbn [bind].
    rewrite A. cbn [bind].
    destruct Cases as [(-> & -> & -> & [(-> & -> & -> & ->)|(-> & -> & -> & ->)] & ->)
                      |(-> & -> & -> & [(-> & -> & -> & ->)|(-> & -> & -> & ->)] & ->)];
      cbn -[castle setCell];
      (erewrite castle_eval; [reflexivity | reflexivity | auto | | | | | | ]);
      unfold oneByte; cbn; lia.
  - destruct Cases as [(-> & -> & -> & [(-> & -> & -> & ->)|(-> & -> & -> & ->)] & ->)
                      |(-> & -> & -> & [(-> & -> & -> & ->)|(-> & -> & -> & ->)] & ->)];
      apply castled_setCell; auto; unfold oneByte; cbn; lia.
Qed.

(** C2. On every board of 64 one-byte cells, a move of the king standing
    on its home square (the white king on E1, the black king on E8) to one
    of its two castling squares puts the king there, writes a rook of its
    colour on the square next to it, clears the king's square and the
    rook's corner, and keeps every other cell; nothing else about the
    board is looked at. On the starting board with F1 and G1 cleared,
    [Move("E1","G1")] leaves the king on G1, the rook on F1, and E1 and H1
    empty; on the starting board itself, where F1 and G1 are occupied, it
    does the same. *)
Theorem C2_castling :
  (forall (b : Board) (s t : gostring),
     wfBoard b ->
     (ToUpper s = str "E1" -> at_ b (sq "E1") = Ret whiteKing ->
      (ToUpper t = str "G1" ->
       exists b', Move b s t = Ret (b', None)
                  /\ castled b whiteKing whiteRook (sq "E1") (sq "G1") (sq "H1") (sq "F1") b')
      /\ (ToUpper t = str "C1" ->
          exists b', Move b s t = Ret (b', None)
                     /\ castled b whiteKing whiteRook (sq "E1") (sq "C1") (sq "A1") (sq "D1") b'))
     /\ (ToUpper s = str "E8" -> at_ b (sq "E8") = Ret blackKing ->
         (ToUpper t = str "G8" ->
          exists b', Move b s t = Ret (b', None)
                     /\ castled b blackKing blackRook (sq "E8") (sq "G8") (sq "H8") (sq "F8") b')
         /\ (ToUpper t = str "C8" ->
             exists b', Move b s t = Ret (b', None)
                        /\ castled b blackKing blackRook (sq "E8") (sq "C8") (sq "A8") (sq "D8") b')))
  /\ startKingSideCleared
     = str "RNBQKBNRPPPPPPPP________________________________pppppppprnbqk__r"
  /\ Move startKingSideCleared (str "E1") (str "G1")
     = Ret (str "RNBQKBNRPPPPPPPP________________________________pppppppprnbq_rk_", None)
  /\ Move (Normalize StartingBoard) (str "E1") (str "G1")
     = Ret (str "RNBQKBNRPPPPPPPP________________________________pppppppprnbq_rk_", None).
Proof.
  split; [|split; [|split]]; [|vm_compute; reflexivity..].
  intros b s t W. split; intros Hs A; split; intro Ht.
  - destruct (@Move_castles b s t "k" "r" "E1" "G1" 60 62 63 61) as [M C]; eauto 10.
  - destruct (@Move_castles b s t "k" "r" "E1" "C1" 60 58 56 59) as [M C]; eauto 10.
  - destruct (@Move_castles b s t "K" "R" "E8" "G8" 4 6 7 5) as [M C]; eauto 10.
  - destruct (@Move_castles b s t "K" "R" "E8" "C8" 4 2 0 3) as [M C]; eauto 10.
Qed.

Lemma C2_castling_witness :
  wfBoard startKingSideCleared
  /\ ToUpper (str "E1") = str "E1"
  /\ at_ startKingSideCleared (sq "E1") = Ret whiteKing
  /\ ToUpper (str "G1") = str "G1"
  /\ exists b', Move startKingSideCleared (str "E1") (str "G1") = Ret (b', None)
                /\ castled startKingSideCleared whiteKing whiteRook
                           (sq "E1") (sq "G1") (sq "H1") (sq "F1") b'.
Proof.
  assert (W : wfBoard startKingSideCleared)
    by (apply wfBoardb_spec; vm_compute; reflexivity).
  split; [exact W|]. split; [reflexivity|]. split; [reflexivity|]. split; [reflexivity|].
  exact (proj1 (proj1 (proj1 C2_castling startKingSideCleared (str "E1") (str "G1") W)
                      eq_refl eq_refl) eq_refl).
Defined.

(** ** [Move]: the plain relocation and the promotion *)

Lemma Move_plain (b : Board) (f1 r1 f2 r2 p : ascii) (rest1 rest2 : gostring) :
  wfBoard b ->
  fileLetter f1 = true -> rankDigit r1 = true ->
  fileLetter f2 = true -> rankDigit r2 = true ->
  at_ b (indexOf f1 r1) = Ret p ->
  p <> "_"%char -> p <> "k"%char -> p <> "K"%char ->
  Move b (f1 :: r1 :: rest1) (f2 :: r2 :: rest2)
  = Ret (setCell (setCell b (indexOf f2 r2) (promoted p r2)) (indexOf f1 r1) "_", None).
Proof.
  intros W F1 R1 F2 R2 A N0 N1 N2.
  pose proof (indexOf_range _ _ F1 R1) as I1.
  pose proof (indexOf_range _ _ F2 R2) as I2.
  pose proof (wf_at_oneByte _ W A) as O.
  unfold Move. cbv zeta. rewrite !Position_ToUpper, !Position_cons2, F1, R1, F2, R2.
  cbn [bind]. rewrite A. cbn [bind].
  rewrite (proj2 (Ascii.eqb_neq p "_") N0).
  rewrite (proj2 (Ascii.eqb_neq p "k") N1).
  rewrite (proj2 (Ascii.eqb_neq p "K") N2).
  cbn [andb]. cbn [ToUpper map]. rewrite (rankDigit_upper_id _ R2).
  assert (PR : (white8 <- andThen (Ascii.eqb p "p")
                                  (s1 <- at_ (upper f2 :: r2 :: map upper rest2) 1 ;;
                                   Ret (Ascii.eqb s1 "8")) ;;
                if white8 then Ret "q"%char
                else
                  black1 <- andThen (Ascii.eqb p "P")
                                    (s1 <- at_ (upper f2 :: r2 :: map upper rest2) 1 ;;
                                     Ret (Ascii.eqb s1 "1")) ;;
                  if black1 then Ret "Q"%char else Ret p)
               = Ret (promoted p r2)).
  { unfold andThen, promoted, whitePawn, blackPawn, whiteQueen, blackQueen.
    rewrite at_1. cbn [bind].
    destruct (Ascii.eqb p "p"), (Ascii.eqb p "P"); cbn [bind andb];
      destruct (Ascii.eqb r2 "8"), (Ascii.eqb r2 "1"); reflexivity. }
  rewrite PR. cbn [bind].
  assert (OP : oneByte (promoted p r2)).
  { unfold promoted.
    destruct (Ascii.eqb p whitePawn && Ascii.eqb r2 "8"); [unfold oneByte; cbn; lia|].
    destruct (Ascii.eqb p blackPawn && Ascii.eqb r2 "1"); [unfold oneByte; cbn; lia|].
    exact O. }
  assert (E : oneByte "_") by (unfold oneByte; cbn; lia).
  pose proof (setCell_wf W I2 OP) as W1.
  destruct W as [L F], W1 as [L1 FF1].
  rewrite Replace_oneByte by (auto; lia). cbn [bind].
  rewrite Replace_oneByte by (auto; lia). reflexivity.
Qed.

Lemma relocated_setCell (b : Board) (p : ascii) (from to : Z) :
  wfBoard b -> oneByte p -> 0 <= from < 64 -> 0 <= to < 64 -> from <> to ->
  relocated b p from to (setCell (setCell b to p) from "_").
Proof.
  intros W O Hf Ht N.
  assert (E : oneByte "_") by (unfold oneByte; cbn; lia).
  pose proof (setCell_wf W Ht O) as W1.
  pose proof (setCell_wf W1 Hf E) as W2.
  assert (A : forall i, at_ (setCell (setCell b to p) from "_") i
                        = if i =? from then Ret "_"%char
                          else if i =? to then Ret p else at_ b i).
  { intro i. destruct W as [L F], W1 as [L1 F1]. rewrite !at_setCell by lia. reflexivity. }
  split; [exact W2|]. unfold emptyCell. repeat split.
  - rewrite A. rewrite (proj2 (Z.eqb_neq to from)) by lia. now rewrite Z.eqb_refl.
  - rewrite A. now rewrite Z.eqb_refl.
  - intros i I1 I2. rewrite A. now rewrite !(proj2 (Z.eqb_neq _ _)) by lia.
Qed.

(** C3, as the code has it. [Move] promotes a pawn that reaches the
    farthest rank to a queen of its colour: a white pawn (lower case)
    moved to a square of rank 8 leaves a white queen there, a black pawn
    (upper case) moved to a square of rank 1 leaves a black queen there,
    the source is cleared and every other cell is kept. So [Move("A7","A8")]
    on a board whose A7 holds a white pawn yields a white queen on A8 and
    an empty A7, and [Move("H2","H1")] on a board whose H2 holds a black
    pawn yields a black queen on H1. *)
Theorem C3_promotion (b : Board) :
  wfBoard b ->
  (forall f1 r1 f2,
     fileLetter f1 = true -> rankDigit r1 = true -> fileLetter f2 = true ->
     indexOf f1 r1 <> indexOf f2 "8" ->
     at_ b (indexOf f1 r1) = Ret whitePawn ->
     exists b', Move b [f1; r1] [f2; "8"%char] = Ret (b', None)
                /\ relocated b whiteQueen (indexOf f1 r1) (indexOf f2 "8") b')
  /\ (forall f1 r1 f2,
        fileLetter f1 = true -> rankDigit r1 = true -> fileLetter f2 = true ->
        indexOf f1 r1 <> indexOf f2 "1" ->
        at_ b (indexOf f1 r1) = Ret blackPawn ->
        exists b', Move b [f1; r1] [f2; "1"%char] = Ret (b', None)
                   /\ relocated b blackQueen (indexOf f1 r1) (indexOf f2 "1") b')
  /\ (at_ b (sq "A7") = Ret whitePawn ->
      exists b', Move b (str "A7") (str "A8") = Ret (b', None)
                 /\ at_ b' (sq "A8") = Ret whiteQueen
                 /\ at_ b' (sq "A7") = Ret emptyCell)
  /\ (at_ b (sq "H2") = Ret blackPawn ->
      exists b', Move b (str "H2") (str "H1") = Ret (b', None)
                 /\ at_ b' (sq "H1") = Ret blackQueen
                 /\ at_ b' (sq "H2") = Ret emptyCell).
Proof.
  intro W.
  assert (G1 : forall f1 r1 f2,
             fileLetter f1 = true -> rankDigit r1 = true -> fileLetter f2 = true ->
             indexOf f1 r1 <> indexOf f2 "8" ->
             at_ b (indexOf f1 r1) = Ret whitePawn ->
             exists b', Move b [f1; r1] [f2; "8"%char] = Ret (b', None)
                        /\ relocated b whiteQueen (indexOf f1 r1) (indexOf f2 "8") b').
  { intros f1 r1 f2 F1 R1 F2 N A.
    eexists. split.
    - apply Move_plain with (p := whitePawn); auto; unfold whitePawn; discriminate.
    - apply (@relocated_setCell b whiteQueen); auto.
      + unfold oneByte; cbn; lia.
      + now apply indexOf_range.
      + now apply indexOf_range. }
  assert (G2 : forall f1 r1 f2,
             fileLetter f1 = true -> rankDigit r1 = true -> fileLetter f2 = true ->
             indexOf f1 r1 <> indexOf f2 "1" ->
             at_ b (indexOf f1 r1) = Ret blackPawn ->
             exists b', Move b [f1; r1] [f2; "1"%char] = Ret (b', None)
                        /\ relocated b blackQueen (indexOf f1 r1) (indexOf f2 "1") b').
  { intros f1 r1 f2 F1 R1 F2 N A.
    eexists. split.
    - apply Move_plain with (p := blackPawn); auto; unfold blackPawn; discriminate.
    - apply (@relocated_setCell b blackQueen); auto.
      + unfold oneByte; cbn; lia.
      + now apply indexOf_range.
      + now apply indexOf_range. }
  split; [exact G1|]. split; [exact G2|]. split.
  - intro A.
    destruct (G1 "A"%char "7"%char "A"%char eq_refl eq_refl eq_refl
                 ltac:(discriminate) A) as (b' & M & _ & Q & E & _).
    exists b'. auto.
  - intro A.
    destruct (G2 "H"%char "2"%char "H"%char eq_refl eq_refl eq_refl
                 ltac:(discriminate) A) as (b' & M & _ & Q & E & _).
    exists b'. auto.
Qed.

Lemma C3_promotion_witness :
  wfBoard twoPawns
  /\ at_ twoPawns (sq "A7") = Ret whitePawn
  /\ at_ twoPawns (sq "H2") = Ret blackPawn
  /\ (exists b', Move twoPawns (str "A7") (str "A8") = Ret (b', None)
                 /\ at_ b' (sq "A8") = Ret whiteQueen
                 /\ at_ b' (sq "A7") = Ret emptyCell)
  /\ (exists b', Move twoPawns (str "H2") (str "H1") = Ret (b', None)
                 /\ at_ b' (sq "H1") = Ret blackQueen
                 /\ at_ b' (sq "H2") = Ret emptyCell).
Proof.
  assert (W : wfBoard twoPawns) by (apply wfBoardb_spec; vm_compute; reflexivity).
  destruct (C3_promotion W) as (_ & _ & A & H).
  split; [exact W|]. split; [reflexivity|]. split; [reflexivity|].
  split; [exact (A eq_refl) | exact (H eq_refl)].
Defined.

(** C3 as stated fails. On the starting board A7 holds a black pawn and H2
    a white pawn; [Move("A7","A8")] leaves a black pawn, not a queen, on
    A8, and [Move("H2","H1")] leaves a white pawn on H1. *)
Lemma C3_counterexample :
  at_ (Normalize StartingBoard) (sq "A7") = Ret blackPawn
  /\ Move (Normalize StartingBoard) (str "A7") (str "A8")
     = Ret (str "PNBQKBNR_PPPPPPP________________________________pppppppprnbqkbnr", None)
  /\ at_ (Normalize StartingBoard) (sq "H2") = Ret whitePawn
  /\ Move (Normalize StartingBoard) (str "H2") (str "H1")
     = Ret (str "RNBQKBNRPPPPPPPP________________________________ppppppp_rnbqkbnp", None)
  /\ ~ (forall b : Board,
          wfBoard b -> at_ b (sq "A7") = Ret blackPawn ->
          exists b', Move b (str "A7") (str "A8") = Ret (b', None)
                     /\ at_ b' (sq "A8") = Ret blackQueen
                     /\ at_ b' (sq "A7") = Ret emptyCell)
  /\ ~ (forall b : Board,
          wfBoard b -> at_ b (sq "H2") = Ret whitePawn ->
          exists b', Move b (str "H2") (str "H1") = Ret (b', None)
                     /\ at_ b' (sq "H1") = Ret whiteQueen).
Proof.
  assert (M1 : Move (Normalize StartingBoard) (str "A7") (str "A8")
     = Ret (str "PNBQKBNR_PPPPPPP________________________________pppppppprnbqkbnr", None))
    by (vm_compute; reflexivity).
  assert (M2 : Move (Normalize StartingBoard) (str "H2") (str "H1")
     = Ret (str "RNBQKBNRPPPPPPPP________________________________ppppppp_rnbqkbnp", None))
    by (vm_compute; reflexivity).
  split; [reflexivity|]. split; [exact M1|]. split; [reflexivity|]. split; [exact M2|].
  split.
  - intro H. destruct (H _ wf_start eq_refl) as (b' & M & Q & _).
    rewrite M1 in M. injection M as <-. discriminate Q.
  - intro H. destruct (H _ wf_start eq_refl) as (b' & M & Q).
    rewrite M2 in M. injection M as <-. discriminate Q.
Qed.


(** ** The pawn's two squares *)

(** C4 fails on the code: [validMoves] tests only the square two ahead
    ([or == 7 && empty(or-2, oc)], and [or == 2 && empty(or+2, oc)]), not
    the square in between. On the starting board with a white knight on
    A6, the black pawn of A7 has the single move to A5, over the knight;
    on the starting board with a black knight on A3, the white pawn of A2
    has the single move to A4. *)
Theorem C4_pawn_jumps_over_piece :
  wfBoard knightOnA6
  /\ at_ knightOnA6 (sq "A7") = Ret blackPawn
  /\ at_ knightOnA6 (sq "A6") = Ret "n"%char
  /\ at_ knightOnA6 (sq "A5") = Ret emptyCell
  /\ validMoves knightOnA6 (sq "A7") = Ret [mkcoord 5 0]
  /\ indexFromCoords 5 0 = sq "A5"
  /\ at_ (setCell (Normalize StartingBoard) (sq "A3") "N") (sq "A2") = Ret whitePawn
  /\ validMoves (setCell (Normalize StartingBoard) (sq "A3") "N") (sq "A2")
     = Ret [mkcoord 4 0]
  /\ indexFromCoords 4 0 = sq "A4".
Proof.
  split; [apply wfBoardb_spec|]; repeat split; vm_compute; reflexivity.
Qed.

(** ** A capture listed twice *)

(** C10. There is a board with a single black pawn, on E4, which can take
    the white knight on D3: [validMoves] lists D3 twice for it, once for
    the opponent on the diagonal and once for the white pawn beside it on
    D4, and [Algebraic] rejects the move "Pxd3", which only this pawn can
    make, as ambiguous. *)
Theorem C10_single_candidate_ambiguous :
  exists b : Board,
    wfBoard b
    /\ All b (code blackPawn) = [sq "E4"]
    /\ at_ b (sq "D3") = Ret "n"%char
    /\ at_ b (sq "D4") = Ret whitePawn
    /\ validMoves b (sq "E4") = Ret [mkcoord 3 4; mkcoord 3 3; mkcoord 3 3]
    /\ indexFromCoords 3 3 = sq "D3"
    /\ Algebraic b (str "Pxd3") false = Ret ([], [], Some AmbiguousMove).
Proof.
  exists pawnTakesD3.
  split; [apply wfBoardb_spec|]; repeat split; vm_compute; reflexivity.
Qed.

(** ** Notation and back on the starting board *)

Lemma roundTripb_spec (b : Board) (p : Z) (mv : coord) :
  roundTripb b p mv = true -> roundTrip b p mv.
Proof.
  unfold roundTripb, roundTrip. cbv zeta.
  destruct (CoordsToAlgebraic b (coordName p) _) as [[n [e|]]|] eqn:C; try discriminate.
  destruct (Algebraic b n (whiteAt b p)) as [[[s d] [e|]]|] eqn:A; try discriminate.
  intro H. apply andb_true_iff in H. destruct H as [H1 H2].
  apply eqs_true in H1, H2. exists n. split; [reflexivity|].
  rewrite A, H1, H2. reflexivity.
Qed.

Lemma cells_spec (p : Z) : In p cells <-> 0 <= p < 64.
Proof.
  unfold cells. rewrite in_map_iff. split.
  - intros (n & <- & I). apply in_seq in I. lia.
  - intro H. exists (Z.to_nat p). split; [lia|]. apply in_seq. lia.
Qed.

Lemma allRoundTripb_spec (b : Board) :
  allRoundTripb b = true ->
  forall p mvs mv,
    0 <= p < 64 -> validMoves b p = Ret mvs -> In mv mvs -> roundTrip b p mv.
Proof.
  unfold allRoundTripb. intros H p mvs mv Hp V I.
  rewrite forallb_forall in H. specialize (H p (proj2 (cells_spec p) Hp)).
  rewrite V in H. rewrite forallb_forall in H.
  apply roundTripb_spec. now apply H.
Qed.

(** C1, as the code has it. On the starting board every move that
    [validMoves] lists (twenty for each side) goes to notation and back:
    [CoordsToAlgebraic(src, dst)] returns a notation on which [Algebraic],
    for the side of the piece, returns the source as given and the
    destination in lower case, as the notation has it (the same square:
    [Position] reads the file in either case). So
    [CoordsToAlgebraic("G1","F3")] is "Nf3" and [Algebraic("Nf3", true)]
    is ("G1","f3"). *)
Theorem C1_round_trip :
  (forall p mvs mv,
     0 <= p < 64 -> validMoves (Normalize StartingBoard) p = Ret mvs -> In mv mvs ->
     roundTrip (Normalize StartingBoard) p mv)
  /\ countMoves (Normalize StartingBoard) true = 20%nat
  /\ countMoves (Normalize StartingBoard) false = 20%nat
  /\ CoordsToAlgebraic (Normalize StartingBoard) (str "G1") (str "F3")
     = Ret (str "Nf3", None)
  /\ Algebraic (Normalize StartingBoard) (str "Nf3") true
     = Ret (str "G1", str "f3", None)
  /\ Position (Normalize StartingBoard) (str "f3")
     = Position (Normalize StartingBoard) (str "F3").
Proof.
  split.
  - apply allRoundTripb_spec. vm_compute. reflexivity.
  - repeat split; vm_compute; reflexivity.
Qed.

Lemma C1_round_trip_witness :
  validMoves (Normalize StartingBoard) (sq "G1") = Ret [mkcoord 3 7; mkcoord 3 5]
  /\ roundTrip (Normalize StartingBoard) (sq "G1") (mkcoord 3 5).
Proof.
  assert (V : validMoves (Normalize StartingBoard) (sq "G1")
              = Ret [mkcoord 3 7; mkcoord 3 5]) by (vm_compute; reflexivity).
  split; [exact V|].
  apply (proj1 C1_round_trip (sq "G1") [mkcoord 3 7; mkcoord 3 5] (mkcoord 3 5)).
  - vm_compute. split; [discriminate | reflexivity].
  - exact V.
  - right. left. reflexivity.
Defined.

(** C1 as stated fails: [Algebraic] returns the destination as the
    notation spells it, "f3", not "F3". *)
Lemma C1_counterexample :
  Algebraic (Normalize StartingBoard) (str "Nf3") true
  <> Ret (str "G1", str "F3", None).
Proof.
  vm_compute. discriminate.
Qed.

(** ** The move generator returns on a board of 64 cells *)

Section Total.

Variable b : Board.
Variable piece : ascii.
Hypothesis len64 : len b = 64.

Lemma at_onBoard (r c : Z) : onBoard r c -> exists o, at_ b (indexFromCoords r c) = Ret o.
Proof.
  unfold onBoard, indexFromCoords. intro H.
  rewrite at_spec by lia.
  destruct (nth_error b (Z.to_nat ((8 - r) * 8 + c))) as [o|] eqn:E; eauto.
  apply nth_error_None in E. unfold len in len64. lia.
Qed.

Lemma empty_returns (r c : Z) : onBoard r c -> exists e, empty b r c = Ret e.
Proof.
  intro H. unfold empty. destruct (at_onBoard H) as [o ->]. cbn. eauto.
Qed.

Lemma opponentAt_returns (r c : Z) : onBoard r c -> exists e, opponentAt b piece r c = Ret e.
Proof.
  intro H. unfold opponentAt, empty. destruct (at_onBoard H) as [o ->]. cbn.
  destruct (Ascii.eqb o "_"); [eauto|].
  destruct (_ <? _); eauto.
Qed.

Lemma at_is_returns (r c : Z) (p : ascii) : onBoard r c -> exists e, at_is b r c p = Ret e.
Proof.
  intro H. unfold at_is. destruct (at_onBoard H) as [o ->]. cbn. eauto.
Qed.

Lemma yep_returns (r c : Z) : returns (yep r c).
Proof. intro v. unfold yep. eauto. Qed.

Lemma when_returns (cond : exec bool) (body : stmt) :
  (exists x, cond = Ret x /\ (x = true -> returns body)) -> returns (when cond body).
Proof.
  intros (x & -> & H) v. unfold when. cbn. destruct x; [apply (H eq_refl) | eauto].
Qed.

Lemma and_returns (a : bool) (m : exec bool) :
  (a = true -> exists x, m = Ret x) -> exists x, and_ a m = Ret x.
Proof.
  intro H. unfold and_. destruct a; eauto.
Qed.

Lemma or_returns (m n : exec bool) :
  (exists x, m = Ret x) -> (exists x, n = Ret x) -> exists x, or_ m n = Ret x.
Proof.
  intros [x ->] [y ->]. unfold or_. cbn. destruct x; eauto.
Qed.

Lemma block_returns (ss : list stmt) : Forall returns ss -> returns (block ss).
Proof.
  induction 1 as [|s ss S F IH]; intro v; cbn.
  - eauto.
  - destruct (S v) as [v' ->]. cbn. apply IH.
Qed.

Lemma cruise_returns (r c : Z) (v : list coord) :
  onBoard r c -> exists g v', cruise b piece r c v = Ret (g, v').
Proof.
  intro H. unfold cruise, yep.
  destruct (empty_returns H) as [e ->]. cbn.
  destruct e; [eauto|].
  destruct (opponentAt_returns H) as [o ->]. cbn.
  destruct o; cbn; eauto.
Qed.

(** A ray that starts on the board and whose condition bounds it in the
    direction it moves stays on the board. *)
Lemma ray_returns (fuel : nat) (cond : Z -> Z -> bool) (dr dc : Z) :
  -1 <= dr <= 1 -> -1 <= dc <= 1 ->
  (forall r c, cond r c = true ->
               (0 < dr -> r <= 8) /\ (dr < 0 -> 1 <= r)
               /\ (0 < dc -> c <= 7) /\ (dc < 0 -> 0 <= c)) ->
  forall r c,
    (0 <= dr -> 1 <= r) -> (dr <= 0 -> r <= 8) ->
    (0 <= dc -> 0 <= c) -> (dc <= 0 -> c <= 7) ->
    returns (ray b piece fuel cond dr dc r c).
Proof.
  intros Hdr Hdc Hc. induction fuel as [|f IH]; intros r c R1 R2 C1 C2 v; cbn.
  - eauto.
  - destruct (cond r c) eqn:E; [|eauto].
    destruct (Hc r c E) as (B1 & B2 & B3 & B4).
    assert (O : onBoard r c) by (unfold onBoard; lia).
    destruct (cruise_returns v O) as (g & v' & ->). cbn.
    destruct g; [|eauto].
    apply IH; lia.
Qed.

Lemma jump_returns (inside : bool) (r c : Z) :
  (inside = true -> onBoard r c) -> returns (jump b piece inside r c).
Proof.
  intro H. unfold jump. apply when_returns.
  destruct (@and_returns inside (or_ (empty b r c) (opponentAt b piece r c))) as [x E].
  - intro I. apply or_returns; [apply empty_returns | apply opponentAt_returns]; auto.
  - exists x. split; auto. intros _. apply yep_returns.
Qed.

Lemma rookRays_return (or oc : Z) : onBoard or oc -> Forall returns (rookRays b piece or oc).
Proof.
  unfold onBoard. intro H. unfold rookRays.
  repeat constructor; apply ray_returns; try lia;
    intros r c E; try apply Z.leb_le in E; lia.
Qed.

Lemma bishopRays_return (or oc : Z) :
  onBoard or oc -> Forall returns (bishopRays b piece or oc).
Proof.
  unfold onBoard. intro H. unfold bishopRays.
  repeat constructor; apply ray_returns; try lia;
    intros r c E; apply andb_true_iff in E; destruct E as [E1 E2];
    apply Z.leb_le in E1, E2; lia.
Qed.

(** The guard of a pawn's step and capture, turned into arithmetic. *)
Ltac guards :=
  repeat match goal with
         | H : negb _ = true |- _ => apply negb_true_iff in H
         | H : (_ =? _) = false |- _ => apply Z.eqb_neq in H
         | H : (_ =? _) = true |- _ => apply Z.eqb_eq in H
         | H : (_ && _) = true |- _ => apply andb_true_iff in H; destruct H
         | H : (_ <=? _) = true |- _ => apply Z.leb_le in H
         end.

Ltac guarded :=
  apply when_returns;
  match goal with
  | |- exists x, ?m = Ret x /\ _ =>
    let E := fresh "E" in
    assert (E : exists x, m = Ret x);
    [ repeat (apply and_returns; intro);
      first [apply empty_returns | apply opponentAt_returns | apply at_is_returns];
      guards; unfold onBoard in *; lia
    | destruct E as [x E]; exists x; split; [exact E | intros _; apply yep_returns] ]
  end.

Lemma moves_return (or oc : Z) : onBoard or oc -> returns (moves b piece or oc).
Proof.
  intro H. unfold moves.
  destruct (oneOf piece "P").
  { apply when_returns. eexists. split; [reflexivity|]. intro N.
    apply block_returns. repeat constructor; guarded. }
  destruct (oneOf piece "p").
  { apply when_returns. eexists. split; [reflexivity|]. intro N.
    apply block_returns. repeat constructor; guarded. }
  destruct (oneOf piece "Rr"); [apply block_returns; now apply rookRays_return|].
  destruct (oneOf piece "Bb"); [apply block_returns; now apply bishopRays_return|].
  destruct (oneOf piece "Nn").
  { apply block_returns. repeat constructor; apply jump_returns; intro I;
      guards; unfold onBoard in *; lia. }
  destruct (oneOf piece "Kk").
  { apply block_returns. repeat constructor; apply jump_returns; intro I;
      guards; unfold onBoard in *; lia. }
  destruct (oneOf piece "Qq").
  { apply block_returns. apply Forall_app. split;
      [now apply rookRays_return | now apply bishopRays_return]. }
  intro v. eauto.
Qed.

End Total.

Lemma coordsFromIndex_onBoard (p : Z) :
  0 <= p < 64 -> onBoard (fst (coordsFromIndex p)) (snd (coordsFromIndex p)).
Proof.
  intro H. unfold coordsFromIndex, onBoard. cbn [fst snd].
  rewrite Z.quot_div_nonneg, Z.rem_mod_nonneg by lia.
  pose proof (Z.mod_pos_bound p 8 ltac:(lia)).
  assert (0 <= p / 8 < 8).
  { split; [apply Z.div_pos; lia | apply Z.div_lt_upper_bound; lia]. }
  lia.
Qed.

Lemma validMoves_returns (b : Board) (p : Z) :
  len b = 64 -> 0 <= p < 64 -> exists mvs, validMoves b p = Ret mvs.
Proof.
  intros L H. unfold validMoves.
  pose proof (coordsFromIndex_onBoard H) as O.
  destruct (coordsFromIndex p) as [or oc]. cbn [fst snd] in O.
  rewrite at_spec by lia.
  destruct (nth_error b (Z.to_nat p)) as [c|] eqn:E.
  - cbn. apply moves_return; assumption.
  - apply nth_error_None in E. unfold len in L. lia.
Qed.

(** ** The bounds of the rays *)

(** Once the condition of a ray is false from the pass [n] on, more
    passes than [n] change nothing. *)
Lemma ray_fuel_enough (b : Board) (piece : ascii) (cond : Z -> Z -> bool)
      (dr dc : Z) (n k : nat) :
  forall r c v,
    (forall j, (n <= j)%nat -> cond (r + Z.of_nat j * dr) (c + Z.of_nat j * dc) = false) ->
    ray b piece (n + k) cond dr dc r c v = ray b piece n cond dr dc r c v.
Proof.
  induction n as [|n IH]; intros r c v H.
  - cbn [Nat.add]. destruct k; [reflexivity|]. cbn [ray].
    specialize (H 0%nat (le_n _)).
    replace (r + Z.of_nat 0 * dr) with r in H by lia.
    replace (c + Z.of_nat 0 * dc) with c in H by lia.
    now rewrite H.
  - cbn [Nat.add ray]. destruct (cond r c); [|reflexivity].
    destruct (cruise b piece r c v) as [[go v']|]; [|reflexivity]. cbn [bind].
    destruct go; [|reflexivity].
    apply IH. intros j J. specialize (H (S j) ltac:(lia)).
    replace (r + dr + Z.of_nat j * dr) with (r + Z.of_nat (S j) * dr) by lia.
    replace (c + dc + Z.of_nat j * dc) with (c + Z.of_nat (S j) * dc) by lia.
    exact H.
Qed.

(** The bounds that [rookRays] and [bishopRays] give to their rays are
    enough: with [k] more passes each ray returns the same slice. *)
Lemma rays_fuel (b : Board) (piece : ascii) (or oc : Z) (k : nat) :
  Forall2 (fun more given => forall v, more v = given v)
    [ ray b piece (Z.to_nat (8 - or) + k) (fun i _ => i <=? 8) 1 0 (or + 1) oc;
      ray b piece (Z.to_nat (or - 1) + k) (fun i _ => 1 <=? i) (-1) 0 (or - 1) oc;
      ray b piece (Z.to_nat (7 - oc) + k) (fun _ i => i <=? 7) 0 1 or (oc + 1);
      ray b piece (Z.to_nat oc + k) (fun _ i => 0 <=? i) 0 (-1) or (oc - 1);
      ray b piece (Z.to_nat (8 - or) + k) (fun tr tc => (tr <=? 8) && (tc <=? 7)) 1 1 (or + 1) (oc + 1);
      ray b piece (Z.to_nat (8 - or) + k) (fun tr tc => (tr <=? 8) && (0 <=? tc)) 1 (-1) (or + 1) (oc - 1);
      ray b piece (Z.to_nat (or - 1) + k) (fun tr tc => (1 <=? tr) && (tc <=? 7)) (-1) 1 (or - 1) (oc + 1);
      ray b piece (Z.to_nat (or - 1) + k) (fun tr tc => (1 <=? tr) && (0 <=? tc)) (-1) (-1) (or - 1) (oc - 1) ]
    (rookRays b piece or oc ++ bishopRays b piece or oc).
Proof.
  unfold rookRays, bishopRays. cbn [app].
  repeat constructor; intro v; apply ray_fuel_enough; intros j J;
    rewrite ?andb_false_iff, ?Z.leb_gt; lia.
Qed.

(** ** The shape of a match of [AlgebraicRx] *)

Lemma rxDst_shape (s d : gostring) :
  rxDst s = Some d ->
  exists f r, d = [f; r] /\ inClass "a" "h" f = true /\ inClass "1" "8" r = true.
Proof.
  unfold rxDst. destruct s as [|f [|r t]]; try discriminate.
  destruct (inClass "a" "h" f && inClass "1" "8" r) eqn:E; [|discriminate].
  apply andb_true_iff in E. intro H. injection H as <-. exists f, r. tauto.
Qed.

Lemma rxCapture_shape (s x d : gostring) :
  rxCapture s = Some (x, d) -> rxDst (skipn (List.length x) s) = Some d.
Proof.
  unfold rxCapture, orElse.
  destruct s as [|c t].
  - cbn. discriminate.
  - destruct (Ascii.eqb c "x").
    + destruct (rxDst t) as [d'|] eqn:D; cbn [option_map].
      * intro H. injection H as <- <-. exact D.
      * destruct (rxDst (c :: t)) as [d'|] eqn:D'; cbn [option_map]; [|discriminate].
        intro H. injection H as <- <-. exact D'.
    + destruct (rxDst (c :: t)) as [d'|] eqn:D'; cbn [option_map]; [|discriminate].
      intro H. injection H as <- <-. exact D'.
Qed.

Lemma rxRow_shape (s g3 x d : gostring) :
  rxRow s = Some (g3, (x, d)) ->
  (g3 = [] \/ exists r, g3 = [r] /\ inClass "1" "8" r = true)
  /\ exists s', rxCapture s' = Some (x, d).
Proof.
  unfold rxRow, orElse.
  assert (Skip : option_map (pair []) (rxCapture s) = Some (g3, (x, d)) ->
                 (g3 = [] \/ exists r, g3 = [r] /\ inClass "1" "8" r = true)
                 /\ exists s', rxCapture s' = Some (x, d)).
  { destruct (rxCapture s) as [[x' d']|] eqn:C; cbn [option_map]; [|discriminate].
    intro H. injection H as <- <- <-. split; [now left | eauto]. }
  destruct s as [|c t]; [exact Skip|].
  destruct (inClass "1" "8" c) eqn:I; [|exact Skip].
  destruct (rxCapture t) as [[x' d']|] eqn:C; cbn [option_map]; [|exact Skip].
  intro H. injection H as <- <- <-. split; [right; eauto | eauto].
Qed.

Lemma rxCol_shape (s g2 g3 x d : gostring) :
  rxCol s = Some (g2, (g3, (x, d))) ->
  (g2 = [] \/ exists f, g2 = [f] /\ inClass "a" "h" f = true)
  /\ exists s', rxRow s' = Some (g3, (x, d)).
Proof.
  unfold rxCol, orElse.
  assert (Skip : option_map (pair []) (rxRow s) = Some (g2, (g3, (x, d))) ->
                 (g2 = [] \/ exists f, g2 = [f] /\ inClass "a" "h" f = true)
                 /\ exists s', rxRow s' = Some (g3, (x, d))).
  { destruct (rxRow s) as [[g3' [x' d']]|] eqn:C; cbn [option_map]; [|discriminate].
    intro H. injection H as <- <- <- <-. split; [now left | eauto]. }
  destruct s as [|c t]; [exact Skip|].
  destruct (inClass "a" "h" c) eqn:I; [|exact Skip].
  destruct (rxRow t) as [[g3' [x' d']]|] eqn:C; cbn [option_map]; [|exact Skip].
  intro H. injection H as <- <- <- <-. split; [right; eauto | eauto].
Qed.

Lemma rxHere_shape (s : gostring) (sm : submatch) : rxHere s = Some sm -> wellParsed sm.
Proof.
  unfold rxHere. destruct s as [|p t]; [discriminate|].
  destruct (isPieceLetter p) eqn:P; [|discriminate].
  destruct (rxCol t) as [[g2 [g3 [x d]]]|] eqn:C; [|discriminate].
  intro H. injection H as <-. unfold wellParsed. cbn [m1 m2 m3 m5].
  destruct (rxCol_shape _ C) as [G2 [s1 R]].
  destruct (rxRow_shape _ R) as [G3 [s2 X]].
  pose proof (rxDst_shape _ (rxCapture_shape _ X)) as D.
  repeat split; eauto.
Qed.

Lemma FindStringSubmatch_shape (s : gostring) (sm : submatch) :
  FindStringSubmatch s = Some sm -> wellParsed sm.
Proof.
  induction s as [|c t IH]; cbn [FindStringSubmatch]; unfold orElse.
  - cbn. discriminate.
  - destruct (rxHere (c :: t)) eqn:R.
    + intro H. injection H as <-. eapply rxHere_shape; eauto.
    + exact IH.
Qed.

(** ** The candidates of [Algebraic] *)

Lemma In_range_from (s : gostring) :
  Forall oneByte s ->
  forall i p r,
    In (p, r) (range_from 0 i s)
    <-> i <= p /\ exists c, nth_error s (Z.to_nat (p - i)) = Some c /\ code c = r.
Proof.
  induction 1 as [|c s C F IH]; intros i p r.
  - cbn. split; [tauto|]. intros (_ & c & E & _).
    destruct (Z.to_nat (p - i)); discriminate.
  - cbn [range_from].
    assert (D : DecodeRune (c :: s) = (code c, 1%nat)).
    { unfold DecodeRune. unfold oneByte in C.
      replace (code c <? 128) with true by (symmetry; apply Z.ltb_lt; lia).
      reflexivity. }
    rewrite D. cbn [Nat.pred In]. rewrite IH. split.
    + intros [E|(L & c' & N & R)].
      * injection E as <- <-. split; [lia|]. exists c.
        replace (Z.to_nat (i - i)) with 0%nat by lia. auto.
      * split; [lia|]. exists c'. split; auto.
        replace (Z.to_nat (p - i)) with (S (Z.to_nat (p - (i + 1)))) by lia.
        exact N.
    + intros (L & c' & N & R).
      destruct (Z.eq_dec p i) as [->|NE].
      * left. replace (Z.to_nat (i - i)) with 0%nat in N by lia.
        cbn in N. injection N as <-. now rewrite R.
      * right. split; [lia|]. exists c'. split; auto.
        replace (Z.to_nat (p - i)) with (S (Z.to_nat (p - (i + 1)))) in N by lia.
        exact N.
Qed.

Lemma In_All (b : Board) (r : rune) (p : Z) :
  Forall oneByte b ->
  (In p (All b r) <-> exists c, at_ b p = Ret c /\ code c = r).
Proof.
  intro F. unfold All, range. rewrite in_map_iff. split.
  - intros ([p' r'] & E & I). cbn in E. subst p'.
    apply filter_In in I. destruct I as [I R]. cbn in R. apply Z.eqb_eq in R.
    apply (In_range_from F) in I. destruct I as (L & c & N & Cd).
    replace (p - 0) with p in N by lia.
    exists c. split; [|congruence].
    assert (Z.to_nat p < List.length b)%nat by (apply nth_error_Some; congruence).
    rewrite at_spec by (unfold len; lia). now rewrite N.
  - intros (c & A & Cd).
    destruct (Z_lt_dec p 0); [rewrite at_out in A by lia; discriminate|].
    destruct (Z_lt_dec p (len b)); [|rewrite at_out in A by lia; discriminate].
    rewrite at_spec in A by lia.
    destruct (nth_error b (Z.to_nat p)) as [c'|] eqn:N; [|discriminate].
    injection A as ->.
    exists (p, r). split; [reflexivity|]. apply filter_In. split.
    + apply (In_range_from F). split; [lia|]. exists c.
      replace (p - 0) with p by lia. auto.
    + cbn. now apply Z.eqb_eq.
Qed.

Lemma eqs_nil (s : gostring) :
  eqs s [] = match s with
             | [] => true
             | _ :: _ => false
             end.
Proof.
  unfold eqs. destruct (list_eq_dec ascii_dec s []) as [->|N]; [reflexivity|].
  destruct s; [congruence | reflexivity].
Qed.

Lemma keepCand_returns (srccol srcrow : gostring) (p : Z) :
  exists k,
    keepCand srccol srcrow p = Ret k
    /\ (k = true <->
        (forall f t, srccol = f :: t -> sub8 (code f) (code "a") = snd (coordsFromIndex p))
        /\ (forall r t, srcrow = r :: t -> sub8 (code r) (code "0") = fst (coordsFromIndex p))).
Proof.
  unfold keepCand. destruct (coordsFromIndex p) as [r c]. cbn [fst snd].
  rewrite !eqs_nil.
  destruct srccol as [|f t], srcrow as [|r0 t0]; cbn [negb bind].
  - exists true. split; auto. split; auto. split; intros; discriminate.
  - rewrite at_0. cbn [bind]. eexists. split; [reflexivity|].
    rewrite Z.eqb_eq. split.
    + intro E. split; intros; [discriminate | congruence].
    + intros [_ H]. eapply H; eauto.
  - rewrite at_0. cbn [bind].
    destruct (sub8 (code f) (code "a") =? c) eqn:E; cbn [negb].
    + exists true. apply Z.eqb_eq in E. split; auto. split; auto.
      split; intros; [congruence | discriminate].
    + exists false. apply Z.eqb_neq in E. split; auto. split; [discriminate|].
      intros [H _]. exfalso. apply E. eapply H; eauto.
  - rewrite at_0. cbn [bind].
    destruct (sub8 (code f) (code "a") =? c) eqn:E; cbn [negb].
    + rewrite at_0. cbn [bind]. eexists. split; [reflexivity|].
      apply Z.eqb_eq in E. rewrite Z.eqb_eq. split.
      * intro E2. split; intros; congruence.
      * intros [_ H]. eapply H; eauto.
    + exists false. apply Z.eqb_neq in E. split; auto. split; [discriminate|].
      intros [H _]. exfalso. apply E. eapply H; eauto.
Qed.

Lemma candidates_returns (srccol srcrow : gostring) (ps : list Z) :
  exists cs,
    candidates srccol srcrow ps = Ret cs
    /\ forall p, In p cs <->
                 In p ps
                 /\ (forall f t, srccol = f :: t ->
                                 sub8 (code f) (code "a") = snd (coordsFromIndex p))
                 /\ (forall r t, srcrow = r :: t ->
                                 sub8 (code r) (code "0") = fst (coordsFromIndex p)).
Proof.
  induction ps as [|a ps (cs & E & IH)]; cbn [candidates].
  - exists []. split; auto. cbn. tauto.
  - destruct (keepCand_returns srccol srcrow a) as (k & K & HK).
    rewrite K, E. cbn [bind]. eexists. split; [reflexivity|].
    intro p. destruct k; cbn [In]; rewrite IH.
    + split.
      * intros [<-|H]; [|tauto]. split; [now left|]. now apply HK.
      * intros ([<-|H] & H2); [now left | right; tauto].
    + split; [tauto|].
      intros ([<-|H] & H2); [|tauto].
      apply HK in H2. discriminate.
Qed.

(** ** The two loops of [Algebraic] *)

Lemma EncodeRune_not_nil (r : rune) : EncodeRune r <> [].
Proof.
  unfold EncodeRune.
  repeat match goal with
         | |- context [if ?x then _ else _] => destruct x
         end; discriminate.
Qed.

Lemma hit_spec (mv : coord) (drow dcol : Z) :
  (row mv =? drow) && (col mv =? dcol) = true <-> mv = mkcoord drow dcol.
Proof.
  destruct mv as [r c]. cbn [row col]. rewrite andb_true_iff, !Z.eqb_eq.
  split; [intros [-> ->]; reflexivity | intro H; injection H; auto].
Qed.

(** What the inner loop leaves in [src]: as it was when the destination
    is not among the moves, else a name, and only if [src] was empty. *)
Lemma scanMoves_some (p drow dcol : Z) (mvs : list coord) :
  forall src src',
    scanMoves p drow dcol mvs src = Some src' ->
    (~ In (mkcoord drow dcol) mvs /\ src' = src)
    \/ (In (mkcoord drow dcol) mvs /\ src = [] /\ src' <> []).
Proof.
  induction mvs as [|mv rest IH]; intros src src' H; cbn [scanMoves] in H.
  - injection H as <-. left. split; auto.
  - destruct ((row mv =? drow) && (col mv =? dcol)) eqn:E.
    + apply hit_spec in E. rewrite eqs_nil in H.
      destruct src as [|c src]; cbn [negb] in H; [|discriminate].
      destruct (coordsFromIndex p) as [srow scol].
      apply IH in H. right. split; [now left|]. split; auto.
      destruct H as [[_ ->]|(_ & H & _)].
      * intro N. apply app_eq_nil in N. destruct N as [N _].
        now apply EncodeRune_not_nil in N.
      * exfalso. apply app_eq_nil in H. destruct H as [H _].
        now apply EncodeRune_not_nil in H.
    + assert (N : mv <> mkcoord drow dcol).
      { intro N. apply hit_spec in N. congruence. }
      apply IH in H. destruct H as [[H1 H2]|(H1 & H2 & H3)].
      * left. split; auto. intros [I|I]; auto.
      * right. split; auto. now right.
Qed.

Lemma scanMoves_none_hit (p drow dcol : Z) (mvs : list coord) (src : gostring) :
  ~ In (mkcoord drow dcol) mvs -> scanMoves p drow dcol mvs src = Some src.
Proof.
  induction mvs as [|mv rest IH]; intro N; cbn [scanMoves]; [reflexivity|].
  destruct ((row mv =? drow) && (col mv =? dcol)) eqn:E.
  - apply hit_spec in E. exfalso. apply N. now left.
  - apply IH. intro I. apply N. now right.
Qed.

Section Scan.

Variable b : Board.
Variables drow dcol : Z.

Lemma scanCands_none (cands : list Z) (src : gostring) :
  (forall p, In p cands -> exists mvs, validMoves b p = Ret mvs) ->
  (forall p, In p cands -> ~ lists b p (mkcoord drow dcol)) ->
  scanCands b drow dcol cands src = Ret (Some src).
Proof.
  induction cands as [|a rest IH]; intros T N; cbn [scanCands]; [reflexivity|].
  destruct (T a (or_introl eq_refl)) as [mvs V]. rewrite V. cbn [bind].
  rewrite scanMoves_none_hit.
  - apply IH; intros p I; [apply T | apply N]; now right.
  - intro I. apply (N a (or_introl eq_refl)). exists mvs. auto.
Qed.

Lemma scanCands_second (cands : list Z) (src : gostring) (p : Z) :
  (forall q, In q cands -> exists mvs, validMoves b q = Ret mvs) ->
  src <> [] -> In p cands -> lists b p (mkcoord drow dcol) ->
  scanCands b drow dcol cands src = Ret None.
Proof.
  induction cands as [|a rest IH]; intros T S I H; [destruct I|].
  cbn [scanCands].
  destruct (T a (or_introl eq_refl)) as [mvs V]. rewrite V. cbn [bind].
  destruct (scanMoves a drow dcol mvs src) as [src'|] eqn:M; [|reflexivity].
  apply scanMoves_some in M. destruct M as [[M1 ->]|(_ & M2 & _)]; [|contradiction].
  destruct I as [->|I].
  - exfalso. destruct H as (mvs' & V' & I'). rewrite V in V'. injection V' as <-.
    contradiction.
  - apply IH; auto. intros q Q. apply T. now right.
Qed.

Lemma scanCands_two (cands : list Z) (src : gostring) (p q : Z) :
  (forall x, In x cands -> exists mvs, validMoves b x = Ret mvs) ->
  p <> q -> In p cands -> In q cands -> lists b p (mkcoord drow dcol) -> lists b q (mkcoord drow dcol) ->
  scanCands b drow dcol cands src = Ret None.
Proof.
  revert src.
  induction cands as [|a rest IH]; intros src T N Ip Iq Hp Hq; [destruct Ip|].
  cbn [scanCands].
  destruct (T a (or_introl eq_refl)) as [mvs V]. rewrite V. cbn [bind].
  destruct (scanMoves a drow dcol mvs src) as [src'|] eqn:M; [|reflexivity].
  assert (T' : forall x, In x rest -> exists mvs, validMoves b x = Ret mvs)
    by (intros x X; apply T; now right).
  apply scanMoves_some in M.
  assert (Found : forall x, lists b a (mkcoord drow dcol) -> a <> x -> In x (a :: rest) -> lists b x (mkcoord drow dcol) ->
                            scanCands b drow dcol rest src' = Ret None).
  { intros x Ha Nx Ix Hx.
    destruct M as [[M1 _]|(_ & _ & M3)].
    - exfalso. destruct Ha as (mvs' & V' & I'). rewrite V in V'. injection V' as <-.
      contradiction.
    - destruct Ix as [Ix|Ix]; [contradiction|].
      eapply scanCands_second; eauto. }
  destruct Ip as [->|Ip]; [now apply (Found q)|].
  destruct Iq as [->|Iq].
  { apply (Found p); auto; try congruence; now right. }
  now apply IH.
Qed.

End Scan.

(** ** [Algebraic] on a parsed notation *)

Lemma eqs_false (a c : gostring) : a <> c -> eqs a c = false.
Proof.
  intro N. destruct (eqs a c) eqn:E; auto. apply eqs_true in E. contradiction.
Qed.

Lemma pieceLetter_cases (l : ascii) :
  isPieceLetter l = true ->
  l = "P"%char \/ l = "B"%char \/ l = "N"%char \/ l = "R"%char \/ l = "Q"%char
  \/ l = "K"%char.
Proof.
  unfold isPieceLetter. cbn [list_ascii_of_string existsb].
  rewrite !orb_true_iff, !Ascii.eqb_eq. intuition discriminate.
Qed.

Lemma wanted_code (sm : submatch) (w : bool) (l : ascii) :
  m1 sm = [l] -> isPieceLetter l = true ->
  (if w then add8 (code l) 32 else code l) = code (wanted sm w).
Proof.
  intros E P. unfold wanted. rewrite E. destruct w; [|reflexivity].
  destruct (pieceLetter_cases _ P) as [->|[->|[->|[->|[->| ->]]]]]; reflexivity.
Qed.

Lemma coordsFromIndex_nonneg (p : Z) :
  0 <= p -> coordsFromIndex p = (8 - p / 8, p mod 8).
Proof.
  intro H. unfold coordsFromIndex.
  now rewrite Z.quot_div_nonneg, Z.rem_mod_nonneg by lia.
Qed.

(** What [Algebraic] does with a notation that parsed: it runs its two
    loops over a list that holds exactly the candidates. *)
Lemma Algebraic_parsed (b : Board) (m : gostring) (w : bool) (sm : submatch) :
  wfBoard b -> notCastling m -> FindStringSubmatch m = Some sm ->
  exists cands drow dcol,
    coordOf (destination sm) = mkcoord drow dcol
    /\ (forall p, In p cands <-> candidate b sm w p)
    /\ Algebraic b m w
       = (found <- scanCands b drow dcol cands [] ;;
          match found with
          | None => Ret ([], [], Some AmbiguousMove)
          | Some src =>
            if eqs src [] then Ret ([], [], Some NoMatchingMove)
            else Ret (src, m5 sm, None)
          end).
Proof.
  intros [L F] [N1 N2] P.
  destruct (FindStringSubmatch_shape _ P) as ((l & M1 & PL) & G2 & G3 & (f & r & M5 & Df & Dr)).
  assert (FL : fileLetter f = true) by (unfold fileLetter; rewrite Df; apply orb_true_r).
  destruct (candidates_returns (m2 sm) (m3 sm) (All b (code (wanted sm w))))
    as (cands & C & IC).
  exists cands, (fst (coordsFromIndex (indexOf f r))), (snd (coordsFromIndex (indexOf f r))).
  split; [|split].
  - unfold coordOf, destination. rewrite M5.
    now destruct (coordsFromIndex (indexOf f r)).
  - intro p. rewrite IC, (In_All _ _ F). unfold candidate. split.
    + intros ((c & A & Cd) & K2 & K3).
      apply code_inj in Cd. subst c.
      assert (R : 0 <= p < 64).
      { destruct (Z_lt_dec p 0); [rewrite at_out in A by lia; discriminate|].
        destruct (Z_lt_dec p 64); [lia|]. rewrite at_out in A by lia. discriminate. }
      rewrite coordsFromIndex_nonneg in K2, K3 by lia. cbn [fst snd] in K2, K3.
      split; [exact R|]. split; [exact A|]. split.
      * intros f' E. rewrite <- (K2 f' [] E).
        destruct G2 as [G2|(f2 & G2 & I2)]; [congruence|].
        rewrite E in G2. injection G2 as ->.
        rewrite inClass_spec in I2. apply andb_true_iff in I2.
        change (code "a") with 97 in *. change (code "h") with 104 in *.
        unfold sub8. rewrite Z.mod_small; lia.
      * intros r' E. rewrite <- (K3 r' [] E).
        destruct G3 as [G3|(r3 & G3 & I3)]; [congruence|].
        rewrite E in G3. injection G3 as ->.
        rewrite inClass_spec in I3. apply andb_true_iff in I3.
        change (code "1") with 49 in *. change (code "8") with 56 in *.
        change (code "0") with 48. unfold sub8. rewrite Z.mod_small; lia.
    + intros (R & A & K2 & K3).
      rewrite coordsFromIndex_nonneg by lia. cbn [fst snd].
      split; [eauto|]. split.
      * intros f' t E.
        destruct G2 as [G2|(f2 & G2 & I2)]; [congruence|].
        rewrite E in G2. injection G2 as -> ->. rewrite <- (K2 f2 E).
        rewrite inClass_spec in I2. apply andb_true_iff in I2.
        change (code "a") with 97 in *. change (code "h") with 104 in *.
        unfold sub8. rewrite Z.mod_small; lia.
      * intros r' t E.
        destruct G3 as [G3|(r3 & G3 & I3)]; [congruence|].
        rewrite E in G3. injection G3 as -> ->. rewrite <- (K3 r3 E).
        rewrite inClass_spec in I3. apply andb_true_iff in I3.
        change (code "1") with 49 in *. change (code "8") with 56 in *.
        change (code "0") with 48. unfold sub8. rewrite Z.mod_small; lia.
  - unfold Algebraic. rewrite (eqs_false N1), (eqs_false N2), P.
    rewrite M1, at_0. cbn [bind]. rewrite M5, Position_cons2, FL.
    unfold rankDigit. rewrite Dr. cbn [bind fst].
    rewrite (wanted_code sm w M1 PL), C. cbn [bind].
    destruct (coordsFromIndex (indexOf f r)) as [drow dcol]. reflexivity.
Qed.

(** C5. On a board of 64 one-byte cells and for a notation other than
    "O-O" and "O-O-O": when the notation does not parse, [Algebraic]
    fails with "invalid notation"; when it parses and no candidate source
    piece (the piece of the letter and of the side, on the source file and
    rank if given) has the destination among its valid moves, it fails
    with "no matching move"; when two different candidates have it, it
    fails with "ambiguous move". Two white knights on B1 and F1 both
    reach the empty D2, and "Nd2" is ambiguous. *)
Theorem C5_Algebraic_failures (b : Board) (m : gostring) (w : bool) :
  wfBoard b -> notCastling m ->
  (FindStringSubmatch m = None ->
   Algebraic b m w = Ret ([], [], Some InvalidNotation))
  /\ (forall sm,
        FindStringSubmatch m = Some sm ->
        ((forall p, candidate b sm w p -> ~ reaches b p (destination sm)) ->
         Algebraic b m w = Ret ([], [], Some NoMatchingMove))
        /\ (forall p q,
              p <> q ->
              candidate b sm w p -> candidate b sm w q ->
              reaches b p (destination sm) -> reaches b q (destination sm) ->
              Algebraic b m w = Ret ([], [], Some AmbiguousMove)))
  /\ (at_ twoKnights (sq "B1") = Ret "n"%char
      /\ at_ twoKnights (sq "F1") = Ret "n"%char
      /\ at_ twoKnights (sq "D2") = Ret emptyCell
      /\ Algebraic twoKnights (str "Nd2") true = Ret ([], [], Some AmbiguousMove)).
Proof.
  intros W NC. split; [|split].
  - intro P. destruct NC as [N1 N2]. unfold Algebraic.
    now rewrite (eqs_false N1), (eqs_false N2), P.
  - intros sm P.
    destruct (Algebraic_parsed w W NC P) as (cands & drow & dcol & D & IC & A).
    assert (T : forall p, In p cands -> exists mvs, validMoves b p = Ret mvs).
    { intros p I. apply IC in I. destruct I as (R & _).
      apply validMoves_returns; [apply W | exact R]. }
    unfold reaches. rewrite D. split.
    + intro None. rewrite A, scanCands_none; auto.
      intros p I. apply None. now apply IC.
    + intros p q N Cp Cq Rp Rq. rewrite A.
      rewrite (@scanCands_two b drow dcol cands [] p q); auto; now apply IC.
  - repeat split; vm_compute; reflexivity.
Qed.

Lemma twoKnights_candidates (sm : submatch) (p : Z) :
  m1 sm = str "N" ->
  candidate twoKnights sm true p -> p = sq "B1" \/ p = sq "F1".
Proof.
  intros M (R & A & _). unfold wanted in A. rewrite M in A.
  apply cells_spec in R. vm_compute in R.
  repeat (destruct R as [<-|R]; [vm_compute in A; try discriminate A; vm_compute; auto|]).
  destruct R.
Qed.

Lemma C5_Algebraic_failures_witness :
  wfBoard twoKnights
  /\ notCastling (str "Nd2")
  /\ Algebraic twoKnights (str "knight to d2") true = Ret ([], [], Some InvalidNotation)
  /\ Algebraic twoKnights (str "Nd5") true = Ret ([], [], Some NoMatchingMove)
  /\ Algebraic twoKnights (str "Nd2") true = Ret ([], [], Some AmbiguousMove).
Proof.
  assert (W : wfBoard twoKnights) by (apply wfBoardb_spec; vm_compute; reflexivity).
  assert (NC : forall s, eqs s (str "O-O") = false -> eqs s (str "O-O-O") = false ->
                         notCastling s).
  { intros s E1 E2. split; intro H; apply eqs_true in H; congruence. }
  split; [exact W|]. split; [apply NC; reflexivity|]. split; [|split].
  - apply (proj1 (C5_Algebraic_failures true W
                    (NC (str "knight to d2") eq_refl eq_refl))).
    vm_compute. reflexivity.
  - apply (proj1 (proj1 (proj2 (C5_Algebraic_failures true W
                                  (NC (str "Nd5") eq_refl eq_refl)))
                        (mksub (str "Nd5") (str "N") [] [] [] (str "d5")) eq_refl)).
    intros p Cp (mvs & V & I).
    apply twoKnights_candidates in Cp; [|reflexivity].
    destruct Cp as [->| ->];
      vm_compute in V; injection V as <-; vm_compute in I;
      repeat (destruct I as [I|I]; [discriminate I|]); destruct I.
  - apply (proj2 (proj1 (proj2 (C5_Algebraic_failures true W
                                  (NC (str "Nd2") eq_refl eq_refl)))
                        (mksub (str "Nd2") (str "N") [] [] [] (str "d2")) eq_refl)
                 (sq "B1") (sq "F1")).
    + vm_compute. discriminate.
    + split; [vm_compute; split; [discriminate | reflexivity]|].
      split; [vm_compute; reflexivity|]. split; intros x E; discriminate E.
    + split; [vm_compute; split; [discriminate | reflexivity]|].
      split; [vm_compute; reflexivity|]. split; intros x E; discriminate E.
    + eexists. split; [vm_compute; reflexivity|].
      vm_compute. repeat ((left; reflexivity) || right).
    + eexists. split; [vm_compute; reflexivity|].
      vm_compute. repeat ((left; reflexivity) || right).
Defined.

(** ** What the pawn on its home rank is given *)

Lemma when_yep (cond : exec bool) (r c : Z) (x : bool) (v : list coord) :
  cond = Ret x ->
  when cond (yep r c) v = Ret (v ++ if x then [mkcoord r c] else []).
Proof.
  intros ->. unfold when, yep. cbn [bind]. destruct x; [reflexivity|].
  now rewrite app_nil_r.
Qed.

Lemma coordsFromIndex_indexFromCoords (r c : Z) :
  onBoard r c -> coordsFromIndex (indexFromCoords r c) = (r, c).
Proof.
  unfold onBoard, indexFromCoords. intro H.
  rewrite coordsFromIndex_nonneg by lia.
  assert (D : ((8 - r) * 8 + c) / 8 = 8 - r)
    by (symmetry; apply Z.div_unique with c; lia).
  assert (M : ((8 - r) * 8 + c) mod 8 = c)
    by (symmetry; apply Z.mod_unique with (8 - r); lia).
  rewrite D, M. f_equal. lia.
Qed.

(** The slice that [validMoves] returns for a black pawn on rank 7: the
    step, the two captures, and the two squares, for which only the cell
    two ahead is tested. *)
Lemma blackPawn_home (b : Board) (c : Z) :
  len b = 64 -> 0 <= c <= 7 ->
  at_ b (indexFromCoords 7 c) = Ret blackPawn ->
  exists x1 x2 x3 x4 : bool,
    empty b 5 c = Ret x4
    /\ validMoves b (indexFromCoords 7 c)
       = Ret ((if x1 then [mkcoord 6 c] else [])
              ++ (if x2 then [mkcoord 6 (c - 1)] else [])
              ++ (if x3 then [mkcoord 6 (c + 1)] else [])
              ++ (if x4 then [mkcoord 5 c] else [])).
Proof.
  intros L C A. unfold validMoves.
  rewrite coordsFromIndex_indexFromCoords by (unfold onBoard; lia).
  rewrite A. cbn [bind]. unfold moves.
  change (oneOf blackPawn "P") with true. cbv iota.
  unfold when at 1. cbn [bind]. change (negb (7 =? 1)) with true. cbv iota.
  change (7 - 1) with 6. change (7 - 2) with 5.
  change (7 =? 7) with true. change (7 =? 4) with false.
  cbn [block and_].
  destruct (@empty_returns b L 6 c ltac:(unfold onBoard; lia)) as [x1 E1].
  rewrite (@when_yep _ 6 c x1 [] E1). cbn [bind app].
  assert (E2 : exists x2, and_ (negb (c =? 0)) (opponentAt b blackPawn 6 (c - 1)) = Ret x2).
  { apply and_returns. intro N. apply negb_true_iff, Z.eqb_neq in N.
    apply opponentAt_returns; auto. unfold onBoard; lia. }
  destruct E2 as [x2 E2]. rewrite (@when_yep _ _ _ _ _ E2). cbn [bind].
  assert (E3 : exists x3, and_ (negb (c =? 7)) (opponentAt b blackPawn 6 (c + 1)) = Ret x3).
  { apply and_returns. intro N. apply negb_true_iff, Z.eqb_neq in N.
    apply opponentAt_returns; auto. unfold onBoard; lia. }
  destruct E3 as [x3 E3]. rewrite (@when_yep _ _ _ _ _ E3). cbn [bind].
  destruct (@empty_returns b L 5 c ltac:(unfold onBoard; lia)) as [x4 E4].
  rewrite (@when_yep _ _ _ _ _ E4). cbn [bind].
  rewrite (@when_yep (Ret false) _ _ false _ eq_refl). cbn [bind].
  rewrite (@when_yep (Ret false) _ _ false _ eq_refl). cbn [bind].
  exists x1, x2, x3, x4. split; [exact E4|].
  now rewrite !app_nil_r, <- !app_assoc.
Qed.

(** On every board of 64 cells, a black pawn on its home rank is given
    the square two ahead exactly when that square is empty, whatever
    stands on the square in between. *)
Lemma blackPawn_two_squares (b : Board) (c : Z) :
  len b = 64 -> 0 <= c <= 7 ->
  at_ b (indexFromCoords 7 c) = Ret blackPawn ->
  exists mvs,
    validMoves b (indexFromCoords 7 c) = Ret mvs
    /\ (In (mkcoord 5 c) mvs <-> at_ b (indexFromCoords 5 c) = Ret emptyCell).
Proof.
  intros L C A.
  destruct (@blackPawn_home b c L C A) as (x1 & x2 & x3 & x4 & E & V).
  eexists. split; [exact V|].
  unfold empty in E.
  destruct (@at_onBoard b L 5 c ltac:(unfold onBoard; lia)) as [o O].
  rewrite O in *. cbn [bind] in E. injection E as <-.
  rewrite !in_app_iff. unfold emptyCell. split.
  - intros [H|[H|[H|H]]].
    + destruct x1; [destruct H as [H|[]]; discriminate H | destruct H].
    + destruct x2; [destruct H as [H|[]]; discriminate H | destruct H].
    + destruct x3; [destruct H as [H|[]]; discriminate H | destruct H].
    + destruct (Ascii.eqb o "_") eqn:Eo; [|destruct H].
      apply Ascii.eqb_eq in Eo. now rewrite Eo.
  - intro H. injection H as H. rewrite H. do 3 right. cbn. now left.
Qed.

(** * Further properties of the code *)

(** ** Cells and coordinates *)

Lemma coordsFromIndex_back (p : Z) :
  indexFromCoords (fst (coordsFromIndex p)) (snd (coordsFromIndex p)) = p.
Proof.
  unfold coordsFromIndex, indexFromCoords. cbn [fst snd].
  pose proof (Z.quot_rem' p 8). lia.
Qed.

Lemma onBoard_index (r c : Z) : onBoard r c -> 0 <= indexFromCoords r c < 64.
Proof. unfold onBoard, indexFromCoords. lia. Qed.

(** X1. [indexFromCoords] undoes [coordsFromIndex] on every integer; a
    cell of 0..63 has its row in 1..8 and its column in 0..7, and on those
    rows and columns [coordsFromIndex] undoes [indexFromCoords], whose
    value is a cell of 0..63. A negative index gets a column below 0 or a
    row above 8, never a cell of the board. *)
Theorem X1_coords_round_trip :
  (forall p, indexFromCoords (fst (coordsFromIndex p)) (snd (coordsFromIndex p)) = p)
  /\ (forall p, 0 <= p < 64 <->
                onBoard (fst (coordsFromIndex p)) (snd (coordsFromIndex p)))
  /\ (forall r c, onBoard r c ->
                  coordsFromIndex (indexFromCoords r c) = (r, c)
                  /\ 0 <= indexFromCoords r c < 64).
Proof.
  split; [exact coordsFromIndex_back|]. split.
  - intro p. split; [apply coordsFromIndex_onBoard|].
    intro O. rewrite <- (coordsFromIndex_back p). now apply onBoard_index.
  - intros r c O. split; [now apply coordsFromIndex_indexFromCoords|].
    now apply onBoard_index.
Qed.

Lemma X1_coords_round_trip_witness :
  onBoard 3 5
  /\ coordsFromIndex (indexFromCoords 3 5) = (3, 5)
  /\ 0 <= indexFromCoords 3 5 < 64.
Proof.
  assert (O : onBoard 3 5) by (unfold onBoard; lia).
  split; [exact O|].
  exact (proj2 (proj2 X1_coords_round_trip) 3 5 O).
Defined.

(** ** [Replace] *)

Lemma Replace_out_of_range (b : Board) (r : rune) (i : Z) :
  Forall oneByte b -> ~ 0 <= i < len b -> Replace b r i = Panic.
Proof.
  intros F H. unfold Replace, set_at. rewrite runes_oneByte by assumption.
  rewrite length_map. fold (len b).
  destruct ((0 <=? i) && (i <? len b)) eqn:E; [|reflexivity].
  apply andb_true_iff in E. lia.
Qed.

(** X2. On a board of one-byte cells, [Replace] with an index of the
    board and a one-byte piece returns a board of the same length that
    holds the piece at the index and is equal to the receiver everywhere
    else; with an index below 0 or from the length on, it panics. *)
Theorem X2_Replace_one_cell (b : Board) (c : ascii) (i : Z) :
  Forall oneByte b -> oneByte c ->
  (0 <= i < len b ->
   exists b', Replace b (code c) i = Ret b'
              /\ len b' = len b
              /\ Forall oneByte b'
              /\ at_ b' i = Ret c
              /\ forall j, j <> i -> at_ b' j = at_ b j)
  /\ (~ 0 <= i < len b -> Replace b (code c) i = Panic).
Proof.
  intros F C. split.
  - intro H. exists (setCell b i c).
    split; [now apply Replace_oneByte|].
    split; [now apply setCell_len|].
    split; [now apply setCell_oneByte|].
    split.
    + rewrite at_setCell by assumption. now rewrite Z.eqb_refl.
    + intros j N. rewrite at_setCell by assumption.
      now rewrite (proj2 (Z.eqb_neq j i) N).
  - now apply Replace_out_of_range.
Qed.

Lemma X2_Replace_one_cell_witness :
  Forall oneByte (Normalize StartingBoard)
  /\ oneByte emptyCell
  /\ (exists b', Replace (Normalize StartingBoard) (code emptyCell) 0 = Ret b'
                 /\ len b' = len (Normalize StartingBoard)
                 /\ Forall oneByte b'
                 /\ at_ b' 0 = Ret emptyCell
                 /\ forall j, j <> 0 -> at_ b' j = at_ (Normalize StartingBoard) j)
  /\ Replace (Normalize StartingBoard) (code emptyCell) (-1) = Panic.
Proof.
  assert (C : oneByte emptyCell) by (unfold oneByte; cbn; lia).
  pose proof (proj2 wf_start) as F.
  destruct (X2_Replace_one_cell 0 F C) as [H1 _].
  destruct (X2_Replace_one_cell (-1) F C) as [_ H2].
  split; [exact F|]. split; [exact C|]. split.
  - apply H1. vm_compute. split; [discriminate | reflexivity].
  - apply H2. vm_compute. intros [H _]. now apply H.
Defined.

(** ** [Normalize] *)

Lemma filter_map_code (P : rune -> bool) (s : gostring) :
  filter P (map code s) = map code (filter (fun c => P (code c)) s).
Proof.
  induction s as [|c s IH]; [reflexivity|]. cbn [map filter].
  destruct (P (code c)); cbn [map]; now rewrite IH.
Qed.

Lemma Forall_filter {A} (P : A -> Prop) (f : A -> bool) (l : list A) :
  Forall P l -> Forall P (filter f l).
Proof.
  induction 1 as [|x l H F IH]; cbn [filter]; [constructor|].
  destruct (f x); auto.
Qed.

Lemma Normalize_oneByte (s : gostring) :
  Forall oneByte s -> Normalize s = filter (fun c => negb (blank c)) s.
Proof.
  intro F. unfold Normalize. rewrite runes_oneByte by assumption.
  rewrite filter_map_code. apply of_runes_oneByte. now apply Forall_filter.
Qed.

Lemma filter_idem {A} (f : A -> bool) (l : list A) :
  filter f (filter f l) = filter f l.
Proof.
  induction l as [|x l IH]; [reflexivity|]. cbn [filter].
  destruct (f x) eqn:E; cbn [filter]; rewrite ?E, IH; reflexivity.
Qed.

(** X3. On a string of one-byte characters, [Normalize] removes the
    white-space bytes (tab, line feed, vertical tab, form feed, carriage
    return, space) and keeps every other byte, in order; its result holds
    no white space and normalizing it again changes nothing. *)
Theorem X3_Normalize_strips_blanks (s : gostring) :
  Forall oneByte s ->
  Normalize s = filter (fun c => negb (blank c)) s
  /\ Forall (fun c => blank c = false) (Normalize s)
  /\ Normalize (Normalize s) = Normalize s
  /\ (forall c, oneByte c ->
                (blank c = true <-> (9 <= code c <= 13 \/ code c = 32))).
Proof.
  intro F. pose proof (Normalize_oneByte F) as N.
  split; [exact N|]. split; [|split].
  - rewrite N. apply Forall_forall. intros c I. apply filter_In in I.
    destruct I as [_ I]. now apply negb_true_iff in I.
  - rewrite (Normalize_oneByte (s := Normalize s)).
    + rewrite N. apply filter_idem.
    + rewrite N. now apply Forall_filter.
  - intros c C. unfold oneByte in C. pose proof (code_range c) as R.
    unfold blank, IsSpace.
    rewrite !orb_true_iff, !andb_true_iff, !Z.eqb_eq, !Z.leb_le. lia.
Qed.

Lemma X3_Normalize_strips_blanks_witness :
  Forall oneByte StartingBoard
  /\ Normalize StartingBoard
     = str "RNBQKBNRPPPPPPPP________________________________pppppppprnbqkbnr"
  /\ Normalize (Normalize StartingBoard) = Normalize StartingBoard.
Proof.
  assert (F : Forall oneByte StartingBoard).
  { apply Forall_forall. intros c I.
    assert (B : forallb (fun c => code c <? 128) StartingBoard = true)
      by (vm_compute; reflexivity).
    rewrite forallb_forall in B. specialize (B c I). unfold oneByte. lia. }
  destruct (X3_Normalize_strips_blanks F) as (_ & _ & I & _).
  split; [exact F|]. split; [vm_compute; reflexivity | exact I].
Defined.

(** ** [Coord] *)

Lemma Coord_cons2 (b : Board) (f r : ascii) (rest : gostring) :
  Coord b (f :: r :: rest) =
  if fileLetter f
  then if rankDigit r
       then Ret (code (upper f), code r - code "0", None)
       else Ret (code " ", 0, Some BadRow)
  else Ret (code " ", 0, Some BadColumn).
Proof.
  unfold Coord. cbn [ToUpper map]. rewrite at_0. cbn [bind].
  rewrite fileLetter_upper. change (code "A") with 65. change (code "H") with 72.
  destruct (code (upper f) <? 65) eqn:E1.
  { replace (65 <=? code (upper f)) with false by (symmetry; apply Z.leb_gt; lia). reflexivity. }
  destruct (72 <? code (upper f)) eqn:E2.
  { replace (code (upper f) <=? 72) with false by (symmetry; apply Z.leb_gt; lia).
    rewrite andb_false_r. reflexivity. }
  replace (65 <=? code (upper f)) with true by (symmetry; apply Z.leb_le; lia).
  replace (code (upper f) <=? 72) with true by (symmetry; apply Z.leb_le; lia).
  cbn [orb andb]. rewrite at_1. cbn [bind].
  rewrite rankDigit_upper. change (code "1") with 49. change (code "8") with 56.
  destruct (code (upper r) <? 49) eqn:E3.
  { replace (49 <=? code (upper r)) with false by (symmetry; apply Z.leb_gt; lia). reflexivity. }
  destruct (56 <? code (upper r)) eqn:E4.
  { replace (code (upper r) <=? 56) with false by (symmetry; apply Z.leb_gt; lia).
    rewrite andb_false_r. reflexivity. }
  assert (R : rankDigit r = true).
  { rewrite rankDigit_upper. apply andb_true_iff. lia. }
  rewrite <- rankDigit_upper, R. cbn [orb].
  rewrite (rankDigit_upper_id _ R) in *.
  unfold sub8. change (code "0") with 48.
  rewrite !Z.mod_small by lia. reflexivity.
Qed.

Lemma Coord_single (b : Board) (c : ascii) :
  Coord b [c] = if fileLetter c then Panic else Ret (code " ", 0, Some BadColumn).
Proof.
  unfold Coord. cbn [ToUpper map]. rewrite at_0. cbn [bind].
  rewrite fileLetter_upper. change (code "A") with 65. change (code "H") with 72.
  destruct (code (upper c) <? 65) eqn:E1.
  { replace (65 <=? code (upper c)) with false by (symmetry; apply Z.leb_gt; lia). reflexivity. }
  destruct (72 <? code (upper c)) eqn:E2.
  { replace (code (upper c) <=? 72) with false by (symmetry; apply Z.leb_gt; lia).
    rewrite andb_false_r. reflexivity. }
  replace (65 <=? code (upper c)) with true by (symmetry; apply Z.leb_le; lia).
  replace (code (upper c) <=? 72) with true by (symmetry; apply Z.leb_le; lia).
  reflexivity.
Qed.

(** X4. [Coord] and [Position] fail together: one panics when the other
    does, and returns the error that the other returns; when [Coord]
    returns a file letter and a rank, the letter is in A..H, the rank in
    1..8, and [Position] returns the index of that row and of the column
    of that letter. *)
Theorem X4_Coord_agrees_with_Position (b : Board) (s : gostring) :
  (Coord b s = Panic <-> Position b s = Panic)
  /\ (forall e, Coord b s = Ret (code " ", 0, Some e) <-> Position b s = Ret (-1, Some e))
  /\ (forall f r e, Coord b s = Ret (f, r, Some e) -> f = code " " /\ r = 0)
  /\ (forall f r, Coord b s = Ret (f, r, None) ->
                  code "A" <= f <= code "H" /\ 1 <= r <= 8
                  /\ Position b s = Ret (indexFromCoords r (f - code "A"), None)).
Proof.
  destruct s as [|f [|r rest]].
  - change (Coord b []) with (@Panic (rune * Z * option error)).
    rewrite Position_nil.
    split; [tauto|]. split; [split; discriminate|]. split; discriminate.
  - rewrite Coord_single, Position_single. destruct (fileLetter f).
    + split; [tauto|]. split; [split; discriminate|]. split; discriminate.
    + split; [split; discriminate|]. split; [|split].
      * intro e. split; intro H; injection H as <-; reflexivity.
      * intros f' r' e H. injection H as <- <- _. auto.
      * discriminate.
  - rewrite Coord_cons2, Position_cons2.
    destruct (fileLetter f) eqn:F; [destruct (rankDigit r) eqn:R|].
    + split; [split; discriminate|]. split; [split; discriminate|].
      split; [discriminate|].
      intros f' r' H. injection H as <- <-.
      pose proof F as F'. rewrite fileLetter_upper in F'.
      pose proof R as R'. unfold rankDigit in R'. rewrite inClass_spec in R'.
      apply andb_true_iff in F', R'.
      change (code "A") with 65. change (code "H") with 72.
      change (code "1") with 49 in *. change (code "8") with 56 in *.
      change (code "0") with 48.
      split; [lia|]. split; [lia|]. reflexivity.
    + split; [split; discriminate|]. split; [|split].
      * intro e. split; intro H; injection H as <-; reflexivity.
      * intros f' r' e H. injection H as <- <- _. auto.
      * discriminate.
    + split; [split; discriminate|]. split; [|split].
      * intro e. split; intro H; injection H as <-; reflexivity.
      * intros f' r' e H. injection H as <- <- _. auto.
      * discriminate.
Qed.

Lemma X4_Coord_agrees_with_Position_witness :
  Coord (Normalize StartingBoard) (str "g1") = Ret (code "G", 1, None)
  /\ Position (Normalize StartingBoard) (str "g1")
     = Ret (indexFromCoords 1 (code "G" - code "A"), None).
Proof.
  assert (C : Coord (Normalize StartingBoard) (str "g1") = Ret (code "G", 1, None))
    by (vm_compute; reflexivity).
  split; [exact C|].
  exact (proj2 (proj2 (proj2 (proj2 (proj2
           (X4_Coord_agrees_with_Position (Normalize StartingBoard) (str "g1"))))
           _ _ C))).
Defined.

(** ** [Move] accepts every move from an occupied cell *)

Lemma castle_returns (b : Board) (k r : ascii) (start stop : Z)
      (stops g r1 r2 r3 r4 : gostring) (ks ke qs qe : Z) :
  Position b r1 = Ret (ks, None) -> Position b r2 = Ret (ke, None) ->
  Position b r3 = Ret (qs, None) -> Position b r4 = Ret (qe, None) ->
  wfBoard b -> oneByte k -> oneByte r ->
  0 <= start < 64 -> 0 <= stop < 64 ->
  0 <= ks < 64 -> 0 <= ke < 64 -> 0 <= qs < 64 -> 0 <= qe < 64 ->
  exists b', castle b k r start stop stops g r1 r2 r3 r4 = Ret b' /\ wfBoard b'.
Proof.
  intros P1 P2 P3 P4 W K R Hs Ht H1 H2 H3 H4.
  assert (E : oneByte "_") by (unfold oneByte; cbn; lia).
  destruct (eqs (ToUpper stops) g) eqn:G.
  - exists (setCell (setCell (setCell (setCell b stop k) ke r) start "_") ks "_").
    split.
    + apply castle_eval; auto. rewrite G, P1, P2. reflexivity.
    + repeat apply setCell_wf; auto.
  - exists (setCell (setCell (setCell (setCell b stop k) qe r) start "_") qs "_").
    split.
    + apply castle_eval; auto. rewrite G, P3, P4. reflexivity.
    + repeat apply setCell_wf; auto.
Qed.

Lemma Move_accepts (b : Board) (f1 r1 f2 r2 p : ascii) (rest1 rest2 : gostring) :
  wfBoard b ->
  fileLetter f1 = true -> rankDigit r1 = true ->
  fileLetter f2 = true -> rankDigit r2 = true ->
  at_ b (indexOf f1 r1) = Ret p -> p <> "_"%char ->
  exists b', Move b (f1 :: r1 :: rest1) (f2 :: r2 :: rest2) = Ret (b', None)
             /\ wfBoard b'.
Proof.
  intros W F1 R1 F2 R2 A N0.
  pose proof (indexOf_range _ _ F1 R1) as I1.
  pose proof (indexOf_range _ _ F2 R2) as I2.
  pose proof (wf_at_oneByte _ W A) as O.
  assert (E : oneByte "_") by (unfold oneByte; cbn; lia).
  unfold Move. cbv zeta. rewrite !Position_ToUpper, !Position_cons2, F1, R1, F2, R2.
  cbn [bind]. rewrite A. cbn [bind].
  rewrite (proj2 (Ascii.eqb_neq p "_") N0).
  destruct (Ascii.eqb p "k" && _ && _) eqn:C1.
  { apply andb_true_iff in C1. destruct C1 as [C1 _].
    apply andb_true_iff in C1. destruct C1 as [C1 _]. 
    destruct (@castle_returns b "k" "r" (indexOf f1 r1) (indexOf f2 r2)
                (ToUpper (f2 :: r2 :: rest2)) (str "G1") (str "H1") (str "F1")
                (str "A1") (str "D1") 63 61 56 59) as (b' & -> & W');
      try reflexivity; auto; try lia; try (unfold oneByte; cbn; lia).
    cbn [bind]. eauto. }
  destruct (Ascii.eqb p "K" && _ && _) eqn:C2.
  { destruct (@castle_returns b "K" "R" (indexOf f1 r1) (indexOf f2 r2)
                (ToUpper (f2 :: r2 :: rest2)) (str "G8") (str "H8") (str "F8")
                (str "A8") (str "D8") 7 5 0 3) as (b' & -> & W');
      try reflexivity; auto; try lia; try (unfold oneByte; cbn; lia).
    cbn [bind]. eauto. }
  cbn [ToUpper map]. unfold andThen. rewrite at_1. cbn [bind].
  assert (Q : exists q,
             (white8 <- (if Ascii.eqb p "p" then Ret (Ascii.eqb (upper r2) "8")
                         else Ret false) ;;
              if white8 then Ret "q"%char
              else
                black1 <- (if Ascii.eqb p "P" then Ret (Ascii.eqb (upper r2) "1")
                           else Ret false) ;;
                if black1 then Ret "Q"%char else Ret p) = Ret q
             /\ oneByte q).
  { destruct (Ascii.eqb p "p"); cbn [bind].
    - destruct (Ascii.eqb (upper r2) "8"); [exists "q"%char; split; auto; unfold oneByte; cbn; lia|].
      destruct (Ascii.eqb p "P"); cbn [bind];
        [destruct (Ascii.eqb (upper r2) "1");
         [exists "Q"%char; split; auto; unfold oneByte; cbn; lia | eauto] | eauto].
    - destruct (Ascii.eqb p "P"); cbn [bind];
        [destruct (Ascii.eqb (upper r2) "1");
         [exists "Q"%char; split; auto; unfold oneByte; cbn; lia | eauto] | eauto]. }
  destruct Q as (q & -> & OQ). cbn [bind].
  pose proof (setCell_wf W I2 OQ) as W1.
  pose proof (setCell_wf W1 I1 E) as W2.
  destruct W as [L F], W1 as [L1 FF1].
  rewrite Replace_oneByte by (auto; lia). cbn [bind].
  rewrite Replace_oneByte by (auto; lia). cbn [bind]. eauto.
Qed.

(** X5. On a board of 64 one-byte cells and for two coordinates of at
    least two bytes each, [Move] decides in this order: a bad source file
    or rank is refused with that error, then a bad destination, then an
    empty source cell with "no piece at"; every refusal returns the
    receiver. Any other move is carried out and returns a board of 64
    one-byte cells: the rules of the pieces are not consulted. *)
Theorem X5_Move_refuses_or_moves (b : Board) (f1 r1 f2 r2 : ascii)
        (rest1 rest2 : gostring) :
  wfBoard b ->
  (fileLetter f1 = false ->
   Move b (f1 :: r1 :: rest1) (f2 :: r2 :: rest2) = Ret (b, Some BadColumn))
  /\ (fileLetter f1 = true -> rankDigit r1 = false ->
      Move b (f1 :: r1 :: rest1) (f2 :: r2 :: rest2) = Ret (b, Some BadRow))
  /\ (fileLetter f1 = true -> rankDigit r1 = true -> fileLetter f2 = false ->
      Move b (f1 :: r1 :: rest1) (f2 :: r2 :: rest2) = Ret (b, Some BadColumn))
  /\ (fileLetter f1 = true -> rankDigit r1 = true ->
      fileLetter f2 = true -> rankDigit r2 = false ->
      Move b (f1 :: r1 :: rest1) (f2 :: r2 :: rest2) = Ret (b, Some BadRow))
  /\ (fileLetter f1 = true -> rankDigit r1 = true ->
      fileLetter f2 = true -> rankDigit r2 = true ->
      (at_ b (indexOf f1 r1) = Ret emptyCell ->
       Move b (f1 :: r1 :: rest1) (f2 :: r2 :: rest2) = Ret (b, Some NoPieceAtSource))
      /\ (at_ b (indexOf f1 r1) <> Ret emptyCell ->
          exists b', Move b (f1 :: r1 :: rest1) (f2 :: r2 :: rest2) = Ret (b', None)
                     /\ wfBoard b')).
Proof.
  intro W. split; [|split; [|split; [|split]]].
  - intro F1. unfold Move. cbv zeta. now rewrite Position_ToUpper, Position_cons2, F1.
  - intros F1 R1. unfold Move. cbv zeta.
    now rewrite Position_ToUpper, Position_cons2, F1, R1.
  - intros F1 R1 F2. unfold Move. cbv zeta.
    now rewrite !Position_ToUpper, !Position_cons2, F1, R1, F2.
  - intros F1 R1 F2 R2. unfold Move. cbv zeta.
    now rewrite !Position_ToUpper, !Position_cons2, F1, R1, F2, R2.
  - intros F1 R1 F2 R2. split.
    + intro A. unfold Move. cbv zeta.
      rewrite !Position_ToUpper, !Position_cons2, F1, R1, F2, R2. cbn [bind].
      rewrite A. reflexivity.
    + intro A.
      destruct (@wf_at b (indexOf f1 r1) W (indexOf_range _ _ F1 R1)) as (p & Ap & _).
      apply Move_accepts with (p := p); auto.
      intros ->. contradiction.
Qed.

Lemma X5_Move_refuses_or_moves_witness :
  wfBoard (Normalize StartingBoard)
  /\ validMoves (Normalize StartingBoard) (sq "A1") = Ret []
  /\ (exists b', Move (Normalize StartingBoard) (str "A1") (str "H5") = Ret (b', None)
                 /\ wfBoard b')
  /\ Move (Normalize StartingBoard) (str "A3") (str "A4")
     = Ret (Normalize StartingBoard, Some NoPieceAtSource)
  /\ Move (Normalize StartingBoard) (str "A9") (str "A4")
     = Ret (Normalize StartingBoard, Some BadRow).
Proof.
  pose proof wf_start as W.
  destruct (X5_Move_refuses_or_moves "A" "1" "H" "5" [] [] W) as (_ & _ & _ & _ & H1).
  destruct (X5_Move_refuses_or_moves "A" "3" "A" "4" [] [] W) as (_ & _ & _ & _ & H2).
  destruct (X5_Move_refuses_or_moves "A" "9" "A" "4" [] [] W) as (_ & H3 & _).
  split; [exact W|]. split; [vm_compute; reflexivity|]. split; [|split].
  - apply (proj2 (H1 eq_refl eq_refl eq_refl eq_refl)). vm_compute. discriminate.
  - apply (proj1 (H2 eq_refl eq_refl eq_refl eq_refl)). vm_compute. reflexivity.
  - apply H3; reflexivity.
Defined.

(** ** Where the listed moves go *)

Section Keeps.

Variable b : Board.
Variable piece : ascii.
Hypothesis len64 : len b = 64.
Variable P : coord -> Prop.

Lemma yep_keeps (r c : Z) : P (mkcoord r c) -> keeps P (yep r c).
Proof.
  intros H v F. unfold yep. eexists. split; [reflexivity|].
  apply Forall_app. split; auto.
Qed.

Lemma when_keeps (cond : exec bool) (body : stmt) :
  (exists x, cond = Ret x /\ (x = true -> keeps P body)) -> keeps P (when cond body).
Proof.
  intros (x & -> & H) v F. unfold when. cbn. destruct x; [apply (H eq_refl v F) | eauto].
Qed.

Lemma block_keeps (ss : list stmt) : Forall (keeps P) ss -> keeps P (block ss).
Proof.
  induction 1 as [|s ss S F IH]; intros v Fv; cbn.
  - eauto.
  - destruct (S v Fv) as (v' & -> & Fv'). cbn. now apply IH.
Qed.

(** The two ways of [validMoves] to accept the cell of a jump or of a
    ray. *)
Hypothesis P_empty :
  forall r c, onBoard r c -> empty b r c = Ret true -> P (mkcoord r c).
Hypothesis P_opponent :
  forall r c, onBoard r c -> opponentAt b piece r c = Ret true -> P (mkcoord r c).

Lemma cruise_keeps (r c : Z) (v : list coord) :
  onBoard r c -> Forall P v ->
  exists g v', cruise b piece r c v = Ret (g, v') /\ Forall P v'.
Proof.
  intros O F. unfold cruise, yep.
  destruct (@empty_returns b len64 r c O) as [e E]. rewrite E. cbn.
  destruct e.
  - do 2 eexists. split; [reflexivity|]. apply Forall_app. split; auto.
  - destruct (@opponentAt_returns b piece len64 r c O) as [o Eo]. rewrite Eo. cbn.
    destruct o; cbn; do 2 eexists; (split; [reflexivity|]); auto.
    apply Forall_app. split; auto.
Qed.

Lemma ray_keeps (fuel : nat) (cond : Z -> Z -> bool) (dr dc : Z) :
  -1 <= dr <= 1 -> -1 <= dc <= 1 ->
  (forall r c, cond r c = true ->
               (0 < dr -> r <= 8) /\ (dr < 0 -> 1 <= r)
               /\ (0 < dc -> c <= 7) /\ (dc < 0 -> 0 <= c)) ->
  forall r c,
    (0 <= dr -> 1 <= r) -> (dr <= 0 -> r <= 8) ->
    (0 <= dc -> 0 <= c) -> (dc <= 0 -> c <= 7) ->
    keeps P (ray b piece fuel cond dr dc r c).
Proof.
  intros Hdr Hdc Hc. induction fuel as [|f IH]; intros r c R1 R2 C1 C2 v F; cbn.
  - eauto.
  - destruct (cond r c) eqn:E; [|eauto].
    destruct (Hc r c E) as (B1 & B2 & B3 & B4).
    assert (O : onBoard r c) by (unfold onBoard; lia).
    destruct (cruise_keeps O F) as (g & v' & -> & F'). cbn.
    destruct g; [|eauto].
    apply IH; auto; lia.
Qed.

Lemma jump_keeps (ins : bool) (r c : Z) :
  (ins = true -> onBoard r c) -> keeps P (jump b piece ins r c).
Proof.
  intro H. unfold jump. apply when_keeps.
  destruct ins; cbn [and_].
  - specialize (H eq_refl).
    destruct (@empty_returns b len64 r c H) as [e E].
    destruct (@opponentAt_returns b piece len64 r c H) as [o Eo].
    unfold or_. rewrite E. cbn [bind]. destruct e.
    + eexists. split; [reflexivity|]. intros _. apply yep_keeps. auto.
    + rewrite Eo. exists o. split; [reflexivity|]. intros ->.
      apply yep_keeps. auto.
  - exists false. split; [reflexivity | discriminate].
Qed.

Lemma rookRays_keep (or oc : Z) : onBoard or oc -> Forall (keeps P) (rookRays b piece or oc).
Proof.
  unfold onBoard. intro H. unfold rookRays.
  repeat constructor; apply ray_keeps; try lia;
    intros r c E; try apply Z.leb_le in E; lia.
Qed.

Lemma bishopRays_keep (or oc : Z) :
  onBoard or oc -> Forall (keeps P) (bishopRays b piece or oc).
Proof.
  unfold onBoard. intro H. unfold bishopRays.
  repeat constructor; apply ray_keeps; try lia;
    intros r c E; apply andb_true_iff in E; destruct E as [E1 E2];
    apply Z.leb_le in E1, E2; lia.
Qed.

Ltac bounds :=
  repeat match goal with
         | H : negb _ = true |- _ => apply negb_true_iff in H
         | H : (_ =? _) = false |- _ => apply Z.eqb_neq in H
         | H : (_ =? _) = true |- _ => apply Z.eqb_eq in H
         | H : (_ && _) = true |- _ => apply andb_true_iff in H; destruct H
         | H : (_ <=? _) = true |- _ => apply Z.leb_le in H
         end.

(** A guarded [yep] of the pawn, when [P] holds of every cell of the
    board. *)
Ltac pawn_step HP :=
  apply when_keeps;
  match goal with
  | |- exists x, ?m = Ret x /\ _ =>
    let E := fresh "E" in
    assert (E : exists x, m = Ret x);
    [ repeat (apply and_returns; intro);
      first [apply empty_returns | apply opponentAt_returns | apply at_is_returns];
      auto; bounds; unfold onBoard in *; lia
    | destruct E as [x E]; exists x; split; [exact E|];
      intro; subst x; apply yep_keeps; apply HP;
      repeat match goal with
             | H : and_ ?a _ = Ret true |- _ =>
               destruct a eqn:?; cbn [and_] in H; [|discriminate H]
             end;
      bounds; unfold onBoard in *; lia ]
  end.

Lemma moves_keep (or oc : Z) :
  onBoard or oc ->
  pawnLetter piece = false \/ (forall r c, onBoard r c -> P (mkcoord r c)) ->
  keeps P (moves b piece or oc).
Proof.
  intros H Pawn. unfold moves.
  destruct (oneOf piece "P") eqn:P1.
  { destruct Pawn as [Pawn|HP].
    { unfold pawnLetter, oneOf in *. cbn [list_ascii_of_string existsb] in *.
      rewrite orb_false_r in P1. rewrite P1 in Pawn. discriminate Pawn. }
    apply when_keeps. eexists. split; [reflexivity|]. intro N.
    apply block_keeps. repeat constructor; pawn_step HP. }
  destruct (oneOf piece "p") eqn:P2.
  { destruct Pawn as [Pawn|HP].
    { unfold pawnLetter, oneOf in *. cbn [list_ascii_of_string existsb] in *.
      rewrite orb_false_r in P2. rewrite P2 in Pawn. rewrite orb_true_r in Pawn.
      discriminate Pawn. }
    apply when_keeps. eexists. split; [reflexivity|]. intro N.
    apply block_keeps. repeat constructor; pawn_step HP. }
  destruct (oneOf piece "Rr"); [apply block_keeps; now apply rookRays_keep|].
  destruct (oneOf piece "Bb"); [apply block_keeps; now apply bishopRays_keep|].
  destruct (oneOf piece "Nn").
  { apply block_keeps. repeat constructor; apply jump_keeps; intro I;
      bounds; unfold onBoard in *; lia. }
  destruct (oneOf piece "Kk").
  { apply block_keeps. repeat constructor; apply jump_keeps; intro I;
      bounds; unfold onBoard in *; lia. }
  destruct (oneOf piece "Qq").
  { apply block_keeps. apply Forall_app. split;
      [now apply rookRays_keep | now apply bishopRays_keep]. }
  intros v F. eauto.
Qed.

End Keeps.

Lemma oneOf_In (c : ascii) (s : string) :
  oneOf c s = true <-> In c (list_ascii_of_string s).
Proof.
  unfold oneOf. rewrite existsb_exists. split.
  - intros (x & I & E). apply Ascii.eqb_eq in E. now subst.
  - intro I. exists c. split; auto. apply Ascii.eqb_refl.
Qed.

Lemma moves_of_no_piece (b : Board) (piece : ascii) (or oc : Z) (v : list coord) :
  pieceLetter piece = false -> moves b piece or oc v = Ret v.
Proof.
  intro N. unfold moves.
  assert (Off : forall s, (forall x, In x (list_ascii_of_string s) ->
                                     In x (list_ascii_of_string "PpRrBbNnKkQq")) ->
                          oneOf piece s = false).
  { intros s Sub. destruct (oneOf piece s) eqn:E; auto.
    apply oneOf_In in E. apply Sub in E. apply oneOf_In in E.
    unfold pieceLetter in N. congruence. }
  rewrite !Off; [reflexivity|..]; intros x I; cbn in *; intuition.
Qed.

Lemma sameCase_opposes (piece o : ascii) :
  pieceLetter piece = true ->
  o = "_"%char \/ opposes piece o = true -> sameCase piece o = false.
Proof.
  intros L H. apply oneOf_In in L. cbn in L.
  unfold sameCase, opposes in *. rewrite !inClass_spec.
  pose proof (code_range o) as R.
  change (code "A") with 65 in *. change (code "Z") with 90 in *.
  change (code "a") with 97 in *. change (code "z") with 122 in *.
  assert (C : (code piece <? 90) = true /\ 65 <= code piece <= 90
              \/ (code piece <? 90) = false /\ 97 <= code piece <= 122).
  { repeat (destruct L as [<-|L]; [cbn; lia|]). destruct L. }
  assert (O : o = "_"%char \/ (code piece <? 90) = true /\ 97 <= code o
              \/ (code piece <? 90) = false /\ code o < 90).
  { destruct H as [H|H]; [now left | right].
    destruct (code piece <? 90); [left | right]; split; auto.
    - now apply Z.leb_le.
    - now apply Z.ltb_lt. }
  apply orb_false_iff. rewrite !andb_false_iff, !Z.leb_gt.
  destruct O as [->|O]; [change (code "_") with 95; lia|].
  destruct C as [[C1 C2]|[C1 C2]], O as [[O1 O2]|[O1 O2]]; try congruence; lia.
Qed.

Lemma validMoves_keeps (b : Board) (p : Z) (piece : ascii) (P : coord -> Prop) :
  len b = 64 -> 0 <= p < 64 -> at_ b p = Ret piece ->
  (forall r c, onBoard r c -> empty b r c = Ret true -> P (mkcoord r c)) ->
  (forall r c, onBoard r c -> opponentAt b piece r c = Ret true -> P (mkcoord r c)) ->
  pawnLetter piece = false \/ (forall r c, onBoard r c -> P (mkcoord r c)) ->
  exists mvs, validMoves b p = Ret mvs /\ Forall P mvs.
Proof.
  intros L H A PE PO Pawn. unfold validMoves.
  pose proof (coordsFromIndex_onBoard H) as O.
  destruct (coordsFromIndex p) as [or oc]. cbn [fst snd] in O.
  rewrite A. cbn [bind].
  apply (@moves_keep b piece L P PE PO or oc O Pawn). constructor.
Qed.

Lemma validMoves_targets (b : Board) (p : Z) (mvs : list coord) (mv : coord) :
  len b = 64 -> 0 <= p < 64 -> validMoves b p = Ret mvs -> In mv mvs ->
  inside mv
  /\ exists piece,
      at_ b p = Ret piece
      /\ pieceLetter piece = true
      /\ (pawnLetter piece = false ->
          exists o, at_ b (indexFromCoords (row mv) (col mv)) = Ret o
                    /\ (o = "_"%char \/ opposes piece o = true)
                    /\ sameCase piece o = false).
Proof.
  intros L H V I.
  destruct (@at_onBoard b L _ _ (coordsFromIndex_onBoard H)) as [piece A].
  rewrite coordsFromIndex_back in A.
  assert (PL : pieceLetter piece = true).
  { destruct (pieceLetter piece) eqn:E; auto. exfalso.
    unfold validMoves in V. destruct (coordsFromIndex p) as [or oc].
    rewrite A in V. cbn [bind] in V. rewrite moves_of_no_piece in V by assumption.
    injection V as <-. destruct I. }
  split.
  - destruct (@validMoves_keeps b p piece inside L H A) as (mvs' & V' & F); auto.
    rewrite V in V'. injection V' as <-.
    rewrite Forall_forall in F. now apply F.
  - exists piece. split; [exact A|]. split; [exact PL|]. intro NP.
    destruct (@validMoves_keeps b p piece (freeFor b piece) L H A) as (mvs' & V' & F); auto.
    + intros r c O E. split; [exact O|]. cbn [row col].
      unfold empty in E. destruct (@at_onBoard b L r c O) as [o Ao]. rewrite Ao in *.
      cbn [bind] in E. injection E as E. apply Ascii.eqb_eq in E.
      exists o. auto.
    + intros r c O E. split; [exact O|]. cbn [row col].
      unfold opponentAt, empty in E. destruct (@at_onBoard b L r c O) as [o Ao].
      rewrite Ao in *. cbn [bind] in E. exists o. split; auto.
      destruct (Ascii.eqb o "_"); [discriminate E|]. right. unfold opposes.
      destruct (code piece <? code "Z"); now injection E.
    + rewrite V in V'. injection V' as <-.
      rewrite Forall_forall in F. destruct (F mv I) as (_ & o & Ao & Free).
      exists o. split; [exact Ao|]. split; [exact Free|].
      now apply sameCase_opposes.
Qed.


(** X6. On a board of 64 cells, every move that [validMoves] lists for a
    cell goes to a cell of the board, and the cell it was asked for holds
    one of the twelve piece letters: an empty cell or another byte has no
    moves. For a rook, bishop, knight, king or queen the destination is
    empty or holds a piece that [opponentAt] accepts, never a letter of
    the mover's own case. The pawn's capture beside a pawn of the other
    side is not bound by this: on [pawnOwnKnight] the black pawn of E4 is
    given D3, which holds a black knight. *)
Theorem X6_validMoves_targets :
  (forall (b : Board) (p : Z) (mvs : list coord) (mv : coord),
     len b = 64 -> 0 <= p < 64 -> validMoves b p = Ret mvs -> In mv mvs ->
     inside mv
     /\ exists piece,
         at_ b p = Ret piece
         /\ pieceLetter piece = true
         /\ (pawnLetter piece = false ->
             exists o, at_ b (indexFromCoords (row mv) (col mv)) = Ret o
                       /\ (o = "_"%char \/ opposes piece o = true)
                       /\ sameCase piece o = false))
  /\ (at_ pawnOwnKnight (sq "E4") = Ret blackPawn
      /\ at_ pawnOwnKnight (sq "D3") = Ret "N"%char
      /\ validMoves pawnOwnKnight (sq "E4") = Ret [mkcoord 3 4; mkcoord 3 3]
      /\ indexFromCoords 3 3 = sq "D3").
Proof.
  split; [exact validMoves_targets | repeat split; vm_compute; reflexivity].
Qed.

Lemma X6_validMoves_targets_witness :
  validMoves (Normalize StartingBoard) (sq "G1") = Ret [mkcoord 3 7; mkcoord 3 5]
  /\ inside (mkcoord 3 5)
  /\ exists piece,
      at_ (Normalize StartingBoard) (sq "G1") = Ret piece
      /\ pieceLetter piece = true
      /\ (pawnLetter piece = false ->
          exists o, at_ (Normalize StartingBoard) (indexFromCoords 3 5) = Ret o
                    /\ (o = "_"%char \/ opposes piece o = true)
                    /\ sameCase piece o = false).
Proof.
  assert (V : validMoves (Normalize StartingBoard) (sq "G1")
              = Ret [mkcoord 3 7; mkcoord 3 5]) by (vm_compute; reflexivity).
  split; [exact V|].
  apply (proj1 X6_validMoves_targets (Normalize StartingBoard) (sq "G1")
               [mkcoord 3 7; mkcoord 3 5] (mkcoord 3 5)).
  - vm_compute. reflexivity.
  - vm_compute. split; [discriminate | reflexivity].
  - exact V.
  - right. left. reflexivity.
Defined.

(** ** The names of the cells *)

Lemma coordName_cell (p : Z) :
  0 <= p < 64 ->
  exists f r, coordName p = [f; r]
              /\ inClass "A" "H" f = true /\ fileLetter f = true
              /\ rankDigit r = true /\ indexOf f r = p
              /\ code f = code "A" + p mod 8 /\ code r = code "0" + (8 - p / 8).
Proof.
  intro H. apply cells_spec in H. vm_compute in H.
  repeat (destruct H as [<-|H];
          [do 2 eexists; split; [vm_compute; reflexivity|];
           repeat split; vm_compute; reflexivity|]).
  destruct H.
Qed.

Lemma pieceLetter_not_empty (c : ascii) : pieceLetter c = true -> c <> "_"%char.
Proof. intros H ->. discriminate H. Qed.

(** X7. On a board of 64 one-byte cells, [Move] carries out every move
    that [validMoves] lists: from the name of the cell to the name of the
    destination it returns a board and no error. *)
Theorem X7_listed_moves_are_accepted (b : Board) (p : Z) (mvs : list coord) (mv : coord) :
  wfBoard b -> 0 <= p < 64 -> validMoves b p = Ret mvs -> In mv mvs ->
  exists b',
    Move b (coordName p) (coordName (indexFromCoords (row mv) (col mv))) = Ret (b', None)
    /\ wfBoard b'.
Proof.
  intros W H V I. pose proof (proj1 W) as L.
  destruct (@validMoves_targets b p mvs mv L H V I) as (O & piece & A & PL & _).
  destruct (coordName_cell H) as (f1 & r1 & -> & _ & F1 & R1 & I1 & _).
  destruct (coordName_cell (onBoard_index O)) as (f2 & r2 & -> & _ & F2 & R2 & _).
  apply Move_accepts with (p := piece); auto.
  - now rewrite I1.
  - now apply pieceLetter_not_empty.
Qed.

Lemma X7_listed_moves_are_accepted_witness :
  wfBoard (Normalize StartingBoard)
  /\ validMoves (Normalize StartingBoard) (sq "G1") = Ret [mkcoord 3 7; mkcoord 3 5]
  /\ exists b',
      Move (Normalize StartingBoard) (coordName (sq "G1"))
           (coordName (indexFromCoords 3 5)) = Ret (b', None)
      /\ wfBoard b'.
Proof.
  assert (V : validMoves (Normalize StartingBoard) (sq "G1")
              = Ret [mkcoord 3 7; mkcoord 3 5]) by (vm_compute; reflexivity).
  split; [exact wf_start|]. split; [exact V|].
  apply (@X7_listed_moves_are_accepted (Normalize StartingBoard) (sq "G1")
           [mkcoord 3 7; mkcoord 3 5] (mkcoord 3 5) wf_start).
  - vm_compute. split; [discriminate | reflexivity].
  - exact V.
  - right. left. reflexivity.
Defined.

(** ** What a successful [Algebraic] returns *)

Lemma scanMoves_value (p drow dcol : Z) (mvs : list coord) :
  forall src src',
    scanMoves p drow dcol mvs src = Some src' ->
    src' = src \/ (In (mkcoord drow dcol) mvs /\ src' = coordName p).
Proof.
  induction mvs as [|mv rest IH]; intros src src' H; cbn [scanMoves] in H.
  - injection H as <-. now left.
  - destruct ((row mv =? drow) && (col mv =? dcol)) eqn:E.
    + apply hit_spec in E. rewrite eqs_nil in H.
      destruct src as [|c src]; cbn [negb] in H; [|discriminate].
      unfold coordName in *. destruct (coordsFromIndex p) as [srow scol].
      apply IH in H. right. split; [now left|].
      destruct H as [H|[_ H]]; exact H.
    + apply IH in H. destruct H as [H|[H1 H2]]; [now left|].
      right. split; [now right | exact H2].
Qed.

Lemma scanCands_value (b : Board) (drow dcol : Z) (cands : list Z) :
  forall src0 src,
    scanCands b drow dcol cands src0 = Ret (Some src) ->
    src = src0
    \/ exists p, In p cands /\ lists b p (mkcoord drow dcol) /\ src = coordName p.
Proof.
  induction cands as [|a rest IH]; intros src0 src H; cbn [scanCands] in H.
  - injection H as <-. now left.
  - destruct (validMoves b a) as [mvs|] eqn:V; [|discriminate H]. cbn [bind] in H.
    destruct (scanMoves a drow dcol mvs src0) as [src1|] eqn:M; [|discriminate H].
    apply scanMoves_value in M. apply IH in H.
    destruct H as [->|(p & I & Lp & E)].
    + destruct M as [->|[M1 M2]]; [now left|].
      right. exists a. split; [now left|]. split; [|exact M2].
      exists mvs. auto.
    + right. exists p. split; [now right | auto].
Qed.

Lemma Position_coordName (b : Board) (p : Z) :
  0 <= p < 64 -> Position b (coordName p) = Ret (p, None).
Proof.
  intro H. destruct (coordName_cell H) as (f & r & -> & _ & F & R & I & _).
  now rewrite Position_cons2, F, R, I.
Qed.

Lemma wanted_pieceLetter (sm : submatch) (w : bool) :
  wellParsed sm -> pieceLetter (wanted sm w) = true.
Proof.
  intros ((l & M1 & PL) & _). unfold wanted. rewrite M1.
  destruct (pieceLetter_cases _ PL) as [->|[->|[->|[->|[->| ->]]]]];
    destruct w; reflexivity.
Qed.

(** The source that [Algebraic] returns is the name of the only candidate
    that has the destination among its moves. *)
Lemma Algebraic_sound (b : Board) (m src dst : gostring) (w : bool) :
  wfBoard b -> notCastling m ->
  Algebraic b m w = Ret (src, dst, None) ->
  exists sm p,
    FindStringSubmatch m = Some sm
    /\ candidate b sm w p
    /\ reaches b p (destination sm)
    /\ src = coordName p
    /\ dst = m5 sm
    /\ (forall q, candidate b sm w q -> reaches b q (destination sm) -> q = p).
Proof.
  intros W NC A.
  destruct (FindStringSubmatch m) as [sm|] eqn:P.
  2:{ destruct NC as [N1 N2]. unfold Algebraic in A.
      rewrite (eqs_false N1), (eqs_false N2), P in A. discriminate A. }
  destruct (Algebraic_parsed w W NC P) as (cands & drow & dcol & D & IC & E).
  assert (T : forall p, In p cands -> exists mvs, validMoves b p = Ret mvs).
  { intros p I. apply IC in I. destruct I as (R & _).
    apply validMoves_returns; [apply W | exact R]. }
  rewrite E in A.
  destruct (scanCands b drow dcol cands []) as [[s|]|] eqn:S; cbn [bind] in A;
    try discriminate A.
  destruct (eqs s []) eqn:Es; [discriminate A|].
  injection A as <- <-.
  destruct (scanCands_value _ _ _ _ _ S) as [->|(p & I & Lp & ->)].
  { rewrite eqs_nil in Es. discriminate Es. }
  exists sm, p. unfold reaches. rewrite D.
  split; [reflexivity|]. split; [now apply IC|]. split; [exact Lp|].
  split; [reflexivity|]. split; [reflexivity|].
  intros q Cq Rq.
  destruct (Z.eq_dec q p) as [->|N]; [reflexivity|]. exfalso.
  assert (S2 : scanCands b drow dcol cands [] = Ret None).
  { apply (@scanCands_two b drow dcol cands [] q p); auto; now apply IC. }
  rewrite S in S2. discriminate S2.
Qed.

(** X8. On a board of 64 one-byte cells, when [Algebraic] accepts a
    notation other than the castling words, the source it returns names a
    candidate source piece of the notation that has the destination among
    its valid moves, and no other candidate has it; [Position] reads the
    returned source as that cell and the returned destination, the
    lower-case text of the notation, as the destination. *)
Theorem X8_Algebraic_success (b : Board) (m src dst : gostring) (w : bool) :
  wfBoard b -> notCastling m ->
  Algebraic b m w = Ret (src, dst, None) ->
  exists sm p,
    FindStringSubmatch m = Some sm
    /\ candidate b sm w p
    /\ reaches b p (destination sm)
    /\ (forall q, candidate b sm w q -> reaches b q (destination sm) -> q = p)
    /\ dst = m5 sm
    /\ Position b src = Ret (p, None)
    /\ Position b dst = Ret (destination sm, None).
Proof.
  intros W NC A.
  destruct (@Algebraic_sound b m src dst w W NC A) as (sm & p & P & C & R & -> & -> & U).
  exists sm, p. split; [exact P|]. split; [exact C|]. split; [exact R|].
  split; [exact U|]. split; [reflexivity|]. split.
  - apply Position_coordName. apply C.
  - destruct (FindStringSubmatch_shape _ P) as (_ & _ & _ & (f & r & M5 & Df & Dr)).
    unfold destination. rewrite M5, Position_cons2.
    unfold fileLetter, rankDigit. rewrite Df, Dr, orb_true_r. reflexivity.
Qed.

Lemma X8_Algebraic_success_witness :
  wfBoard (Normalize StartingBoard)
  /\ notCastling (str "Nf3")
  /\ Algebraic (Normalize StartingBoard) (str "Nf3") true = Ret (str "G1", str "f3", None)
  /\ exists sm p,
      FindStringSubmatch (str "Nf3") = Some sm
      /\ candidate (Normalize StartingBoard) sm true p
      /\ reaches (Normalize StartingBoard) p (destination sm)
      /\ (forall q, candidate (Normalize StartingBoard) sm true q ->
                    reaches (Normalize StartingBoard) q (destination sm) -> q = p)
      /\ str "f3" = m5 sm
      /\ Position (Normalize StartingBoard) (str "G1") = Ret (p, None)
      /\ Position (Normalize StartingBoard) (str "f3") = Ret (destination sm, None).
Proof.
  assert (NC : notCastling (str "Nf3")) by (split; discriminate).
  assert (A : Algebraic (Normalize StartingBoard) (str "Nf3") true
              = Ret (str "G1", str "f3", None)) by (vm_compute; reflexivity).
  split; [exact wf_start|]. split; [exact NC|]. split; [exact A|].
  exact (@X8_Algebraic_success _ _ _ _ _ wf_start NC A).
Defined.

(** X9. On a board of 64 one-byte cells, [Move] carries out every pair
    of coordinates that [Algebraic] returns for a notation other than the
    castling words: parsing a move and then making it never fails. *)
Theorem X9_Algebraic_then_Move (b : Board) (m src dst : gostring) (w : bool) :
  wfBoard b -> notCastling m ->
  Algebraic b m w = Ret (src, dst, None) ->
  exists b', Move b src dst = Ret (b', None) /\ wfBoard b'.
Proof.
  intros W NC A.
  destruct (@Algebraic_sound b m src dst w W NC A) as (sm & p & P & C & R & -> & -> & U).
  pose proof (FindStringSubmatch_shape _ P) as WP.
  destruct WP as (M1 & _ & _ & (f & r & M5 & Df & Dr)).
  destruct C as (Hp & Ap & _).
  destruct (coordName_cell Hp) as (f1 & r1 & -> & _ & F1 & R1 & I1 & _).
  rewrite M5. apply Move_accepts with (p := wanted sm w); auto.
  - unfold fileLetter. rewrite Df. apply orb_true_r.
  - now rewrite I1.
  - apply pieceLetter_not_empty. apply wanted_pieceLetter.
    apply (FindStringSubmatch_shape _ P).
Qed.

Lemma X9_Algebraic_then_Move_witness :
  wfBoard (Normalize StartingBoard)
  /\ notCastling (str "Nf3")
  /\ Algebraic (Normalize StartingBoard) (str "Nf3") true = Ret (str "G1", str "f3", None)
  /\ exists b', Move (Normalize StartingBoard) (str "G1") (str "f3") = Ret (b', None)
                /\ wfBoard b'.
Proof.
  assert (NC : notCastling (str "Nf3")) by (split; discriminate).
  assert (A : Algebraic (Normalize StartingBoard) (str "Nf3") true
              = Ret (str "G1", str "f3", None)) by (vm_compute; reflexivity).
  split; [exact wf_start|]. split; [exact NC|]. split; [exact A|].
  exact (@X9_Algebraic_then_Move _ _ _ _ _ wf_start NC A).
Defined.

(** ** From coordinates to notation and back, on every board *)

Lemma scanMoves_twice (p drow dcol : Z) (mvs : list coord) :
  forall src,
    (2 <= times (mkcoord drow dcol) mvs)%nat
    \/ (src <> [] /\ (1 <= times (mkcoord drow dcol) mvs)%nat) ->
    scanMoves p drow dcol mvs src = None.
Proof.
  unfold times. cbn [row col].
  induction mvs as [|mv rest IH]; intros src H; cbn [filter List.length] in H.
  - destruct H as [H|[_ H]]; lia.
  - cbn [scanMoves]. destruct ((row mv =? drow) && (col mv =? dcol)) eqn:E.
    + cbn [List.length] in H. rewrite eqs_nil.
      destruct src as [|c src]; cbn [negb]; [|reflexivity].
      destruct (coordsFromIndex p) as [srow scol]. apply IH. right. split.
      * intro N. apply app_eq_nil in N. destruct N as [N _].
        now apply EncodeRune_not_nil in N.
      * destruct H as [H|[H _]]; [lia | congruence].
    + apply IH. exact H.
Qed.

Lemma scanMoves_once (p drow dcol : Z) (mvs : list coord) :
  times (mkcoord drow dcol) mvs = 1%nat ->
  scanMoves p drow dcol mvs [] = Some (coordName p).
Proof.
  unfold times. cbn [row col].
  induction mvs as [|mv rest IH]; intro H; cbn [filter List.length] in H; [discriminate|].
  cbn [scanMoves]. destruct ((row mv =? drow) && (col mv =? dcol)) eqn:E.
  - cbn [List.length] in H. cbn [eqs negb]. rewrite eqs_nil. cbn [negb].
    unfold coordName. destruct (coordsFromIndex p) as [srow scol].
    apply scanMoves_none_hit. intro I.
    assert (Z : filter (fun mv0 => (row mv0 =? drow) && (col mv0 =? dcol)) rest = []).
    { destruct (filter _ rest); [reflexivity | cbn in H; lia]. }
    assert (I' : In (mkcoord drow dcol)
                    (filter (fun mv0 => (row mv0 =? drow) && (col mv0 =? dcol)) rest)).
    { apply filter_In. split; auto. cbn [row col]. now rewrite !Z.eqb_refl. }
    rewrite Z in I'. destruct I'.
  - now apply IH.
Qed.

Lemma times_In (target : coord) (mvs : list coord) :
  (1 <= times target mvs)%nat -> In target mvs.
Proof.
  unfold times. intro H.
  destruct (filter _ mvs) as [|mv l] eqn:E; [cbn in H; lia|].
  assert (I : In mv (filter (fun mv => (row mv =? row target) && (col mv =? col target)) mvs))
    by (rewrite E; now left).
  apply filter_In in I. destruct I as [I C].
  destruct target as [r c]. apply hit_spec in C. now subst.
Qed.

Lemma range_from_offsets (s : gostring) :
  Forall oneByte s -> forall i, NoDup (map fst (range_from 0 i s)).
Proof.
  intro F. induction F as [|c s C F IH]; intro i; [constructor|].
  cbn [range_from].
  assert (D : DecodeRune (c :: s) = (code c, 1%nat)).
  { unfold DecodeRune. unfold oneByte in C.
    replace (code c <? 128) with true by (symmetry; apply Z.ltb_lt; lia).
    reflexivity. }
  rewrite D. cbn [Nat.pred map fst]. constructor; [|apply IH].
  intro I. apply in_map_iff in I. destruct I as ([p r] & E & I). cbn in E. subst p.
  apply (In_range_from F) in I. lia.
Qed.

Lemma NoDup_map_filter {A B} (f : A -> B) (g : A -> bool) (l : list A) :
  NoDup (map f l) -> NoDup (map f (filter g l)).
Proof.
  induction l as [|x l IH]; cbn [map filter]; intro N; [constructor|].
  inversion N as [|y l' NI N']. subst.
  destruct (g x); cbn [map]; [|auto].
  constructor; [|auto]. intro I. apply NI.
  apply in_map_iff in I. destruct I as (z & E & I). apply filter_In in I.
  apply in_map_iff. exists z. tauto.
Qed.

Lemma All_NoDup (b : Board) (r : rune) : Forall oneByte b -> NoDup (All b r).
Proof.
  intro F. unfold All, range. apply NoDup_map_filter. now apply range_from_offsets.
Qed.

Lemma candidates_NoDup (srccol srcrow : gostring) (ps cs : list Z) :
  NoDup ps -> candidates srccol srcrow ps = Ret cs -> NoDup cs.
Proof.
  revert cs. induction ps as [|a ps IH]; intros cs N H; cbn [candidates] in H.
  - injection H as <-. constructor.
  - inversion N as [|x l NI N']. subst.
    destruct (keepCand srccol srcrow a) as [k|]; [|discriminate H]. cbn [bind] in H.
    destruct (candidates_returns srccol srcrow ps) as (cs' & E & IC).
    rewrite E in H. cbn [bind] in H. injection H as <-.
    specialize (IH cs' N' E). destruct k; [|exact IH].
    constructor; [|exact IH]. intro I. apply IC in I. tauto.
Qed.

Lemma only_one {A} (l : list A) (x : A) :
  NoDup l -> In x l -> (forall y, In y l -> y = x) -> l = [x].
Proof.
  intros N I U. destruct l as [|a l]; [destruct I|].
  assert (a = x) by (apply U; now left). subst a.
  destruct l as [|c l]; [reflexivity|].
  assert (c = x) by (apply U; right; now left). subst c.
  inversion N as [|y l' NI N']. exfalso. apply NI. now left.
Qed.

Lemma upper_piece (c : ascii) :
  pieceLetter c = true ->
  exists l,
    isPieceLetter l = true
    /\ (if code "a" <=? code c then sub8 (code c) 32 else code c) = code l
    /\ (if code "a" <=? code c then lower l else l) = c
    /\ oneByte l.
Proof.
  intro H. exists (upper c). apply oneOf_In in H. cbn in H.
  repeat (destruct H as [<-|H]; [repeat split; vm_compute; reflexivity|]).
  destruct H.
Qed.

Lemma file_rank_prints (p : Z) :
  0 <= p < 64 ->
  exists fc rc,
    EncodeRune (code "a" + snd (coordsFromIndex p)) = [fc]
    /\ itoa (fst (coordsFromIndex p)) = [rc]
    /\ inClass "a" "h" fc = true /\ inClass "1" "8" rc = true
    /\ code fc - code "a" = p mod 8 /\ code rc - code "0" = 8 - p / 8.
Proof.
  intro H. apply cells_spec in H. vm_compute in H.
  repeat (destruct H as [<-|H];
          [do 2 eexists; split; [vm_compute; reflexivity|];
           split; [vm_compute; reflexivity|];
           repeat split; vm_compute; reflexivity|]).
  destruct H.
Qed.

Lemma lower_coordName (d : Z) :
  0 <= d < 64 ->
  exists fd rd,
    ToLower (coordName d) = [fd; rd]
    /\ inClass "a" "h" fd = true /\ inClass "1" "8" rd = true
    /\ indexOf fd rd = d.
Proof.
  intro H. apply cells_spec in H. vm_compute in H.
  repeat (destruct H as [<-|H];
          [do 2 eexists; split; [vm_compute; reflexivity|];
           repeat split; vm_compute; reflexivity|]).
  destruct H.
Qed.

(** *** The three notations that [CoordsToAlgebraic] tries *)

Lemma file_not_rank (c : ascii) : inClass "a" "h" c = true -> inClass "1" "8" c = false.
Proof.
  rewrite !inClass_spec. change (code "a") with 97. change (code "h") with 104.
  change (code "1") with 49. change (code "8") with 56.
  intro H. apply andb_true_iff in H. apply andb_false_iff. lia.
Qed.

Lemma file_not_x (c : ascii) : inClass "a" "h" c = true -> Ascii.eqb c "x" = false.
Proof.
  rewrite inClass_spec. change (code "a") with 97. change (code "h") with 104.
  intro H. apply andb_true_iff in H. apply Ascii.eqb_neq. intros ->.
  change (code "x") with 120 in H. lia.
Qed.

Lemma rank_not_x (c : ascii) : inClass "1" "8" c = true -> Ascii.eqb c "x" = false.
Proof.
  rewrite inClass_spec. change (code "1") with 49. change (code "8") with 56.
  intro H. apply andb_true_iff in H. apply Ascii.eqb_neq. intros ->.
  change (code "x") with 120 in H. lia.
Qed.

Section Tries.

Variables l fc rc fd rd : ascii.
Variable x : gostring.
Hypothesis Hl : isPieceLetter l = true.
Hypothesis Hfc : inClass "a" "h" fc = true.
Hypothesis Hrc : inClass "1" "8" rc = true.
Hypothesis Hfd : inClass "a" "h" fd = true.
Hypothesis Hrd : inClass "1" "8" rd = true.
Hypothesis Hx : x = [] \/ x = str "x".

Lemma rxDst_dest : rxDst [fd; rd] = Some [fd; rd].
Proof. unfold rxDst. now rewrite Hfd, Hrd. Qed.

Lemma rxCapture_dest : rxCapture (x ++ [fd; rd]) = Some (x, [fd; rd]).
Proof.
  destruct Hx as [-> | ->].
  - cbn [app]. unfold rxCapture. rewrite (file_not_x _ Hfd), rxDst_dest. reflexivity.
  - change (str "x" ++ [fd; rd]) with ("x"%char :: [fd; rd]).
    unfold rxCapture. rewrite Ascii.eqb_refl, rxDst_dest. reflexivity.
Qed.

Lemma rxRow_skips : rxRow (x ++ [fd; rd]) = Some ([], (x, [fd; rd])).
Proof.
  unfold rxRow. rewrite rxCapture_dest.
  destruct Hx as [-> | ->].
  - cbn [app]. now rewrite (file_not_rank _ Hfd).
  - reflexivity.
Qed.

Lemma rxRow_takes : rxRow (rc :: x ++ [fd; rd]) = Some ([rc], (x, [fd; rd])).
Proof. unfold rxRow. rewrite Hrc, rxCapture_dest. reflexivity. Qed.

Lemma rxRow_rank_alone : rxRow [rd] = None.
Proof.
  unfold rxRow, rxCapture, rxDst. rewrite Hrd, (rank_not_x _ Hrd). reflexivity.
Qed.

Lemma rxCol_skips : rxCol (x ++ [fd; rd]) = Some ([], ([], (x, [fd; rd]))).
Proof.
  unfold rxCol. rewrite rxRow_skips.
  destruct Hx as [-> | ->].
  - cbn [app]. rewrite Hfd, rxRow_rank_alone. reflexivity.
  - reflexivity.
Qed.

Lemma rxCol_takes_file :
  rxCol (fc :: x ++ [fd; rd]) = Some ([fc], ([], (x, [fd; rd]))).
Proof. unfold rxCol. rewrite Hfc, rxRow_skips. reflexivity. Qed.

Lemma rxCol_takes_both :
  rxCol (fc :: rc :: x ++ [fd; rd]) = Some ([fc], ([rc], (x, [fd; rd]))).
Proof. unfold rxCol. rewrite Hfc, rxRow_takes. reflexivity. Qed.

Lemma parse_try1 :
  exists m0, FindStringSubmatch (l :: x ++ [fd; rd])
             = Some (mksub m0 [l] [] [] x [fd; rd]).
Proof.
  cbn [FindStringSubmatch]. unfold rxHere. rewrite Hl, rxCol_skips. cbn. eauto.
Qed.

Lemma parse_try2 :
  exists m0, FindStringSubmatch (l :: fc :: x ++ [fd; rd])
             = Some (mksub m0 [l] [fc] [] x [fd; rd]).
Proof.
  cbn [FindStringSubmatch]. unfold rxHere. rewrite Hl, rxCol_takes_file. cbn. eauto.
Qed.

Lemma parse_try3 :
  exists m0, FindStringSubmatch (l :: fc :: rc :: x ++ [fd; rd])
             = Some (mksub m0 [l] [fc] [rc] x [fd; rd]).
Proof.
  cbn [FindStringSubmatch]. unfold rxHere. rewrite Hl, rxCol_takes_both. cbn. eauto.
Qed.

Lemma tries_not_castling (rest : gostring) : notCastling (l :: rest).
Proof.
  destruct (pieceLetter_cases _ Hl) as [->|[->|[->|[->|[->| ->]]]]];
    split; discriminate.
Qed.

End Tries.

(** *** [Algebraic] on a notation whose candidate is known *)

Lemma scanCands_returns (b : Board) (drow dcol : Z) (cands : list Z) :
  (forall p, In p cands -> exists mvs, validMoves b p = Ret mvs) ->
  forall src, exists r, scanCands b drow dcol cands src = Ret r.
Proof.
  induction cands as [|a rest IH]; intros T src; cbn [scanCands]; [eauto|].
  destruct (T a (or_introl eq_refl)) as [mvs V]. rewrite V. cbn [bind].
  destruct (scanMoves a drow dcol mvs src); [|eauto].
  apply IH. intros p I. apply T. now right.
Qed.

Lemma scanCands_double (b : Board) (drow dcol : Z) (cands : list Z) (p : Z)
      (mvs : list coord) :
  (forall q, In q cands -> exists ms, validMoves b q = Ret ms) ->
  In p cands -> validMoves b p = Ret mvs ->
  (2 <= times (mkcoord drow dcol) mvs)%nat ->
  forall src, scanCands b drow dcol cands src = Ret None.
Proof.
  intros T I V Two.
  induction cands as [|a rest IH]; intro src; [destruct I|].
  cbn [scanCands].
  destruct (T a (or_introl eq_refl)) as [ms Va]. rewrite Va. cbn [bind].
  destruct (scanMoves a drow dcol ms src) as [src'|] eqn:M; [|reflexivity].
  destruct I as [->|I].
  - rewrite V in Va. injection Va as <-.
    rewrite scanMoves_twice in M by (now left). discriminate M.
  - apply IH; auto. intros q Q. apply T. now right.
Qed.

(** [Algebraic_parsed], with the list of candidates free of repetitions. *)
Lemma Algebraic_parsed_list (b : Board) (m : gostring) (w : bool) (sm : submatch) :
  wfBoard b -> notCastling m -> FindStringSubmatch m = Some sm ->
  exists cands drow dcol,
    coordOf (destination sm) = mkcoord drow dcol
    /\ NoDup cands
    /\ (forall p, In p cands <-> candidate b sm w p)
    /\ Algebraic b m w
       = (found <- scanCands b drow dcol cands [] ;;
          match found with
          | None => Ret ([], [], Some AmbiguousMove)
          | Some src =>
            if eqs src [] then Ret ([], [], Some NoMatchingMove)
            else Ret (src, m5 sm, None)
          end).
Proof.
  intros [L F] [N1 N2] P.
  destruct (FindStringSubmatch_shape _ P) as ((l & M1 & PL) & G2 & G3 & (f & r & M5 & Df & Dr)).
  assert (FL : fileLetter f = true) by (unfold fileLetter; rewrite Df; apply orb_true_r).
  destruct (candidates_returns (m2 sm) (m3 sm) (All b (code (wanted sm w))))
    as (cands & C & IC).
  exists cands, (fst (coordsFromIndex (indexOf f r))), (snd (coordsFromIndex (indexOf f r))).
  split; [|split; [|split]].
  - unfold coordOf, destination. rewrite M5.
    now destruct (coordsFromIndex (indexOf f r)).
  - eapply candidates_NoDup; [apply All_NoDup; exact F | exact C].
  - intro p. rewrite IC, (In_All _ _ F). unfold candidate. split.
    + intros ((c & A & Cd) & K2 & K3).
      apply code_inj in Cd. subst c.
      assert (R : 0 <= p < 64).
      { destruct (Z_lt_dec p 0); [rewrite at_out in A by lia; discriminate|].
        destruct (Z_lt_dec p 64); [lia|]. rewrite at_out in A by lia. discriminate. }
      rewrite coordsFromIndex_nonneg in K2, K3 by lia. cbn [fst snd] in K2, K3.
      split; [exact R|]. split; [exact A|]. split.
      * intros f' E. rewrite <- (K2 f' [] E).
        destruct G2 as [G2|(f2 & G2 & I2)]; [congruence|].
        rewrite E in G2. injection G2 as ->.
        rewrite inClass_spec in I2. apply andb_true_iff in I2.
        change (code "a") with 97 in *. change (code "h") with 104 in *.
        unfold sub8. rewrite Z.mod_small; lia.
      * intros r' E. rewrite <- (K3 r' [] E).
        destruct G3 as [G3|(r3 & G3 & I3)]; [congruence|].
        rewrite E in G3. injection G3 as ->.
        rewrite inClass_spec in I3. apply andb_true_iff in I3.
        change (code "1") with 49 in *. change (code "8") with 56 in *.
        change (code "0") with 48. unfold sub8. rewrite Z.mod_small; lia.
    + intros (R & A & K2 & K3).
      rewrite coordsFromIndex_nonneg by lia. cbn [fst snd].
      split; [eauto|]. split.
      * intros f' t E.
        destruct G2 as [G2|(f2 & G2 & I2)]; [congruence|].
        rewrite E in G2. injection G2 as -> ->. rewrite <- (K2 f2 E).
        rewrite inClass_spec in I2. apply andb_true_iff in I2.
        change (code "a") with 97 in *. change (code "h") with 104 in *.
        unfold sub8. rewrite Z.mod_small; lia.
      * intros r' t E.
        destruct G3 as [G3|(r3 & G3 & I3)]; [congruence|].
        rewrite E in G3. injection G3 as -> ->. rewrite <- (K3 r3 E).
        rewrite inClass_spec in I3. apply andb_true_iff in I3.
        change (code "1") with 49 in *. change (code "8") with 56 in *.
        change (code "0") with 48. unfold sub8. rewrite Z.mod_small; lia.
  - unfold Algebraic. rewrite (eqs_false N1), (eqs_false N2), P.
    rewrite M1, at_0. cbn [bind]. rewrite M5, Position_cons2, FL.
    unfold rankDigit. rewrite Dr. cbn [bind fst].
    rewrite (wanted_code sm w M1 PL), C. cbn [bind].
    destruct (coordsFromIndex (indexOf f r)) as [drow dcol]. reflexivity.
Qed.

Lemma try_sound (b : Board) (m : gostring) (w : bool) (sm : submatch) (p : Z) :
  wfBoard b -> notCastling m -> FindStringSubmatch m = Some sm ->
  candidate b sm w p -> reaches b p (destination sm) ->
  exists s t e,
    Algebraic b m w = Ret (s, t, e)
    /\ (e = None -> s = coordName p /\ t = m5 sm).
Proof.
  intros W NC P C R.
  destruct (Algebraic_parsed w W NC P) as (cands & drow & dcol & D & IC & E).
  assert (T : forall q, In q cands -> exists mvs, validMoves b q = Ret mvs).
  { intros q I. apply IC in I. destruct I as (Rq & _).
    apply validMoves_returns; [apply W | exact Rq]. }
  destruct (scanCands_returns b drow dcol cands T []) as [found S].
  assert (A : exists s t e, Algebraic b m w = Ret (s, t, e)).
  { rewrite E, S. cbn [bind]. destruct found as [src|]; [|eauto].
    destruct (eqs src []); eauto. }
  destruct A as (s & t & e & A). exists s, t, e. split; [exact A|].
  intros ->.
  destruct (@Algebraic_sound b m s t w W NC A) as (sm' & p' & P' & _ & _ & -> & -> & U).
  rewrite P in P'. injection P' as <-.
  rewrite (U p C R). auto.
Qed.

Lemma try_ambiguous (b : Board) (m : gostring) (w : bool) (sm : submatch) (p : Z) :
  wfBoard b -> notCastling m -> FindStringSubmatch m = Some sm ->
  candidate b sm w p -> listsTwice b p (coordOf (destination sm)) ->
  Algebraic b m w = Ret ([], [], Some AmbiguousMove).
Proof.
  intros W NC P C (mvs & V & Two).
  destruct (Algebraic_parsed w W NC P) as (cands & drow & dcol & D & IC & E).
  assert (T : forall q, In q cands -> exists ms, validMoves b q = Ret ms).
  { intros q I. apply IC in I. destruct I as (Rq & _).
    apply validMoves_returns; [apply W | exact Rq]. }
  rewrite D in Two.
  rewrite E, (@scanCands_double b drow dcol cands p mvs T); auto.
  now apply IC.
Qed.

Lemma try_single (b : Board) (m : gostring) (w : bool) (sm : submatch) (p : Z) :
  wfBoard b -> notCastling m -> FindStringSubmatch m = Some sm ->
  candidate b sm w p -> (forall q, candidate b sm w q -> q = p) ->
  listsOnce b p (coordOf (destination sm)) ->
  Algebraic b m w = Ret (coordName p, m5 sm, None).
Proof.
  intros W NC P C U (mvs & V & Once).
  destruct (Algebraic_parsed_list w W NC P) as (cands & drow & dcol & D & N & IC & E).
  assert (One : cands = [p]).
  { apply only_one; auto.
    - now apply IC.
    - intros q I. apply U. now apply IC. }
  rewrite D in Once.
  rewrite E, One. cbn [scanCands]. rewrite V. cbn [bind].
  rewrite (@scanMoves_once p drow dcol mvs Once). cbn [bind].
  destruct C as (Hp & _).
  destruct (coordName_cell Hp) as (f & r & -> & _). reflexivity.
Qed.

(** The notation with piece letter [l], source file and rank [g2] and
    [g3] and destination [fd], [rd] asks for the piece of [p] and for the
    destination [d]. *)
Lemma notation_candidate (b : Board) (p d : Z) (l fd rd : ascii)
      (m0 g2 g3 x : gostring) (piece : ascii) :
  0 <= p < 64 ->
  at_ b p = Ret piece ->
  (if code "a" <=? code piece then lower l else l) = piece ->
  indexOf fd rd = d ->
  (forall f, g2 = [f] -> code f - code "a" = p mod 8) ->
  (forall r, g3 = [r] -> code r - code "0" = 8 - p / 8) ->
  candidate b (mksub m0 [l] g2 g3 x [fd; rd]) (whiteAt b p) p
  /\ destination (mksub m0 [l] g2 g3 x [fd; rd]) = d.
Proof.
  intros Hp A Lw I K2 K3. unfold candidate, destination, wanted, whiteAt.
  cbn [m1 m2 m3 m5]. rewrite A. repeat split; auto; try lia.
  now rewrite Lw.
Qed.

(** The three notations that [CoordsToAlgebraic] tries for a move that
    [validMoves] lists: each parses, asks for the piece of the source and
    for the destination, and the third one pins the source cell. *)
Lemma notation_tries (b : Board) (p d : Z) (mvs : list coord) :
  wfBoard b -> 0 <= p < 64 -> 0 <= d < 64 ->
  validMoves b p = Ret mvs -> In (coordOf d) mvs ->
  exists t1 t2 t3 sm1 sm2 sm3,
    CoordsToAlgebraic b (coordName p) (coordName d)
    = (a1 <- Algebraic b t1 (whiteAt b p) ;;
       if isNil (snd a1) then Ret (t1, None)
       else
         a2 <- Algebraic b t2 (whiteAt b p) ;;
         if isNil (snd a2) then Ret (t2, None)
         else
           a3 <- Algebraic b t3 (whiteAt b p) ;;
           if isNil (snd a3) then Ret (t3, None)
           else Ret ([], Some NoDisambiguation))
    /\ (notCastling t1 /\ FindStringSubmatch t1 = Some sm1
        /\ candidate b sm1 (whiteAt b p) p /\ destination sm1 = d
        /\ m5 sm1 = ToLower (coordName d))
    /\ (notCastling t2 /\ FindStringSubmatch t2 = Some sm2
        /\ candidate b sm2 (whiteAt b p) p /\ destination sm2 = d
        /\ m5 sm2 = ToLower (coordName d))
    /\ (notCastling t3 /\ FindStringSubmatch t3 = Some sm3
        /\ candidate b sm3 (whiteAt b p) p /\ destination sm3 = d
        /\ m5 sm3 = ToLower (coordName d))
    /\ (forall q, candidate b sm3 (whiteAt b p) q -> q = p).
Proof.
  intros W Hp Hd V I.
  destruct (@validMoves_targets b p mvs (coordOf d) (proj1 W) Hp V I)
    as (_ & piece & A & PL & _).
  destruct (@upper_piece piece PL) as (l & Ll & Lc & Lw & Lo).
  destruct (@file_rank_prints p Hp) as (fc & rc & Ef & Er & Cfc & Crc & Kf & Kr).
  destruct (@lower_coordName d Hd) as (fd & rd & El & Cfd & Crd & Id).
  destruct (@wf_at b d W Hd) as (o & Ao & _).
  set (x := if negb (Ascii.eqb o "_") then str "x" else []).
  assert (Hx : x = [] \/ x = str "x") by (unfold x; destruct (negb _); auto).
  destruct (@parse_try1 l fd rd x Ll Cfd Crd Hx) as (m01 & P1).
  destruct (@parse_try2 l fc fd rd x Ll Cfc Cfd Crd Hx) as (m02 & P2).
  destruct (@parse_try3 l fc rc fd rd x Ll Cfc Crc Cfd Crd Hx) as (m03 & P3).
  exists (l :: x ++ [fd; rd]), (l :: fc :: x ++ [fd; rd]),
         (l :: fc :: rc :: x ++ [fd; rd]),
         (mksub m01 [l] [] [] x [fd; rd]), (mksub m02 [l] [fc] [] x [fd; rd]),
         (mksub m03 [l] [fc] [rc] x [fd; rd]).
  rewrite El. split; [|split; [|split; [|split]]].
  - unfold CoordsToAlgebraic. rewrite !Position_coordName by assumption.
    cbn [bind]. rewrite A. cbn [bind].
    rewrite (proj2 (Ascii.eqb_neq piece "_") (@pieceLetter_not_empty piece PL)).
    rewrite Ao. cbn [bind]. cbv zeta. fold x.
    rewrite Lc, (@EncodeRune_code l Lo), El.
    destruct (coordsFromIndex p) as [r c]. cbn [fst snd] in Ef, Er.
    rewrite Ef, Er.
    assert (Wh : whiteAt b p = (code "a" <=? code piece))
      by (unfold whiteAt; now rewrite A).
    rewrite <- Wh. reflexivity.
  - split; [now apply tries_not_castling|]. split; [exact P1|].
    destruct (@notation_candidate b p d l fd rd m01 [] [] x piece Hp A Lw Id)
      as [C D]; try discriminate. auto.
  - split; [now apply tries_not_castling|]. split; [exact P2|].
    destruct (@notation_candidate b p d l fd rd m02 [fc] [] x piece Hp A Lw Id)
      as [C D]; try discriminate; auto.
    intros f E. injection E as <-. exact Kf.
  - split; [now apply tries_not_castling|]. split; [exact P3|].
    destruct (@notation_candidate b p d l fd rd m03 [fc] [rc] x piece Hp A Lw Id)
      as [C D]; auto.
    + intros f E. injection E as <-. exact Kf.
    + intros r E. injection E as <-. exact Kr.
  - intros q (Hq & _ & K2 & K3). cbn [m2 m3] in K2, K3.
    specialize (K2 fc eq_refl). specialize (K3 rc eq_refl).
    pose proof (Z.div_mod p 8 ltac:(lia)). pose proof (Z.div_mod q 8 ltac:(lia)).
    lia.
Qed.

(** X10. On every board of 64 one-byte cells, a move that [validMoves]
    lists once for the piece of a cell goes to notation and back:
    [CoordsToAlgebraic] returns a notation for the names of the two cells,
    and [Algebraic], for the side of the piece, takes that notation to the
    source as named and to the destination in lower case. *)
Theorem X10_round_trip_on_every_board (b : Board) (p d : Z) :
  wfBoard b -> 0 <= p < 64 -> 0 <= d < 64 ->
  listsOnce b p (coordOf d) ->
  exists n,
    CoordsToAlgebraic b (coordName p) (coordName d) = Ret (n, None)
    /\ Algebraic b n (whiteAt b p)
       = Ret (coordName p, ToLower (coordName d), None).
Proof.
  intros W Hp Hd (mvs & V & Once).
  assert (I : In (coordOf d) mvs) by (apply times_In; lia).
  assert (R : forall sm, destination sm = d -> reaches b p (destination sm)).
  { intros sm ->. exists mvs. auto. }
  destruct (@notation_tries b p d mvs W Hp Hd V I)
    as (t1 & t2 & t3 & sm1 & sm2 & sm3 & CE
        & (N1 & P1 & C1 & D1 & M1) & (N2 & P2 & C2 & D2 & M2)
        & (N3 & P3 & C3 & D3 & M3) & U).
  rewrite CE.
  destruct (@try_sound b t1 (whiteAt b p) sm1 p W N1 P1 C1 (R _ D1)) as (s1 & u1 & e1 & A1 & S1).
  rewrite A1. cbn [bind snd]. destruct e1 as [e1|]; cbn [isNil].
  2:{ exists t1. split; [reflexivity|]. rewrite A1.
      destruct (S1 eq_refl) as [-> ->]. now rewrite M1. }
  destruct (@try_sound b t2 (whiteAt b p) sm2 p W N2 P2 C2 (R _ D2)) as (s2 & u2 & e2 & A2 & S2).
  rewrite A2. cbn [bind snd]. destruct e2 as [e2|]; cbn [isNil].
  2:{ exists t2. split; [reflexivity|]. rewrite A2.
      destruct (S2 eq_refl) as [-> ->]. now rewrite M2. }
  assert (A3 : Algebraic b t3 (whiteAt b p) = Ret (coordName p, m5 sm3, None)).
  { apply try_single; auto. rewrite D3. exists mvs. auto. }
  rewrite A3. cbn [bind snd isNil].
  exists t3. split; [reflexivity|]. now rewrite A3, M3.
Qed.

(** X11. On every board of 64 one-byte cells, a move that [validMoves]
    lists more than once for the piece of a cell has no notation: every
    notation that [CoordsToAlgebraic] tries is ambiguous, and it fails
    with "can't find a valid move". *)
Theorem X11_listed_twice_has_no_notation (b : Board) (p d : Z) :
  wfBoard b -> 0 <= p < 64 -> 0 <= d < 64 ->
  listsTwice b p (coordOf d) ->
  CoordsToAlgebraic b (coordName p) (coordName d) = Ret ([], Some NoDisambiguation).
Proof.
  intros W Hp Hd (mvs & V & Two).
  assert (I : In (coordOf d) mvs) by (apply times_In; lia).
  destruct (@notation_tries b p d mvs W Hp Hd V I)
    as (t1 & t2 & t3 & sm1 & sm2 & sm3 & CE
        & (N1 & P1 & C1 & D1 & M1) & (N2 & P2 & C2 & D2 & M2)
        & (N3 & P3 & C3 & D3 & M3) & U).
  assert (T : forall sm, destination sm = d ->
                         listsTwice b p (coordOf (destination sm))).
  { intros sm ->. exists mvs. auto. }
  rewrite CE.
  rewrite (@try_ambiguous b t1 (whiteAt b p) sm1 p W N1 P1 C1 (T _ D1)). cbn [bind snd isNil].
  rewrite (@try_ambiguous b t2 (whiteAt b p) sm2 p W N2 P2 C2 (T _ D2)). cbn [bind snd isNil].
  rewrite (@try_ambiguous b t3 (whiteAt b p) sm3 p W N3 P3 C3 (T _ D3)). reflexivity.
Qed.

Lemma X10_round_trip_on_every_board_witness :
  wfBoard (Normalize StartingBoard)
  /\ listsOnce (Normalize StartingBoard) (sq "G1") (coordOf (sq "F3"))
  /\ exists n,
      CoordsToAlgebraic (Normalize StartingBoard) (coordName (sq "G1"))
                        (coordName (sq "F3")) = Ret (n, None)
      /\ Algebraic (Normalize StartingBoard) n (whiteAt (Normalize StartingBoard) (sq "G1"))
         = Ret (coordName (sq "G1"), ToLower (coordName (sq "F3")), None).
Proof.
  assert (L : listsOnce (Normalize StartingBoard) (sq "G1") (coordOf (sq "F3"))).
  { exists [mkcoord 3 7; mkcoord 3 5]. split; vm_compute; reflexivity. }
  split; [exact wf_start|]. split; [exact L|].
  apply (@X10_round_trip_on_every_board (Normalize StartingBoard) (sq "G1") (sq "F3")
           wf_start); [| | exact L]; vm_compute; split; (discriminate || reflexivity).
Defined.

Lemma X11_listed_twice_has_no_notation_witness :
  wfBoard pawnTakesD3
  /\ listsTwice pawnTakesD3 (sq "E4") (coordOf (sq "D3"))
  /\ CoordsToAlgebraic pawnTakesD3 (coordName (sq "E4")) (coordName (sq "D3"))
     = Ret ([], Some NoDisambiguation).
Proof.
  assert (W : wfBoard pawnTakesD3) by (apply wfBoardb_spec; vm_compute; reflexivity).
  assert (L : listsTwice pawnTakesD3 (sq "E4") (coordOf (sq "D3"))).
  { exists [mkcoord 3 4; mkcoord 3 3; mkcoord 3 3].
    split; [vm_compute; reflexivity|]. vm_compute. auto. }
  split; [exact W|]. split; [exact L|].
  apply (@X11_listed_twice_has_no_notation pawnTakesD3 (sq "E4") (sq "D3") W);
    [| | exact L]; vm_compute; split; (discriminate || reflexivity).
Defined.

(** ** The calls return on a well-formed board *)

Lemma Algebraic_returns (b : Board) (m : gostring) (w : bool) :
  wfBoard b ->
  exists s t e, Algebraic b m w = Ret (s, t, e)
                /\ (e = None -> goodName s /\ goodName t).
Proof.
  intro W.
  destruct (eqs m (str "O-O")) eqn:E1.
  { unfold Algebraic. rewrite E1. destruct w; do 3 eexists; (split; [reflexivity|]);
      intros _; split; do 3 eexists; (split; [reflexivity|]); split; reflexivity. }
  destruct (eqs m (str "O-O-O")) eqn:E2.
  { unfold Algebraic. rewrite E1, E2. destruct w; do 3 eexists; (split; [reflexivity|]);
      intros _; split; do 3 eexists; (split; [reflexivity|]); split; reflexivity. }
  assert (NC : notCastling m).
  { split; intro H; apply eqs_true in H; congruence. }
  destruct (FindStringSubmatch m) as [sm|] eqn:F.
  2:{ unfold Algebraic. rewrite E1, E2, F. do 3 eexists. split; [reflexivity|]. discriminate. }
  destruct (Algebraic_parsed w W NC F) as (cands & drow & dcol & D & C & A).
  destruct (@scanCands_returns b drow dcol cands) with (src := @nil ascii) as (r & R).
  { intros p Ip. apply C in Ip. destruct Ip as (Hp & _).
    apply validMoves_returns; [apply W | exact Hp]. }
  rewrite R in A. cbn [bind] in A.
  destruct r as [src|].
  2:{ do 3 eexists. split; [exact A|]. discriminate. }
  destruct (eqs src []) eqn:Es.
  { do 3 eexists. split; [exact A|]. discriminate. }
  do 3 eexists. split; [exact A|]. intros _.
  destruct (@Algebraic_sound b m src (m5 sm) w W NC A) as (sm' & p & F' & Cp & _ & Sp & Dp & _).
  rewrite F in F'. injection F' as <-.
  split.
  - destruct Cp as (Hp & _). destruct (@coordName_cell p Hp) as (f & r & N & _ & Ff & Rr & _).
    exists f, r, []. rewrite Sp, N. auto.
  - pose proof (FindStringSubmatch_shape _ F) as (_ & _ & _ & (f & r & M5 & Ff & Rr)).
    exists f, r, []. rewrite M5. split; [reflexivity|]. split.
    + unfold fileLetter. rewrite Ff. apply orb_true_r.
    + exact Rr.
Qed.

Lemma CoordsToAlgebraic_returns (b : Board) (s t : gostring) :
  wfBoard b -> goodName s -> goodName t ->
  exists a e, CoordsToAlgebraic b s t = Ret (a, e).
Proof.
  intros W (f1 & r1 & q1 & -> & F1 & R1) (f2 & r2 & q2 & -> & F2 & R2).
  unfold CoordsToAlgebraic.
  rewrite !Position_cons2, F1, R1, F2, R2. cbn [bind].
  destruct (@wf_at b (indexOf f1 r1) W (indexOf_range _ _ F1 R1)) as (p & Ap & _).
  destruct (@wf_at b (indexOf f2 r2) W (indexOf_range _ _ F2 R2)) as (d & Ad & _).
  rewrite Ap. cbn [bind].
  destruct (Ascii.eqb p "_"); [eauto|].
  rewrite Ad. cbn [bind]. cbv zeta.
  match goal with |- context [Algebraic b ?m ?w] =>
    destruct (@Algebraic_returns b m w W) as (s1 & t1 & e1 & -> & _) end.
  cbn [bind snd]. destruct (isNil e1); [eauto|].
  destruct (coordsFromIndex (indexOf f1 r1)) as [r c].
  match goal with |- context [Algebraic b ?m ?w] =>
    destruct (@Algebraic_returns b m w W) as (s2 & t2 & e2 & -> & _) end.
  cbn [bind snd]. destruct (isNil e2); [eauto|].
  match goal with |- context [Algebraic b ?m ?w] =>
    destruct (@Algebraic_returns b m w W) as (s3 & t3 & e3 & -> & _) end.
  cbn [bind snd]. destruct (isNil e3); eauto.
Qed.

Lemma Move_returns (b : Board) (s t : gostring) :
  wfBoard b -> goodName s -> goodName t ->
  exists b' e, Move b s t = Ret (b', e) /\ wfBoard b'.
Proof.
  intros W (f1 & r1 & q1 & -> & F1 & R1) (f2 & r2 & q2 & -> & F2 & R2).
  destruct (@wf_at b (indexOf f1 r1) W (indexOf_range _ _ F1 R1)) as (p & Ap & _).
  destruct (ascii_dec p "_") as [->|N].
  - exists b, (Some NoPieceAtSource). split; [|exact W].
    unfold Move. cbv zeta.
    rewrite !Position_ToUpper, !Position_cons2, F1, R1, F2, R2. cbn [bind].
    rewrite Ap. reflexivity.
  - destruct (@Move_accepts b f1 r1 f2 r2 p q1 q2 W F1 R1 F2 R2 Ap N) as (b' & M & W').
    exists b', None. auto.
Qed.

Lemma Move_wf (b b' : Board) (s t : gostring) (e : option error) :
  wfBoard b -> Move b s t = Ret (b', e) -> wfBoard b'.
Proof.
  intros W M.
  destruct e as [e|].
  { destruct (Move_error_same _ _ _ M). exact W. }
  assert (G : forall u, (exists p, Position b u = Ret (p, None)) -> goodName u).
  { intros u (p & P). destruct u as [|f [|r q]].
    - discriminate P.
    - unfold Position in P. cbn in P.
      destruct (_ || _) in P; discriminate P.
    - exists f, r, q. split; [reflexivity|]. rewrite Position_cons2 in P.
      destruct (fileLetter f); [|discriminate P].
      destruct (rankDigit r); [auto|discriminate P]. }
  assert (Gs : goodName s /\ goodName t).
  { unfold Move in M. cbv zeta in M. rewrite !Position_ToUpper in M.
    destruct (Position b s) as [[ps [es|]]|] eqn:Ps; cbn [bind] in M; try discriminate M.
    destruct (Position b t) as [[pt [et|]]|] eqn:Pt; cbn [bind] in M; try discriminate M.
    split; apply G; eauto. }
  destruct (@Move_returns b s t W (proj1 Gs) (proj2 Gs)) as (b2 & e2 & M2 & W2).
  rewrite M in M2. injection M2 as <- _. exact W2.
Qed.

(** ** Drawing reads the 64 cells *)

Lemma forEach_all {A} (l : list A) (body : A -> exec unit) :
  forEach l body = Ret tt <-> forall x, In x l -> body x = Ret tt.
Proof.
  induction l as [|x t IH]; cbn [forEach].
  - split; [intros _ x []|reflexivity].
  - destruct (body x) as [[]|] eqn:B; cbn [bind].
    + rewrite IH. split.
      * intros H y [<-|I]; auto.
      * intros H y I. apply H. now right.
    + split; [discriminate|]. intro H. rewrite <- B. apply H. now left.
Qed.

Lemma at_returns (s : gostring) (i : Z) :
  (exists c, at_ s i = Ret c) <-> 0 <= i < len s.
Proof.
  split.
  - intros (c & H). unfold at_ in H.
    destruct (0 <=? i) eqn:A; destruct (i <? len s) eqn:B; cbn in H; try discriminate H.
    lia.
  - intro H. rewrite at_spec by exact H.
    destruct (nth_error s (Z.to_nat i)) eqn:N; [eauto|].
    apply nth_error_None in N. unfold len in H. lia.
Qed.

Lemma drawCell_reads (b : Board) (r c : Z) :
  1 <= r <= 8 -> 65 <= c <= 72 ->
  drawCell b r c = Ret tt <-> (8 - r) * 8 + (c - 65) < len b.
Proof.
  intros Hr Hc.
  assert (E : drawCell b r c
              = (ch <- at_ b ((8 - r) * 8 + (c - 65)) ;;
                 let piece := EncodeRune (code ch) in
                 if negb (eqs piece (str "_")) then _ <- at_ piece 0 ;; Ret tt else Ret tt)).
  { assert (Cr : r = 1 \/ r = 2 \/ r = 3 \/ r = 4 \/ r = 5 \/ r = 6 \/ r = 7 \/ r = 8) by lia.
    assert (Cc : c = 65 \/ c = 66 \/ c = 67 \/ c = 68 \/ c = 69 \/ c = 70 \/ c = 71 \/ c = 72)
      by lia.
    unfold drawCell, PieceAt.
    repeat destruct Cr as [->|Cr]; try subst r;
      repeat destruct Cc as [->|Cc]; try subst c;
      match goal with |- context [Position b ?p] =>
        let v := eval vm_compute in p in change p with v end;
      rewrite Position_cons2;
      match goal with |- context [fileLetter ?f] => change (fileLetter f) with true end;
      match goal with |- context [rankDigit ?f] => change (rankDigit f) with true end;
      match goal with |- context [indexOf ?f ?r] =>
        let v := eval vm_compute in (indexOf f r) in change (indexOf f r) with v end;
      match goal with |- context [at_ b (?x + ?y)] =>
        let v := eval vm_compute in (x + y) in change (x + y) with v end;
      cbn [bind]; match goal with |- context [at_ b ?i] => destruct (at_ b i) end;
      reflexivity. }
  rewrite E. split.
  - intro H. destruct (at_ b ((8 - r) * 8 + (c - 65))) as [ch|] eqn:A; [|discriminate H].
    assert (X : exists ch, at_ b ((8 - r) * 8 + (c - 65)) = Ret ch) by eauto.
    apply at_returns in X. lia.
  - intro H. destruct (proj2 (at_returns b ((8 - r) * 8 + (c - 65)))) as (ch & ->); [lia|].
    cbn [bind]. cbv zeta. destruct (negb _); [|reflexivity].
    destruct (proj2 (at_returns (EncodeRune (code ch)) 0)) as (x & ->); [|reflexivity].
    pose proof (EncodeRune_not_nil (code ch)) as N.
    destruct (EncodeRune (code ch)); [contradiction|]. unfold len. cbn [List.length]. lia.
Qed.

(** ** The matcher of the bot *)

Section Matcher.
Import Bot.

(** A match ends where its continuation ends. *)
Lemma star_post (total : Z) (p : rune -> bool) (s : input) k r :
  star p s k = Some r -> exists s', k s' = Some r.
Proof.
  induction s as [|[i x] t IH]; cbn [star].
  - eauto.
  - destruct (p x); [|eauto].
    destruct (star p t k) eqn:S; cbn [orElse]; [|eauto].
    intros [= <-]. auto.
Qed.

Lemma starLazy_post (p : rune -> bool) (s : input) k r :
  starLazy p s k = Some r -> exists s', k s' = Some r.
Proof.
  induction s as [|[i x] t IH]; cbn [starLazy].
  - destruct (k []) eqn:K; cbn [orElse]; [intros [= <-]; eauto|discriminate].
  - destruct (k ((i, x) :: t)) eqn:K; cbn [orElse]; [intros [= <-]; eauto|].
    destruct (p x); [auto|discriminate].
Qed.

Lemma run_post (total : Z) (e : regexp) :
  forall s c k r, run total e s c k = Some r -> exists s' c', k s' c' = Some r.
Proof.
  induction e as [|p|p|p|e IH|a IHa b IHb|a IHa b IHb|n e IH]; intros s c k r; cbn [run].
  - eauto.
  - destruct s as [|[i x] t]; [discriminate|]. destruct (p x); [eauto|discriminate].
  - intro H. apply (star_post total) in H. destruct H as (s' & H). eauto.
  - intro H. apply starLazy_post in H. destruct H as (s' & H). eauto.
  - destruct (run total e s c k) eqn:R; cbn [orElse]; [|eauto].
    intros [= <-]. eauto.
  - intro H. apply IHa in H. destruct H as (s1 & c1 & H). eauto.
  - destruct (run total a s c k) eqn:R; cbn [orElse]; [intros [= <-]|]; eauto.
  - intro H. apply IH in H. destruct H as (s1 & c1 & H). eauto.
Qed.

Lemma search_post (total : Z) (e : regexp) (s : input) r :
  search total e s = Some r -> exists s', run total e s' [] (fun _ c => Some c) = Some r.
Proof.
  induction s as [|x t IH]; cbn [search].
  - destruct (run total e [] [] _) eqn:R; cbn [orElse]; [intros [= <-]; eauto|discriminate].
  - destruct (run total e (x :: t) [] _) eqn:R; cbn [orElse]; [intros [= <-]; eauto|auto].
Qed.

Lemma starLazy_now (p : rune -> bool) (s : input) (f : input -> captures) :
  starLazy p s (fun s' => Some (f s')) = Some (f s).
Proof. destruct s as [|[i x] t]; reflexivity. Qed.

(** "move.*game.*to.*#?(.*?)": the group is empty. *)
Lemma moveGameTo_empty (text : gostring) (tox : list gostring) :
  matches rxMoveGameTo text = Some tox -> exists whole, tox = [whole; []].
Proof.
  unfold matches. destruct (search _ _ _) as [c|] eqn:S; [|discriminate].
  cbn [option_map]. intros [= <-].
  apply search_post in S. destruct S as (s0 & R).
  unfold rxMoveGameTo in R. cbn [cat fold_right run] in R.
  repeat (apply run_post in R; destruct R as (? & ? & R)).
  rewrite starLazy_now in R.
  assert (E : exists a p0 p1, c = (0%nat, (p0, p1)) :: (1%nat, (a, a)) :: x10).
  { destruct x9 as [|[i r] t]; cbn [orElse] in R.
    - injection R as <-. eauto.
    - destruct (hash r).
      + rewrite starLazy_now in R. cbn [orElse] in R. injection R as <-. eauto.
      + cbn [orElse] in R. injection R as <-. eauto. }
  destruct E as (a & p0 & p1 & ->).
  eexists. cbn [submatch find fst Nat.eqb]. unfold slice at 2. rewrite Z.sub_diag.
  reflexivity.
Qed.







(** *** The text under the matcher *)

Lemma range_from_skip (u : gostring) :
  forall k i, range_from k i u = range_from 0 (i + Z.of_nat k) (skipn k u).
Proof.
  induction u as [|c t IH]; intros k i.
  - destruct k; reflexivity.
  - destruct k as [|k].
    + cbn [skipn]. now rewrite Z.add_0_r.
    + cbn [range_from skipn]. rewrite IH. f_equal. lia.
Qed.

Lemma reads_range (text : gostring) : reads text (range text).
Proof. exists [], text. split; reflexivity. Qed.

Lemma reads_tail (text : gostring) (x : Z * rune) (t : input) :
  reads text (x :: t) -> reads text t.
Proof.
  intros (pre & u & T & S).
  destruct u as [|c u']; [discriminate S|].
  cbn [range_from] in S. destruct (DecodeRune (c :: u')) as [r w].
  injection S as _ ->. rewrite range_from_skip.
  destruct (Nat.le_gt_cases (Nat.pred w) (List.length u')) as [L|L].
  - exists (pre ++ c :: firstn (Nat.pred w) u'), (skipn (Nat.pred w) u'). split.
    + rewrite <- app_assoc. cbn [app]. now rewrite firstn_skipn.
    + f_equal. unfold len. rewrite length_app. cbn [List.length].
      rewrite firstn_length_le by exact L. lia.
  - exists text, []. split; [now rewrite app_nil_r|].
    rewrite skipn_all2 by lia. reflexivity.
Qed.

Lemma lor_big (a b : Z) : 0 <= b -> 128 <= a -> 128 <= Z.lor a b.
Proof.
  intros Hb Ha.
  destruct (Z.lt_ge_cases (Z.lor a b) 128) as [L|L]; [exfalso|exact L].
  assert (N : 0 <= Z.lor a b) by (apply Z.lor_nonneg; lia).
  assert (P : 0 < Z.lor a b).
  { destruct (Z.eq_dec (Z.lor a b) 0) as [E|E]; [|lia].
    apply Z.lor_eq_0_l in E. lia. }
  apply (Z.log2_lt_pow2 _ 7 P) in L.
  rewrite Z.log2_lor in L by lia.
  assert (7 <= Z.log2 a) by (apply (Z.log2_le_pow2 a 7); lia).
  lia.
Qed.

Lemma shift_big (x n : Z) : 0 <= n -> 2 <= x -> 6 <= n -> 128 <= Z.shiftl x n.
Proof.
  intros Hn Hx H6. rewrite Z.shiftl_mul_pow2 by exact Hn.
  assert (2 ^ 6 <= 2 ^ n) by (apply Z.pow_le_mono_r; lia).
  change (2 ^ 6) with 64 in *. nia.
Qed.

Lemma land_low (a m k : Z) :
  0 <= a -> m = Z.ones k -> 0 <= k -> Z.land a m = a mod 2 ^ k.
Proof. intros _ -> K. now apply Z.land_ones. Qed.

Lemma decode2 (s0 s1 : Z) :
  194 <= s0 < 224 -> 0 <= s1 ->
  128 <= Z.lor (Z.shiftl (Z.land s0 31) 6) (Z.land s1 63).
Proof.
  intros H0 H1. apply lor_big; [apply Z.land_nonneg; lia|].
  apply shift_big; [lia| |lia].
  rewrite (@land_low s0 31 5) by (try reflexivity; lia).
  change (2 ^ 5) with 32. pose proof (Z.div_mod s0 32).
  pose proof (Z.mod_pos_bound s0 32). lia.
Qed.

Lemma decode3 (s0 s1 s2 : Z) :
  224 <= s0 < 240 -> (s0 = 224 -> 160 <= s1) -> 128 <= s1 <= 191 -> 0 <= s2 ->
  128 <= Z.lor (Z.lor (Z.shiftl (Z.land s0 15) 12) (Z.shiftl (Z.land s1 63) 6))
               (Z.land s2 63).
Proof.
  intros H0 H01 H1 H2.
  assert (A : Z.land s0 15 = s0 mod 16) by (apply (@land_low s0 15 4); try reflexivity; lia).
  assert (B : Z.land s1 63 = s1 mod 64) by (apply (@land_low s1 63 6); try reflexivity; lia).
  pose proof (Z.div_mod s0 16). pose proof (Z.mod_pos_bound s0 16).
  pose proof (Z.div_mod s1 64). pose proof (Z.mod_pos_bound s1 64).
  apply lor_big; [apply Z.land_nonneg; lia|].
  destruct (Z.eq_dec s0 224) as [E|E].
  - rewrite Z.lor_comm. apply lor_big.
    + apply Z.shiftl_nonneg. apply Z.land_nonneg; lia.
    + apply shift_big; [lia| |lia]. rewrite B. lia.
  - apply lor_big.
    + apply Z.shiftl_nonneg. apply Z.land_nonneg; lia.
    + rewrite A, Z.shiftl_mul_pow2 by lia. change (2 ^ 12) with 4096. lia.
Qed.

Lemma decode4 (s0 s1 s2 s3 : Z) :
  240 <= s0 <= 244 -> (s0 = 240 -> 144 <= s1) -> 128 <= s1 <= 191 -> 0 <= s2 -> 0 <= s3 ->
  128 <= Z.lor (Z.lor (Z.lor (Z.shiftl (Z.land s0 7) 18) (Z.shiftl (Z.land s1 63) 12))
                      (Z.shiftl (Z.land s2 63) 6))
               (Z.land s3 63).
Proof.
  intros H0 H01 H1 H2 H3.
  assert (A : Z.land s0 7 = s0 mod 8) by (apply (@land_low s0 7 3); try reflexivity; lia).
  assert (B : Z.land s1 63 = s1 mod 64) by (apply (@land_low s1 63 6); try reflexivity; lia).
  pose proof (Z.div_mod s0 8). pose proof (Z.mod_pos_bound s0 8).
  pose proof (Z.div_mod s1 64). pose proof (Z.mod_pos_bound s1 64).
  apply lor_big; [apply Z.land_nonneg; lia|].
  apply lor_big; [apply Z.shiftl_nonneg; apply Z.land_nonneg; lia|].
  destruct (Z.eq_dec s0 240) as [E|E].
  - rewrite Z.lor_comm. apply lor_big.
    + apply Z.shiftl_nonneg. apply Z.land_nonneg; lia.
    + rewrite B, Z.shiftl_mul_pow2 by lia. change (2 ^ 12) with 4096. lia.
  - apply lor_big.
    + apply Z.shiftl_nonneg. apply Z.land_nonneg; lia.
    + rewrite A, Z.shiftl_mul_pow2 by lia. change (2 ^ 18) with 262144. lia.
Qed.

(** A rune below 128 is the byte that encodes it. *)
Lemma DecodeRune_ascii (c : ascii) (t : gostring) :
  fst (DecodeRune (c :: t)) < 128 -> DecodeRune (c :: t) = (code c, 1%nat).
Proof.
  pose proof (code_range c) as R0.
  unfold DecodeRune.
  destruct (code c <? 128) eqn:E0; [reflexivity|]. apply Z.ltb_ge in E0.
  intro H. exfalso. revert H. cbv zeta. unfold locb, hicb, RuneError.
  destruct ((code c <? 194) || (244 <? code c)) eqn:E1; [cbn [fst]; lia|].
  apply orb_false_iff in E1. destruct E1 as [E1 E1']. apply Z.ltb_ge in E1, E1'.
  destruct t as [|c1 t1]; [cbn [fst]; lia|].
  pose proof (code_range c1) as R1.
  destruct ((code c1 <? _) || (_ <? code c1)) eqn:E2; [cbn [fst]; lia|].
  apply orb_false_iff in E2. destruct E2 as [E2 E2']. apply Z.ltb_ge in E2, E2'.
  assert (B1 : 128 <= code c1 <= 191
               /\ (code c = 224 -> 160 <= code c1) /\ (code c = 240 -> 144 <= code c1)).
  { revert E2 E2'.
    destruct (Z.eqb_spec (code c) 224); destruct (Z.eqb_spec (code c) 240);
      destruct (Z.eqb_spec (code c) 237); destruct (Z.eqb_spec (code c) 244); lia. }
  clear E2 E2'. destruct B1 as (B1 & B224 & B240).
  destruct (code c <? 224) eqn:E3.
  { apply Z.ltb_lt in E3. cbn [fst]. pose proof (@decode2 (code c) (code c1)). lia. }
  apply Z.ltb_ge in E3.
  destruct t1 as [|c2 t2]; [cbn [fst]; lia|].
  pose proof (code_range c2) as R2.
  destruct ((code c2 <? 128) || (191 <? code c2)) eqn:E4; [cbn [fst]; lia|].
  destruct (code c <? 240) eqn:E5.
  { apply Z.ltb_lt in E5. cbn [fst].
    pose proof (@decode3 (code c) (code c1) (code c2)). lia. }
  apply Z.ltb_ge in E5.
  destruct t2 as [|c3 t3]; [cbn [fst]; lia|].
  pose proof (code_range c3) as R3.
  destruct ((code c3 <? 128) || (191 <? code c3)) eqn:E6; [cbn [fst]; lia|].
  cbn [fst]. pose proof (@decode4 (code c) (code c1) (code c2) (code c3)). lia.
Qed.

Lemma reads_pos (text pre u : gostring) :
  text = pre ++ u -> pos (len text) (range_from 0 (len pre) u) = len pre.
Proof.
  intros ->. destruct u as [|c u]; cbn [range_from pos].
  - now rewrite app_nil_r.
  - destruct (DecodeRune (c :: u)). reflexivity.
Qed.

(** A character below 128 at the head of the input is one byte of the
    text. *)
Lemma reads_ascii (pre u : gostring) (i : Z) (r : rune) (t : input) :
  range_from 0 (len pre) u = (i, r) :: t -> r < 128 ->
  exists c u', u = c :: u' /\ code c = r /\ i = len pre
               /\ t = range_from 0 (len (pre ++ [c])) u'.
Proof.
  intros S L. destruct u as [|c u']; [discriminate S|].
  cbn [range_from] in S.
  destruct (DecodeRune (c :: u')) as [r' w] eqn:D.
  injection S as <- <- <-.
  rewrite DecodeRune_ascii in D by (rewrite D; exact L).
  injection D as <- <-.
  exists c, u'. repeat split. cbn [Nat.pred]. f_equal.
  unfold len. rewrite length_app. cbn [List.length]. lia.
Qed.

Lemma slice_between (pre w u : gostring) :
  slice (pre ++ w ++ u) (len pre) (len pre + len w) = w.
Proof.
  unfold slice, len. rewrite Nat2Z.id.
  replace (Z.to_nat (_ + _ - _)) with (List.length w) by lia.
  rewrite skipn_app, skipn_all, Nat.sub_diag. cbn [app skipn].
  rewrite firstn_app, firstn_all, Nat.sub_diag. cbn [firstn]. apply app_nil_r.
Qed.

Lemma star_greedy (text : gostring) (p : rune -> bool) (s : input) k r :
  reads text s -> star p s k = Some r ->
  exists s', reads text s' /\ k s' = Some r
             /\ forall x t, s' = x :: t -> p (snd x) = true -> k t = None.
Proof.
  assert (N : forall t, star p t k = None -> k t = None).
  { intros [|[i x] t]; cbn [star]; [auto|].
    destruct (p x); [|auto]. destruct (star p t k); [discriminate|auto]. }
  induction s as [|[i x] t IH]; cbn [star]; intros Rd S.
  - exists []. repeat split; auto. discriminate.
  - destruct (p x) eqn:P.
    + destruct (star p t k) eqn:St; cbn [orElse] in S.
      * injection S as <-. apply IH; [eapply reads_tail; eauto|reflexivity].
      * exists ((i, x) :: t). repeat split; auto.
        intros x0 t0 [= <- <-] _. auto.
    + exists ((i, x) :: t). repeat split; auto.
      intros x0 t0 [= <- <-]. cbn [snd]. congruence.
Qed.

Lemma starLazy_reads (text : gostring) (p : rune -> bool) (s : input) k r :
  reads text s -> starLazy p s k = Some r ->
  exists s', reads text s' /\ k s' = Some r.
Proof.
  induction s as [|[i x] t IH]; cbn [starLazy]; intros Rd.
  - destruct (k []) eqn:K; cbn [orElse]; [intros [= <-]; eauto|discriminate].
  - destruct (k ((i, x) :: t)) eqn:K; cbn [orElse]; [intros [= <-]; eauto|].
    destruct (p x); [|discriminate]. apply IH. eapply reads_tail; eauto.
Qed.

Lemma run_reads (text : gostring) (total : Z) (e : regexp) :
  forall s c k r,
    reads text s -> run total e s c k = Some r ->
    exists s' c', reads text s' /\ k s' c' = Some r.
Proof.
  induction e as [|p|p|p|e IH|a IHa b IHb|a IHa b IHb|n e IH]; intros s c k r Rd;
    cbn [run].
  - eauto.
  - destruct s as [|[i x] t]; [discriminate|]. destruct (p x); [|discriminate].
    intro H. exists t, c. split; [eapply reads_tail; eauto|exact H].
  - intro H. destruct (star_greedy _ _ Rd H) as (s' & Rd' & K & _). eauto.
  - intro H. destruct (starLazy_reads _ _ Rd H) as (s' & Rd' & K). eauto.
  - destruct (run total e s c k) eqn:R; cbn [orElse]; [|eauto].
    intros [= <-]. eauto.
  - intro H. destruct (IHa _ _ _ _ Rd H) as (s1 & c1 & Rd1 & H1). eauto.
  - destruct (run total a s c k) eqn:R; cbn [orElse]; [intros [= <-]|]; eauto.
  - intro H. destruct (IH _ _ _ _ Rd H) as (s1 & c1 & Rd1 & H1). eauto.
Qed.

Lemma search_reads (text : gostring) (total : Z) (e : regexp) (s : input) r :
  reads text s -> search total e s = Some r ->
  exists s', reads text s' /\ run total e s' [] (fun _ c => Some c) = Some r.
Proof.
  induction s as [|x t IH]; cbn [search]; intro Rd.
  - destruct (run total e [] [] _) eqn:R; cbn [orElse]; [intros [= <-]; eauto|discriminate].
  - destruct (run total e (x :: t) [] _) eqn:R; cbn [orElse]; [intros [= <-]; eauto|].
    apply IH. eapply reads_tail; eauto.
Qed.

(** "knock.*out.*([A-Ha-h][1-9])": the group is a file letter and a
    digit from 1 to 9. *)
Lemma knockOut_square (text : gostring) (tox : list gostring) :
  matches rxKnockOut text = Some tox ->
  exists whole f d, tox = [whole; [f; d]] /\ fileLetter f = true
                    /\ inClass "1" "9" d = true.
Proof.
  unfold matches. destruct (search _ _ _) as [c|] eqn:S; [|discriminate].
  cbn [option_map]. intros [= <-].
  apply (@search_reads text _ _ _ _ (reads_range text)) in S. destruct S as (s0 & Rd0 & R).
  unfold rxKnockOut in R. cbn [cat fold_right] in R.
  cbn [run] in R.
  do 4 (apply (@run_reads text _ _ _ _ _ _ Rd0) in R; clear Rd0; destruct R as (? & ? & Rd0 & R)).
  destruct x5 as [|[i r] t]; [discriminate R|].
  destruct (fileClass r) eqn:Fc; [|discriminate R].
  destruct t as [|[j r2] t2]; [discriminate R|].
  destruct (rank19 r2) eqn:Rk; [|discriminate R].
  injection R as <-.
  destruct Rd0 as (pre & u & T & U). symmetry in U.
  assert (L1 : r < 128) by (unfold fileClass in Fc; lia).
  assert (L2 : r2 < 128) by (unfold rank19 in Rk; lia).
  destruct (reads_ascii _ _ U L1) as (f & u1 & -> & Cf & -> & U1). symmetry in U1.
  destruct (reads_ascii _ _ U1 L2) as (d & u2 & -> & Cd & _ & U2).
  exists (submatch text ((0%nat, (pos (len text) s0, pos (len text) t2))
                        :: (1%nat, (pos (len text) ((len pre, r) :: (j, r2) :: t2),
                                    pos (len text) t2)) :: x6) 0), f, d.
  split; [|split].
  - f_equal. cbn [submatch find fst Nat.eqb pos]. f_equal.
    rewrite U2, reads_pos by (rewrite T, <- !app_assoc; reflexivity).
    rewrite T. change (f :: d :: u2) with ([f; d] ++ u2).
    replace (len ((pre ++ [f]) ++ [d])) with (len pre + len [f; d]).
    + apply slice_between.
    + unfold len. rewrite !length_app. cbn [List.length]. lia.
  - unfold fileLetter, inClass. cbn [list_ascii_of_string].
    rewrite Cf. exact Fc.
  - unfold inClass. cbn [list_ascii_of_string]. rewrite Cd. exact Rk.
Qed.



End Matcher.

Lemma Draw_reads (b : Board) (w : Z) : Draw b w = Ret tt <-> 64 <= len b.
Proof.
  unfold Draw, doDraw. rewrite forEach_all. split.
  - intro H. assert (H1 := H 1 ltac:(cbn; tauto)).
    rewrite forEach_all in H1. specialize (H1 72 ltac:(cbn; tauto)).
    apply drawCell_reads in H1; lia.
  - intros L r Ir. apply forEach_all. intros c Ic. apply drawCell_reads.
    + cbn in Ir. lia.
    + cbn in Ic. lia.
    + cbn in Ir, Ic. lia.
Qed.

(** X12. [Draw] returns on every board of at least 64 bytes, whatever
    they are, and panics on every shorter board: it fetches each of the 64
    cells with [PieceAt]. *)
Theorem X12_Draw_reads_every_cell (b : Board) (width : Z) :
  (64 <= len b -> Draw b width = Ret tt)
  /\ (len b < 64 -> Draw b width = Panic).
Proof.
  split; intro H.
  - now apply Draw_reads.
  - destruct (Draw b width) as [[]|] eqn:D; [|reflexivity].
    apply Draw_reads in D. lia.
Qed.

Lemma X12_Draw_reads_every_cell_witness :
  (64 <= len (Normalize StartingBoard) /\ Draw (Normalize StartingBoard) 400 = Ret tt)
  /\ (len (str "rnbqkbnr") < 64 /\ Draw (str "rnbqkbnr") 400 = Panic).
Proof.
  assert (L : 64 <= len (Normalize StartingBoard)) by (vm_compute; discriminate).
  assert (S : len (str "rnbqkbnr") < 64) by (vm_compute; reflexivity).
  split; (split; [assumption|]).
  - exact (proj1 (X12_Draw_reads_every_cell (Normalize StartingBoard) 400) L).
  - exact (proj2 (X12_Draw_reads_every_cell (str "rnbqkbnr") 400) S).
Defined.

(** ** The cases of the bot *)




(** What a move that is made changes. *)
Lemma submitMove_moved (user text : gostring) (since now : Z) (g g' : Bot.Game)
      (r : Bot.reply) :
  Bot.submitMove user text since now g = Ret (g', r) ->
  r = Bot.WhiteMoves \/ r = Bot.BlackMoves ->
  exists start end_ n,
    Move (Bot.Board g) start end_ = Ret (Bot.Board g', None)
    /\ Bot.Winner g = []
    /\ user = (if Bot.PlayingWhite g then Bot.White g else Bot.Black g)
    /\ r = (if Bot.PlayingWhite g then Bot.WhiteMoves else Bot.BlackMoves)
    /\ g' = Bot.mkGame (Bot.Board g') (Bot.Black g) (Bot.White g)
                       (negb (Bot.PlayingWhite g)) (Bot.Winner g) (Bot.BlackOk g)
                       (Bot.WhiteOk g) now
                       (if Bot.PlayingWhite g
                        then Bot.add64 (Bot.WhiteElapsed g) since
                        else Bot.WhiteElapsed g)
                       (if Bot.PlayingWhite g
                        then Bot.BlackElapsed g
                        else Bot.add64 (Bot.BlackElapsed g) since)
                       (Bot.Allowed g) (Bot.Moves g ++ [n])
                       (Bot.Previous g ++ [Bot.Board g]).
Proof.
  unfold Bot.submitMove. intros H R.
  destruct (negb (eqs (Bot.Winner g) [])) eqn:W.
  { injection H as _ <-. destruct R; discriminate. }
  apply negb_false_iff, eqs_true in W.
  match type of H with (x <- ?m ;; _) = _ => destruct m as [se|] eqn:SE end;
    [|discriminate H].
  cbn [bind] in H.
  destruct se as [[err|[start end_]]|].
  2:{ destruct (CoordsToAlgebraic (Bot.Board g) start end_) as [ae|]; [|discriminate H].
      cbn [bind] in H.
      destruct (negb (eqs user (Bot.White g)) && negb (eqs user (Bot.Black g))).
      { injection H as _ <-. destruct R; discriminate. }
      assert (M : forall g1,
                 Bot.move g start end_ (fst ae) = Ret (g1, None) ->
                 exists n, Move (Bot.Board g) start end_ = Ret (Bot.Board g1, None)
                           /\ g1 = Bot.mkGame (Bot.Board g1) (Bot.Black g) (Bot.White g)
                                      (Bot.PlayingWhite g) (Bot.Winner g) (Bot.BlackOk g)
                                      (Bot.WhiteOk g) (Bot.TickFrom g) (Bot.WhiteElapsed g)
                                      (Bot.BlackElapsed g) (Bot.Allowed g)
                                      (Bot.Moves g ++ [n]) (Bot.Previous g ++ [Bot.Board g])).
      { intros g1 M. unfold Bot.move in M.
        destruct (Move (Bot.Board g) start end_) as [[b1 [e1|]]|]; try discriminate M.
        cbn [bind] in M. injection M as <-. cbn [Bot.Board].
        destruct (negb (eqs (fst ae) [])); eexists; split; reflexivity. }
      destruct (eqs user (Bot.White g) && Bot.PlayingWhite g) eqn:C1.
      - apply andb_true_iff in C1. destruct C1 as [U P]. apply eqs_true in U.
        destruct (Bot.move g start end_ (fst ae)) as [[g1 [e1|]]|] eqn:Mv;
          try discriminate H; cbn [bind] in H.
        { injection H as _ <-. destruct R; discriminate. }
        injection H as <- <-. destruct (M _ eq_refl) as (n & Mn & G1).
        exists start, end_, n. rewrite P. cbn [Bot.Board].
        repeat split; auto. rewrite G1 at 1. cbn. rewrite G1. cbn. reflexivity.
      - destruct (eqs user (Bot.Black g) && negb (Bot.PlayingWhite g)) eqn:C2.
        + apply andb_true_iff in C2. destruct C2 as [U P]. apply eqs_true in U.
          apply negb_true_iff in P.
          destruct (Bot.move g start end_ (fst ae)) as [[g1 [e1|]]|] eqn:Mv;
            try discriminate H; cbn [bind] in H.
          { injection H as _ <-. destruct R; discriminate. }
          injection H as <- <-. destruct (M _ eq_refl) as (n & Mn & G1).
          exists start, end_, n. rewrite P. cbn [Bot.Board].
          repeat split; auto. rewrite G1 at 1. cbn. rewrite G1. cbn. reflexivity.
        + injection H as _ <-. destruct R; discriminate. }
  all: injection H as _ <-; destruct R; discriminate.
Qed.


Lemma reply_cases (r : Bot.reply) :
  (r = Bot.WhiteMoves \/ r = Bot.BlackMoves)
  \/ (r <> Bot.WhiteMoves /\ r <> Bot.BlackMoves).
Proof. destruct r; auto; right; split; discriminate. Qed.

Lemma submitMove_sound (user text : gostring) (since now : Z) (g g' : Bot.Game)
      (r : Bot.reply) :
  sound g -> Bot.submitMove user text since now g = Ret (g', r) -> sound g'.
Proof.
  intros (W & P & L) H.
  destruct (reply_cases r) as [R|[R1 R2]].
  - destruct (submitMove_moved _ _ _ _ _ H R) as (s & t & n & M & _ & _ & _ & G).
    rewrite G. unfold sound. cbn [Bot.Board Bot.Previous Bot.Moves].
    split; [eapply Move_wf; eauto|]. split.
    + apply Forall_app. split; [exact P|]. constructor; [exact W|constructor].
    + rewrite !length_app, L. reflexivity.
  - rewrite (submitMove_failure_same _ _ _ _ _ H R1 R2). exact (conj W (conj P L)).
Qed.

Lemma lastOf_last {A} (s : list A) (x : A) : Bot.lastOf (s ++ [x]) = Ret x.
Proof. unfold Bot.lastOf. rewrite rev_app_distr. reflexivity. Qed.

Lemma lastOf_returns {A} (s : list A) : s <> [] -> exists x, Bot.lastOf s = Ret x /\ In x s.
Proof.
  intro N. destruct (exists_last N) as (h & x & ->). exists x.
  split; [apply lastOf_last|]. apply in_or_app. right. now left.
Qed.

(** "take back" on a sound game: it returns, and the board it sets is a
    board of the history. *)
Lemma takeBack_sound (user : gostring) (g : Bot.Game) :
  sound g -> exists g' r, Bot.takeBack user g = Ret (g', r) /\ sound g'.
Proof.
  intros (W & P & L). unfold Bot.takeBack.
  destruct (negb (eqs (Bot.Winner g) [])).
  { do 2 eexists. split; [reflexivity|]. unfold sound. cbn. auto. }
  destruct (Bot.len_lt1 (Bot.Previous g)) eqn:E.
  { do 2 eexists. split; [reflexivity|]. unfold sound. cbn. auto. }
  assert (N : Bot.Previous g <> []).
  { intro X. rewrite X in E. discriminate E. }
  assert (N' : Bot.Moves g <> []).
  { intro X. rewrite X in L. destruct (Bot.Previous g); [congruence|discriminate L]. }
  destruct (lastOf_returns N) as (board & LB & IB).
  destruct (lastOf_returns N') as (mv & LM & _).
  assert (WB : wfBoard board) by (eapply Forall_forall in P; eauto).
  destruct (eqs user (Bot.White g) && negb (Bot.PlayingWhite g)).
  { rewrite LB. cbn [bind Bot.Moves]. rewrite LM. cbn [bind].
    do 2 eexists. split; [reflexivity|]. unfold sound. cbn. auto. }
  destruct (eqs user (Bot.Black g) && Bot.PlayingWhite g).
  { rewrite LB. cbn [bind Bot.Moves]. rewrite LM. cbn [bind].
    do 2 eexists. split; [reflexivity|]. unfold sound. cbn. auto. }
  do 2 eexists. split; [reflexivity|]. unfold sound. cbn. auto.
Qed.

Lemma index_matches (rx : Bot.regexp) (text : gostring) (l : list gostring) (i : nat) :
  Bot.matches rx text = Some l ->
  Bot.index (Bot.matches rx text) i
  = match nth_error l i with Some s => Ret s | None => Panic end.
Proof. intros ->. reflexivity. Qed.

(** "knock out": the cell is emptied, and a rank 9 is not refused but
    indexes the board at -1. *)
Lemma knockOut_effect (text whole : gostring) (f d : ascii) (g : Bot.Game) :
  wfBoard (Bot.Board g) ->
  Bot.matches Bot.rxKnockOut text = Some [whole; [f; d]] ->
  fileLetter f = true -> inClass "1" "9" d = true ->
  Bot.knockOut text g
  = if Ascii.eqb d "9" then Panic
    else Ret (Bot.setBoard (setCell (Bot.Board g) (indexOf f d) "_") g,
              Bot.Removed [f; d]).
Proof.
  intros W M F D. unfold Bot.knockOut. rewrite M. cbn [Bot.index nth_error bind].
  rewrite Position_ToUpper, Position_cons2, F.
  rewrite inClass_spec in D. change (code "1") with 49 in D. change (code "9") with 57 in D.
  destruct (Ascii.eqb_spec d "9") as [->|N].
  - change (rankDigit "9") with false. cbn [bind fst].
    rewrite Replace_out_of_range; [reflexivity|apply W|]. lia.
  - assert (R : rankDigit d = true).
    { unfold rankDigit. rewrite inClass_spec.
      change (code "1") with 49. change (code "8") with 56.
      assert (code d <> 57).
      { intro E. apply N. apply code_inj. exact E. }
      lia. }
    rewrite R. cbn [bind fst].
    rewrite (@Replace_oneByte (Bot.Board g) (indexOf f d) "_").
    + reflexivity.
    + apply W.
    + unfold oneByte. vm_compute. reflexivity.
    + destruct W as [L _]. rewrite L. apply indexOf_range; auto.
Qed.




(** ** What a message does *)

Lemma lookup_put (ch k : gostring) (g : Bot.Game) (games : Bot.store) :
  Bot.lookup ch (Bot.put k g games) = if eqs k ch then Some g else Bot.lookup ch games.
Proof. reflexivity. Qed.

Lemma lookup_put_same (ch : gostring) (g : Bot.Game) (games : Bot.store) :
  Bot.lookup ch (Bot.put ch g games) = Some g.
Proof.
  rewrite lookup_put. now rewrite (proj2 (eqs_true ch ch) eq_refl).
Qed.

Lemma lookup_put_other (ch k : gostring) (g : Bot.Game) (games : Bot.store) :
  k <> ch -> Bot.lookup ch (Bot.put k g games) = Bot.lookup ch games.
Proof. intro N. rewrite lookup_put. now rewrite eqs_false. Qed.

Ltac incoming H :=
  repeat match type of H with
         | (if ?c then _ else _) = _ => destruct c eqn:?
         end.

Lemma showPrevious_posts (text : gostring) (g : Bot.Game) (posts : list Bot.post) :
  Bot.showPrevious text g = Ret posts ->
  exists board which, posts = [Bot.PreviousBoard board which].
Proof.
  unfold Bot.showPrevious. destruct (Bot.index _ 1) as [tox1|]; [|discriminate].
  cbn [bind]. cbv zeta. unfold Bot.boardAt.
  destruct (0 <=? Bot.Atoi tox1) eqn:A; [|discriminate].
  destruct (Bot.Atoi tox1 <? Z.of_nat (List.length (Bot.Previous g))) eqn:B; [|discriminate].
  cbn [andb]. destruct (nth_error _ _) as [board|]; [|discriminate]. cbn [bind].
  destruct (Chess.Draw board 400); [|discriminate]. cbn [bind].
  replace (Z.of_nat (List.length (Bot.Previous g)) <? Bot.Atoi tox1) with false
    by (symmetry; apply Z.ltb_ge; apply Z.ltb_lt in B; lia).
  intros [= <-]. eauto.
Qed.

Lemma Incoming_cases (Channels : list (gostring * gostring)) (ctx : Bot.Context)
      (since now : Z) (games games' : Bot.store) (posts : list Bot.post) :
  Bot.Incoming Channels ctx since now games = Ret (games', posts) ->
  changes (Bot.User ctx) (Bot.Text ctx) since now
          (current (Bot.Channel ctx) games) (current (Bot.Channel ctx) games') posts
  /\ otherChannels (Bot.Channel ctx) (current (Bot.Channel ctx) games) games games' posts.
Proof.
  intro H. unfold Bot.Incoming in H. cbv zeta in H.
  change (match Bot.lookup (Bot.Channel ctx) games with
          | Some g => g
          | None => Bot.newGame
          end) with (current (Bot.Channel ctx) games) in H.
  set (g := current (Bot.Channel ctx) games) in *.
  set (games0 := match Bot.lookup (Bot.Channel ctx) games with
                 | Some _ => games
                 | None => Bot.put (Bot.Channel ctx) Bot.newGame games
                 end) in H.
  assert (G0 : current (Bot.Channel ctx) games0 = g).
  { unfold games0, g, current.
    destruct (Bot.lookup (Bot.Channel ctx) games) eqn:L; [now rewrite L|].
    now rewrite lookup_put_same. }
  assert (O0 : forall ch, ch <> Bot.Channel ctx -> Bot.lookup ch games0 = Bot.lookup ch games).
  { intros ch N. unfold games0.
    destruct (Bot.lookup (Bot.Channel ctx) games); [reflexivity|].
    apply lookup_put_other. congruence. }
  assert (P : forall g', current (Bot.Channel ctx) (Bot.put (Bot.Channel ctx) g' games0) = g').
  { intro g'. unfold current. now rewrite lookup_put_same. }
  assert (O : forall g' ps,
             otherChannels (Bot.Channel ctx) g games
                           (Bot.put (Bot.Channel ctx) g' games0) ps).
  { intros g' ps ch N. left. rewrite lookup_put_other by congruence. auto. }
  assert (O' : forall ps, otherChannels (Bot.Channel ctx) g games games0 ps).
  { intros ps ch N. left. auto. }
  assert (Eg : current (Bot.Channel ctx) games = g) by reflexivity.
  clearbody games0 g.
  incoming H.
  - injection H as <- <-. rewrite Eg. split; [apply ByPost; intros ? []|].
    intros ch N. left. reflexivity.
  - injection H as <- <-. rewrite G0. split; [apply ByPost; intros ? []|apply O'].
  - injection H as <- <-. rewrite P. split; [apply ByClaimBlack|apply O].
  - injection H as <- <-. rewrite P. split; [apply ByClaimWhite|apply O].
  - destruct (Bot.start (Bot.User ctx) now g) as [g1 p] eqn:S.
    injection H as <- <-. rewrite P. split; [|apply O].
    change g1 with (fst (g1, p)). change p with (snd (g1, p)) at 2.
    rewrite <- S. apply ByStart.
  - destruct (Bot.submitMove _ _ _ _ _) as [[g1 r]|] eqn:S; [|discriminate H].
    cbn [bind fst snd] in H.
    destruct (Bot.said r g1) as [ps|] eqn:D; [|discriminate H].
    injection H as <- <-. rewrite P. split; [eapply ByMove; eauto|apply O].
  - destruct (Bot.takeBack _ _) as [[g1 r]|] eqn:S; [|discriminate H].
    cbn [bind fst snd] in H.
    destruct (Bot.said r g1) as [ps|] eqn:D; [|discriminate H].
    injection H as <- <-. rewrite P. split; [eapply ByTakeBack; eauto|apply O].
  - injection H as <- <-. rewrite G0. split; [|apply O'].
    apply ByPost. intros p [<-|[]]. exact I.
  - destruct (Bot.showPrevious _ _) as [ps|] eqn:S; [|discriminate H].
    injection H as <- <-. rewrite G0. split; [|apply O'].
    destruct (showPrevious_posts _ _ S) as (board & which & ->).
    apply ByPost. intros p [<-|[]]. exact I.
  - unfold Bot.showCurrent in H. destruct (Chess.Draw _ _); [|discriminate H].
    injection H as <- <-. rewrite G0. split; [|apply O'].
    apply ByPost. intros p [<-|[]]. exact I.
  - destruct (Bot.resign g) as [g1 p] eqn:S.
    injection H as <- <-. rewrite P. split; [|apply O].
    change g1 with (fst (g1, p)). change p with (snd (g1, p)) at 2.
    rewrite <- S. apply ByResign.
  - unfold Bot.keepPlaying in H. cbv beta iota in H.
    injection H as <- <-. rewrite P. split; [apply ByKeepPlaying|apply O].
  - destruct (Bot.declareWinner _ _) as [[g1 p]|] eqn:S; [|discriminate H].
    injection H as <- <-. rewrite P. split; [eapply ByDeclareWinner; eauto|apply O].
  - destruct (Bot.knockOut _ _) as [[g1 p]|] eqn:S; [|discriminate H].
    injection H as <- <-. rewrite P. split; [eapply ByKnockOut; eauto|apply O].
  - destruct (Bot.matches Bot.rxMoveGameTo (Bot.Text ctx)) as [tox|] eqn:M;
      [|discriminate H].
    destruct (moveGameTo_empty _ M) as (whole & ->).
    cbn [Bot.index nth_error bind] in H.
    destruct (negb (Bot.known [] Channels)).
    + injection H as <- <-. rewrite G0. split; [|apply O'].
      apply ByPost. intros p [<-|[]]. exact I.
    + injection H as <- <-. unfold current. rewrite lookup_put_same.
      split; [apply ByMoveGame|].
      intros ch N. rewrite lookup_put_other by congruence.
      destruct ch as [|c ch].
      * right. rewrite lookup_put_same. auto.
      * left. rewrite lookup_put_other by discriminate. auto.
  - injection H as <- <-. rewrite G0. split; [|apply O'].
    apply ByPost. intros p [<-|[]]. exact I.
  - injection H as <- <-. rewrite P. split; [apply ByReset|apply O].
  - injection H as <- <-. rewrite G0. split; [|apply O'].
    apply ByPost. intros p [<-|[]]. exact I.
  - injection H as <- <-. rewrite P. split; [apply ByAllowed|apply O].
  - injection H as <- <-. rewrite P. split; [apply ByRefused|apply O].
  - injection H as <- <-. rewrite G0. split; [|apply O'].
    apply ByPost. intros p [<-|[]]. exact I.
  - injection H as <- <-. rewrite G0. split; [apply ByPost; intros ? []|apply O'].
Qed.

(** ** The games stay sound *)

Lemma sound_newGame : sound Bot.newGame.
Proof. split; [exact wf_start|]. split; [constructor|reflexivity]. Qed.

Lemma index_inv (rx : Bot.regexp) (text tox1 : gostring) (i : nat) :
  Bot.index (Bot.matches rx text) i = Ret tox1 ->
  exists tox, Bot.matches rx text = Some tox /\ nth_error tox i = Some tox1.
Proof.
  destruct (Bot.matches rx text) as [tox|]; [|discriminate].
  cbn [Bot.index]. destruct (nth_error tox i) eqn:N; [|discriminate].
  intros [= <-]. eauto.
Qed.

Lemma knockOut_sound (text : gostring) (g g' : Bot.Game) (p : Bot.post) :
  sound g -> Bot.knockOut text g = Ret (g', p) -> sound g'.
Proof.
  intros (W & P & L) H.
  destruct (Bot.matches Bot.rxKnockOut text) as [tox|] eqn:M.
  2:{ unfold Bot.knockOut in H. rewrite M in H. discriminate H. }
  destruct (knockOut_square _ M) as (whole & f & d & -> & F & D).
  rewrite (@knockOut_effect text whole f d g W M F D) in H.
  destruct (Ascii.eqb_spec d "9") as [E|N]; [discriminate H|].
  injection H as <- _. split; [|split; [exact P|exact L]].
  cbn [Bot.setBoard Bot.Board]. apply setCell_wf; auto.
  - apply indexOf_range; auto.
    unfold rankDigit. rewrite inClass_spec in *.
    change (code "1") with 49 in *. change (code "9") with 57 in D.
    change (code "8") with 56.
    assert (code d <> 57) by (intro E; apply N; apply code_inj; exact E). lia.
  - unfold oneByte. vm_compute. reflexivity.
Qed.

Lemma changes_sound (user text : gostring) (since now : Z) (g g' : Bot.Game)
      (posts : list Bot.post) :
  sound g -> changes user text since now g g' posts -> sound g'.
Proof.
  intros S C. pose proof S as (W & P & L).
  destruct C as [| | |g' r posts M D|g' r posts T D| | |g' p D|g' p K| | | | |posts _];
    try exact S; try exact sound_newGame.
  - unfold Bot.start. cbv zeta.
    repeat match goal with |- context [if ?c then _ else _] => destruct c end; exact S.
  - eapply submitMove_sound; eauto.
  - destruct (takeBack_sound user S) as (g2 & r2 & T2 & S2).
    rewrite T in T2. injection T2 as <- _. exact S2.
  - unfold Bot.declareWinner in D. destruct (Bot.index _ 1); [|discriminate D].
    injection D as <- _. exact S.
  - eapply knockOut_sound; eauto.
Qed.

Lemma sound_current (channel : gostring) (games : Bot.store) :
  allSound games -> sound (current channel games).
Proof.
  intro A. unfold current. destruct (Bot.lookup channel games) eqn:L.
  - eapply A; eauto.
  - exact sound_newGame.
Qed.

Lemma Incoming_sound (Channels : list (gostring * gostring)) (ctx : Bot.Context)
      (since now : Z) (games games' : Bot.store) (posts : list Bot.post) :
  allSound games ->
  Bot.Incoming Channels ctx since now games = Ret (games', posts) ->
  allSound games'.
Proof.
  intros A H. destruct (Incoming_cases _ _ _ _ _ H) as (C & O).
  pose proof (sound_current (Bot.Channel ctx) A) as S.
  intros ch g' L.
  destruct (list_eq_dec ascii_dec ch (Bot.Channel ctx)) as [->|N].
  - unfold current at 2 in C. rewrite L in C. eapply changes_sound; eauto.
  - destruct (O ch N) as [E|(_ & E & _)].
    + rewrite E in L. eapply A; eauto.
    + rewrite E in L. injection L as <-. exact S.
Qed.

(** X16. Every game that the bot holds after any run of messages, from
    the empty map it starts with, is sound: its board and the boards of
    its history are well formed, and its two histories have the same
    length. *)
Theorem X16_games_stay_sound (msgs : list message) (games : Bot.store) :
  serve msgs [] = Ret games -> allSound games.
Proof.
  assert (G : forall msgs games0 games,
             allSound games0 -> serve msgs games0 = Ret games -> allSound games).
  { clear. induction msgs as [|m rest IH]; intros games0 games A; cbn [serve].
    - intros [= <-]. exact A.
    - destruct (Bot.Incoming _ _ _ _ _) as [[games1 posts]|] eqn:I; [|discriminate].
      cbn [bind fst]. apply IH. eapply Incoming_sound; eauto. }
  apply G. intros ch g L. discriminate L.
Qed.

Lemma X16_games_stay_sound_witness :
  exists games, serve opening [] = Ret games /\ allSound games.
Proof.
  eexists. split; [vm_compute; reflexivity|].
  apply (X16_games_stay_sound opening). vm_compute. reflexivity.
Defined.



(** ** Properties of the bot *)

Lemma sound_afterPe4 : sound afterPe4.
Proof.
  split; [apply wfBoardb_spec; vm_compute; reflexivity|].
  split; [|reflexivity]. constructor; [exact wf_start|constructor].
Qed.




Lemma said_posts (r : Bot.reply) (g : Bot.Game) (posts : list Bot.post) :
  Bot.said r g = Ret posts -> posts = [] \/ posts = [Bot.Say r].
Proof.
  unfold Bot.said. destruct (Chess.Draw _ _); destruct r; cbn [bind];
    try discriminate; intros [= <-]; auto.
Qed.

Lemma changes_moved (user text : gostring) (since now : Z) (g g' : Bot.Game)
      (posts : list Bot.post) (name : gostring) :
  changes user text since now g g' posts -> In (Bot.MovedTo name) posts -> name = [].
Proof.
  intros C I.
  destruct C as [| | |g' r posts M D|g' r posts T D| | |g' p D|g' p K| | | | |posts Q].
  - destruct I as [E|[]]; discriminate E.
  - destruct I as [E|[]]; discriminate E.
  - unfold Bot.start in I. cbv zeta in I.
    repeat match type of I with context [if ?c then _ else _] => destruct c end;
      cbn [In snd] in I; destruct I as [E|F]; try contradiction; discriminate E.
  - destruct (said_posts _ _ D) as [->| ->]; [destruct I|].
    destruct I as [E|[]]; discriminate E.
  - destruct (said_posts _ _ D) as [->| ->]; [destruct I|].
    destruct I as [E|[]]; discriminate E.
  - destruct I as [E|[]]; discriminate E.
  - destruct I as [E|[]]; discriminate E.
  - unfold Bot.declareWinner in D. destruct (Bot.index _ 1); [|discriminate D].
    injection D as _ <-. destruct I as [E|[]]; discriminate E.
  - unfold Bot.knockOut in K. destruct (Bot.index _ 1); [|discriminate K].
    cbn [bind] in K. destruct (Position _ _); [|discriminate K].
    cbn [bind] in K. destruct (Replace _ _ _); [|discriminate K].
    injection K as _ <-. destruct I as [E|[]]; discriminate E.
  - destruct I as [E|F]; [|contradiction]. now injection E as <-.
  - destruct I as [E|[]]; discriminate E.
  - destruct I as [E|[]]; discriminate E.
  - destruct I as [E|[]]; discriminate E.
  - destruct (Q _ I).
Qed.

(** X18. A message never touches the game of a channel other than its
    own, but for the channel of the empty name: "move game to" reads the
    name of the channel with a group that is always empty, so that the
    only channel it can hand the game to is the one of the empty name. *)
Theorem X18_other_channels_are_left_alone (Channels : list (gostring * gostring))
        (ctx : Bot.Context) (since now : Z) (games games' : Bot.store)
        (posts : list Bot.post) :
  Bot.Incoming Channels ctx since now games = Ret (games', posts) ->
  (forall ch, ch <> Bot.Channel ctx -> ch <> [] ->
              Bot.lookup ch games' = Bot.lookup ch games)
  /\ (forall name, In (Bot.MovedTo name) posts -> name = []).
Proof.
  intro H. destruct (Incoming_cases _ _ _ _ _ H) as (C & O). split.
  - intros ch N E. destruct (O ch N) as [L|(X & _)]; [exact L|contradiction].
  - intros name I. eapply changes_moved; eauto.
Qed.

Lemma X18_other_channels_are_left_alone_witness :
  exists games' posts,
    Bot.Incoming [] (onGeneral "bob" "Nf6") 5 200 hall = Ret (games', posts)
    /\ Bot.lookup (str "general") games' <> Bot.lookup (str "general") hall
    /\ Bot.lookup (str "lounge") games' = Bot.lookup (str "lounge") hall.
Proof.
  do 2 eexists.
  assert (P : Bot.Incoming [] (onGeneral "bob" "Nf6") 5 200 hall = Ret _)
    by (vm_compute; reflexivity).
  split; [exact P|]. split; [vm_compute; discriminate|].
  apply (proj1 (X18_other_channels_are_left_alone _ _ _ _ _ P)); discriminate.
Defined.

Lemma takeBack_keeps_history (user : gostring) (g g' : Bot.Game) (r : Bot.reply) :
  Bot.takeBack user g = Ret (g', r) ->
  Bot.Previous g' = Bot.Previous g /\ Bot.Moves g' = Bot.Moves g
  /\ Bot.Winner g' = Bot.Winner g
  /\ (Bot.Winner g <> [] -> g' = g).
Proof.
  unfold Bot.takeBack, bind. intro H.
  exec_cases H; try discriminate H; injection H as <- _; cbn; repeat split; auto;
    intro N; apply negb_false_iff, eqs_true in Heqb; contradiction.
Qed.

Lemma changes_history (user text : gostring) (since now : Z) (g g' : Bot.Game)
      (posts : list Bot.post) :
  changes user text since now g g' posts ->
  g' = Bot.newGame
  \/ (Bot.Previous g' = Bot.Previous g /\ Bot.Moves g' = Bot.Moves g)
  \/ (exists n, Bot.Previous g' = Bot.Previous g ++ [Bot.Board g]
                /\ Bot.Moves g' = Bot.Moves g ++ [n]
                /\ Bot.Winner g = []
                /\ user = (if Bot.PlayingWhite g then Bot.White g else Bot.Black g)
                /\ Bot.PlayingWhite g' = negb (Bot.PlayingWhite g)).
Proof.
  intros C.
  destruct C as [| | |g' r posts M D|g' r posts T D| | |g' p D|g' p K| | | | |posts Q];
    auto.
  - right. left. unfold Bot.start. cbv zeta.
    repeat match goal with |- context [if ?c then _ else _] => destruct c end; auto.
  - destruct (reply_cases r) as [R|[R1 R2]].
    + destruct (submitMove_moved _ _ _ _ _ M R) as (s & t & n & _ & W & U & _ & G).
      right. right. exists n. rewrite G. cbn. auto.
    + rewrite (submitMove_failure_same _ _ _ _ _ M R1 R2). auto.
  - destruct (takeBack_keeps_history _ _ T) as (P & Q & _). auto.
  - unfold Bot.declareWinner in D. destruct (Bot.index _ 1); [|discriminate D].
    injection D as <- _. auto.
  - unfold Bot.knockOut in K. destruct (Bot.index _ 1); [|discriminate K].
    cbn [bind] in K. destruct (Position _ _); [|discriminate K].
    cbn [bind] in K. destruct (Replace _ _ _); [|discriminate K].
    injection K as <- _. auto.
Qed.

(** X19. No message shortens the histories of a game: after a message
    the game of the channel is a new game, or its two histories are as
    they were (also after "take back"), or both have one more entry, the
    board before the move and the move; the latter only when no winner is
    set and the user is the side on move, and the move then passes to the
    other side. *)
Theorem X19_histories_only_grow (Channels : list (gostring * gostring))
        (ctx : Bot.Context) (since now : Z) (games games' : Bot.store)
        (posts : list Bot.post) :
  Bot.Incoming Channels ctx since now games = Ret (games', posts) ->
  current (Bot.Channel ctx) games' = Bot.newGame
  \/ (Bot.Previous (current (Bot.Channel ctx) games')
      = Bot.Previous (current (Bot.Channel ctx) games)
      /\ Bot.Moves (current (Bot.Channel ctx) games')
         = Bot.Moves (current (Bot.Channel ctx) games))
  \/ (exists n,
         Bot.Previous (current (Bot.Channel ctx) games')
         = Bot.Previous (current (Bot.Channel ctx) games)
           ++ [Bot.Board (current (Bot.Channel ctx) games)]
         /\ Bot.Moves (current (Bot.Channel ctx) games')
            = Bot.Moves (current (Bot.Channel ctx) games) ++ [n]
         /\ Bot.Winner (current (Bot.Channel ctx) games) = []
         /\ Bot.User ctx
            = (if Bot.PlayingWhite (current (Bot.Channel ctx) games)
               then Bot.White (current (Bot.Channel ctx) games)
               else Bot.Black (current (Bot.Channel ctx) games))
         /\ Bot.PlayingWhite (current (Bot.Channel ctx) games')
            = negb (Bot.PlayingWhite (current (Bot.Channel ctx) games))).
Proof.
  intro H. destruct (Incoming_cases _ _ _ _ _ H) as (C & _).
  eapply changes_history; eauto.
Qed.

Lemma X19_histories_only_grow_witness :
  exists games' posts,
    Bot.Incoming [] (onGeneral "bob" "Nf6") 5 200 hall = Ret (games', posts)
    /\ Bot.Moves (current (str "general") games') = [str "Pe4"; str "Nf6"]
    /\ exists games2 posts2,
        Bot.Incoming [] (onGeneral "bob" "take back") 5 300 games' = Ret (games2, posts2)
        /\ Bot.Moves (current (str "general") games2) = [str "Pe4"; str "Nf6"]
        /\ Bot.Board (current (str "general") games2) = Bot.Board afterPe4.
Proof.
  do 2 eexists.
  assert (P : Bot.Incoming [] (onGeneral "bob" "Nf6") 5 200 hall = Ret _)
    by (vm_compute; reflexivity).
  split; [exact P|]. split; [vm_compute; reflexivity|].
  do 2 eexists.
  match goal with |- ?X = _ /\ _ =>
    assert (Q : X = Ret _) by (vm_compute; reflexivity) end.
  split; [exact Q|].
  destruct (X19_histories_only_grow _ _ _ _ _ Q) as [N|[(_ & M)|(n & _ & M & _)]].
  - vm_compute in N. discriminate N.
  - split; [exact M|]. vm_compute. reflexivity.
  - vm_compute in M. discriminate M.
Defined.

(** X20. "knock out" reads a file letter and a digit from 1 to 9 out of
    the text. With the digit 9 the case panics: the error of [Position]
    is dropped and [Replace] indexes the board at -1. With any other
    digit the cell is emptied and nothing else of the game changes:
    neither the histories nor the side on move, whoever the user is and
    whether or not a winner is set. *)
Theorem X20_knock_out (text tox1 : gostring) (g : Bot.Game) :
  wfBoard (Bot.Board g) ->
  Bot.index (Bot.matches Bot.rxKnockOut text) 1 = Ret tox1 ->
  exists f d,
    tox1 = [f; d] /\ fileLetter f = true
    /\ ((d = "9"%char /\ Bot.knockOut text g = Panic)
        \/ (rankDigit d = true
            /\ Bot.knockOut text g
               = Ret (Bot.setBoard (setCell (Bot.Board g) (indexOf f d) emptyCell) g,
                      Bot.Removed [f; d]))).
Proof.
  intros W I. destruct (index_inv _ _ _ I) as (tox & M & N).
  destruct (knockOut_square _ M) as (whole & f & d & -> & F & D).
  injection N as <-. exists f, d. split; [reflexivity|]. split; [exact F|].
  rewrite (@knockOut_effect text whole f d g W M F D).
  destruct (Ascii.eqb_spec d "9") as [E|E]; [left; auto|right].
  split; [|reflexivity].
  unfold rankDigit. rewrite inClass_spec in *.
  change (code "1") with 49 in *. change (code "9") with 57 in D.
  change (code "8") with 56.
  assert (code d <> 57) by (intro X; apply E; apply code_inj; exact X). lia.
Qed.

Lemma X20_knock_out_witness :
  wfBoard (Bot.Board afterPe4)
  /\ Bot.index (Bot.matches Bot.rxKnockOut (str "knock out the pawn on e4")) 1
     = Ret (str "e4")
  /\ Bot.knockOut (str "knock out the pawn on e4") afterPe4
     = Ret (Bot.setBoard (setCell (Bot.Board afterPe4) (sq "E4") emptyCell) afterPe4,
            Bot.Removed (str "e4"))
  /\ Bot.index (Bot.matches Bot.rxKnockOut (str "knock out e9")) 1 = Ret (str "e9")
  /\ Bot.knockOut (str "knock out e9") afterPe4 = Panic.
Proof.
  pose proof (proj1 sound_afterPe4) as W.
  assert (I1 : Bot.index (Bot.matches Bot.rxKnockOut (str "knock out the pawn on e4")) 1
               = Ret (str "e4")) by (vm_compute; reflexivity).
  assert (I2 : Bot.index (Bot.matches Bot.rxKnockOut (str "knock out e9")) 1
               = Ret (str "e9")) by (vm_compute; reflexivity).
  split; [exact W|]. split; [exact I1|]. split; [|split; [exact I2|]].
  - destruct (X20_knock_out _ _ W I1) as (f & d & E & _ & [(D & _)|(_ & K)]).
    + injection E as _ <-. discriminate D.
    + injection E as <- <-. exact K.
  - destruct (X20_knock_out _ _ W I2) as (f & d & E & _ & [(_ & K)|(D & _)]).
    + exact K.
    + injection E as _ <-. discriminate D.
Defined.



(** X15. A move that is made, in coordinates or in notation: no winner
    is set, the user is the side on move, [Move] accepted the move on the
    board of the game, the board before the move and the move are
    appended to the two histories, the move passes to the other side,
    the time since the last tick is added to the clock of the side that
    moved and to no other, and the tick is set; nothing else changes. *)
Theorem X15_a_move_made (user text : gostring) (since now : Z) (g g' : Bot.Game)
        (r : Bot.reply) :
  Bot.submitMove user text since now g = Ret (g', r) ->
  r = Bot.WhiteMoves \/ r = Bot.BlackMoves ->
  exists start end_ n,
    Move (Bot.Board g) start end_ = Ret (Bot.Board g', None)
    /\ Bot.Winner g = []
    /\ user = (if Bot.PlayingWhite g then Bot.White g else Bot.Black g)
    /\ r = (if Bot.PlayingWhite g then Bot.WhiteMoves else Bot.BlackMoves)
    /\ g' = Bot.mkGame (Bot.Board g') (Bot.Black g) (Bot.White g)
                       (negb (Bot.PlayingWhite g)) (Bot.Winner g) (Bot.BlackOk g)
                       (Bot.WhiteOk g) now
                       (if Bot.PlayingWhite g
                        then Bot.add64 (Bot.WhiteElapsed g) since
                        else Bot.WhiteElapsed g)
                       (if Bot.PlayingWhite g
                        then Bot.BlackElapsed g
                        else Bot.add64 (Bot.BlackElapsed g) since)
                       (Bot.Allowed g) (Bot.Moves g ++ [n])
                       (Bot.Previous g ++ [Bot.Board g]).
Proof. apply submitMove_moved. Qed.

Lemma X15_a_move_made_witness :
  exists g',
    Bot.submitMove (str "bob") (str "g8 f6") 5 200 afterPe4 = Ret (g', Bot.BlackMoves)
    /\ Bot.Moves g' = [str "Pe4"; str "Nf6"]
    /\ Bot.Previous g' = [Normalize StartingBoard; Bot.Board afterPe4]
    /\ Bot.BlackElapsed g' = 14 /\ Bot.WhiteElapsed g' = 7.
Proof.
  eexists.
  assert (S : Bot.submitMove (str "bob") (str "g8 f6") 5 200 afterPe4
              = Ret (_, Bot.BlackMoves)) by (vm_compute; reflexivity).
  split; [exact S|].
  destruct (X15_a_move_made _ _ _ _ _ S (or_intror eq_refl))
    as (s & t & n & _ & _ & _ & _ & G).
  vm_compute. auto.
Defined.

Lemma changes_winner (user text : gostring) (since now : Z) (g g' : Bot.Game)
      (posts : list Bot.post) :
  changes user text since now g g' posts ->
  Bot.Winner g <> [] ->
  g' = Bot.newGame
  \/ Bot.Board g' = Bot.Board g
  \/ exists p, Bot.knockOut text g = Ret (g', p).
Proof.
  intros C N.
  destruct C as [| | |g' r posts M D|g' r posts T D| | |g' p D|g' p K| | | | |posts Q];
    eauto.
  - right. left. unfold Bot.start. cbv zeta.
    repeat match goal with |- context [if ?c then _ else _] => destruct c end; auto.
  - right. left. destruct (reply_cases r) as [R|[R1 R2]].
    + destruct (submitMove_moved _ _ _ _ _ M R) as (_ & _ & _ & _ & W & _). contradiction.
    + now rewrite (submitMove_failure_same _ _ _ _ _ M R1 R2).
  - right. left. destruct (takeBack_keeps_history _ _ T) as (_ & _ & _ & E).
    now rewrite (E N).
  - right. left. unfold Bot.declareWinner in D.
    destruct (Bot.index _ 1); [|discriminate D]. injection D as <- _. reflexivity.
Qed.

(** X22. Once a winner is set, no move and no "take back" changes the
    board: after a message the game of the channel is a new game, or its
    board is as it was, or the message is a "knock out". *)
Theorem X22_a_won_game_keeps_its_board (Channels : list (gostring * gostring))
        (ctx : Bot.Context) (since now : Z) (games games' : Bot.store)
        (posts : list Bot.post) :
  Bot.Incoming Channels ctx since now games = Ret (games', posts) ->
  Bot.Winner (current (Bot.Channel ctx) games) <> [] ->
  current (Bot.Channel ctx) games' = Bot.newGame
  \/ Bot.Board (current (Bot.Channel ctx) games')
     = Bot.Board (current (Bot.Channel ctx) games)
  \/ exists p, Bot.knockOut (Bot.Text ctx) (current (Bot.Channel ctx) games)
               = Ret (current (Bot.Channel ctx) games', p).
Proof.
  intros H N. destruct (Incoming_cases _ _ _ _ _ H) as (C & _).
  eapply changes_winner; eauto.
Qed.

Lemma X22_a_won_game_keeps_its_board_witness :
  exists games' posts,
    Bot.Incoming [] (onGeneral "bob" "e7 e5") 5 200 [(str "general", wonByAlice)]
    = Ret (games', posts)
    /\ posts = [Bot.Say Bot.AlreadyWon]
    /\ Bot.Board (current (str "general") games') = Bot.Board wonByAlice.
Proof.
  do 2 eexists.
  match goal with |- ?X = _ /\ _ =>
    assert (Q : X = Ret _) by (vm_compute; reflexivity) end.
  split; [exact Q|]. split; [reflexivity|].
  destruct (X22_a_won_game_keeps_its_board _ _ _ _ _ Q) as [E|[E|(p & E)]].
  - vm_compute. discriminate.
  - vm_compute in E. discriminate E.
  - exact E.
  - vm_compute in E. discriminate E.
Defined.

(** ** The notation codec returns *)

(** X13. On a well-formed board [Algebraic] returns for every text and
    either colour: it never indexes out of range. When it returns no
    error, the source and the destination it returns are names of cells,
    which [Position] maps to cells of the board. *)
Theorem X13_Algebraic_returns (b : Board) (m : gostring) (w : bool) :
  wfBoard b ->
  exists s t e,
    Algebraic b m w = Ret (s, t, e)
    /\ (e = None ->
        exists p d, Position b s = Ret (p, None) /\ Position b t = Ret (d, None)
                    /\ 0 <= p < 64 /\ 0 <= d < 64).
Proof.
  intro W. destruct (@Algebraic_returns b m w W) as (s & t & e & A & G).
  exists s, t, e. split; [exact A|]. intro E.
  destruct (G E) as ((f1 & r1 & q1 & -> & F1 & R1) & (f2 & r2 & q2 & -> & F2 & R2)).
  exists (indexOf f1 r1), (indexOf f2 r2).
  rewrite !Position_cons2, F1, R1, F2, R2.
  repeat split; try reflexivity; apply indexOf_range; auto.
Qed.

Lemma X13_Algebraic_returns_witness :
  wfBoard twoKnights
  /\ Algebraic twoKnights (str "Nd2") true = Ret ([], [], Some AmbiguousMove)
  /\ Algebraic twoKnights (str "Nbd2") true = Ret (str "B1", str "d2", None)
  /\ Position twoKnights (str "B1") = Ret (sq "B1", None)
  /\ Position twoKnights (str "d2") = Ret (sq "D2", None).
Proof.
  assert (W : wfBoard twoKnights) by (apply wfBoardb_spec; vm_compute; reflexivity).
  split; [exact W|].
  destruct (X13_Algebraic_returns (str "Nd2") true W) as (s1 & t1 & e1 & A1 & _).
  destruct (X13_Algebraic_returns (str "Nbd2") true W) as (s2 & t2 & e2 & A2 & P2).
  vm_compute in A1. injection A1 as <- <- <-.
  vm_compute in A2. injection A2 as <- <- <-.
  destruct (P2 eq_refl) as (p & d & Pp & Pd & _).
  split; [vm_compute; reflexivity|]. split; [vm_compute; reflexivity|].
  split; vm_compute; reflexivity.
Defined.

(** X14. On a well-formed board, for any two names of cells,
    [CoordsToAlgebraic] returns: with [NoPieceAtSource] when the source
    is empty, and otherwise with a notation that [Algebraic] reads
    without error for the colour of the piece, or with
    [NoDisambiguation]. *)
Theorem X14_CoordsToAlgebraic_returns (b : Board) (f1 r1 f2 r2 : ascii)
        (rest1 rest2 : gostring) :
  wfBoard b ->
  fileLetter f1 = true -> rankDigit r1 = true ->
  fileLetter f2 = true -> rankDigit r2 = true ->
  (at_ b (indexOf f1 r1) = Ret emptyCell
   /\ CoordsToAlgebraic b (f1 :: r1 :: rest1) (f2 :: r2 :: rest2)
      = Ret ([], Some NoPieceAtSource))
  \/ (at_ b (indexOf f1 r1) <> Ret emptyCell
      /\ (CoordsToAlgebraic b (f1 :: r1 :: rest1) (f2 :: r2 :: rest2)
          = Ret ([], Some NoDisambiguation)
          \/ exists n s t,
              CoordsToAlgebraic b (f1 :: r1 :: rest1) (f2 :: r2 :: rest2) = Ret (n, None)
              /\ Algebraic b n (whiteAt b (indexOf f1 r1)) = Ret (s, t, None))).
Proof.
  intros W F1 R1 F2 R2.
  unfold CoordsToAlgebraic.
  rewrite !Position_cons2, F1, R1, F2, R2. cbn [bind].
  destruct (@wf_at b (indexOf f1 r1) W (indexOf_range _ _ F1 R1)) as (p & Ap & _).
  destruct (@wf_at b (indexOf f2 r2) W (indexOf_range _ _ F2 R2)) as (d & Ad & _).
  unfold whiteAt. rewrite Ap. cbn [bind].
  destruct (Ascii.eqb_spec p "_") as [->|N]; [left; auto|right].
  split; [intros [= E]; contradiction|].
  rewrite Ad. cbn [bind]. cbv zeta.
  match goal with |- context [Algebraic b ?m ?w] =>
    destruct (@Algebraic_returns b m w W) as (s1 & t1 & [e1|] & A1 & _) end;
    rewrite A1; cbn [bind snd isNil]; [|right; eauto].
  destruct (coordsFromIndex (indexOf f1 r1)) as [r c].
  match goal with |- context [Algebraic b ?m ?w] =>
    destruct (@Algebraic_returns b m w W) as (s2 & t2 & [e2|] & A2 & _) end;
    rewrite A2; cbn [bind snd isNil]; [|right; eauto].
  match goal with |- context [Algebraic b ?m ?w] =>
    destruct (@Algebraic_returns b m w W) as (s3 & t3 & [e3|] & A3 & _) end;
    rewrite A3; cbn [bind snd isNil]; [left; reflexivity|right; eauto].
Qed.

Lemma X14_CoordsToAlgebraic_returns_witness :
  wfBoard twoKnights
  /\ CoordsToAlgebraic twoKnights (str "B1") (str "D2") = Ret (str "Nbd2", None)
  /\ CoordsToAlgebraic twoKnights (str "B2") (str "D2") = Ret ([], Some NoPieceAtSource).
Proof.
  assert (W : wfBoard twoKnights) by (apply wfBoardb_spec; vm_compute; reflexivity).
  split; [exact W|].
  destruct (@X14_CoordsToAlgebraic_returns twoKnights "B" "1" "D" "2" [] [] W
              eq_refl eq_refl eq_refl eq_refl) as [(_ & E)|(_ & [E|(n & s & t & E & _)])];
    vm_compute in E; try discriminate E.
  destruct (@X14_CoordsToAlgebraic_returns twoKnights "B" "2" "D" "2" [] [] W
              eq_refl eq_refl eq_refl eq_refl) as [(_ & E2)|(_ & [E2|(n2 & s2 & t2 & E2 & _)])];
    vm_compute in E2; try discriminate E2.
  split; vm_compute; reflexivity.
Defined.

(** ** The moves of the pieces *)

Lemma onBoardb_spec (r c : Z) : onBoardb r c = true <-> onBoard r c.
Proof. unfold onBoardb, onBoard. rewrite !andb_true_iff, !Z.leb_le. tauto. Qed.

(** One jump of the knight or of the king: the cell is listed when it is
    open for the piece. *)
Lemma jump_open (b : Board) (piece : ascii) (ins : bool) (r c : Z) (v : list coord) :
  len b = 64 -> ins = onBoardb r c ->
  jump b piece ins r c v
  = Ret (if openFor b piece r c then v ++ [mkcoord r c] else v).
Proof.
  intros L ->. unfold jump, when, and_, or_, openFor.
  destruct (onBoardb r c) eqn:O; [|reflexivity].
  apply onBoardb_spec in O.
  destruct (@at_onBoard b L r c O) as (o & A).
  unfold empty, opponentAt, empty. rewrite A. cbn [bind andb].
  destruct (Ascii.eqb o "_") eqn:E; cbn [orb bind]; [reflexivity|].
  unfold opposes, yep.
  destruct (code piece <? code "Z"); cbn [bind];
    match goal with |- context [if ?x then Ret _ else Ret v] => destruct x end;
    reflexivity.
Qed.

Ltac bounds :=
  unfold onBoardb;
  repeat match goal with
         | |- context [?a <=? ?b] => destruct (Z.leb_spec a b)
         end;
  cbn [andb]; first [reflexivity | exfalso; lia].

Ltac piece_switch p :=
  repeat match goal with
         | |- context [oneOf p ?s] =>
           let v := eval vm_compute in (oneOf p s) in change (oneOf p s) with v
         end;
  cbv iota zeta.

Lemma knight_moves (b : Board) (piece : ascii) (p : Z) :
  len b = 64 -> 0 <= p < 64 -> at_ b p = Ret piece -> oneOf piece "Nn" = true ->
  validMoves b p = Ret (stepsFrom b piece knightSteps p).
Proof.
  intros L Hp A O.
  pose proof (coordsFromIndex_onBoard Hp) as B.
  unfold validMoves, stepsFrom. destruct (coordsFromIndex p) as [tr tc].
  cbn [fst snd] in *. rewrite A. cbn [bind].
  destruct B as [Br Bc].
  assert (M : moves b piece tr tc []
              = block [ jump b piece ((tr + 2 <=? 8) && (tc + 1 <=? 7)) (tr + 2) (tc + 1);
                        jump b piece ((tr + 2 <=? 8) && (0 <=? tc - 1)) (tr + 2) (tc - 1);
                        jump b piece ((1 <=? tr - 2) && (tc + 1 <=? 7)) (tr - 2) (tc + 1);
                        jump b piece ((1 <=? tr - 2) && (0 <=? tc - 1)) (tr - 2) (tc - 1);
                        jump b piece ((tr + 1 <=? 8) && (tc + 2 <=? 7)) (tr + 1) (tc + 2);
                        jump b piece ((tr + 1 <=? 8) && (0 <=? tc - 2)) (tr + 1) (tc - 2);
                        jump b piece ((1 <=? tr - 1) && (tc + 2 <=? 7)) (tr - 1) (tc + 2);
                        jump b piece ((1 <=? tr - 1) && (0 <=? tc - 2)) (tr - 1) (tc - 2) ] []).
  { apply oneOf_In in O. destruct O as [<-|[<-|[]]]; unfold moves.
    - piece_switch "N"%char. reflexivity.
    - piece_switch "n"%char. reflexivity. }
  rewrite M. cbn [block].
  do 8 (rewrite jump_open by (try exact L; bounds); cbn [bind]).
  cbn [knightSteps map filter fst snd row col].
  unfold Z.sub. cbn [Z.opp Pos.succ].
  repeat match goal with
         | |- context [openFor b piece ?r ?c] => destruct (openFor b piece r c)
         end; reflexivity.
Qed.

Lemma king_moves (b : Board) (piece : ascii) (p : Z) :
  len b = 64 -> 0 <= p < 64 -> at_ b p = Ret piece -> oneOf piece "Kk" = true ->
  validMoves b p = Ret (stepsFrom b piece kingSteps p).
Proof.
  intros L Hp A O.
  pose proof (coordsFromIndex_onBoard Hp) as B.
  unfold validMoves, stepsFrom. destruct (coordsFromIndex p) as [tr tc].
  cbn [fst snd] in *. rewrite A. cbn [bind].
  destruct B as [Br Bc].
  assert (M : moves b piece tr tc []
              = block [ jump b piece ((1 <=? tr - 1) && (0 <=? tc - 1)) (tr - 1) (tc - 1);
                        jump b piece ((1 <=? tr - 1) && (0 <=? tc - 0)) (tr - 1) (tc - 0);
                        jump b piece ((1 <=? tr - 0) && (0 <=? tc - 1)) (tr - 0) (tc - 1);
                        jump b piece ((tr + 1 <=? 8) && (tc + 1 <=? 7)) (tr + 1) (tc + 1);
                        jump b piece ((tr + 1 <=? 8) && (tc + 0 <=? 7)) (tr + 1) (tc + 0);
                        jump b piece ((tr + 0 <=? 8) && (tc + 1 <=? 7)) (tr + 0) (tc + 1);
                        jump b piece ((tr + 1 <=? 8) && (0 <=? tc - 1)) (tr + 1) (tc - 1);
                        jump b piece ((1 <=? tr - 1) && (tc + 1 <=? 7)) (tr - 1) (tc + 1) ] []).
  { apply oneOf_In in O. destruct O as [<-|[<-|[]]]; unfold moves.
    - piece_switch "K"%char. reflexivity.
    - piece_switch "k"%char. reflexivity. }
  rewrite M. cbn [block].
  do 8 (rewrite jump_open by (try exact L; bounds); cbn [bind]).
  cbn [kingSteps map filter fst snd row col].
  unfold Z.sub. cbn [Z.opp Pos.succ].
  repeat match goal with
         | |- context [openFor b piece ?r ?c] => destruct (openFor b piece r c)
         end; reflexivity.
Qed.

(** X23. On a board of 64 cells, the moves that [validMoves] lists for a
    knight are the cells a knight's step away, and for a king the cells a
    king's step away, that are cells of the board and are empty or hold a
    piece that [opponentAt] takes for an opponent, each once and in the
    order in which the code tries the steps: the bounds that the code
    tests, one for the row and one for the column, are enough. *)
Theorem X23_knight_and_king_moves (b : Board) (piece : ascii) (p : Z) :
  len b = 64 -> 0 <= p < 64 -> at_ b p = Ret piece ->
  (oneOf piece "Nn" = true -> validMoves b p = Ret (stepsFrom b piece knightSteps p))
  /\ (oneOf piece "Kk" = true -> validMoves b p = Ret (stepsFrom b piece kingSteps p)).
Proof.
  intros L Hp A. split; intro O.
  - now apply knight_moves.
  - now apply king_moves.
Qed.

Lemma X23_knight_and_king_moves_witness :
  validMoves (Normalize StartingBoard) (sq "G1") = Ret [mkcoord 3 7; mkcoord 3 5]
  /\ stepsFrom (Normalize StartingBoard) "n" knightSteps (sq "G1")
     = [mkcoord 3 7; mkcoord 3 5]
  /\ validMoves startKingSideCleared (sq "E1") = Ret [mkcoord 1 5]
  /\ stepsFrom startKingSideCleared "k" kingSteps (sq "E1") = [mkcoord 1 5].
Proof.
  assert (L1 : len (Normalize StartingBoard) = 64) by reflexivity.
  assert (L2 : len startKingSideCleared = 64) by reflexivity.
  assert (H1 : 0 <= sq "G1" < 64) by (vm_compute; split; (discriminate || reflexivity)).
  assert (H2 : 0 <= sq "E1" < 64) by (vm_compute; split; (discriminate || reflexivity)).
  assert (A1 : at_ (Normalize StartingBoard) (sq "G1") = Ret "n"%char) by reflexivity.
  assert (A2 : at_ startKingSideCleared (sq "E1") = Ret "k"%char) by reflexivity.
  pose proof (proj1 (@X23_knight_and_king_moves _ _ _ L1 H1 A1) eq_refl) as V1.
  pose proof (proj2 (@X23_knight_and_king_moves _ _ _ L2 H2 A2) eq_refl) as V2.
  assert (S1 : stepsFrom (Normalize StartingBoard) "n" knightSteps (sq "G1")
               = [mkcoord 3 7; mkcoord 3 5]) by (vm_compute; reflexivity).
  assert (S2 : stepsFrom startKingSideCleared "k" kingSteps (sq "E1") = [mkcoord 1 5])
    by (vm_compute; reflexivity).
  rewrite S1 in V1. rewrite S2 in V2. auto.
Defined.

(** A ray of [validMoves] lists the cells of its walk. *)
Lemma ray_walk (b : Board) (piece : ascii) (cond : Z -> Z -> bool) (dr dc : Z) :
  len b = 64 -> -1 <= dr <= 1 -> -1 <= dc <= 1 ->
  (forall r c,
     (0 <= dr -> 1 <= r) -> (dr <= 0 -> r <= 8) ->
     (0 <= dc -> 0 <= c) -> (dc <= 0 -> c <= 7) ->
     cond r c = onBoardb r c) ->
  forall fuel r c v,
    (0 <= dr -> 1 <= r) -> (dr <= 0 -> r <= 8) ->
    (0 <= dc -> 0 <= c) -> (dc <= 0 -> c <= 7) ->
    ray b piece fuel cond dr dc r c v = Ret (v ++ walk b piece fuel dr dc r c).
Proof.
  intros L Hdr Hdc H. induction fuel as [|f IH]; intros r c v I1 I2 I3 I4.
  - cbn. now rewrite app_nil_r.
  - cbn [ray walk]. rewrite (H r c I1 I2 I3 I4).
    destruct (onBoardb r c) eqn:O; [|now rewrite app_nil_r].
    apply onBoardb_spec in O.
    destruct (@at_onBoard b L r c O) as (o & A).
    unfold cruise, empty, opponentAt, empty, yep. rewrite A. cbn [bind].
    destruct (Ascii.eqb o "_") eqn:E; cbn [bind].
    + rewrite IH by (destruct O; lia). now rewrite <- app_assoc.
    + unfold opposes.
      destruct (code piece <? code "Z"); cbn [bind];
        match goal with |- context [if ?x then Ret _ else Ret v] => destruct x end;
        cbn [bind]; now rewrite ?app_nil_r.
Qed.

(** The cells of a walk, one by one. *)
Lemma walk_spec (b : Board) (piece : ascii) (dr dc : Z) (mv : coord) :
  forall n r c,
    In mv (walk b piece n dr dc r c)
    <-> exists k, 0 <= k < Z.of_nat n
                  /\ mv = mkcoord (r + k * dr) (c + k * dc)
                  /\ (forall j, 0 <= j < k ->
                                onBoard (r + j * dr) (c + j * dc)
                                /\ at_ b (indexFromCoords (r + j * dr) (c + j * dc))
                                   = Ret "_"%char)
                  /\ openFor b piece (row mv) (col mv) = true.
Proof.
  induction n as [|n IH]; intros r c.
  - cbn [walk In]. split; [intros []|]. intros (k & K & _). lia.
  - cbn [walk]. split.
    + intro I. destruct (onBoardb r c) eqn:O; [|destruct I].
      destruct (at_ b (indexFromCoords r c)) as [o|] eqn:A; [|destruct I].
      assert (Here : forall x, Ascii.eqb o "_" || opposes piece o = true ->
                               In mv [mkcoord r c] -> x = 0 ->
                               exists k, 0 <= k < Z.of_nat (S n)
                                 /\ mv = mkcoord (r + k * dr) (c + k * dc)
                                 /\ (forall j, 0 <= j < k ->
                                       onBoard (r + j * dr) (c + j * dc)
                                       /\ at_ b (indexFromCoords (r + j * dr) (c + j * dc))
                                          = Ret "_"%char)
                                 /\ openFor b piece (row mv) (col mv) = true).
      { intros x F [<-|[]] _. exists 0. split; [lia|]. split.
        - f_equal; lia.
        - split; [intros j Hj; lia|]. cbn [row col]. unfold openFor.
          now rewrite O, A. }
      destruct (Ascii.eqb o "_") eqn:E.
      * destruct I as [<-|I]; [apply (Here 0); auto; now left|].
        apply IH in I. destruct I as (k & K & -> & W & F).
        exists (k + 1). split; [lia|]. split; [f_equal; lia|]. split.
        -- intros j Hj. destruct (Z.eq_dec j 0) as [->|N].
           ++ replace (r + 0 * dr) with r by lia. replace (c + 0 * dc) with c by lia.
              split; [now apply onBoardb_spec|]. rewrite A.
              apply Ascii.eqb_eq in E. now rewrite E.
           ++ specialize (W (j - 1) ltac:(lia)).
              replace (r + dr + (j - 1) * dr) with (r + j * dr) in W by lia.
              replace (c + dc + (j - 1) * dc) with (c + j * dc) in W by lia.
              exact W.
        -- cbn [row col] in *.
           replace (r + (k + 1) * dr) with (r + dr + k * dr) by lia.
           replace (c + (k + 1) * dc) with (c + dc + k * dc) by lia. exact F.
      * destruct (opposes piece o) eqn:Op; [|destruct I].
        apply (Here 0); auto.
    + intros (k & K & -> & W & F). cbn [row col] in F.
      destruct (Z.eq_dec k 0) as [->|N].
      * replace (r + 0 * dr) with r in * by lia. replace (c + 0 * dc) with c in * by lia.
        unfold openFor in F. apply andb_true_iff in F. destruct F as [O F].
        rewrite O. destruct (at_ b (indexFromCoords r c)) as [o|]; [|discriminate F].
        destruct (Ascii.eqb o "_"); [now left|].
        cbn [orb] in F. rewrite F. now left.
      * destruct (W 0 ltac:(lia)) as (O & A).
        replace (r + 0 * dr) with r in * by lia. replace (c + 0 * dc) with c in * by lia.
        apply onBoardb_spec in O. rewrite O, A. cbn. right.
        apply IH. exists (k - 1). split; [lia|]. split; [f_equal; lia|]. split.
        -- intros j Hj. specialize (W (j + 1) ltac:(lia)).
           replace (r + (j + 1) * dr) with (r + dr + j * dr) in W by lia.
           replace (c + (j + 1) * dc) with (c + dc + j * dc) in W by lia. exact W.
        -- cbn [row col].
           replace (r + dr + (k - 1) * dr) with (r + k * dr) by lia.
           replace (c + dc + (k - 1) * dc) with (c + k * dc) by lia. exact F.
Qed.

Lemma block_app (ss1 ss2 : list stmt) (v : list coord) :
  block (ss1 ++ ss2) v = (v1 <- block ss1 v ;; block ss2 v1).
Proof.
  revert v. induction ss1 as [|s ss1 IH]; intro v; cbn [app block bind]; [reflexivity|].
  destruct (s v); cbn [bind]; auto.
Qed.

Lemma rookRays_walk (b : Board) (piece : ascii) (or oc : Z) (v : list coord) :
  len b = 64 -> onBoard or oc ->
  block (rookRays b piece or oc) v
  = Ret (v ++ walk b piece (Z.to_nat (8 - or)) 1 0 (or + 1) oc
           ++ walk b piece (Z.to_nat (or - 1)) (-1) 0 (or - 1) oc
           ++ walk b piece (Z.to_nat (7 - oc)) 0 1 or (oc + 1)
           ++ walk b piece (Z.to_nat oc) 0 (-1) or (oc - 1)).
Proof.
  intros L [Br Bc]. unfold rookRays. cbn [block].
  do 4 (rewrite ray_walk by (try exact L; try lia; intros; bounds); cbn [bind]).
  now rewrite <- !app_assoc.
Qed.

Lemma bishopRays_walk (b : Board) (piece : ascii) (or oc : Z) (v : list coord) :
  len b = 64 -> onBoard or oc ->
  block (bishopRays b piece or oc) v
  = Ret (v ++ walk b piece (Z.to_nat (8 - or)) 1 1 (or + 1) (oc + 1)
           ++ walk b piece (Z.to_nat (8 - or)) 1 (-1) (or + 1) (oc - 1)
           ++ walk b piece (Z.to_nat (or - 1)) (-1) 1 (or - 1) (oc + 1)
           ++ walk b piece (Z.to_nat (or - 1)) (-1) (-1) (or - 1) (oc - 1)).
Proof.
  intros L [Br Bc]. unfold bishopRays. cbn [block].
  do 4 (rewrite ray_walk by (try exact L; try lia; intros; bounds); cbn [bind]).
  now rewrite <- !app_assoc.
Qed.

(** A walk from the cell next to the origin lists the slides of its
    direction. *)
Lemma walk_slides (b : Board) (piece : ascii) (or oc dr dc : Z) (fuel : nat) (mv : coord) :
  onBoard or oc -> -1 <= dr <= 1 -> -1 <= dc <= 1 ->
  (forall k, 1 <= k -> onBoard (or + k * dr) (oc + k * dc) -> k <= Z.of_nat fuel) ->
  In mv (walk b piece fuel dr dc (or + dr) (oc + dc))
  <-> slides b piece or oc (dr, dc) mv.
Proof.
  intros [Br Bc] Hdr Hdc F. rewrite walk_spec. unfold slides. cbn [fst snd]. split.
  - intros (k & K & -> & W & O). exists (k + 1). split; [lia|]. split; [f_equal; lia|].
    split.
    + intros j Hj. destruct (W (j - 1) ltac:(lia)) as (_ & A).
      replace (or + dr + (j - 1) * dr) with (or + j * dr) in A by lia.
      replace (oc + dc + (j - 1) * dc) with (oc + j * dc) in A by lia. exact A.
    + cbn [row col] in *.
      replace (or + (k + 1) * dr) with (or + dr + k * dr) by lia.
      replace (oc + (k + 1) * dc) with (oc + dc + k * dc) by lia. exact O.
  - intros (k & K & -> & W & O). cbn [row col] in O.
    assert (B : onBoard (or + k * dr) (oc + k * dc)).
    { unfold openFor in O. apply andb_true_iff in O. apply onBoardb_spec. apply O. }
    pose proof (F k K B) as Fk.
    exists (k - 1). split; [lia|]. split; [f_equal; lia|]. split.
    + intros j Hj. split.
      * destruct B as [B1 B2]. unfold onBoard.
        assert (dr = -1 \/ dr = 0 \/ dr = 1) as [->|[->| ->]] by lia;
          assert (dc = -1 \/ dc = 0 \/ dc = 1) as [->|[->| ->]] by lia; lia.
      * specialize (W (j + 1) ltac:(lia)).
        replace (or + (j + 1) * dr) with (or + dr + j * dr) in W by lia.
        replace (oc + (j + 1) * dc) with (oc + dc + j * dc) in W by lia. exact W.
    + cbn [row col].
      replace (or + dr + (k - 1) * dr) with (or + k * dr) by lia.
      replace (oc + dc + (k - 1) * dc) with (oc + k * dc) by lia. exact O.
Qed.

Lemma walk_from (b : Board) (piece : ascii) (or oc dr dc r0 c0 : Z) (fuel : nat)
      (mv : coord) :
  onBoard or oc -> -1 <= dr <= 1 -> -1 <= dc <= 1 ->
  r0 = or + dr -> c0 = oc + dc ->
  (forall k, 1 <= k -> onBoard (or + k * dr) (oc + k * dc) -> k <= Z.of_nat fuel) ->
  In mv (walk b piece fuel dr dc r0 c0) <-> slides b piece or oc (dr, dc) mv.
Proof. intros B Hdr Hdc -> ->. now apply walk_slides. Qed.

Ltac fuel_enough :=
  let k := fresh "k" in
  intros k ? [? ?]; lia.

Lemma rook_slides (b : Board) (piece : ascii) (or oc : Z) (mv : coord) :
  onBoard or oc ->
  In mv (walk b piece (Z.to_nat (8 - or)) 1 0 (or + 1) oc
           ++ walk b piece (Z.to_nat (or - 1)) (-1) 0 (or - 1) oc
           ++ walk b piece (Z.to_nat (7 - oc)) 0 1 or (oc + 1)
           ++ walk b piece (Z.to_nat oc) 0 (-1) or (oc - 1))
  <-> exists d, In d rookDirs /\ slides b piece or oc d mv.
Proof.
  intro B. pose proof B as [Br Bc]. rewrite !in_app_iff.
  rewrite (@walk_from b piece or oc 1 0) by (auto; try lia; fuel_enough).
  rewrite (@walk_from b piece or oc (-1) 0) by (auto; try lia; fuel_enough).
  rewrite (@walk_from b piece or oc 0 1) by (auto; try lia; fuel_enough).
  rewrite (@walk_from b piece or oc 0 (-1)) by (auto; try lia; fuel_enough).
  unfold rookDirs. split.
  - intros [H|[H|[H|H]]]; eexists; (split; [|exact H]); cbn; auto.
  - intros (d & [<-|[<-|[<-|[<-|[]]]]] & H); auto.
Qed.

Lemma bishop_slides (b : Board) (piece : ascii) (or oc : Z) (mv : coord) :
  onBoard or oc ->
  In mv (walk b piece (Z.to_nat (8 - or)) 1 1 (or + 1) (oc + 1)
           ++ walk b piece (Z.to_nat (8 - or)) 1 (-1) (or + 1) (oc - 1)
           ++ walk b piece (Z.to_nat (or - 1)) (-1) 1 (or - 1) (oc + 1)
           ++ walk b piece (Z.to_nat (or - 1)) (-1) (-1) (or - 1) (oc - 1))
  <-> exists d, In d bishopDirs /\ slides b piece or oc d mv.
Proof.
  intro B. pose proof B as [Br Bc]. rewrite !in_app_iff.
  rewrite (@walk_from b piece or oc 1 1) by (auto; try lia; fuel_enough).
  rewrite (@walk_from b piece or oc 1 (-1)) by (auto; try lia; fuel_enough).
  rewrite (@walk_from b piece or oc (-1) 1) by (auto; try lia; fuel_enough).
  rewrite (@walk_from b piece or oc (-1) (-1)) by (auto; try lia; fuel_enough).
  unfold bishopDirs. split.
  - intros [H|[H|[H|H]]]; eexists; (split; [|exact H]); cbn; auto.
  - intros (d & [<-|[<-|[<-|[<-|[]]]]] & H); auto.
Qed.

Lemma Ret_inj {A} (x y : A) : Ret x = Ret y -> x = y.
Proof. congruence. Qed.

Lemma rook_moves (b : Board) (piece : ascii) (p : Z) :
  len b = 64 -> 0 <= p < 64 -> at_ b p = Ret piece -> oneOf piece "Rr" = true ->
  validMoves b p
  = Ret (walk b piece (Z.to_nat (8 - fst (coordsFromIndex p))) 1 0
              (fst (coordsFromIndex p) + 1) (snd (coordsFromIndex p))
           ++ walk b piece (Z.to_nat (fst (coordsFromIndex p) - 1)) (-1) 0
                   (fst (coordsFromIndex p) - 1) (snd (coordsFromIndex p))
           ++ walk b piece (Z.to_nat (7 - snd (coordsFromIndex p))) 0 1
                   (fst (coordsFromIndex p)) (snd (coordsFromIndex p) + 1)
           ++ walk b piece (Z.to_nat (snd (coordsFromIndex p))) 0 (-1)
                   (fst (coordsFromIndex p)) (snd (coordsFromIndex p) - 1)).
Proof.
  intros L Hp A O. pose proof (coordsFromIndex_onBoard Hp) as B.
  unfold validMoves. destruct (coordsFromIndex p) as [or oc].
  cbn [fst snd] in *. rewrite A. cbn [bind].
  assert (M : moves b piece or oc [] = block (rookRays b piece or oc) []).
  { apply oneOf_In in O. destruct O as [<-|[<-|[]]]; unfold moves.
    - piece_switch "R"%char. reflexivity.
    - piece_switch "r"%char. reflexivity. }
  rewrite M, rookRays_walk by auto. reflexivity.
Qed.

Lemma bishop_moves (b : Board) (piece : ascii) (p : Z) :
  len b = 64 -> 0 <= p < 64 -> at_ b p = Ret piece -> oneOf piece "Bb" = true ->
  validMoves b p
  = Ret (walk b piece (Z.to_nat (8 - fst (coordsFromIndex p))) 1 1
              (fst (coordsFromIndex p) + 1) (snd (coordsFromIndex p) + 1)
           ++ walk b piece (Z.to_nat (8 - fst (coordsFromIndex p))) 1 (-1)
                   (fst (coordsFromIndex p) + 1) (snd (coordsFromIndex p) - 1)
           ++ walk b piece (Z.to_nat (fst (coordsFromIndex p) - 1)) (-1) 1
                   (fst (coordsFromIndex p) - 1) (snd (coordsFromIndex p) + 1)
           ++ walk b piece (Z.to_nat (fst (coordsFromIndex p) - 1)) (-1) (-1)
                   (fst (coordsFromIndex p) - 1) (snd (coordsFromIndex p) - 1)).
Proof.
  intros L Hp A O. pose proof (coordsFromIndex_onBoard Hp) as B.
  unfold validMoves. destruct (coordsFromIndex p) as [or oc].
  cbn [fst snd] in *. rewrite A. cbn [bind].
  assert (M : moves b piece or oc [] = block (bishopRays b piece or oc) []).
  { apply oneOf_In in O. destruct O as [<-|[<-|[]]]; unfold moves.
    - piece_switch "B"%char. reflexivity.
    - piece_switch "b"%char. reflexivity. }
  rewrite M, bishopRays_walk by auto. reflexivity.
Qed.

Lemma queen_moves (b : Board) (piece : ascii) (p : Z) :
  len b = 64 -> 0 <= p < 64 -> at_ b p = Ret piece -> oneOf piece "Qq" = true ->
  validMoves b p
  = Ret ((walk b piece (Z.to_nat (8 - fst (coordsFromIndex p))) 1 0
               (fst (coordsFromIndex p) + 1) (snd (coordsFromIndex p))
            ++ walk b piece (Z.to_nat (fst (coordsFromIndex p) - 1)) (-1) 0
                    (fst (coordsFromIndex p) - 1) (snd (coordsFromIndex p))
            ++ walk b piece (Z.to_nat (7 - snd (coordsFromIndex p))) 0 1
                    (fst (coordsFromIndex p)) (snd (coordsFromIndex p) + 1)
            ++ walk b piece (Z.to_nat (snd (coordsFromIndex p))) 0 (-1)
                    (fst (coordsFromIndex p)) (snd (coordsFromIndex p) - 1))
           ++ walk b piece (Z.to_nat (8 - fst (coordsFromIndex p))) 1 1
                   (fst (coordsFromIndex p) + 1) (snd (coordsFromIndex p) + 1)
           ++ walk b piece (Z.to_nat (8 - fst (coordsFromIndex p))) 1 (-1)
                   (fst (coordsFromIndex p) + 1) (snd (coordsFromIndex p) - 1)
           ++ walk b piece (Z.to_nat (fst (coordsFromIndex p) - 1)) (-1) 1
                   (fst (coordsFromIndex p) - 1) (snd (coordsFromIndex p) + 1)
           ++ walk b piece (Z.to_nat (fst (coordsFromIndex p) - 1)) (-1) (-1)
                   (fst (coordsFromIndex p) - 1) (snd (coordsFromIndex p) - 1)).
Proof.
  intros L Hp A O. pose proof (coordsFromIndex_onBoard Hp) as B.
  unfold validMoves. destruct (coordsFromIndex p) as [or oc].
  cbn [fst snd] in *. rewrite A. cbn [bind].
  assert (M : moves b piece or oc []
              = block (rookRays b piece or oc ++ bishopRays b piece or oc) []).
  { apply oneOf_In in O. destruct O as [<-|[<-|[]]]; unfold moves.
    - piece_switch "Q"%char. reflexivity.
    - piece_switch "q"%char. reflexivity. }
  rewrite M, block_app, rookRays_walk by auto.
  cbv beta iota delta [bind].
  rewrite bishopRays_walk by auto. reflexivity.
Qed.

(** X24. On a board of 64 cells, the moves that [validMoves] lists for
    a rook, a bishop or a queen are exactly the slides along its
    directions (the four of the rook, the four of the bishop, all eight
    for the queen): the cells some steps away in one direction, with
    only empty cells on the way, that are on the board and are empty or
    hold a piece that [opponentAt] takes for an opponent. A slide stops
    at the first piece and never passes the edge of the board. *)
Theorem X24_sliding_moves (b : Board) (piece : ascii) (p : Z) (mvs : list coord) :
  len b = 64 -> 0 <= p < 64 -> at_ b p = Ret piece -> validMoves b p = Ret mvs ->
  (oneOf piece "Rr" = true ->
   forall mv, In mv mvs
              <-> exists d, In d rookDirs
                            /\ slides b piece (fst (coordsFromIndex p))
                                      (snd (coordsFromIndex p)) d mv)
  /\ (oneOf piece "Bb" = true ->
      forall mv, In mv mvs
                 <-> exists d, In d bishopDirs
                               /\ slides b piece (fst (coordsFromIndex p))
                                         (snd (coordsFromIndex p)) d mv)
  /\ (oneOf piece "Qq" = true ->
      forall mv, In mv mvs
                 <-> exists d, In d (rookDirs ++ bishopDirs)
                               /\ slides b piece (fst (coordsFromIndex p))
                                         (snd (coordsFromIndex p)) d mv).
Proof.
  intros L Hp A V.
  pose proof (coordsFromIndex_onBoard Hp) as B.
  split; [|split]; intros O mv.
  - rewrite (@rook_moves b piece p L Hp A O) in V.
    apply Ret_inj in V. rewrite <- V.
    now apply rook_slides.
  - rewrite (@bishop_moves b piece p L Hp A O) in V.
    apply Ret_inj in V. rewrite <- V.
    now apply bishop_slides.
  - rewrite (@queen_moves b piece p L Hp A O) in V.
    apply Ret_inj in V. rewrite <- V.
    rewrite in_app_iff, rook_slides, bishop_slides by auto.
    split.
    + intros [(d & I & S)|(d & I & S)]; exists d; (split; [|exact S]);
        apply in_or_app; auto.
    + intros (d & I & S). apply in_app_or in I. destruct I; eauto.
Qed.

Lemma X24_sliding_moves_witness :
  validMoves startKingSideCleared (sq "H1") = Ret [mkcoord 1 6; mkcoord 1 5]
  /\ exists d, In d rookDirs
               /\ slides startKingSideCleared "r" (fst (coordsFromIndex (sq "H1")))
                         (snd (coordsFromIndex (sq "H1"))) d (mkcoord 1 5).
Proof.
  assert (L : len startKingSideCleared = 64) by reflexivity.
  assert (H : 0 <= sq "H1" < 64) by (vm_compute; split; (discriminate || reflexivity)).
  assert (A : at_ startKingSideCleared (sq "H1") = Ret "r"%char) by reflexivity.
  assert (V : validMoves startKingSideCleared (sq "H1") = Ret [mkcoord 1 6; mkcoord 1 5])
    by (vm_compute; reflexivity).
  split; [exact V|].
  apply (proj1 (@X24_sliding_moves _ _ _ _ L H A V) eq_refl (mkcoord 1 5)).
  right. now left.
Defined.

Lemma steps_NoDup (b : Board) (piece : ascii) (steps : list (Z * Z)) (p : Z) :
  NoDup steps -> NoDup (stepsFrom b piece steps p).
Proof.
  intro N. unfold stepsFrom. apply NoDup_filter.
  apply NoDup_map_NoDup_ForallPairs; [|exact N].
  intros [a1 a2] [c1 c2] _ _ E. cbn [fst snd] in E. injection E as E1 E2.
  f_equal; lia.
Qed.

Lemma walk_NoDup (b : Board) (piece : ascii) (dr dc : Z) :
  dr <> 0 \/ dc <> 0 ->
  forall n r c, NoDup (walk b piece n dr dc r c).
Proof.
  intros D. induction n as [|n IH]; intros r c; cbn [walk]; [constructor|].
  destruct (onBoardb r c); [|constructor].
  destruct (at_ b (indexFromCoords r c)) as [o|]; [|constructor].
  destruct (Ascii.eqb o "_").
  - constructor; [|apply IH]. intro I. apply walk_spec in I.
    destruct I as (k & K & E & _). injection E as E1 E2. nia.
  - destruct (opposes piece o); repeat constructor. intros [].
Qed.

(** A cell is a slide in one direction only. *)
Lemma slides_one_direction (b : Board) (piece : ascii) (or oc : Z) (d1 d2 : Z * Z)
      (mv : coord) :
  In d1 (rookDirs ++ bishopDirs) -> In d2 (rookDirs ++ bishopDirs) ->
  slides b piece or oc d1 mv -> slides b piece or oc d2 mv -> d1 = d2.
Proof.
  intros I1 I2 (k1 & K1 & E1 & _) (k2 & K2 & E2 & _).
  rewrite E1 in E2. injection E2 as Er Ec.
  cbn [rookDirs bishopDirs app In] in I1, I2.
  repeat (destruct I1 as [<-|I1]; [|]); try contradiction;
    repeat (destruct I2 as [<-|I2]; [|]); try contradiction;
    cbn [fst snd] in Er, Ec; first [reflexivity | exfalso; lia].
Qed.

Lemma walks_NoDup (b : Board) (piece : ascii) (or oc : Z)
      (ws : list ((Z * Z) * list coord)) :
  NoDup (map fst ws) ->
  Forall (fun w => In (fst w) (rookDirs ++ bishopDirs)
                   /\ NoDup (snd w)
                   /\ forall mv, In mv (snd w) -> slides b piece or oc (fst w) mv) ws ->
  NoDup (List.concat (map snd ws)).
Proof.
  induction ws as [|[d w] ws IH]; cbn [map List.concat fst snd]; intros N F; [constructor|].
  inversion N as [|x l Nd N']. subst. inversion F as [|x l (Id & Nw & S) F']. subst.
  cbn [fst snd] in *.
  apply NoDup_app; auto.
  intros mv I1 I2. apply in_concat in I2. destruct I2 as (w2 & I2 & I3).
  apply in_map_iff in I2. destruct I2 as ([d2 w2'] & <- & I2). cbn [snd] in I3.
  rewrite Forall_forall in F'. destruct (F' _ I2) as (Id2 & _ & S2). cbn [fst snd] in *.
  assert (d = d2) by (eapply slides_one_direction; eauto).
  subst d2. apply Nd. apply in_map_iff. exists (d, w2'). auto.
Qed.

Lemma times_NoDup (mv : coord) (mvs : list coord) :
  NoDup mvs -> In mv mvs -> times mv mvs = 1%nat.
Proof.
  unfold times. induction mvs as [|x l IH]; intros N I; [destruct I|].
  inversion N as [|y l' Nx N']. subst. cbn [filter].
  destruct ((row x =? row mv) && (col x =? col mv)) eqn:H.
  - assert (x = mv).
    { apply andb_true_iff in H. destruct H as [H1 H2].
      apply Z.eqb_eq in H1, H2. destruct x, mv. cbn in *. congruence. }
    subst x. cbn [List.length]. f_equal.
    destruct (filter _ l) as [|y l2] eqn:E; [reflexivity|exfalso].
    assert (Iy : In y (filter (fun m => (row m =? row mv) && (col m =? col mv)) l))
      by (rewrite E; now left).
    apply filter_In in Iy. destruct Iy as [Iy C].
    apply andb_true_iff in C. destruct C as [C1 C2]. apply Z.eqb_eq in C1, C2.
    assert (y = mv) by (destruct y, mv; cbn in *; congruence).
    subst y. contradiction.
  - destruct I as [->|I]; [|auto].
    rewrite !Z.eqb_refl in H. discriminate H.
Qed.

Ltac walk_facts L B :=
  repeat (constructor;
          [cbn [fst snd]; split;
           [cbn; tauto
           |split;
            [apply walk_NoDup; lia
            |let mv := fresh "mv" in
             let I := fresh "I" in
             intros mv I;
             match type of I with
             | In _ (walk ?b ?piece _ ?dr ?dc _ _) =>
               match goal with
               | |- slides _ _ ?or ?oc _ _ =>
                 apply (@walk_from b piece or oc dr dc) in I;
                 [exact I|exact B|lia|lia|lia|lia|destruct B; fuel_enough]
               end
             end]]|]);
  try constructor.

Ltac dirs_NoDup :=
  cbn [map fst];
  repeat (constructor;
          [cbn [In]; let H := fresh in intro H;
           repeat (destruct H as [H|H]; [discriminate H|]); exact H|]);
  constructor.

Lemma rook_walks_NoDup (b : Board) (piece : ascii) (or oc : Z) :
  onBoard or oc ->
  NoDup (walk b piece (Z.to_nat (8 - or)) 1 0 (or + 1) oc
           ++ walk b piece (Z.to_nat (or - 1)) (-1) 0 (or - 1) oc
           ++ walk b piece (Z.to_nat (7 - oc)) 0 1 or (oc + 1)
           ++ walk b piece (Z.to_nat oc) 0 (-1) or (oc - 1)).
Proof.
  intro B.
  pose proof (@walks_NoDup b piece or oc
                [((1, 0), walk b piece (Z.to_nat (8 - or)) 1 0 (or + 1) oc);
                 ((-1, 0), walk b piece (Z.to_nat (or - 1)) (-1) 0 (or - 1) oc);
                 ((0, 1), walk b piece (Z.to_nat (7 - oc)) 0 1 or (oc + 1));
                 ((0, -1), walk b piece (Z.to_nat oc) 0 (-1) or (oc - 1))]) as N.
  cbn [map snd List.concat] in N. rewrite app_nil_r in N.
  apply N; [dirs_NoDup|walk_facts L B].
Qed.

Lemma bishop_walks_NoDup (b : Board) (piece : ascii) (or oc : Z) :
  onBoard or oc ->
  NoDup (walk b piece (Z.to_nat (8 - or)) 1 1 (or + 1) (oc + 1)
           ++ walk b piece (Z.to_nat (8 - or)) 1 (-1) (or + 1) (oc - 1)
           ++ walk b piece (Z.to_nat (or - 1)) (-1) 1 (or - 1) (oc + 1)
           ++ walk b piece (Z.to_nat (or - 1)) (-1) (-1) (or - 1) (oc - 1)).
Proof.
  intro B.
  pose proof (@walks_NoDup b piece or oc
                [((1, 1), walk b piece (Z.to_nat (8 - or)) 1 1 (or + 1) (oc + 1));
                 ((1, -1), walk b piece (Z.to_nat (8 - or)) 1 (-1) (or + 1) (oc - 1));
                 ((-1, 1), walk b piece (Z.to_nat (or - 1)) (-1) 1 (or - 1) (oc + 1));
                 ((-1, -1), walk b piece (Z.to_nat (or - 1)) (-1) (-1) (or - 1) (oc - 1))])
    as N.
  cbn [map snd List.concat] in N. rewrite app_nil_r in N.
  apply N; [dirs_NoDup|walk_facts L B].
Qed.

Lemma queen_walks_NoDup (b : Board) (piece : ascii) (or oc : Z) :
  onBoard or oc ->
  NoDup ((walk b piece (Z.to_nat (8 - or)) 1 0 (or + 1) oc
            ++ walk b piece (Z.to_nat (or - 1)) (-1) 0 (or - 1) oc
            ++ walk b piece (Z.to_nat (7 - oc)) 0 1 or (oc + 1)
            ++ walk b piece (Z.to_nat oc) 0 (-1) or (oc - 1))
           ++ walk b piece (Z.to_nat (8 - or)) 1 1 (or + 1) (oc + 1)
           ++ walk b piece (Z.to_nat (8 - or)) 1 (-1) (or + 1) (oc - 1)
           ++ walk b piece (Z.to_nat (or - 1)) (-1) 1 (or - 1) (oc + 1)
           ++ walk b piece (Z.to_nat (or - 1)) (-1) (-1) (or - 1) (oc - 1)).
Proof.
  intro B.
  pose proof (@walks_NoDup b piece or oc
                [((1, 0), walk b piece (Z.to_nat (8 - or)) 1 0 (or + 1) oc);
                 ((-1, 0), walk b piece (Z.to_nat (or - 1)) (-1) 0 (or - 1) oc);
                 ((0, 1), walk b piece (Z.to_nat (7 - oc)) 0 1 or (oc + 1));
                 ((0, -1), walk b piece (Z.to_nat oc) 0 (-1) or (oc - 1));
                 ((1, 1), walk b piece (Z.to_nat (8 - or)) 1 1 (or + 1) (oc + 1));
                 ((1, -1), walk b piece (Z.to_nat (8 - or)) 1 (-1) (or + 1) (oc - 1));
                 ((-1, 1), walk b piece (Z.to_nat (or - 1)) (-1) 1 (or - 1) (oc + 1));
                 ((-1, -1), walk b piece (Z.to_nat (or - 1)) (-1) (-1) (or - 1) (oc - 1))])
    as N.
  cbn [map snd List.concat] in N. rewrite app_nil_r in N.
  rewrite <- !app_assoc. apply N; [dirs_NoDup|walk_facts L B].
Qed.

(** X25. On a board of 64 cells, [validMoves] lists no move twice for a
    piece other than a pawn: each move it lists for a rook, a bishop, a
    knight, a king or a queen is listed once, which is what the notation
    needs to name the move without being taken for ambiguous. *)
Theorem X25_a_piece_lists_a_move_once (b : Board) (piece : ascii) (p : Z)
        (mvs : list coord) :
  len b = 64 -> 0 <= p < 64 -> at_ b p = Ret piece -> pawnLetter piece = false ->
  validMoves b p = Ret mvs ->
  NoDup mvs /\ forall mv, In mv mvs -> listsOnce b p mv.
Proof.
  intros L Hp A NP V.
  assert (N : NoDup mvs).
  { pose proof (coordsFromIndex_onBoard Hp) as B.
    destruct (pieceLetter piece) eqn:PL.
    - apply oneOf_In in PL. cbn [list_ascii_of_string In] in PL.
      destruct PL as [<-|[<-|[<-|[<-|[<-|[<-|[<-|[<-|[<-|[<-|[<-|[<-|[]]]]]]]]]]]]];
        try discriminate NP.
      + rewrite (@rook_moves b _ p L Hp A eq_refl) in V.
        apply Ret_inj in V. rewrite <- V. now apply rook_walks_NoDup.
      + rewrite (@rook_moves b _ p L Hp A eq_refl) in V.
        apply Ret_inj in V. rewrite <- V. now apply rook_walks_NoDup.
      + rewrite (@bishop_moves b _ p L Hp A eq_refl) in V.
        apply Ret_inj in V. rewrite <- V. now apply bishop_walks_NoDup.
      + rewrite (@bishop_moves b _ p L Hp A eq_refl) in V.
        apply Ret_inj in V. rewrite <- V. now apply bishop_walks_NoDup.
      + rewrite (@knight_moves b _ p L Hp A eq_refl) in V.
        apply Ret_inj in V. rewrite <- V.
        apply steps_NoDup. unfold knightSteps.
        repeat (constructor; [cbn [In]; intuition discriminate|]). constructor.
      + rewrite (@knight_moves b _ p L Hp A eq_refl) in V.
        apply Ret_inj in V. rewrite <- V.
        apply steps_NoDup. unfold knightSteps.
        repeat (constructor; [cbn [In]; intuition discriminate|]). constructor.
      + rewrite (@king_moves b _ p L Hp A eq_refl) in V.
        apply Ret_inj in V. rewrite <- V.
        apply steps_NoDup. unfold kingSteps.
        repeat (constructor; [cbn [In]; intuition discriminate|]). constructor.
      + rewrite (@king_moves b _ p L Hp A eq_refl) in V.
        apply Ret_inj in V. rewrite <- V.
        apply steps_NoDup. unfold kingSteps.
        repeat (constructor; [cbn [In]; intuition discriminate|]). constructor.
      + rewrite (@queen_moves b _ p L Hp A eq_refl) in V.
        apply Ret_inj in V. rewrite <- V. now apply queen_walks_NoDup.
      + rewrite (@queen_moves b _ p L Hp A eq_refl) in V.
        apply Ret_inj in V. rewrite <- V. now apply queen_walks_NoDup.
    - unfold validMoves in V. destruct (coordsFromIndex p) as [or oc].
      rewrite A in V. cbn [bind] in V. rewrite moves_of_no_piece in V by exact PL.
      injection V as <-. constructor. }
  split; [exact N|]. intros mv I. exists mvs. split; [exact V|].
  now apply times_NoDup.
Qed.

Lemma X25_a_piece_lists_a_move_once_witness :
  validMoves twoKnights (sq "B1") = Ret [mkcoord 3 2; mkcoord 3 0; mkcoord 2 3]
  /\ NoDup [mkcoord 3 2; mkcoord 3 0; mkcoord 2 3]
  /\ listsOnce twoKnights (sq "B1") (mkcoord 2 3).
Proof.
  assert (L : len twoKnights = 64) by reflexivity.
  assert (H : 0 <= sq "B1" < 64) by (vm_compute; split; (discriminate || reflexivity)).
  assert (A : at_ twoKnights (sq "B1") = Ret "n"%char) by reflexivity.
  assert (V : validMoves twoKnights (sq "B1")
              = Ret [mkcoord 3 2; mkcoord 3 0; mkcoord 2 3]) by (vm_compute; reflexivity).
  destruct (@X25_a_piece_lists_a_move_once _ _ _ _ L H A eq_refl V) as (N & O).
  split; [exact V|]. split; [exact N|]. apply O. right. right. now left.
Defined.

(** ** Declaring the winner *)

Lemma In_take {A} (n : nat) (l : list A) (x : A) : In x (firstn n l) -> In x l.
Proof.
  revert l. induction n as [|n IH]; intros [|a l]; cbn [firstn In]; try tauto.
  intros [->|I]; auto.
Qed.

Lemma In_drop {A} (n : nat) (l : list A) (x : A) : In x (skipn n l) -> In x l.
Proof.
  revert l. induction n as [|n IH]; intros [|a l]; cbn [skipn]; auto.
  intro I. right. auto.
Qed.

Lemma slice_In (text : gostring) (a b : Z) (c : ascii) :
  In c (Bot.slice text a b) -> In c text.
Proof.
  unfold Bot.slice. intro I. apply In_take in I. apply In_drop in I. exact I.
Qed.

Lemma index_In (rx : Bot.regexp) (text tox1 : gostring) (i : nat) (c : ascii) :
  Bot.index (Bot.matches rx text) i = Ret tox1 -> In c tox1 -> In c text.
Proof.
  intros H I. destruct (index_inv _ _ _ H) as (tox & M & N).
  unfold Bot.matches in M. destruct (Bot.search _ _ _) as [caps|]; [|discriminate M].
  cbn [option_map] in M. injection M as <-.
  apply nth_error_In in N.
  assert (X : exists n, tox1 = Bot.submatch text caps n).
  { destruct N as [<-|N]; [eauto|].
    apply in_map_iff in N. destruct N as (n & <- & _). eauto. }
  destruct X as (n & ->).
  unfold Bot.submatch in I. destruct (find _ caps) as [[k [a b]]|]; [|destruct I].
  eapply slice_In; eauto.
Qed.

(** X26. "black wins" is matched in either case but read in lower case
    only: the winner is the black player when the group is the text
    "black" byte for byte, and the white player otherwise. For a text
    that holds no lower-case letter the case never gives the win to the
    black player: "BLACK WINS" declares the white player the winner. *)
Theorem X26_the_winner_in_upper_case (text : gostring) (g g' : Bot.Game) (p : Bot.post) :
  (forall c, In c text -> ~ (code "a" <= code c <= code "z")) ->
  Bot.declareWinner text g = Ret (g', p) ->
  g' = Bot.setWinner (Bot.White g) g /\ p = Bot.HasWon (Bot.White g).
Proof.
  unfold Bot.declareWinner. intros U H.
  destruct (Bot.index _ 1) as [tox1|] eqn:I; [|discriminate H].
  cbn [bind] in H.
  assert (E : eqs tox1 (str "black") = false).
  { apply eqs_false. intros ->.
    apply (U "b"%char).
    - eapply index_In; [exact I|]. now left.
    - vm_compute. split; discriminate. }
  rewrite E in H. injection H as <- <-. auto.
Qed.

Lemma X26_the_winner_in_upper_case_witness :
  Bot.declareWinner (str "BLACK WINS") afterPe4
  = Ret (Bot.setWinner (str "alice") afterPe4, Bot.HasWon (str "alice"))
  /\ Bot.White afterPe4 = str "alice"
  /\ Bot.declareWinner (str "black wins") afterPe4
     = Ret (Bot.setWinner (str "bob") afterPe4, Bot.HasWon (str "bob")).
Proof.
  assert (D : Bot.declareWinner (str "BLACK WINS") afterPe4 = Ret _)
    by (vm_compute; reflexivity).
  assert (U : forall c, In c (str "BLACK WINS") -> ~ (code "a" <= code c <= code "z")).
  { intros c I. cbn in I.
    repeat (destruct I as [<-|I]; [vm_compute; intros [X Y]; auto|]). destruct I. }
  destruct (X26_the_winner_in_upper_case _ _ U D) as (G & P).
  split; [exact D|]. split; reflexivity.
Defined.

(** ** Moves in coordinates *)

Lemma rxDst_needs_file (s : gostring) :
  Forall (fun c => inClass "a" "h" c = false) s -> rxDst s = None.
Proof.
  intro F. unfold rxDst. destruct s as [|f [|r t]]; try reflexivity.
  inversion F as [|x l Ff F']. now rewrite Ff.
Qed.

Lemma rxCol_needs_file (s : gostring) :
  Forall (fun c => inClass "a" "h" c = false) s -> rxCol s = None.
Proof.
  intro F.
  assert (T : forall t, Forall (fun c => inClass "a" "h" c = false) t ->
                        rxCapture t = None).
  { intros t Ft. unfold rxCapture. rewrite (rxDst_needs_file Ft).
    destruct t as [|c t']; [reflexivity|].
    inversion Ft as [|x l _ Ft']. rewrite (rxDst_needs_file Ft').
    destruct (Ascii.eqb c "x"); reflexivity. }
  assert (R : forall t, Forall (fun c => inClass "a" "h" c = false) t ->
                        rxRow t = None).
  { intros t Ft. unfold rxRow. rewrite (T t Ft).
    destruct t as [|c t']; [reflexivity|].
    inversion Ft as [|x l _ Ft']. rewrite (T t' Ft').
    destruct (inClass "1" "8" c); reflexivity. }
  unfold rxCol. rewrite (R s F).
  destruct s as [|c t]; [reflexivity|].
  inversion F as [|x l Fc Ft]. now rewrite Fc.
Qed.

(** [AlgebraicRx] matches no text without a letter from a to h. *)
Lemma MatchString_needs_file (s : gostring) :
  Forall (fun c => inClass "a" "h" c = false) s -> MatchString s = false.
Proof.
  intro F. unfold MatchString.
  assert (N : FindStringSubmatch s = None).
  { induction s as [|c t IH]; [reflexivity|].
    inversion F as [|x l Fc Ft]. subst.
    cbn [FindStringSubmatch]. unfold rxHere.
    rewrite (rxCol_needs_file Ft), (IH Ft).
    destruct (isPieceLetter c); reflexivity. }
  now rewrite N.
Qed.

Lemma upper_file_not_lower (f : ascii) :
  inClass "A" "H" f = true -> inClass "a" "h" f = false /\ fileLetter f = true.
Proof.
  unfold fileLetter. rewrite !inClass_spec.
  change (code "A") with 65. change (code "H") with 72.
  change (code "a") with 97. change (code "h") with 104.
  intro H. split.
  - destruct (Z.leb_spec 97 (code f)); [|reflexivity]. lia.
  - now rewrite H.
Qed.

Lemma digit_not_lower (r : ascii) : rankDigit r = true -> inClass "a" "h" r = false.
Proof.
  unfold rankDigit. rewrite !inClass_spec.
  change (code "1") with 49. change (code "8") with 56.
  change (code "a") with 97. intro H.
  destruct (Z.leb_spec 97 (code r)); [|reflexivity]. lia.
Qed.

(** X27. The move case checks whose turn it is, and nothing about the
    move: for the player of the side on move, in a game without a
    winner, a message of two cell names in upper case is accepted
    whenever the first cell is not empty, whatever the piece on it,
    whoever owns it, and wherever the second cell is. The board of the
    game becomes the board that [Move] returns. *)
Theorem X27_any_move_in_coordinates (user : gostring) (since now : Z) (g : Bot.Game)
        (f1 r1 f2 r2 : ascii) :
  wfBoard (Bot.Board g) -> Bot.Winner g = [] ->
  user = (if Bot.PlayingWhite g then Bot.White g else Bot.Black g) ->
  inClass "A" "H" f1 = true -> rankDigit r1 = true ->
  inClass "A" "H" f2 = true -> rankDigit r2 = true ->
  at_ (Bot.Board g) (indexOf f1 r1) <> Ret emptyCell ->
  exists g',
    Bot.submitMove user [f1; r1; " "%char; f2; r2] since now g
    = Ret (g', if Bot.PlayingWhite g then Bot.WhiteMoves else Bot.BlackMoves)
    /\ Move (Bot.Board g) [f1; r1] [f2; r2] = Ret (Bot.Board g', None).
Proof.
  intros W Wn U F1 R1 F2 R2 E.
  destruct (upper_file_not_lower _ F1) as (L1 & G1).
  destruct (upper_file_not_lower _ F2) as (L2 & G2).
  assert (NM : MatchString [f1; r1; " "%char; f2; r2] = false).
  { apply MatchString_needs_file.
    repeat constructor; auto using digit_not_lower. }
  assert (CM : Bot.coordsMatches [f1; r1; " "%char; f2; r2] = Some ([f1; r1], [f2; r2])).
  { cbn [Bot.coordsMatches]. unfold Bot.rxCoords, Bot.rxSquare at 1.
    unfold rankDigit in R1. unfold fileLetter in G1.
    change (Bot.isFile f1) with (inClass "A" "H" f1 || inClass "a" "h" f1).
    rewrite G1, R1. cbn [andb]. unfold Bot.rxSecond.
    change (Bot.isBlank " ") with true. cbv iota. unfold Bot.rxSquare.
    unfold rankDigit in R2. unfold fileLetter in G2.
    change (Bot.isFile f2) with (inClass "A" "H" f2 || inClass "a" "h" f2).
    rewrite G2, R2. reflexivity. }
  assert (UP : forall f r, inClass "A" "H" f = true -> rankDigit r = true ->
                           ToUpper [f; r] = [f; r]).
  { intros f r F R. unfold ToUpper. cbn [map]. unfold upper.
    rewrite inClass_spec in F. unfold rankDigit in R. rewrite inClass_spec in R.
    change (code "A") with 65 in F. change (code "H") with 72 in F.
    change (code "1") with 49 in R. change (code "8") with 56 in R.
    change (code "a") with 97.
    destruct (Z.leb_spec 97 (code f)); [lia|].
    destruct (Z.leb_spec 97 (code r)); [lia|]. reflexivity. }
  destruct (@wf_at (Bot.Board g) (indexOf f1 r1) W (indexOf_range _ _ G1 R1))
    as (p & Ap & _).
  assert (Np : p <> "_"%char) by (intros ->; contradiction).
  destruct (@Move_accepts (Bot.Board g) f1 r1 f2 r2 p [] [] W G1 R1 G2 R2 Ap Np)
    as (b' & M & W').
  assert (GN : forall f r, fileLetter f = true -> rankDigit r = true -> goodName [f; r]).
  { intros f r F R. exists f, r, []. auto. }
  destruct (@CoordsToAlgebraic_returns (Bot.Board g) [f1; r1] [f2; r2] W
              (GN _ _ G1 R1) (GN _ _ G2 R2)) as (a & e & C).
  unfold Bot.submitMove. rewrite Wn. change (negb (eqs [] [])) with false. cbv iota.
  rewrite NM, CM. cbn [bind]. rewrite !UP by assumption. rewrite C. cbn [bind fst].
  unfold Bot.move. rewrite M. cbn [bind].
  destruct (Bot.PlayingWhite g) eqn:P; subst user.
  - rewrite (proj2 (eqs_true _ _) eq_refl). cbn [negb andb].
    eexists. split; [reflexivity|]. cbn [Bot.Board]. reflexivity.
  - rewrite (proj2 (eqs_true (Bot.Black g) (Bot.Black g)) eq_refl). cbn [negb].
    rewrite !andb_false_r. cbn [andb]. cbv iota.
    eexists. split; [reflexivity|]. cbn [Bot.Board]. reflexivity.
Qed.

Lemma X27_any_move_in_coordinates_witness :
  at_ (Bot.Board afterPe4) (sq "E4") = Ret whitePawn
  /\ Bot.PlayingWhite afterPe4 = false
  /\ exists g',
      Bot.submitMove (str "bob") (str "E4 A5") 5 200 afterPe4 = Ret (g', Bot.BlackMoves)
      /\ Move (Bot.Board afterPe4) (str "E4") (str "A5") = Ret (Bot.Board g', None).
Proof.
  split; [reflexivity|]. split; [reflexivity|].
  apply (@X27_any_move_in_coordinates (str "bob") 5 200 afterPe4 "E" "4" "A" "5");
    try reflexivity.
  - exact (proj1 sound_afterPe4).
  - vm_compute. discriminate.
Defined.

(** ** The commands in either case *)






Lemma upperInput_pos (total : Z) (s : Bot.input) :
  Bot.pos total (upperInput s) = Bot.pos total s.
Proof. destruct s as [|[i r] t]; reflexivity. Qed.









